(* ===== verification/_CoqProject ===== *)
-Q . S2P
Prelude.v
FreeQueue.v
BlockHash.v
Request.v
HashChain.v
BlockPool.v
PoolProps.v
KVCacheSpec.v
SingleType.v
Ownership.v
SingleTypeProps.v
CachingProps.v
MambaProps.v
CacheHit.v
CacheHitProps.v
HitSpec.v
Coordinator.v
CacheLookup.v
KVCacheManager.v
CoordinatorProps.v
SlotProps.v
SlotPhases.v
KVProps.v
KVReach.v
KVInvariant.v
Arith.v
PowerSMC.v
PowerSMCProps.v
PowerSMCGroup.v
PowerSMCStats.v
PowerSMCResample.v
PowerSMCRequests.v
EncoderCache.v
EncoderProps.v
EncoderSafety.v
StopCheck.v
StopProps.v
SMCScheduler.v
SMCParent.v
SMCMirror.v
SMCAgree.v
SMCDiverge.v
Heapq.v
RequestQueue.v
QueueProps.v
SMCBlocks.v
SMCApply.v
SMCPlan.v
EncoderInputs.v
SchedState.v
Schedule.v
SchedUpdate.v
EngineCore.v
SchedSpec.v
KVLaws.v
EncLaws.v
ScheduleInv.v
ScheduleMid.v
ScheduleRunning.v
ScheduleWaiting.v
ScheduleSafe.v
ScheduleProps.v
UpdateProps.v
UpdateStep.v
UpdateCalls.v
EngineSafe.v
PreemptHashes.v
