(* ===== verification/Prelude.v ===== *)
(** * A verification of vLLM's request scheduling and KV-cache management

    The program is the fork of vLLM under src/vllm with Power-SMC sampling.  The
    engine core keeps a pool of KV-cache blocks, gives them to requests step by
    step, caches the blocks of known prefixes under their hashes, and decides
    which requests run.  A Power-SMC request runs as a group of child requests
    (particles) that is resampled at block boundaries, where children take over
    each other's tokens and blocks.  This development translates that core and
    proves it correct.

    ** Conventions

    Python code is a computation in the monad [M] below: a state, and a result
    that is a value or an exception.  State changes made before an exception
    stay.  [ok m s Q] is total correctness: [m] returns, and [Q] holds of the
    value and the final state.  Mutable objects that the code shares live in an
    explicit store: blocks in the queue's memory, block tables in the managers,
    request objects under their identity.  Integers are unbounded, as Python's
    are; where the code packs them into bytes ([BlockHash]) the width is kept.
    Loops over data are structural; a [while] loop has fuel, computed from the
    state it starts in, and the theorems prove that it suffices ([OutOfFuel] is
    an exception the model adds, so [ok] excludes it).

    ** Parts

    - The pool of blocks.  [FreeQueue]: the intrusive doubly linked free list of
      v1/core/kv_cache_utils.py, pointer write by pointer write, which refines a
      list.  [BlockPool], [PoolProps]: v1/core/block_pool.py with reference
      counts, the hash table, eviction and KV events; the states it reaches
      under legal calls.
    - Block hashes.  [BlockHash]: keys and hash lists.  [Request], [HashChain]:
      v1/request.py and [request_block_hasher]; equal hashes mean equal prefixes.
      The hash function is a parameter (class [HashEnv]).
    - Managers.  [KVCacheSpec], [SingleType]: v1/core/single_type_kv_cache_manager.py,
      all manager classes over the shared pool.  [Ownership] is the invariant of
      the shared pool, [SingleTypeProps], [CachingProps] and [MambaProps] prove
      each operation against it, under every frame of blocks owned by others.
      [CacheHit], [CacheHitProps], [HitSpec]: the cache-hit searches.
    - Coordinators and manager.  [Coordinator], [KVCacheManager]: the classes of
      v1/core/kv_cache_coordinator.py and kv_cache_manager.py.
      [CoordinatorProps] lifts a lemma about one manager to the loop over all
      of them; [SlotProps], [SlotPhases], [KVProps] prove [allocate_slots];
      [KVReach], [KVInvariant] give the invariant of all reachable states.
    - Power-SMC.  [Arith] is an interface of floating-point operations with two
      instances, [binary64] (what runs, [math.fsum] as CPython computes it with
      its exceptions) and [exact_reals] (what is meant).
      [PowerSMC]: v1/power_smc.py over any such arithmetic.  [PowerSMCProps],
      [PowerSMCGroup]: the group, for any arithmetic, under the named hypothesis
      on [Arith] that scaling keeps a sum above its threshold where the
      systematic sampler needs it.  [PowerSMCStats], [PowerSMCResample]: what
      weights and resampling mean in exact arithmetic.  [PowerSMCRequests]:
      child ids and configuration.
    - Power-SMC in the engine.  [SMCScheduler]: the scheduler's groups and
      [_apply_power_smc_resample_plan]; [SMCBlocks], [SMCApply], [SMCPlan] prove
      it on reachable KV-cache managers.  [SMCParent]: the front end
      (parallel_sampling.py, output_processor.py).  [SMCMirror], [SMCAgree]: the
      two groups of one request agree; [SMCDiverge]: where they do not (a child
      that stops, no seed, outputs that AsyncLLM hands over in chunks).
    - Encoder cache.  [EncoderCache], [EncoderProps], [EncoderSafety]:
      v1/core/encoder_cache_manager.py.
    - Stop conditions.  [StopCheck], [StopProps]: v1/core/sched/utils.py.
    - Queues.  [Heapq] is the standard library's heap, [RequestQueue],
      [QueueProps]: v1/core/sched/request_queue.py behind the class
      [RequestQueue], whose laws are the class [QueueSpec].
    - The scheduler.  [EncoderInputs]: the choice of encoder inputs.
      [SchedState], [Schedule], [SchedUpdate]: v1/core/sched/scheduler.py with
      async_scheduler.py: the state, [schedule] as a whole with its two phases,
      preemption and output, and what happens between steps.  The two caches and
      the queues are behind the classes [KVCache], [EncCache] and [RequestQueue].
      [SchedSpec] states what the scheduler relies on ([KVCacheLaws],
      [EncCacheLaws]); [CacheLookup] and [KVLaws] prove it of the KV-cache
      manager, the fixed-point search of the hybrid coordinator included, and
      [EncLaws] of the encoder cache.  [ScheduleInv] is the invariant between
      steps and within one; [ScheduleMid], [ScheduleRunning] and
      [ScheduleWaiting] prove its parts against the classes; [ScheduleSafe] is
      the step as a whole with its report, whose only exception is that of the
      check on the number of LoRAs, and [ScheduleProps] puts the modelled
      managers in.  [PreemptHashes] evaluates a run in which preemption by
      priority leaves hashes of blocks that were never computed.
    - The engine.  [EngineCore]: v1/engine/core.py, which adds and aborts
      requests, runs a step around the model executor (a function, with the
      aborts that arrive meanwhile), hands draft tokens over, resets, pauses and
      resumes.  [UpdateProps] is the invariant of the engine, which is that of a
      step with what every request brings along; [UpdateStep] proves
      [update_from_output], [UpdateCalls] the calls between and within steps.
      [EngineSafe] gives the states the synchronous engine reaches, proves that
      every call returns from them, and that a step brings each running request
      it schedules nearer to its end.

    ** What is a parameter

    The hash functions; the iteration order of a Python set, any permutation;
    the C library's [exp]; [random.Random], a stream of draws determined by the
    seed, or for an unseeded generator by the n-th use of system entropy.

    ** What is not modelled

    - KV connectors, offloading and encoder-cache connectors: the scheduler is
      modelled in the configuration without them, where these calls do not occur.
    - Streaming sessions, routed experts and the grammars of structured outputs
      (automata of third-party packages, parameters of [update_from_output]).
    - Log calls, metrics and statistics that are never read back.
    - The sizing of the KV cache at start (page sizes, memory profiling, grouping
      of layers): the groups it yields are the configuration of the model.
    - The batch queue of the engine core (futures of the executor), processes,
      sockets and HTTP around the engine; detokenization, text and log
      probabilities of outputs.
    - Workers, model runners, models and kernels: tensor programs, whose sampled
      tokens are inputs of the model.
    - The verl library under src/verl, a client of the engine.
    The scheduler's laws are proved of managers without Mamba and cross-attention
    groups and with at most one full-attention specification, the first.  Mamba's
    manager is modelled; [MambaProps] proves its allocation in align mode and its
    recycling.
*)

From stdpp Require Export base gmap strings list list_numbers.
From Stdlib Require Export ZArith Lia.

Open Scope Z_scope.

(** ** Python exceptions and the state-and-exception monad

    A Python call either returns a value or raises; in both cases the
    mutations made before that point remain.  [M S A] keeps the state in both
    cases. *)

Inductive exn : Type :=
| ValueError
| AssertionError
| RuntimeError
| IndexError
| KeyError
| TypeError
| AttributeError
| OverflowError
| StopIteration
| NotImplementedError
| ZeroDivisionError
| VLLMValidationError (** a subclass of ValueError, src/vllm/vllm/exceptions.py *)
| OutOfFuel (** not a Python exception: a bounded loop of the model ran out *).

#[export] Instance exn_eq_dec : EqDecision exn.
Proof. solve_decision. Defined.

Inductive res (A : Type) : Type :=
| Ok (a : A)
| Err (e : exn).
Arguments Ok {A} a.
Arguments Err {A} e.

Definition M (S A : Type) : Type := S → res A * S.

Definition ret {S A} (a : A) : M S A := λ s, (Ok a, s).
Definition raise {S A} (e : exn) : M S A := λ s, (Err e, s).
Definition bind {S A B} (m : M S A) (k : A → M S B) : M S B :=
  λ s, match m s with
       | (Ok a, s') => k a s'
       | (Err e, s') => (Err e, s')
       end.
Definition gets {S A} (f : S → A) : M S A := λ s, (Ok (f s), s).
Definition modify {S} (f : S → S) : M S unit := λ s, (Ok tt, f s).
Definition assert_ {S} (b : bool) : M S unit :=
  if b then ret tt else raise AssertionError.
Definition or_raise {S A} (e : exn) (o : option A) : M S A :=
  match o with Some a => ret a | None => raise e end.

Definition of_res {S A} (r : res A) : M S A := λ s, (r, s).
(** Exceptions without state. *)
Definition rbind {A B} (r : res A) (k : A → res B) : res B :=
  match r with Ok a => k a | Err e => Err e end.

Declare Scope py_scope.
Delimit Scope py_scope with py.
Notation "'let*' x ':=' m 'in' k" := (bind m (λ x, k))
  (at level 10, x pattern, m at level 100, k at level 200,
   format "'[v' 'let*'  x  ':='  m  'in' '/' k ']'") : py_scope.
Notation "m ';;;' k" := (bind m (λ _, k))
  (at level 100, right associativity, format "'[v' m ';;;' '/' k ']'") : py_scope.
Open Scope py_scope.

(** A component's state inside a larger one. *)
Definition zoom {S T A} (get : S → T) (put : T → S → S) (m : M T A) : M S A :=
  λ s, let '(r, t) := m (get s) in (r, put t s).

(** [for x in l: f x] *)
Fixpoint for_each {S A} (l : list A) (f : A → M S unit) : M S unit :=
  match l with
  | [] => ret tt
  | x :: l' => f x ;;; for_each l' f
  end.

(** A loop over [l] that threads a local variable. *)
Fixpoint fold_each {S A B} (f : B → A → M S B) (l : list A) (b : B) : M S B :=
  match l with
  | [] => ret b
  | x :: l' => let* b' := f b x in fold_each f l' b'
  end.

(** [[f x for x in l]] *)
Fixpoint map_each {S A B} (f : A → M S B) (l : list A) : M S (list B) :=
  match l with
  | [] => ret []
  | x :: l' =>
      let* y := f x in
      let* ys := map_each f l' in
      ret (y :: ys)
  end.

(** ** Total correctness of a computation: it returns and [Q] holds of the
    value and the final state.  A raised exception falsifies it. *)

Definition ok {S A} (m : M S A) (s : S) (Q : A → S → Prop) : Prop :=
  match m s with
  | (Ok a, s') => Q a s'
  | (Err _, _) => False
  end.

(** What a computation may end in: [Q] holds of a value and the final state,
    [E] of an exception and the state it leaves. *)
Definition ends {S A} (m : M S A) (s : S) (Q : A → S → Prop) (E : exn → S → Prop) : Prop :=
  match m s with
  | (Ok a, s') => Q a s'
  | (Err e, s') => E e s'
  end.

(** The computation raises [e]. *)
Definition raises {S A} (m : M S A) (s : S) (e : exn) : Prop := (m s).1 = Err e.

Section ok_rules.
Context {S : Type}.

Lemma ok_ret {A} (a : A) (s : S) (Q : A → S → Prop) : Q a s → ok (ret a) s Q.
Proof. done. Qed.

Lemma ok_bind {A B} (m : M S A) (k : A → M S B) s Q :
  ok m s (λ a s', ok (k a) s' Q) → ok (bind m k) s Q.
Proof. unfold ok, bind. destruct (m s) as [[a|e] s']; done. Qed.

Lemma ok_bind_inv {A B} (m : M S A) (k : A → M S B) s Q :
  ok (bind m k) s Q → ok m s (λ a s', ok (k a) s' Q).
Proof. unfold ok, bind. destruct (m s) as [[a|e] s']; done. Qed.

Lemma ok_mono {A} (m : M S A) s (P Q : A → S → Prop) :
  ok m s P → (∀ a s', P a s' → Q a s') → ok m s Q.
Proof. unfold ok. destruct (m s) as [[a|e] s']; naive_solver. Qed.

Lemma ok_gets {A} (f : S → A) s (Q : A → S → Prop) : Q (f s) s → ok (gets f) s Q.
Proof. done. Qed.

Lemma ok_modify (f : S → S) s (Q : unit → S → Prop) : Q tt (f s) → ok (modify f) s Q.
Proof. done. Qed.

Lemma ok_assert (b : bool) s (Q : unit → S → Prop) :
  b = true → Q tt s → ok (assert_ b) s Q.
Proof. intros ->. done. Qed.

Lemma ok_or_raise {A} e (o : option A) a s (Q : A → S → Prop) :
  o = Some a → Q a s → ok (or_raise e o) s Q.
Proof. intros ->. done. Qed.

Lemma ok_eq {A} (m : M S A) s a s' (Q : A → S → Prop) :
  m s = (Ok a, s') → Q a s' → ok m s Q.
Proof. unfold ok. intros ->. done. Qed.

Lemma ok_inv {A} (m : M S A) s (Q : A → S → Prop) :
  ok m s Q → ∃ a s', m s = (Ok a, s') ∧ Q a s'.
Proof. unfold ok. destruct (m s) as [[a|e] s']; naive_solver. Qed.

Lemma ok_conj {A} (m : M S A) s (P Q : A → S → Prop) :
  ok m s P → ok m s Q → ok m s (λ a s', P a s' ∧ Q a s').
Proof. unfold ok. destruct (m s) as [[a|e] s']; done. Qed.

Lemma ends_bind {A B} (m : M S A) (k : A → M S B) s Q E :
  ends m s (λ a s', ends (k a) s' Q E) E → ends (bind m k) s Q E.
Proof. unfold ends, bind. destruct (m s) as [[a|e] s']; done. Qed.

Lemma ends_mono {A} (m : M S A) s (P Q : A → S → Prop) E :
  ends m s P E → (∀ a s', P a s' → Q a s') → ends m s Q E.
Proof. unfold ends. destruct (m s) as [[a|e] s']; naive_solver. Qed.

Lemma ok_ends {A} (m : M S A) s Q E : ok m s Q → ends m s Q E.
Proof. unfold ok, ends. destruct (m s) as [[a|e] s']; done. Qed.

Lemma ends_ok {A} (m : M S A) s Q E : ends m s Q E → (∀ e s', ¬ E e s') → ok m s Q.
Proof. unfold ok, ends. destruct (m s) as [[a|e] s']; naive_solver. Qed.

Lemma ok_zoom {T A} (get : S → T) (put : T → S → S) (m : M T A) s Q :
  ok m (get s) (λ a t, Q a (put t s)) → ok (zoom get put m) s Q.
Proof. unfold ok, zoom. destruct (m (get s)) as [[a|e] t]; done. Qed.

(** Invariant rule for [for_each]: [I] is indexed by the elements that
    remain to be visited. *)
Lemma ok_for_each {A} (f : A → M S unit) (I : list A → S → Prop) l s Q :
  I l s →
  (∀ x l' s, I (x :: l') s → ok (f x) s (λ _ s', I l' s')) →
  (∀ s, I [] s → Q tt s) →
  ok (for_each l f) s Q.
Proof.
  intros HI Hstep HQ. revert s HI.
  induction l as [|x l IH]; intros s HI; simpl.
  - by apply ok_ret, HQ.
  - apply ok_bind. eapply ok_mono; [by apply Hstep|]. intros ? s' ?. by apply IH.
Qed.

Lemma ok_fold_each {A B} (f : B → A → M S B) (I : list A → B → S → Prop) l b s Q :
  I l b s →
  (∀ x l' b s, I (x :: l') b s → ok (f b x) s (λ b' s', I l' b' s')) →
  (∀ b s, I [] b s → Q b s) →
  ok (fold_each f l b) s Q.
Proof.
  intros HI Hstep HQ. revert b s HI.
  induction l as [|x l IH]; intros b s HI; simpl.
  - by apply ok_ret, HQ.
  - apply ok_bind. eapply ok_mono; [by apply Hstep|]. intros b' s' ?. by apply IH.
Qed.

(** A loop whose body only reads. *)
Lemma map_each_pure {A B} (f : A → M S B) (g : A → B) l s :
  (∀ x, x ∈ l → f x s = (Ok (g x), s)) → map_each f l s = (Ok (g <$> l), s).
Proof.
  induction l as [|x l IH]; intros Hf; [done|]. cbn [map_each]. unfold bind.
  rewrite Hf by left. rewrite IH; [done|]. intros. apply Hf. by right.
Qed.

Lemma for_each_app {A} (f : A → M S unit) l1 l2 s :
  for_each (l1 ++ l2) f s = (for_each l1 f ;;; for_each l2 f) s.
Proof.
  revert s. induction l1 as [|x l1 IH]; intros s; [done|].
  simpl. unfold bind. destruct (f x s) as [[[]|e] s']; [|done]. by rewrite IH.
Qed.
End ok_rules.

(** Equational reasoning *)
Lemma bind_eq {S A B} (m : M S A) (k : A → M S B) s a s' :
  m s = (Ok a, s') → bind m k s = k a s'.
Proof. unfold bind. by intros ->. Qed.
Lemma bind_ok_inv {S A B} (m : M S A) (k : A → M S B) s b s' :
  bind m k s = (Ok b, s') → ∃ a s1, m s = (Ok a, s1) ∧ k a s1 = (Ok b, s').
Proof. unfold bind. destruct (m s) as [[a|e] s1]; [|done]. by exists a, s1. Qed.
Lemma bind_ext {S A B} (m m' : M S A) (k k' : A → M S B) s :
  m s = m' s → (∀ a s', m' s = (Ok a, s') → k a s' = k' a s') → bind m k s = bind m' k' s.
Proof. unfold bind. intros ->. destruct (m' s) as [[a|e] s']; auto. Qed.
Lemma ok_cong {S A} (m m' : M S A) s (Q : A → S → Prop) : m s = m' s → ok m' s Q → ok m s Q.
Proof. unfold ok. by intros ->. Qed.

(** Evaluate the monad's administrative steps of a goal [ok m s Q]. *)
Ltac ok_step :=
  match goal with
  | |- ok (bind _ _) _ _ => apply ok_bind
  | |- ok (ret _) _ _ => apply ok_ret
  | |- ok (gets _) _ _ => apply ok_gets
  | |- ok (modify _) _ _ => apply ok_modify
  end; cbn beta.
Ltac ok_steps := repeat ok_step.

(** ** Python integers, lists and slices

    Python's [//] and [%] round towards minus infinity, as [Z.div] and
    [Z.modulo] do; divisors in the modelled code are block sizes and counts. *)

Definition cdiv (a b : Z) : Z := - (a / - b).
Definition round_up (x y : Z) : Z := ((x + y - 1) / y) * y.
Definition round_down (x y : Z) : Z := (x / y) * y.

Definition len {A} (l : list A) : Z := Z.of_nat (length l).

(** Clamping of a slice bound: negative bounds count from the end. *)
Definition py_bound (n i : Z) : Z := if i <? 0 then Z.max 0 (n + i) else Z.min i n.

(** [l[a:b]], [l[a:]] and [l[:b]] *)
Definition slice {A} (l : list A) (a b : Z) : list A :=
  let a' := Z.to_nat (py_bound (len l) a) in
  let b' := Z.to_nat (py_bound (len l) b) in
  take (b' - a') (drop a' l).
Definition slice_from {A} (l : list A) (a : Z) : list A := slice l a (len l).
Definition slice_to {A} (l : list A) (b : Z) : list A := slice l 0 b.

(** [l[i]]; [None] is IndexError. *)
Definition py_nth {A} (l : list A) (i : Z) : option A :=
  if 0 <=? i then l !! Z.to_nat i
  else if 0 <=? len l + i then l !! Z.to_nat (len l + i) else None.

(** [l[i] = x] for [i] in range. *)
Definition py_set {A} (l : list A) (i : Z) (x : A) : list A :=
  if 0 <=? i then <[Z.to_nat i := x]> l else <[Z.to_nat (len l + i) := x]> l.

(** [range(a, b)] and [range(b - 1, a - 1, -1)] *)
Definition range (a b : Z) : list Z := seqZ a (b - a).
Definition range_down (a b : Z) : list Z := rev (range a b).

(** Filters that agree on a list. *)
Lemma filter_agree {B} (P Q : B → Prop) `{∀ x, Decision (P x), ∀ x, Decision (Q x)} (l : list B) :
  (∀ x, x ∈ l → P x ↔ Q x) → filter P l = filter Q l.
Proof.
  induction l as [|x l IH]; intros Hl; [done|]. rewrite !filter_cons.
  rewrite (IH (λ y Hy, Hl y ltac:(by right))). pose proof (Hl x ltac:(left)). repeat case_decide; tauto.
Qed.

Section py_lists.
Context {A : Type}.
Implicit Types l : list A.

Lemma len_nil : len ([] : list A) = 0.
Proof. done. Qed.
Lemma len_cons x l : len (x :: l) = 1 + len l.
Proof. unfold len. simpl. lia. Qed.
Lemma len_app l1 l2 : len (l1 ++ l2) = len l1 + len l2.
Proof. unfold len. rewrite length_app. lia. Qed.
Lemma len_nonneg l : 0 ≤ len l.
Proof. unfold len. lia. Qed.

Lemma slice_nonneg l a b :
  0 ≤ a → 0 ≤ b → slice l a b = take (Z.to_nat b - Z.to_nat a) (drop (Z.to_nat a) l).
Proof.
  intros Ha Hb. unfold slice, py_bound.
  rewrite !(proj2 (Z.ltb_ge _ _)) by lia. unfold len.
  destruct (decide (Z.to_nat a < length l)%nat) as [Hlt|Hge].
  - rewrite (Z.min_l a) by lia.
    destruct (decide (Z.to_nat b ≤ length l)%nat).
    + by rewrite Z.min_l by lia.
    + rewrite Z.min_r by lia. rewrite Nat2Z.id.
      rewrite !take_ge; rewrite ?length_drop; try done; lia.
  - rewrite !drop_ge by lia. by rewrite !take_nil.
Qed.

Lemma slice_from_nonneg l a : 0 ≤ a → slice_from l a = drop (Z.to_nat a) l.
Proof.
  intros Ha. unfold slice_from. rewrite slice_nonneg by (unfold len; lia).
  apply take_ge. rewrite length_drop. unfold len. lia.
Qed.

Lemma slice_to_nonneg l b : 0 ≤ b → slice_to l b = take (Z.to_nat b) l.
Proof.
  intros Hb. unfold slice_to. rewrite slice_nonneg by lia.
  rewrite drop_0. f_equal. lia.
Qed.

Lemma py_nth_nonneg l i : 0 ≤ i → py_nth l i = l !! Z.to_nat i.
Proof. intros. unfold py_nth. by rewrite (proj2 (Z.leb_le _ _)). Qed.

Lemma py_set_nonneg l i (x : A) : 0 ≤ i → py_set l i x = <[Z.to_nat i := x]> l.
Proof. intros. unfold py_set. by rewrite (proj2 (Z.leb_le _ _)). Qed.
End py_lists.

Lemma last_indep {A} (b : A) l d d' : List.last (b :: l) d = List.last (b :: l) d'.
Proof. revert b. induction l as [|y l IH]; intros b; [done|]. apply (IH y). Qed.

Lemma filter_id {A} (P : A → Prop) `{∀ x, Decision (P x)} (l : list A) :
  (∀ x, x ∈ l → P x) → filter P l = l.
Proof.
  induction l as [|x l IH]; intros Hl; [done|].
  rewrite filter_cons_True by (apply Hl; left). f_equal. apply IH.
  intros y Hy. apply Hl. by right.
Qed.

Lemma range_cons a b : a < b → range a b = a :: range (a + 1) b.
Proof.
  intros. unfold range. rewrite seqZ_cons by lia.
  repeat f_equal; lia.
Qed.
Lemma range_nil a b : b ≤ a → range a b = [].
Proof. intros. unfold range. by rewrite seqZ_nil by lia. Qed.
Lemma elem_of_range a b x : x ∈ range a b ↔ a ≤ x < b.
Proof. unfold range. rewrite elem_of_seqZ. lia. Qed.
Lemma NoDup_range a b : NoDup (range a b).
Proof. apply NoDup_seqZ. Qed.
Lemma length_range a b : length (range a b) = Z.to_nat (b - a).
Proof. apply length_seqZ. Qed.

Lemma range_app a b c : a ≤ b ≤ c → range a c = range a b ++ range b c.
Proof.
  intros. unfold range. replace (c - a) with ((b - a) + (c - b)) by lia.
  rewrite seqZ_app by lia. by replace (a + (b - a)) with b by lia.
Qed.

Lemma take_range (k : nat) a b :
  a ≤ b → take k (range a b) = range a (Z.min b (a + Z.of_nat k)).
Proof.
  intros Hab. destruct (decide (a + Z.of_nat k ≤ b)) as [Hk|Hk].
  - rewrite (range_app a (a + Z.of_nat k) b) by lia. rewrite take_app_length'; [f_equal; lia|].
    rewrite length_range. lia.
  - rewrite take_ge by (rewrite length_range; lia). f_equal. lia.
Qed.

(** *** Ceiling division *)

Lemma cdiv_spec a b : 0 < b → a ≤ cdiv a b * b < a + b.
Proof.
  intros Hb. unfold cdiv.
  pose proof (Z.div_mod a (- b) ltac:(lia)) as H.
  pose proof (Z.mod_neg_bound a (- b) ltac:(lia)). nia.
Qed.
Lemma cdiv_unique a b q : 0 < b → a ≤ q * b < a + b → cdiv a b = q.
Proof. intros Hb Hq. pose proof (cdiv_spec a b Hb). nia. Qed.
Lemma cdiv_nonneg a b : 0 < b → 0 ≤ a → 0 ≤ cdiv a b.
Proof. intros Hb Ha. pose proof (cdiv_spec a b Hb). nia. Qed.
Lemma cdiv_mono a a' b : 0 < b → a ≤ a' → cdiv a b ≤ cdiv a' b.
Proof. intros Hb Ha. pose proof (cdiv_spec a b Hb). pose proof (cdiv_spec a' b Hb). nia. Qed.
Lemma cdiv_le_iff a b q : 0 < b → cdiv a b ≤ q ↔ a ≤ q * b.
Proof. intros Hb. pose proof (cdiv_spec a b Hb). split; nia. Qed.
Lemma div_le_cdiv a b : 0 < b → a / b ≤ cdiv a b.
Proof. intros Hb. pose proof (cdiv_spec a b Hb). pose proof (Z.mul_div_le a b Hb). nia. Qed.
Lemma cdiv_mul a b : 0 < b → cdiv (a * b) b = a.
Proof. intros Hb. apply cdiv_unique; lia. Qed.

(** ** Occurrences of an element: the multiset view of reference counting *)

Fixpoint occ (b : Z) (l : list Z) : Z :=
  match l with
  | [] => 0
  | x :: l' => (if decide (x = b) then 1 else 0) + occ b l'
  end.

Section occ.
Implicit Types (b : Z) (l : list Z).

Lemma occ_app b l1 l2 : occ b (l1 ++ l2) = occ b l1 + occ b l2.
Proof. induction l1 as [|x l1 IH]; simpl; lia. Qed.
Lemma occ_nonneg b l : 0 ≤ occ b l.
Proof. induction l as [|x l IH]; simpl; [lia|]. case_decide; lia. Qed.
#[export] Instance occ_perm b : Proper ((≡ₚ) ==> eq) (occ b).
Proof. intros l1 l2 H. induction H; simpl; lia. Qed.
Lemma occ_pos b l : 0 < occ b l ↔ b ∈ l.
Proof.
  induction l as [|x l IH]; simpl; [by rewrite elem_of_nil|].
  rewrite elem_of_cons. pose proof (occ_nonneg b l). case_decide; subst; [|intuition congruence || lia].
  split; [by left|lia].
Qed.
Lemma occ_0 b l : occ b l = 0 ↔ b ∉ l.
Proof. rewrite <-occ_pos. pose proof (occ_nonneg b l). lia. Qed.
Lemma occ_NoDup b l : NoDup l → occ b l ≤ 1.
Proof.
  induction 1 as [|x l Hx Hl IH]; simpl; [lia|].
  case_decide as Hd; [|lia]. subst. apply occ_0 in Hx. lia.
Qed.
Lemma occ_NoDup_elem b l : NoDup l → b ∈ l → occ b l = 1.
Proof. intros Hl Hb. apply occ_pos in Hb. pose proof (occ_NoDup b l Hl). lia. Qed.
Lemma occ_rev b l : occ b (rev l) = occ b l.
Proof. by rewrite <-Permutation_rev. Qed.
Lemma occ_sublist_le b l1 l2 : l1 ⊆+ l2 → occ b l1 ≤ occ b l2.
Proof.
  intros [k ->]%submseteq_Permutation. rewrite occ_app.
  pose proof (occ_nonneg b k). lia.
Qed.
Lemma occ_filter (P : Z → Prop) `{∀ x, Decision (P x)} b l :
  occ b (filter P l) = if decide (P b) then occ b l else 0.
Proof.
  induction l as [|x l IH]; simpl; [by case_decide|].
  rewrite filter_cons. destruct (decide (P x)); simpl; rewrite IH;
    repeat case_decide; subst; try done; lia.
Qed.
End occ.
