(* ===== verification/FreeQueue.v ===== *)
(** * The free-block queue

    [KVCacheBlock] objects and [FreeKVCacheBlockQueue], the intrusive doubly
    linked list of free blocks (src/vllm/vllm/v1/core/kv_cache_utils.py).
    Blocks are mutable Python objects shared between the queue, the block
    pool, the prefix cache and the request tables; they live in a store [mem]
    indexed by object identity, and every attribute assignment of the source is
    one write to that store.  A real block's identity is its [block_id]; the
    two fake end nodes are the objects [-1] and [-2].

    The file shows that the pointer-level operations refine operations on the
    plain list of queued blocks, errors included. *)

From S2P Require Import Prelude.

Abbreviation loc := Z (only parsing).
Abbreviation bytes := (list Z) (only parsing).

(** ** Block metadata *)

Record KVCacheBlock : Type := MkKVCacheBlock {
  block_id : Z;
  ref_cnt : Z;
  block_hash : option bytes;
  prev_free_block : option loc;
  next_free_block : option loc;
  is_null : bool
}.

(** [KVCacheBlock(block_id)] *)
Definition new_KVCacheBlock (id : Z) : KVCacheBlock :=
  MkKVCacheBlock id 0 None None None false.

Definition set_ref_cnt (f : Z → Z) (b : KVCacheBlock) : KVCacheBlock :=
  MkKVCacheBlock (block_id b) (f (ref_cnt b)) (block_hash b)
    (prev_free_block b) (next_free_block b) (is_null b).
Definition set_block_hash (h : option bytes) (b : KVCacheBlock) : KVCacheBlock :=
  MkKVCacheBlock (block_id b) (ref_cnt b) h
    (prev_free_block b) (next_free_block b) (is_null b).
Definition set_prev (p : option loc) (b : KVCacheBlock) : KVCacheBlock :=
  MkKVCacheBlock (block_id b) (ref_cnt b) (block_hash b)
    p (next_free_block b) (is_null b).
Definition set_next (n : option loc) (b : KVCacheBlock) : KVCacheBlock :=
  MkKVCacheBlock (block_id b) (ref_cnt b) (block_hash b)
    (prev_free_block b) n (is_null b).
Definition set_is_null (v : bool) (b : KVCacheBlock) : KVCacheBlock :=
  MkKVCacheBlock (block_id b) (ref_cnt b) (block_hash b)
    (prev_free_block b) (next_free_block b) v.

(** [block.reset_hash()] *)
Definition reset_hash (b : KVCacheBlock) : KVCacheBlock := set_block_hash None b.

(** ** The queue and the store it works on *)

Record FreeKVCacheBlockQueue : Type := MkQueue {
  num_free_blocks : Z;
  fake_free_list_head : loc;
  fake_free_list_tail : loc
}.

Record qstate : Type := MkQState {
  mem : gmap Z KVCacheBlock;
  queue : FreeKVCacheBlockQueue
}.

(** [b.attr] and [b.attr = v]; the attributes of [None] raise. *)
Definition read (b : loc) : M qstate KVCacheBlock :=
  λ s, or_raise AttributeError (mem s !! b) s.
Definition write (b : loc) (f : KVCacheBlock → KVCacheBlock) : M qstate unit :=
  modify (λ s, MkQState (alter f b (mem s)) (queue s)).
Definition getq {A} (f : FreeKVCacheBlockQueue → A) : M qstate A :=
  gets (λ s, f (queue s)).
Definition add_num_free (n : Z) : M qstate unit :=
  modify (λ s, MkQState (mem s)
    (MkQueue (num_free_blocks (queue s) + n)
       (fake_free_list_head (queue s)) (fake_free_list_tail (queue s)))).

(** *** [__init__] *)

Definition init_link (blocks : list loc) (i : Z) : M qstate unit :=
  let* n := getq num_free_blocks in
  let* b := or_raise IndexError (py_nth blocks i) in
  (if 0 <? i then
     let* p := or_raise IndexError (py_nth blocks (i - 1)) in
     write b (set_prev (Some p))
   else ret tt) ;;;
  (if i <? n - 1 then
     let* x := or_raise IndexError (py_nth blocks (i + 1)) in
     write b (set_next (Some x))
   else ret tt).

Definition alloc (b : loc) (blk : KVCacheBlock) : M qstate unit :=
  modify (λ s, MkQState (<[b := blk]> (mem s)) (queue s)).

Definition queue_init (blocks : list loc) : M qstate unit :=
  modify (λ s, MkQState (mem s) (MkQueue (len blocks) (-1) (-2))) ;;;
  for_each (range 0 (len blocks)) (init_link blocks) ;;;
  alloc (-1) (new_KVCacheBlock (-1)) ;;;
  alloc (-2) (new_KVCacheBlock (-1)) ;;;
  let* head := getq fake_free_list_head in
  let* tail := getq fake_free_list_tail in
  let* n := getq num_free_blocks in
  if 0 <? n then
    let* first := or_raise IndexError (py_nth blocks 0) in
    let* last := or_raise IndexError (py_nth blocks (-1)) in
    write head (set_next (Some first)) ;;;
    write first (set_prev (Some head)) ;;;
    write tail (set_prev (Some last)) ;;;
    write last (set_next (Some tail))
  else
    write head (set_next (Some tail)) ;;;
    write tail (set_prev (Some head)).

(** *** [popleft] *)

Definition popleft : M qstate loc :=
  let* head := getq fake_free_list_head in
  let* tail := getq fake_free_list_tail in
  let* h := read head in
  if bool_decide (next_free_block h = Some tail)
     || bool_decide (next_free_block h = None) then
    let* n := getq num_free_blocks in
    assert_ (n =? 0) ;;;
    raise ValueError
  else
    let* first_block := or_raise AttributeError (next_free_block h) in
    let* fb := read first_block in
    match next_free_block fb with
    | None => raise RuntimeError
    | Some nxt =>
        write head (set_next (Some nxt)) ;;;
        write nxt (set_prev (Some head)) ;;;
        write first_block (λ b, set_prev None (set_next None b)) ;;;
        add_num_free (-1) ;;;
        ret first_block
    end.

(** *** [popleft_n] *)

(** One iteration: the locals are [curr_block] and [ret]. *)
Definition popleft_n_step (st : option loc * list loc) (_ : Z)
  : M qstate (option loc * list loc) :=
  let '(curr_block, acc) := st in
  assert_ (bool_decide (curr_block ≠ None)) ;;;
  let* last_block := or_raise AttributeError curr_block in
  let* lb := read last_block in
  let curr_block := next_free_block lb in
  write last_block (set_prev None) ;;;
  write last_block (set_next None) ;;;
  ret (curr_block, acc ++ [last_block]).

Definition popleft_n (n : Z) : M qstate (list loc) :=
  if n =? 0 then ret []
  else
    let* free := getq num_free_blocks in
    assert_ (n <=? free) ;;;
    add_num_free (- n) ;;;
    let* head := getq fake_free_list_head in
    let* h := read head in
    let* st := fold_each popleft_n_step (range 0 n) (next_free_block h, []) in
    let '(curr_block, acc) := st in
    match curr_block with
    | None => ret tt
    | Some c =>
        write head (set_next (Some c)) ;;;
        write c (set_prev (Some head))
    end ;;;
    ret acc.

(** *** [remove] *)

Definition remove (block : loc) : M qstate unit :=
  let* b := read block in
  match prev_free_block b, next_free_block b with
  | Some p, Some n =>
      write p (set_next (Some n)) ;;;
      write n (set_prev (Some p)) ;;;
      write block (λ b, set_prev None (set_next None b)) ;;;
      add_num_free (-1)
  | _, _ => raise RuntimeError
  end.

(** *** [append] *)

Definition append (block : loc) : M qstate unit :=
  let* tail := getq fake_free_list_tail in
  let* t := read tail in
  match prev_free_block t with
  | None => raise RuntimeError
  | Some last_block =>
      write last_block (set_next (Some block)) ;;;
      write block (set_prev (Some last_block)) ;;;
      write block (set_next (Some tail)) ;;;
      write tail (set_prev (Some block)) ;;;
      add_num_free 1
  end.

(** The loop shared by [prepend_n] and [append_n]: chain [blocks] after
    [prev_block]; the local variable is the last linked block. *)
Definition link_step (prev_block block : loc) : M qstate loc :=
  write block (set_prev (Some prev_block)) ;;;
  write prev_block (set_next (Some block)) ;;;
  ret block.
Definition link_loop (prev_block : loc) (blocks : list loc) : M qstate loc :=
  fold_each link_step blocks prev_block.

(** *** [prepend_n] *)

Definition prepend_n (blocks : list loc) : M qstate unit :=
  if len blocks =? 0 then ret tt
  else
    let* head := getq fake_free_list_head in
    let* h := read head in
    assert_ (bool_decide (next_free_block h ≠ None)) ;;;
    let* first_block := or_raise AttributeError (next_free_block h) in
    let* prev_block := link_loop head blocks in
    write prev_block (set_next (Some first_block)) ;;;
    write first_block (set_prev (Some prev_block)) ;;;
    add_num_free (len blocks).

(** *** [append_n] *)

Definition append_n (blocks : list loc) : M qstate unit :=
  if len blocks =? 0 then ret tt
  else
    let* tail := getq fake_free_list_tail in
    let* t := read tail in
    assert_ (bool_decide (prev_free_block t ≠ None)) ;;;
    let* last_block := or_raise AttributeError (prev_free_block t) in
    let* last_block := link_loop last_block blocks in
    write last_block (set_next (Some tail)) ;;;
    write tail (set_prev (Some last_block)) ;;;
    add_num_free (len blocks).

(** *** [get_all_free_blocks] *)

(** The [while curr_block.next_free_block is not None] loop.  [fuel] bounds
    the number of iterations. *)
Fixpoint walk (fuel : nat) (curr_block : loc) (acc : list loc)
  : M qstate (list loc) :=
  match fuel with
  | O => raise OutOfFuel
  | S fuel =>
      let* c := read curr_block in
      match next_free_block c with
      | None => ret acc
      | Some n => walk fuel n (acc ++ [curr_block])
      end
  end.

(** A list of distinct stored blocks has at most [size mem] nodes. *)
Definition get_all_free_blocks : M qstate (list loc) :=
  let* head := getq fake_free_list_head in
  let* h := read head in
  match next_free_block h with
  | None => raise RuntimeError
  | Some first => let* fuel := gets (λ s, size (mem s)) in walk fuel first []
  end.

(** ** The links of the store *)

Definition nxt (h : gmap Z KVCacheBlock) (b : loc) : option loc := h !! b ≫= next_free_block.
Definition prv (h : gmap Z KVCacheBlock) (b : loc) : option loc := h !! b ≫= prev_free_block.

(** A block without its links; two stores are [same_core] when they differ in
    links only. *)
Definition strip (b : KVCacheBlock) : KVCacheBlock := set_prev None (set_next None b).
Definition same_core (h h' : gmap Z KVCacheBlock) : Prop := strip <$> h = strip <$> h'.

#[export] Instance same_core_equiv : Equivalence same_core.
Proof. unfold same_core. split; red; congruence. Qed.

Section links.
Implicit Types h : gmap Z KVCacheBlock.

Lemma same_core_alter_link h b f :
  (∀ blk, strip (f blk) = strip blk) → same_core (alter f b h) h.
Proof.
  intros Hf. unfold same_core. apply map_eq. intros i.
  rewrite !lookup_fmap. destruct (decide (i = b)) as [->|Hne].
  - rewrite lookup_alter_eq. destruct (h !! b); simpl; by rewrite ?Hf.
  - by rewrite lookup_alter_ne.
Qed.

Lemma same_core_lookup h h' b blk :
  same_core h h' → h !! b = Some blk →
  ∃ blk', h' !! b = Some blk' ∧ strip blk' = strip blk.
Proof.
  intros Heq Hb. assert ((strip <$> h) !! b = (strip <$> h') !! b) as H by by rewrite Heq.
  rewrite !lookup_fmap, Hb in H.
  destruct (h' !! b) as [blk'|]; [|discriminate H].
  exists blk'. split; [done|]. symmetry. by apply (inj Some).
Qed.

Lemma same_core_is_Some h h' b : same_core h h' → is_Some (h !! b) ↔ is_Some (h' !! b).
Proof.
  intros Heq. split; intros [blk Hb].
  - destruct (same_core_lookup _ _ _ _ Heq Hb) as (? & ? & _); eauto.
  - symmetry in Heq. destruct (same_core_lookup _ _ _ _ Heq Hb) as (? & ? & _); eauto.
Qed.

Lemma nxt_alter_next_eq h b v : is_Some (h !! b) → nxt (alter (set_next v) b h) b = v.
Proof. intros [blk Hb]. unfold nxt. by rewrite lookup_alter_eq, Hb. Qed.
Lemma prv_alter_prev_eq h b v : is_Some (h !! b) → prv (alter (set_prev v) b h) b = v.
Proof. intros [blk Hb]. unfold prv. by rewrite lookup_alter_eq, Hb. Qed.
Lemma nxt_alter_ne h b c f : b ≠ c → nxt (alter f b h) c = nxt h c.
Proof. intros. unfold nxt. by rewrite lookup_alter_ne. Qed.
Lemma prv_alter_ne h b c f : b ≠ c → prv (alter f b h) c = prv h c.
Proof. intros. unfold prv. by rewrite lookup_alter_ne. Qed.
Lemma nxt_alter_prev h b c v : nxt (alter (set_prev v) b h) c = nxt h c.
Proof.
  unfold nxt. rewrite lookup_alter. case_decide as Hd; [|done].
  subst. by destruct (h !! c).
Qed.
Lemma prv_alter_next h b c v : prv (alter (set_next v) b h) c = prv h c.
Proof.
  unfold prv. rewrite lookup_alter. case_decide as Hd; [|done].
  subst. by destruct (h !! c).
Qed.
Lemma alter_clear h b :
  alter (λ x, set_prev None (set_next None x)) b h
  = alter (set_prev None) b (alter (set_next None) b h).
Proof. symmetry. apply alter_alter_eq. Qed.
Lemma nxt_alter_next_None h b : nxt (alter (set_next None) b h) b = None.
Proof. unfold nxt. rewrite lookup_alter_eq. by destruct (h !! b). Qed.
Lemma prv_alter_prev_None h b : prv (alter (set_prev None) b h) b = None.
Proof. unfold prv. rewrite lookup_alter_eq. by destruct (h !! b). Qed.
Lemma is_Some_alter h b c f : is_Some (alter f b h !! c) ↔ is_Some (h !! c).
Proof.
  rewrite lookup_alter. case_decide as Hd; [|done].
  subst. by rewrite fmap_is_Some.
Qed.
Lemma nxt_is_Some h b c : nxt h b = Some c → is_Some (h !! b).
Proof. unfold nxt. destruct (h !! b); naive_solver. Qed.
Lemma prv_is_Some h b c : prv h b = Some c → is_Some (h !! b).
Proof. unfold prv. destruct (h !! b); naive_solver. Qed.

(** [linked h p l]: following the links from [p] visits [l], and the back
    links agree. *)
Fixpoint linked h (p : loc) (l : list loc) : Prop :=
  match l with
  | [] => True
  | b :: l' => nxt h p = Some b ∧ prv h b = Some p ∧ linked h b l'
  end.

Lemma linked_app h p l1 l2 :
  linked h p (l1 ++ l2) ↔ linked h p l1 ∧ linked h (List.last l1 p) l2.
Proof.
  revert p. induction l1 as [|b l1 IH]; intros p; simpl; [tauto|].
  rewrite IH. destruct l1 as [|c l1]; simpl; [tauto|].
  pose proof (last_indep c l1 b p) as Hd. simpl in Hd. rewrite Hd. tauto.
Qed.

Lemma linked_frame h h' p l :
  (∀ x, x ∈ removelast (p :: l) → nxt h' x = nxt h x) →
  (∀ x, x ∈ l → prv h' x = prv h x) →
  linked h p l → linked h' p l.
Proof.
  revert p. induction l as [|b l IH]; intros p Hn Hp; simpl; [done|].
  intros (H1 & H2 & H3). split_and!.
  - rewrite Hn; [done|]. simpl. left.
  - rewrite Hp; [done|]. left.
  - apply IH; [| |done].
    + intros x Hx. apply Hn. simpl in *. by right.
    + intros x Hx. apply Hp. by right.
Qed.

Lemma linked_is_Some h p l x : linked h p l → x ∈ l → is_Some (h !! x).
Proof.
  revert p. induction l as [|b l IH]; intros p; [by intros _ ?%elem_of_nil|].
  simpl. intros (_ & Hb & Hl) [->|Hx]%elem_of_cons; eauto using prv_is_Some.
Qed.

Lemma linked_lookup h p l i x y :
  linked h p l → (p :: l) !! i = Some x → (p :: l) !! S i = Some y →
  nxt h x = Some y ∧ prv h y = Some x.
Proof.
  revert p i. induction l as [|b l IH]; intros p i; simpl.
  { intros _ _. by destruct i. }
  intros (Hn & Hp & Hl). destruct i as [|i]; simpl.
  - intros [= ->] [= ->]. done.
  - intros Hx Hy. by eapply IH.
Qed.

Lemma linked_of_lookup h p l :
  (∀ i x y, (p :: l) !! i = Some x → (p :: l) !! S i = Some y →
            nxt h x = Some y ∧ prv h y = Some x) →
  linked h p l.
Proof.
  revert p. induction l as [|b l IH]; intros p H; simpl; [done|].
  destruct (H 0%nat p b eq_refl eq_refl) as [??]. split_and!; [done..|].
  apply IH. intros i x y Hx Hy. by apply (H (S i)).
Qed.
End links.

(** ** The representation relation: [s] holds the queue [l] *)

Record queue_rep (s : qstate) (l : list loc) : Prop := {
  qr_nodup : NoDup (fake_free_list_head (queue s) :: l ++ [fake_free_list_tail (queue s)]);
  qr_linked : linked (mem s) (fake_free_list_head (queue s))
                (l ++ [fake_free_list_tail (queue s)]);
  qr_num : num_free_blocks (queue s) = len l;
  qr_nxt_out : ∀ b, b ∉ fake_free_list_head (queue s) :: l → nxt (mem s) b = None;
  qr_prv_out : ∀ b, b ∉ l ++ [fake_free_list_tail (queue s)] → prv (mem s) b = None
}.

(** ** Splicing: every queue operation replaces a segment [mid] between two
    nodes by a segment [mid'] *)

Lemma last_elem_of (p : loc) l : List.last l p ∈ p :: l.
Proof.
  revert p. induction l as [|b l IH]; intros p; simpl; [left|].
  destruct l as [|c l]; [by right; left|].
  right. specialize (IH b). rewrite elem_of_cons in IH |- *.
  rewrite (last_indep c l b p) in IH. destruct IH as [H|H]; [|by right]. left.
  rewrite <-H. done.
Qed.

Lemma removelast_cons_last (p : loc) l : p :: l = removelast (p :: l) ++ [List.last l p].
Proof.
  rewrite (app_removelast_last p) at 1; [|done]. do 2 f_equal.
  by destruct l.
Qed.

Lemma removelast_app_cons (p : loc) l1 b l2 :
  removelast (p :: l1 ++ b :: l2) = (p :: l1) ++ removelast (b :: l2).
Proof. apply (removelast_app (p :: l1) (l' := b :: l2)). done. Qed.

Section splice.
Context (h h' : gmap Z KVCacheBlock) (hd : loc) (l1 mid mid' : list loc)
        (n : loc) (r : list loc).
Let p := List.last l1 hd.
Hypothesis Hlinked : linked h hd (l1 ++ mid ++ n :: r).
Hypothesis Hlinked' : linked h' p (mid' ++ [n]).
Hypothesis Hnodup : NoDup (hd :: l1 ++ mid ++ n :: r).
Hypothesis Hfresh : ∀ x, x ∈ mid' → x ∉ hd :: l1 ++ n :: r.
Hypothesis Hnxt : ∀ x, x ∉ p :: mid ++ mid' → nxt h' x = nxt h x.
Hypothesis Hprv : ∀ x, x ∉ mid ++ mid' ++ [n] → prv h' x = prv h x.

Lemma splice_nodup_parts :
  NoDup (hd :: l1) ∧ NoDup (n :: r) ∧
  (∀ x, x ∈ mid ++ mid' → x ∉ hd :: l1 ∧ x ∉ n :: r) ∧
  (∀ x, x ∈ hd :: l1 → x ∉ n :: r).
Proof using Hnodup Hfresh.
  clear - Hnodup Hfresh.
  rewrite app_comm_cons in Hnodup. apply NoDup_app in Hnodup as (H1 & H2 & H3).
  apply NoDup_app in H3 as (H4 & H5 & H6). split_and!; [done|done| |].
  - intros x [Hx|Hx]%elem_of_app.
    + split; [intros Hx'; apply (H2 x Hx'); set_solver|by apply H5].
    + apply Hfresh in Hx. set_solver.
  - intros x Hx Hx'. apply (H2 x Hx). set_solver.
Qed.

Lemma linked_splice : linked h' hd (l1 ++ mid' ++ n :: r).
Proof.
  destruct splice_nodup_parts as (Hn1 & Hn2 & Hm & Hd).
  apply linked_app in Hlinked as [Hl1 Hrest].
  apply linked_app. split; [|fold p].
  - eapply linked_frame; [| |exact Hl1]; intros x Hx.
    + apply Hnxt. rewrite elem_of_cons. intros [->|Hx'].
      * rewrite (removelast_cons_last hd l1) in Hn1.
        apply NoDup_app in Hn1 as (_ & Hn1 & _). by apply (Hn1 _ Hx); left.
      * apply Hm in Hx' as [Hx' _]. apply Hx'.
        rewrite (removelast_cons_last hd l1). set_solver.
    + apply Hprv. intros Hx'. rewrite app_assoc in Hx'.
      apply elem_of_app in Hx' as [Hx'|Hx'].
      * apply Hm in Hx'. set_solver.
      * apply (Hd x); set_solver.
  - apply linked_app in Hrest as [_ [_ [_ Htail]]].
    replace (mid' ++ n :: r) with ((mid' ++ [n]) ++ r) by (by rewrite <-app_assoc).
    apply linked_app. split; [done|].
    rewrite last_last. eapply linked_frame; [| |exact Htail]; intros x Hx.
    + assert (x ∈ n :: r) as Hx'.
      { rewrite (removelast_cons_last n r). set_solver. }
      apply Hnxt. rewrite elem_of_cons. intros [->|Hxm].
      * by eapply Hd; [apply last_elem_of|].
      * apply Hm in Hxm. naive_solver.
    + apply Hprv. rewrite app_assoc, elem_of_app, list_elem_of_singleton.
      intros [Hxm| ->].
      * apply Hm in Hxm. set_solver.
      * apply NoDup_cons in Hn2 as [Hn2 _]. done.
Qed.
End splice.

Lemma queue_rep_splice s s' l l' l1 mid mid' n r :
  queue_rep s l →
  fake_free_list_head (queue s') = fake_free_list_head (queue s) →
  fake_free_list_tail (queue s') = fake_free_list_tail (queue s) →
  l ++ [fake_free_list_tail (queue s)] = l1 ++ mid ++ n :: r →
  l' ++ [fake_free_list_tail (queue s)] = l1 ++ mid' ++ n :: r →
  NoDup mid' →
  (∀ x, x ∈ mid' → x ∉ fake_free_list_head (queue s) :: l1 ++ n :: r) →
  num_free_blocks (queue s') = len l' →
  linked (mem s') (List.last l1 (fake_free_list_head (queue s))) (mid' ++ [n]) →
  (∀ x, x ∉ List.last l1 (fake_free_list_head (queue s)) :: mid ++ mid' →
        nxt (mem s') x = nxt (mem s) x) →
  (∀ x, x ∉ mid ++ mid' ++ [n] → prv (mem s') x = prv (mem s) x) →
  (∀ x, x ∈ mid → nxt (mem s') x = None ∧ prv (mem s') x = None) →
  queue_rep s' l'.
Proof.
  intros Hrep Hh Ht Hl Hl' Hnd Hfresh Hnum Hlk Hnxt Hprv Hout.
  destruct Hrep as [Hn Hlinked _ Hno Hpo]. rewrite Hl in Hn, Hlinked.
  pose proof (splice_nodup_parts _ _ _ _ _ _ Hn Hfresh) as (Hn1 & Hn2 & Hm & Hd).
  split; rewrite ?Hh, ?Ht, ?Hl'.
  - rewrite app_comm_cons. apply NoDup_app. split_and!; [done| |].
    + intros x Hx [Hx'|Hx']%elem_of_app.
      * destruct (Hm x) as [? _]; set_solver.
      * by eapply Hd.
    + apply NoDup_app. split_and!; [done| |done]. intros x Hx.
      destruct (Hm x) as [_ ?]; set_solver.
  - by eapply linked_splice.
  - done.
  - intros b Hb. destruct (decide (b ∈ mid)) as [Hbm|Hbm]; [by apply Hout|].
    assert (∀ k m, k ++ [fake_free_list_tail (queue s)] = l1 ++ m ++ n :: r →
                   k = l1 ++ m ++ removelast (n :: r)) as Hk.
    { intros k m Heq. apply (f_equal (@removelast Z)) in Heq.
      rewrite removelast_last, app_assoc, removelast_app in Heq by done.
      by rewrite app_assoc. }
    apply Hk in Hl, Hl'. subst l l'.
    pose proof (last_elem_of (fake_free_list_head (queue s)) l1).
    rewrite Hnxt by set_solver. apply Hno. set_solver.
  - intros b Hb. destruct (decide (b ∈ mid)) as [Hbm|Hbm]; [by apply Hout|].
    rewrite Hprv by set_solver. apply Hpo. rewrite Hl. set_solver.
Qed.

(** ** Each operation against the list it represents *)

Lemma ok_read b s blk (Q : KVCacheBlock → qstate → Prop) :
  mem s !! b = Some blk → Q blk s → ok (read b) s Q.
Proof. intros Hb HQ. unfold ok, read. by rewrite Hb. Qed.

Lemma ok_write b f s (Q : unit → qstate → Prop) :
  Q tt (MkQState (alter f b (mem s)) (queue s)) → ok (write b f) s Q.
Proof. done. Qed.

(** Reading a block whose link is known. *)
Lemma ok_read_nxt b s c (Q : KVCacheBlock → qstate → Prop) :
  nxt (mem s) b = Some c →
  (∀ blk, mem s !! b = Some blk → next_free_block blk = Some c → Q blk s) →
  ok (read b) s Q.
Proof.
  unfold nxt. destruct (mem s !! b) as [blk|] eqn:Hb; simpl; [|done].
  intros Hc HQ. eapply ok_read; eauto.
Qed.
Lemma ok_read_prv b s c (Q : KVCacheBlock → qstate → Prop) :
  prv (mem s) b = Some c →
  (∀ blk, mem s !! b = Some blk → prev_free_block blk = Some c → Q blk s) →
  ok (read b) s Q.
Proof.
  unfold prv. destruct (mem s !! b) as [blk|] eqn:Hb; simpl; [|done].
  intros Hc HQ. eapply ok_read; eauto.
Qed.

Lemma ok_getq {A} (f : FreeKVCacheBlockQueue → A) s (Q : A → qstate → Prop) :
  Q (f (queue s)) s → ok (getq f) s Q.
Proof. done. Qed.
Lemma ok_add_num_free n s (Q : unit → qstate → Prop) :
  Q tt (MkQState (mem s) (MkQueue (num_free_blocks (queue s) + n)
         (fake_free_list_head (queue s)) (fake_free_list_tail (queue s)))) →
  ok (add_num_free n) s Q.
Proof. done. Qed.

Ltac q_step :=
  match goal with
  | |- ok (getq _) _ _ => apply ok_getq
  | |- ok (write _ _) _ _ => apply ok_write
  | |- ok (add_num_free _) _ _ => apply ok_add_num_free
  | |- _ => ok_step
  end;
  cbn [mem queue num_free_blocks fake_free_list_head fake_free_list_tail].
Ltac q_steps := repeat q_step.

Create Rewrite HintDb links.
#[export] Hint Rewrite nxt_alter_prev prv_alter_next nxt_alter_next_None
  prv_alter_prev_None alter_clear : links.

(** Compute the links of an updated store; the side conditions are
    disequalities between nodes and membership in the store. *)
Ltac links_solve :=
  repeat first
    [ progress autorewrite with links
    | rewrite nxt_alter_next_eq by (rewrite ?is_Some_alter; eauto using nxt_is_Some, prv_is_Some)
    | rewrite prv_alter_prev_eq by (rewrite ?is_Some_alter; eauto using nxt_is_Some, prv_is_Some)
    | rewrite nxt_alter_ne by (done || set_solver)
    | rewrite prv_alter_ne by (done || set_solver) ].

Ltac core_solve :=
  cbn [mem];
  repeat match goal with
  | |- same_core ?h ?h => reflexivity
  | |- same_core _ (alter _ _ _) =>
      etransitivity; [|symmetry; apply same_core_alter_link; by intros []]
  end; try done.

Definition same_ends (q q' : FreeKVCacheBlockQueue) : Prop :=
  fake_free_list_head q' = fake_free_list_head q ∧
  fake_free_list_tail q' = fake_free_list_tail q.

(** What every operation guarantees about the rest of the store. *)
Definition frame_ok (s s' : qstate) : Prop :=
  same_core (mem s) (mem s') ∧ same_ends (queue s) (queue s').

#[export] Instance frame_ok_preorder : PreOrder frame_ok.
Proof.
  split; [done|]. intros s1 s2 s3 [H1 [? ?]] [H2 [? ?]]. split; [by etransitivity|].
  split; congruence.
Qed.

Lemma remove_ok s l1 b l2 :
  queue_rep s (l1 ++ b :: l2) →
  ok (remove b) s (λ _ s', queue_rep s' (l1 ++ l2) ∧ frame_ok s s').
Proof.
  intros Hrep. pose proof Hrep as [Hnd Hlk Hnum _ _].
  set (hd := fake_free_list_head (queue s)) in *.
  set (tl := fake_free_list_tail (queue s)) in *.
  rewrite <-app_assoc in Hlk, Hnd. simpl in Hlk, Hnd.
  apply linked_app in Hlk as [_ Hb]. simpl in Hb.
  destruct (l2 ++ [tl]) as [|n r] eqn:Hl2; [by destruct l2|].
  destruct Hb as (Hp1 & Hp2 & Hn1 & Hn2 & _).
  set (p := List.last l1 hd) in *.
  assert (p ≠ b ∧ n ≠ b ∧ p ≠ n) as (Hpb & Hnb & Hpn).
  { pose proof (last_elem_of hd l1) as Hp. fold p in Hp.
    rewrite app_comm_cons in Hnd. apply NoDup_app in Hnd as (_ & Hd & Hnd2).
    apply NoDup_cons in Hnd2 as [Hnd2 _]. pose proof (Hd p Hp). set_solver. }
  unfold remove. ok_step. eapply ok_read_prv; [done|]. intros blk Hblk Hprev.
  assert (next_free_block blk = Some n) as Hnext.
  { unfold nxt in Hn1. by rewrite Hblk in Hn1. }
  rewrite Hprev, Hnext. q_steps. split; [|split; [core_solve|done]].
  eapply (queue_rep_splice s _ _ _ l1 [b] [] n r); try done;
    cbn [mem queue num_free_blocks app].
  - rewrite <-app_assoc. simpl. fold tl. by rewrite Hl2.
  - rewrite <-app_assoc. fold tl. by rewrite Hl2.
  - constructor.
  - set_solver.
  - rewrite Hnum, !len_app, len_cons. lia.
  - fold hd p. split_and!; [by links_solve..|done].
  - fold hd p. intros x Hx. links_solve. done.
  - intros x Hx. links_solve. done.
  - intros x ->%list_elem_of_singleton. by links_solve.
Qed.

Lemma remove_raises s l b blk :
  queue_rep s l → mem s !! b = Some blk → b ∉ l → remove b s = (Err RuntimeError, s).
Proof.
  intros [Hnd _ _ Hno Hpo] Hblk Hb. unfold remove, bind, read, or_raise. rewrite Hblk. simpl.
  destruct (decide (b = fake_free_list_head (queue s))) as [Hh|Hh].
  - assert (prev_free_block blk = None) as ->; [|done].
    enough (prv (mem s) b = None) as Hp by (unfold prv in Hp; by rewrite Hblk in Hp).
    apply Hpo. subst b. by apply NoDup_cons in Hnd as [? _].
  - assert (next_free_block blk = None) as ->; [|by destruct (prev_free_block blk)].
    enough (nxt (mem s) b = None) as Hn by (unfold nxt in Hn; by rewrite Hblk in Hn).
    apply Hno. set_solver.
Qed.

Lemma popleft_ok s x l :
  queue_rep s (x :: l) →
  ok popleft s (λ r s', r = x ∧ queue_rep s' l ∧ frame_ok s s').
Proof.
  intros Hrep. pose proof Hrep as [Hnd Hlk Hnum _ _].
  set (hd := fake_free_list_head (queue s)) in *.
  set (tl := fake_free_list_tail (queue s)) in *.
  simpl in Hlk. destruct Hlk as (Hn & Hp & Hlk).
  destruct (l ++ [tl]) as [|n r] eqn:Hl; [by destruct l|].
  simpl in Hlk. destruct Hlk as (Hn1 & Hn2 & _).
  assert (x ≠ tl ∧ hd ≠ x ∧ n ≠ x ∧ hd ≠ n) as (Hxt & Hhx & Hnx & Hhn).
  { assert (tl ∈ n :: r) by (rewrite <-Hl; set_solver).
    simpl in Hnd. rewrite Hl in Hnd. apply NoDup_cons in Hnd as [? Hnd].
    apply NoDup_cons in Hnd as [? _]. set_solver. }
  unfold popleft. q_steps. eapply ok_read_nxt; [done|]. intros blk Hblk Hnext.
  rewrite Hnext. fold tl. rewrite !bool_decide_eq_false_2 by congruence. simpl.
  q_step. apply ok_ret. q_step. eapply ok_read_nxt; [done|]. intros blk' Hblk' Hnext'.
  rewrite Hnext'. q_steps. fold hd. split_and!; [done| |split; [core_solve|done]].
  eapply (queue_rep_splice s _ (x :: l) _ [] [x] [] n r); try done;
    cbn [mem queue num_free_blocks app List.last]; fold hd tl.
  - by rewrite Hl.
  - constructor.
  - set_solver.
  - rewrite Hnum, len_cons. lia.
  - split_and!; [by links_solve..|done].
  - intros y Hy. links_solve. done.
  - intros y Hy. links_solve. done.
  - intros y ->%list_elem_of_singleton. by links_solve.
Qed.

Lemma popleft_raises s : queue_rep s [] → popleft s = (Err ValueError, s).
Proof.
  intros [_ Hlk Hnum _ _]. simpl in Hlk. destruct Hlk as (Hn & _ & _).
  unfold popleft, bind, getq, gets, read, or_raise. unfold nxt in Hn.
  destruct (mem s !! fake_free_list_head (queue s)) as [h|]; simpl in *; [|done].
  rewrite bool_decide_eq_true_2 by done. simpl. by rewrite Hnum.
Qed.

(** The chaining loop: afterwards [bs] hangs off [p]; no other link changed. *)
Lemma link_loop_ok s p bs :
  NoDup (p :: bs) → is_Some (mem s !! p) → (∀ b, b ∈ bs → is_Some (mem s !! b)) →
  ok (link_loop p bs) s (λ q s',
    q = List.last bs p ∧ queue s' = queue s ∧ same_core (mem s) (mem s') ∧
    linked (mem s') p bs ∧
    (∀ x, x ∉ removelast (p :: bs) → nxt (mem s') x = nxt (mem s) x) ∧
    (∀ x, x ∉ bs → prv (mem s') x = prv (mem s) x)).
Proof.
  unfold link_loop. revert s p. induction bs as [|b bs IH]; intros s p Hnd Hp Hbs.
  { simpl. apply ok_ret. split_and!; done. }
  cbn [fold_each]. unfold link_step at 1. q_steps.
  apply NoDup_cons in Hnd as [Hpn Hnd]. pose proof Hnd as [Hbn _]%NoDup_cons.
  assert (is_Some (mem s !! b)) as Hb by (apply Hbs; left).
  assert (p ≠ b) as Hpb by set_solver.
  eapply ok_mono; [apply IH|].
  - done.
  - simpl. by rewrite !is_Some_alter.
  - intros c Hc. simpl. rewrite !is_Some_alter. apply Hbs. by right.
  - cbn [mem queue]. intros q s' (-> & Hq & Hcore & Hlk & Hnx & Hpv).
    split_and!.
    + destruct bs as [|c bs]; [done|]. apply (last_indep c bs b p).
    + done.
    + etransitivity; [|exact Hcore]. core_solve.
    + cbn [linked]. split_and!; [| |done].
      * rewrite Hnx; [by links_solve|]. intros Hin. apply Hpn.
        rewrite (removelast_cons_last b bs). set_solver.
      * rewrite Hpv by done. by links_solve.
    + intros x Hx. change (x ∉ p :: removelast (b :: bs)) in Hx.
      rewrite Hnx by set_solver. links_solve. done.
    + intros x Hx. rewrite Hpv by set_solver. links_solve. done.
Qed.

(** Blocks that may be put in the queue: stored, and not in it already. *)
Definition fresh (s : qstate) (l bs : list loc) : Prop :=
  NoDup bs ∧
  ∀ b, b ∈ bs →
    b ∉ fake_free_list_head (queue s) :: l ++ [fake_free_list_tail (queue s)] ∧
    is_Some (mem s !! b).

(** Chaining [bs] between two neighbours inserts it there. *)
Lemma link_between_ok s l l' l1 n r bs :
  queue_rep s l → fresh s l bs →
  l ++ [fake_free_list_tail (queue s)] = l1 ++ n :: r →
  l' ++ [fake_free_list_tail (queue s)] = l1 ++ bs ++ n :: r →
  len l' = len l + len bs →
  ok (let* q := link_loop (List.last l1 (fake_free_list_head (queue s))) bs in
      write q (set_next (Some n)) ;;;
      write n (set_prev (Some q)) ;;;
      add_num_free (len bs)) s
     (λ _ s', queue_rep s' l' ∧ frame_ok s s').
Proof.
  intros Hrep [Hnb Hfr] Hl Hl' Hlen. pose proof Hrep as [Hnd Hlk Hnum _ _].
  set (hd := fake_free_list_head (queue s)) in *.
  set (tl := fake_free_list_tail (queue s)) in *.
  set (p := List.last l1 hd) in *. rewrite Hl in Hnd, Hlk.
  pose proof (last_elem_of hd l1) as Hp. fold p in Hp.
  apply linked_app in Hlk as [_ [Hpn [Hnp _]]]. fold p in Hpn, Hnp.
  assert (∀ b, b ∈ bs → b ∉ hd :: l1 ++ n :: r) as Hfr' by (intros b Hb; rewrite <-Hl; by apply Hfr).
  assert (p ≠ n) as Hpn'.
  { rewrite app_comm_cons in Hnd. apply NoDup_app in Hnd as (_ & Hd & _).
    intros ->. by apply (Hd n Hp); left. }
  assert (p ∉ bs) as Hpbs.
  { intros Hb. apply (Hfr' p Hb). rewrite app_comm_cons. set_solver. }
  q_step. eapply ok_mono; [apply link_loop_ok|].
  { by apply NoDup_cons. } { by eapply nxt_is_Some. } { intros b Hb. by apply Hfr. }
  intros q s1 (-> & Hq & Hcore & Hlk1 & Hnx & Hpv). q_steps.
  set (q := List.last bs p) in *.
  assert (q ∈ p :: bs) as Hqin by apply last_elem_of.
  assert (q ≠ n) as Hqn by (intros Hqn; rewrite Hqn in Hqin; set_solver).
  assert (is_Some (mem s1 !! q)) as Hqs.
  { rewrite <-(same_core_is_Some _ _ _ Hcore). apply elem_of_cons in Hqin as [->|Hqb];
      [by eapply nxt_is_Some|by apply Hfr]. }
  assert (is_Some (mem s1 !! n)) as Hns.
  { rewrite <-(same_core_is_Some _ _ _ Hcore). by eapply prv_is_Some. }
  assert (q ∉ removelast (p :: bs)) as Hqr.
  { assert (NoDup (p :: bs)) as Hnd' by by apply NoDup_cons.
    rewrite (removelast_cons_last p bs) in Hnd'.
    apply NoDup_app in Hnd' as (_ & Hd & _). intros Hin. apply (Hd _ Hin). left. }
  split.
  - eapply (queue_rep_splice s _ l _ l1 [] bs n r); try done;
      cbn [mem queue num_free_blocks fake_free_list_head fake_free_list_tail app];
      rewrite ?Hq; try done.
    + rewrite Hnum, Hlen. done.
    + fold hd p. apply linked_app. fold q. split.
      * eapply linked_frame; [| |exact Hlk1]; intros x Hx.
        -- rewrite nxt_alter_prev, nxt_alter_ne; [done|]. by intros ->.
        -- rewrite prv_alter_ne, prv_alter_next; [done|].
           intros ->. by apply (Hfr' x Hx); rewrite app_comm_cons; set_solver.
      * cbn [linked]. split_and!; [|by links_solve|done]. by links_solve.
    + fold hd p. intros x Hx. rewrite nxt_alter_prev, nxt_alter_ne by set_solver.
      apply Hnx. intros Hx'. apply Hx. rewrite (removelast_cons_last p bs). set_solver.
    + intros x Hx. rewrite prv_alter_ne, prv_alter_next by set_solver. apply Hpv. set_solver.
    + set_solver.
  - split; [|by rewrite Hq]. cbn [mem]. etransitivity; [exact Hcore|]. core_solve.
Qed.

Lemma queue_rep_prv_tail s l :
  queue_rep s l →
  prv (mem s) (fake_free_list_tail (queue s))
  = Some (List.last l (fake_free_list_head (queue s))).
Proof. intros [_ Hlk _ _ _]. apply linked_app in Hlk as [_ [_ [H _]]]. done. Qed.

Lemma append_n_ok s l bs :
  queue_rep s l → fresh s l bs →
  ok (append_n bs) s (λ _ s', queue_rep s' (l ++ bs) ∧ frame_ok s s').
Proof.
  intros Hrep Hfr. unfold append_n. case_match eqn:Hlen.
  { apply ok_ret. destruct bs; [|done]. by rewrite app_nil_r. }
  q_steps. eapply ok_read_prv; [by apply queue_rep_prv_tail|]. intros blk _ Hprev.
  rewrite Hprev. q_step. apply ok_assert; [done|]. q_step. apply ok_ret. cbn beta.
  apply (link_between_ok s l _ l _ []); try done.
  - by rewrite <-app_assoc.
  - by rewrite len_app.
Qed.

Lemma prepend_n_ok s l bs :
  queue_rep s l → fresh s l bs →
  ok (prepend_n bs) s (λ _ s', queue_rep s' (bs ++ l) ∧ frame_ok s s').
Proof.
  intros Hrep Hfr. unfold prepend_n. case_match eqn:Hlen.
  { apply ok_ret. destruct bs; [|done]. done. }
  destruct (l ++ [fake_free_list_tail (queue s)]) as [|n r] eqn:Hl; [by destruct l|].
  q_steps. eapply (ok_read_nxt _ _ n).
  { destruct Hrep as [_ Hlk _ _ _]. rewrite Hl in Hlk. apply Hlk. }
  intros blk _ Hnext.
  rewrite Hnext. q_step. apply ok_assert; [done|]. q_step. apply ok_ret. cbn beta.
  apply (link_between_ok s l _ [] _ r); try done.
  - by rewrite <-app_assoc, Hl.
  - rewrite len_app. lia.
Qed.

Lemma append_ok s l b :
  queue_rep s l → fresh s l [b] →
  ok (append b) s (λ _ s', queue_rep s' (l ++ [b]) ∧ frame_ok s s').
Proof.
  intros Hrep [_ Hfr]. pose proof Hrep as [Hnd _ Hnum _ _].
  destruct (Hfr b ltac:(left)) as [Hb Hbs].
  pose proof (queue_rep_prv_tail _ _ Hrep) as Hprv.
  pose proof Hrep as [_ Hlk _ _ _]. apply linked_app in Hlk as [_ [Hnx _]].
  set (hd := fake_free_list_head (queue s)) in *.
  set (tl := fake_free_list_tail (queue s)) in *.
  set (p := List.last l hd) in *.
  pose proof (last_elem_of hd l) as Hp. fold p in Hp.
  assert (p ≠ b ∧ b ≠ tl ∧ p ≠ tl) as (Hpb & Hbt & Hpt).
  { split_and!; [intros ->; apply Hb; rewrite app_comm_cons; set_solver|set_solver|].
    rewrite app_comm_cons in Hnd. apply NoDup_app in Hnd as (_ & Hd & _).
    intros ->. by apply (Hd _ Hp); left. }
  unfold append. q_steps. fold tl. eapply ok_read_prv; [done|]. intros blk _ Hprev.
  rewrite Hprev. q_steps. split; [|split; [core_solve|done]].
  eapply (queue_rep_splice s _ l _ l [] [b] tl []); try done;
    cbn [mem queue num_free_blocks app]; fold hd tl p.
  - by rewrite <-app_assoc.
  - apply NoDup_singleton.
  - intros x ->%list_elem_of_singleton. done.
  - rewrite Hnum, len_app. done.
  - cbn [linked]. split_and!; [by links_solve..|done].
  - intros x Hx. links_solve. done.
  - intros x Hx. links_solve. done.
  - set_solver.
Qed.

Definition cleared (h h' : gmap Z KVCacheBlock) (l : list loc) : Prop :=
  (∀ b, b ∈ l → nxt h' b = None ∧ prv h' b = None) ∧
  (∀ b, b ∉ l → nxt h' b = nxt h b ∧ prv h' b = prv h b).

(** The popping loop walks [l1] and stops at the node [x] after it. *)
Lemma popleft_n_loop_ok s ks c l1 x acc :
  length ks = length l1 → NoDup (l1 ++ [x]) → is_Some (mem s !! x) →
  head (l1 ++ [x]) = Some c → linked (mem s) c (tail (l1 ++ [x])) →
  ok (fold_each popleft_n_step ks (Some c, acc)) s (λ st s',
    st = (Some x, acc ++ l1) ∧ queue s' = queue s ∧
    same_core (mem s) (mem s') ∧ cleared (mem s) (mem s') l1).
Proof.
  revert s ks c acc. induction l1 as [|b l1 IH]; intros s ks c acc Hks Hnd Hx Hc Hlk.
  { destruct ks; [|done]. simplify_eq/=. apply ok_ret. rewrite app_nil_r.
    split_and!; [done..|]. split; [set_solver|done]. }
  destruct ks as [|k ks]; [done|]. cbn [fold_each].
  simpl in Hc. injection Hc as <-. cbn [app tail] in Hlk.
  destruct (l1 ++ [x]) as [|c' r] eqn:Hl1; [by destruct l1|].
  destruct Hlk as (Hn & Hp & Hlk). simpl in Hnd. rewrite Hl1 in Hnd.
  apply NoDup_cons in Hnd as [Hb Hnd].
  q_step. unfold popleft_n_step at 1. q_step. apply ok_assert; [done|].
  q_step. apply ok_ret. q_step. eapply ok_read_nxt; [done|]. intros blk _ Hnext.
  rewrite Hnext. q_steps.
  eapply ok_mono; [apply (IH _ ks c')|].
  - simpl in Hks. lia.
  - done.
  - cbn [mem]. by rewrite !is_Some_alter.
  - done.
  - cbn [mem tail]. eapply linked_frame; [| |exact Hlk]; intros y Hy.
    + rewrite nxt_alter_ne; [by rewrite nxt_alter_prev|]. intros <-. apply Hb.
      rewrite (removelast_cons_last c' r). set_solver.
    + rewrite prv_alter_next, prv_alter_ne; [done|]. set_solver.
  - cbn [mem queue]. intros st s' (-> & Hq & Hcore & Hcl1 & Hcl2). split_and!.
    + by rewrite <-app_assoc.
    + done.
    + etransitivity; [|exact Hcore]. core_solve.
    + assert (b ∉ l1) as Hbl.
      { intros Hin. apply Hb. rewrite <-Hl1. set_solver. }
      split.
      * intros y [->|Hy]%elem_of_cons; [|by apply Hcl1].
        destruct (Hcl2 b Hbl) as [-> ->]. by links_solve.
      * intros y [Hyb Hyl]%not_elem_of_cons. destruct (Hcl2 y Hyl) as [-> ->].
        by links_solve.
Qed.

Lemma popleft_n_ok s l n :
  queue_rep s l → 0 ≤ n ≤ len l →
  ok (popleft_n n) s (λ r s',
    r = take (Z.to_nat n) l ∧ queue_rep s' (drop (Z.to_nat n) l) ∧ frame_ok s s').
Proof.
  intros Hrep Hn. unfold popleft_n. case_match eqn:Hn0.
  { apply Z.eqb_eq in Hn0. subst. apply ok_ret. by rewrite drop_0. }
  apply Z.eqb_neq in Hn0.
  pose proof Hrep as [Hnd Hlk Hnum _ _].
  set (hd := fake_free_list_head (queue s)) in *.
  set (tl := fake_free_list_tail (queue s)) in *.
  set (l1 := take (Z.to_nat n) l). set (l2 := drop (Z.to_nat n) l).
  assert (l = l1 ++ l2) as Hl by (symmetry; apply take_drop).
  assert (len l1 = n) as Hl1 by (unfold l1, len in *; rewrite length_take; lia).
  destruct (l2 ++ [tl]) as [|x r] eqn:Hl2; [by destruct l2|].
  assert (l ++ [tl] = l1 ++ x :: r) as Hall by (by rewrite Hl, <-app_assoc, Hl2).
  rewrite Hall in Hnd, Hlk.
  assert (NoDup (l1 ++ [x])) as Hnd1.
  { apply NoDup_cons in Hnd as [_ Hnd]. rewrite cons_middle, app_assoc in Hnd.
    by apply NoDup_app in Hnd as [? _]. }
  assert (hd ≠ x ∧ x ∉ l1 ∧ hd ∉ l1) as (Hhx & Hxl & Hhl).
  { apply NoDup_cons in Hnd as [? _]. apply NoDup_app in Hnd1 as (_ & Hd & _).
    split_and!; [set_solver| |set_solver]. intros Hx. apply (Hd x Hx). left. }
  assert (is_Some (mem s !! x)) as Hxs.
  { eapply linked_is_Some; [exact Hlk|]. set_solver. }
  destruct (l1 ++ [x]) as [|c r1] eqn:Hl1x; [by destruct l1|].
  assert (linked (mem s) hd (c :: r1)) as (Hhc & _ & Hlk1).
  { rewrite cons_middle, app_assoc, Hl1x in Hlk. by apply linked_app in Hlk as [? _]. }
  q_steps. apply ok_assert; [rewrite Hnum; lia|]. q_steps. fold hd.
  eapply (ok_read_nxt _ _ c); [done|]. intros blk _ Hnext. rewrite Hnext.
  q_step. eapply ok_mono; [apply (popleft_n_loop_ok _ _ _ l1 x)|].
  { rewrite length_range. unfold len in Hl1. lia. }
  { by rewrite Hl1x. } { done. } { by rewrite Hl1x. } { by rewrite Hl1x. }
  cbn [mem queue]. intros st s' (-> & Hq & Hcore & Hcl1 & Hcl2). q_steps.
  split_and!; [done| |].
  - eapply (queue_rep_splice s _ l _ [] l1 [] x r); try done;
      cbn [mem queue num_free_blocks app List.last]; rewrite ?Hq;
      cbn [num_free_blocks fake_free_list_head fake_free_list_tail]; fold hd tl; try done.
    + constructor.
    + set_solver.
    + rewrite Hnum, Hl, len_app. lia.
    + assert (is_Some (mem s' !! hd)) by (rewrite <-(same_core_is_Some _ _ _ Hcore); eauto using nxt_is_Some).
      assert (is_Some (mem s' !! x)) by by rewrite <-(same_core_is_Some _ _ _ Hcore).
      split_and!; [by links_solve..|done].
    + rewrite app_nil_r. intros y [Hy1 Hy2]%not_elem_of_cons.
      rewrite nxt_alter_prev, nxt_alter_ne by done. by apply Hcl2.
    + intros y [Hy1 Hy2]%not_elem_of_app.
      rewrite prv_alter_ne, prv_alter_next by set_solver. by apply Hcl2.
    + intros y Hy. assert (hd ≠ y ∧ x ≠ y) as [??] by set_solver.
      rewrite nxt_alter_prev, nxt_alter_ne, prv_alter_ne, prv_alter_next by done.
      by apply Hcl1.
  - split; [|by rewrite Hq]. cbn [mem]. etransitivity; [exact Hcore|]. core_solve.
Qed.

Lemma popleft_n_raises s l n :
  queue_rep s l → len l < n → popleft_n n s = (Err AssertionError, s).
Proof.
  intros [_ _ Hnum _ _] Hn. unfold popleft_n. pose proof (len_nonneg l).
  rewrite (proj2 (Z.eqb_neq _ _)) by lia.
  unfold bind, getq, gets, assert_. rewrite Hnum.
  by rewrite (proj2 (Z.leb_gt _ _)) by lia.
Qed.

Lemma walk_ok s fuel c l x acc :
  (length l < fuel)%nat → nxt (mem s) x = None → is_Some (mem s !! x) →
  head (l ++ [x]) = Some c → linked (mem s) c (tail (l ++ [x])) →
  walk fuel c acc s = (Ok (acc ++ l), s).
Proof.
  intros Hf Hx Hxs. revert fuel Hf c acc.
  induction l as [|b l IH]; intros [|fuel] Hf c acc Hc Hlk; simpl in Hf; try lia.
  - simpl in *. injection Hc as <-. destruct Hxs as [blk Hblk].
    unfold bind, read, or_raise. rewrite Hblk. simpl.
    unfold nxt in Hx. rewrite Hblk in Hx. simpl in Hx. rewrite Hx. by rewrite app_nil_r.
  - simpl in Hc. injection Hc as <-. cbn [app tail] in Hlk.
    destruct (l ++ [x]) as [|c' r] eqn:Hl; [by destruct l|].
    destruct Hlk as (Hn & _ & Hlk). unfold nxt in Hn. cbn [walk].
    unfold bind, read, or_raise.
    destruct (mem s !! b) as [blk|]; [|done]. simpl in *. rewrite Hn.
    rewrite (IH fuel ltac:(lia) c'); [|done..]. by rewrite <-app_assoc.
Qed.

Lemma queue_rep_length s l : queue_rep s l → (length l < size (mem s))%nat.
Proof.
  intros [Hnd Hlk _ _ _]. apply NoDup_cons in Hnd as [_ Hnd].
  assert (size (list_to_set (l ++ [fake_free_list_tail (queue s)]) : gset Z)
          ≤ size (dom (mem s)))%nat as Hle.
  { apply subseteq_size. intros x Hx%elem_of_list_to_set. apply elem_of_dom.
    by eapply linked_is_Some. }
  rewrite size_list_to_set in Hle by done.
  rewrite size_dom, length_app in Hle. simpl in Hle. lia.
Qed.

Lemma get_all_free_blocks_ok s l :
  queue_rep s l → get_all_free_blocks s = (Ok l, s).
Proof.
  intros Hrep. pose proof (queue_rep_length _ _ Hrep) as Hlen.
  destruct Hrep as [Hnd Hlk Hnum Hno _].
  set (hd := fake_free_list_head (queue s)) in *.
  set (tl := fake_free_list_tail (queue s)) in *.
  pose proof (linked_is_Some _ _ _ tl Hlk ltac:(set_solver)) as Htl.
  destruct (l ++ [tl]) as [|c r] eqn:Hl; [by destruct l|].
  destruct Hlk as (Hn & _ & Hlk). unfold nxt in Hn.
  unfold get_all_free_blocks, bind, getq, gets, read, or_raise. fold hd.
  destruct (mem s !! hd) as [h|] eqn:Hh; [|done]. simpl in *. rewrite Hn.
  rewrite (walk_ok s _ c l tl []); rewrite ?Hl; try done.
  apply Hno. rewrite <-Hl in Hnd. fold tl. intros [Heq|Hin]%elem_of_cons.
  - apply NoDup_cons in Hnd as [Hnd _]. rewrite Heq in Hnd. set_solver.
  - apply NoDup_cons in Hnd as [_ Hnd]. apply NoDup_app in Hnd as (_ & Hd & _).
    by apply (Hd tl Hin); left.
Qed.

(** ** Construction *)

Lemma py_nth_last (b : Z) l : py_nth (b :: l) (-1) = Some (List.last l b).
Proof.
  unfold py_nth. rewrite len_cons. pose proof (len_nonneg l).
  change (0 <=? -1) with false. cbn iota. rewrite (proj2 (Z.leb_le _ _)) by lia. simpl.
  replace (Z.to_nat (1 + len l + -1)) with (length l) by (unfold len; lia).
  revert b. clear. induction l as [|c l IH]; intros b; [done|].
  cbn [length lookup list_lookup]. rewrite IH. f_equal.
  destruct l as [|z l]; [done|]. apply (last_indep z l).
Qed.

(** The state of the linking loop when the indices below [i] are done. *)
Definition init_inv (s0 : qstate) (blocks : list loc) (i : Z) (s : qstate) : Prop :=
  queue s = MkQueue (len blocks) (-1) (-2) ∧
  same_core (mem s0) (mem s) ∧
  (∀ j b, blocks !! j = Some b →
     prv (mem s) b = (if decide (0 < j < Z.to_nat i)%nat then blocks !! (j - 1)%nat else None) ∧
     nxt (mem s) b = (if decide (j < Z.to_nat i)%nat then blocks !! S j else None)) ∧
  (∀ b, b ∉ blocks → prv (mem s) b = prv (mem s0) b ∧ nxt (mem s) b = nxt (mem s0) b).

Lemma init_link_ok s0 blocks i s :
  NoDup blocks → (∀ b, b ∈ blocks → is_Some (mem s0 !! b)) → 0 ≤ i < len blocks →
  init_inv s0 blocks i s →
  ok (init_link blocks i) s (λ _ s', init_inv s0 blocks (i + 1) s').
Proof.
  intros Hnd Hst Hi (Hq & Hcore & Hin & Hout).
  destruct (lookup_lt_is_Some_2 blocks (Z.to_nat i)) as [b Hb]; [unfold len in Hi; lia|].
  assert (is_Some (mem s !! b)) as Hbs.
  { rewrite <-(same_core_is_Some _ _ _ Hcore). apply Hst. by eapply list_elem_of_lookup_2. }
  unfold init_link. q_steps. rewrite Hq. cbn [num_free_blocks].
  eapply ok_or_raise; [by rewrite py_nth_nonneg by lia|].
  q_step.
  eapply (ok_mono _ _ (λ _ s1, queue s1 = queue s ∧ same_core (mem s) (mem s1) ∧
    (∀ x, nxt (mem s1) x = nxt (mem s) x) ∧ (∀ x, x ≠ b → prv (mem s1) x = prv (mem s) x) ∧
    prv (mem s1) b = if decide (0 < i) then blocks !! Z.to_nat (i - 1) else None)).
  { destruct (Z.ltb_spec 0 i) as [Hi0|Hi0].
    - destruct (lookup_lt_is_Some_2 blocks (Z.to_nat (i - 1))) as [p Hp]; [unfold len in Hi; lia|].
      q_step. eapply ok_or_raise; [by rewrite py_nth_nonneg by lia|]. q_step.
      rewrite decide_True by lia. split_and!; [done|core_solve| | |].
      + intros x. by rewrite nxt_alter_prev.
      + intros x Hx. by rewrite prv_alter_ne.
      + by rewrite prv_alter_prev_eq.
    - apply ok_ret. rewrite decide_False by lia. split_and!; try done.
      destruct (Hin _ _ Hb) as [-> _]. by rewrite decide_False by lia. }
  intros ? s1 (Hq1 & Hcore1 & Hn1 & Hp1 & Hp1b).
  assert (is_Some (mem s1 !! b)) as Hbs1 by by rewrite <-(same_core_is_Some _ _ _ Hcore1).
  eapply (ok_mono _ _ (λ _ s2, queue s2 = queue s1 ∧ same_core (mem s1) (mem s2) ∧
    (∀ x, prv (mem s2) x = prv (mem s1) x) ∧ (∀ x, x ≠ b → nxt (mem s2) x = nxt (mem s1) x) ∧
    nxt (mem s2) b = blocks !! S (Z.to_nat i))).
  { destruct (Z.ltb_spec i (len blocks - 1)) as [Hi0|Hi0].
    - destruct (lookup_lt_is_Some_2 blocks (Z.to_nat (i + 1))) as [p Hp]; [unfold len in *; lia|].
      q_step. eapply ok_or_raise; [by rewrite py_nth_nonneg by lia|]. q_step.
      split_and!; [done|core_solve| | |].
      + intros x. by rewrite prv_alter_next.
      + intros x Hx. by rewrite nxt_alter_ne.
      + rewrite nxt_alter_next_eq by done. rewrite <-Hp. f_equal. lia.
    - apply ok_ret. split_and!; try done.
      rewrite Hn1. destruct (Hin _ _ Hb) as [_ ->]. rewrite decide_False by lia.
      symmetry. apply lookup_ge_None. unfold len in *. lia. }
  intros ? s2 (Hq2 & Hcore2 & Hp2 & Hn2 & Hn2b). split_and!.
  - congruence.
  - by repeat (etransitivity; [eassumption|]).
  - intros j x Hx. destruct (decide (x = b)) as [->|Hne].
    + assert (j = Z.to_nat i) as -> by by eapply NoDup_lookup.
      rewrite Hp2, Hp1b, Hn2b. rewrite (decide_True (P := (Z.to_nat i < Z.to_nat (i + 1))%nat)) by lia.
      split; [|done]. destruct (decide (0 < i)).
      * rewrite decide_True by lia. f_equal. lia.
      * by rewrite decide_False by lia.
    + assert (j ≠ Z.to_nat i) by (intros ->; congruence).
      rewrite Hp2, Hp1, Hn2, Hn1 by done. destruct (Hin _ _ Hx) as [-> ->].
      split; repeat case_decide; try done; exfalso; lia.
  - intros x Hx. assert (x ≠ b) by (intros ->; apply Hx; by eapply list_elem_of_lookup_2).
    rewrite Hp2, Hp1, Hn2, Hn1 by done. by apply Hout.
Qed.

Lemma nxt_insert h b blk c :
  nxt (<[b := blk]> h) c = if decide (b = c) then next_free_block blk else nxt h c.
Proof. unfold nxt. rewrite lookup_insert. by case_decide. Qed.
Lemma prv_insert h b blk c :
  prv (<[b := blk]> h) c = if decide (b = c) then prev_free_block blk else prv h c.
Proof. unfold prv. rewrite lookup_insert. by case_decide. Qed.

Lemma init_loop_ok s blocks :
  NoDup blocks → (∀ b, b ∈ blocks → is_Some (mem s !! b)) →
  (∀ b, prv (mem s) b = None ∧ nxt (mem s) b = None) →
  queue s = MkQueue (len blocks) (-1) (-2) →
  ok (for_each (range 0 (len blocks)) (init_link blocks)) s
     (λ _ s', init_inv s blocks (len blocks) s').
Proof.
  intros Hnd Hst Hnone Hq.
  apply (ok_for_each _ (λ rest s', ∃ i, rest = range i (len blocks) ∧
                          0 ≤ i ≤ len blocks ∧ init_inv s blocks i s')).
  - exists 0. pose proof (len_nonneg blocks). split_and!; [done|lia|lia|].
    split_and!; try done. intros j b _. destruct (Hnone b) as [-> ->].
    by rewrite !decide_False by lia.
  - intros x l' s' (i & Hx & Hi & Hinv).
    destruct (decide (i < len blocks)) as [Hlt|Hge];
      [|by rewrite range_nil in Hx by lia].
    rewrite range_cons in Hx by done. simplify_eq.
    eapply ok_mono; [apply (init_link_ok s); [done|done|lia|done]|]. intros ? s2 H2.
    exists (i + 1). split_and!; [done|lia|lia|done].
  - intros s' (i & Hx & Hi & Hinv).
    destruct (decide (i < len blocks)) as [Hlt|Hge].
    + by rewrite range_cons in Hx.
    + by replace (len blocks) with i by lia.
Qed.

(** Attaching the fake ends to a chain gives a queue. *)
Lemma attach_ends_nil h :
  is_Some (h !! -1) → is_Some (h !! -2) →
  (∀ b, prv h b = None ∧ nxt h b = None) →
  queue_rep (MkQState (alter (set_prev (Some (-1))) (-2) (alter (set_next (Some (-2))) (-1) h))
               (MkQueue 0 (-1) (-2))) [].
Proof.
  intros H1 H2 Hout. split; cbn [mem queue num_free_blocks fake_free_list_head fake_free_list_tail app linked].
  - apply NoDup_cons. split; [by intros ?%list_elem_of_singleton|apply NoDup_singleton].
  - split_and!; [by links_solve..|done].
  - done.
  - intros b Hb. links_solve. apply Hout.
  - intros b Hb. links_solve. apply Hout.
Qed.

Lemma attach_ends_cons h b0 rest :
  is_Some (h !! -1) → is_Some (h !! -2) → NoDup (b0 :: rest) →
  (∀ b, b ∈ b0 :: rest → b ≠ -1 ∧ b ≠ -2 ∧ is_Some (h !! b)) →
  (∀ b, b ∉ b0 :: rest → prv h b = None ∧ nxt h b = None) →
  linked h b0 rest →
  let z := List.last rest b0 in
  queue_rep (MkQState
    (alter (set_next (Some (-2))) z (alter (set_prev (Some z)) (-2)
      (alter (set_prev (Some (-1))) b0 (alter (set_next (Some b0)) (-1) h))))
    (MkQueue (len (b0 :: rest)) (-1) (-2))) (b0 :: rest).
Proof.
  intros H1 H2 Hnd Hb Hout Hlk z. pose proof (last_elem_of b0 rest : z ∈ b0 :: rest) as Hz.
  destruct (Hb b0 ltac:(left)) as (? & ? & ?). destruct (Hb z Hz) as (? & ? & ?).
  assert (∀ x, x ∈ removelast (b0 :: rest) → x ∈ b0 :: rest ∧ z ≠ x) as Hrl.
  { intros x Hx. rewrite (removelast_cons_last b0 rest) in Hnd.
    apply NoDup_app in Hnd as (_ & Hd & _). split.
    - rewrite (removelast_cons_last b0 rest). apply elem_of_app. by left.
    - intros <-. by apply (Hd _ Hx); left. }
  split; cbn [mem queue num_free_blocks fake_free_list_head fake_free_list_tail].
  - rewrite app_comm_cons. apply NoDup_app.
    split_and!; [apply NoDup_cons; split; [|done]| |apply NoDup_singleton].
    + intros Hin. by apply Hb in Hin as [? _].
    + intros x Hx ->%list_elem_of_singleton. apply elem_of_cons in Hx as [?|Hx]; [done|].
      by apply Hb in Hx as (_ & ? & _).
  - cbn [app linked]. split_and!; [by links_solve..|]. apply linked_app. split.
    + eapply linked_frame; [| |exact Hlk]; intros x Hx.
      * apply Hrl in Hx as [Hx ?]. destruct (Hb x Hx) as (? & ? & ?). links_solve. done.
      * apply NoDup_cons in Hnd as [Hnd _]. destruct (Hb x ltac:(by right)) as (? & ? & ?).
        assert (b0 ≠ x) by (by intros ->). links_solve. done.
    + cbn [linked]. fold z. split_and!; [by links_solve..|done].
  - done.
  - intros b [Hb1 Hb2]%not_elem_of_cons. assert (z ≠ b) by (intros ->; done).
    links_solve. by apply Hout.
  - intros b [Hb1 Hb2]%not_elem_of_app.
    assert (-2 ≠ b ∧ b0 ≠ b) as [??].
    { split; intros Heq; subst; [apply Hb2; left|apply Hb1; left]. }
    links_solve. by apply Hout.
Qed.

(** The constructor queues exactly the given blocks, in order. *)
Lemma queue_init_ok s blocks :
  NoDup blocks → -1 ∉ blocks → -2 ∉ blocks →
  (∀ b, b ∈ blocks → is_Some (mem s !! b)) →
  (∀ b, prv (mem s) b = None ∧ nxt (mem s) b = None) →
  ok (queue_init blocks) s (λ _ s',
    queue_rep s' blocks ∧ queue s' = MkQueue (len blocks) (-1) (-2) ∧
    ∀ b, b ≠ -1 → b ≠ -2 → strip <$> mem s' !! b = strip <$> mem s !! b).
Proof.
  intros Hnd H1 H2 Hst Hnone. unfold queue_init. q_steps.
  eapply ok_mono; [by apply init_loop_ok|]. intros ? s1 (Hq & Hcore & Hin & Hout).
  cbn [mem] in Hcore, Hout. unfold alloc. q_steps. rewrite Hq.
  cbn [num_free_blocks fake_free_list_head fake_free_list_tail].
  assert (∀ b, b ≠ -1 → b ≠ -2 →
    strip <$> (<[-2 := new_KVCacheBlock (-1)]> (<[-1 := new_KVCacheBlock (-1)]> (mem s1))) !! b
    = strip <$> mem s !! b) as Hfr.
  { intros b ? ?. rewrite !lookup_insert_ne by done. rewrite <-!lookup_fmap.
    by rewrite (Hcore : _ = _). }
  assert (∀ b f, (∀ blk, strip (f blk) = strip blk) → ∀ (h : gmap Z KVCacheBlock) c,
    strip <$> alter f b h !! c = strip <$> h !! c) as Halt.
  { intros b f Hf h c. rewrite <-!lookup_fmap. by rewrite (same_core_alter_link h b f Hf : _ = _). }
  assert (∀ b, b ∉ blocks → prv (mem s1) b = None ∧ nxt (mem s1) b = None) as Hout'.
  { intros b Hb. destruct (Hout b Hb) as [-> ->]. apply Hnone. }
  set (h1 := <[-2 := _]> (<[-1 := _]> (mem s1))) in *.
  assert (is_Some (h1 !! -1) ∧ is_Some (h1 !! -2)) as [Hs1 Hs2].
  { unfold h1. by rewrite lookup_insert_ne, !lookup_insert_eq by done. }
  assert (∀ b, prv h1 b = (if decide (b = -1 ∨ b = -2) then None else prv (mem s1) b) ∧
               nxt h1 b = (if decide (b = -1 ∨ b = -2) then None else nxt (mem s1) b)) as Hlinks.
  { intros b. unfold h1. rewrite !prv_insert, !nxt_insert.
    repeat case_decide; try done; exfalso; lia. }
  destruct blocks as [|b0 rest]; cbn beta iota.
  - change (0 <? len []) with false. cbn iota. q_steps. split_and!; [|done|].
    + apply attach_ends_nil; [done..|]. intros b. destruct (Hlinks b) as [-> ->].
      case_decide; [done|]. apply Hout', not_elem_of_nil.
    + intros b ??. cbn [mem]. rewrite !Halt by (by intros []). by apply Hfr.
  - assert (0 <? len (b0 :: rest) = true) as ->
      by (rewrite len_cons; pose proof (len_nonneg rest); lia).
    q_step. apply ok_ret. q_step. eapply ok_or_raise; [apply py_nth_last|]. q_steps.
    split_and!; [|done|].
    + apply attach_ends_cons; try done.
      * intros b Hb. split_and!; [by intros ->..|]. unfold h1.
        rewrite !lookup_insert_ne by (by intros <-).
        rewrite <-(same_core_is_Some _ _ _ Hcore). by apply Hst.
      * intros b Hb. destruct (Hlinks b) as [-> ->]. case_decide; [done|]. by apply Hout'.
      * apply linked_of_lookup. intros i x y Hx Hy.
        destruct (Hlinks x) as [_ ->]. destruct (Hlinks y) as [-> _].
        apply list_elem_of_lookup_2 in Hx as Hx'. apply list_elem_of_lookup_2 in Hy as Hy'.
        rewrite !decide_False by (intros [-> | ->]; done).
        destruct (Hin _ _ Hx) as [_ ->]. destruct (Hin _ _ Hy) as [-> _].
        apply lookup_lt_Some in Hy as Hlt. rewrite !decide_True by (unfold len; lia).
        rewrite Hy. split; [done|]. by replace (S i - 1)%nat with i by lia.
    + intros b ??. cbn [mem]. rewrite !Halt by (by intros []). by apply Hfr.
Qed.

(** ** Refinement: the pointer structure implements a list of blocks *)

(** The pool's blocks are stored objects other than the fake ends. *)
Definition pool_objects (s : qstate) (D : list loc) : Prop :=
  ∀ b, b ∈ D → is_Some (mem s !! b) ∧
    b ≠ fake_free_list_head (queue s) ∧ b ≠ fake_free_list_tail (queue s).

Lemma pool_objects_frame s s' D : frame_ok s s' → pool_objects s D → pool_objects s' D.
Proof.
  intros [Hc [Hh Ht]] HD b Hb. destruct (HD b Hb) as (? & ? & ?). rewrite Hh, Ht.
  split_and!; [by rewrite <-(same_core_is_Some _ _ _ Hc)|done..].
Qed.

Lemma pool_objects_fresh s D l bs :
  pool_objects s D → NoDup bs → (∀ b, b ∈ bs → b ∈ D ∧ b ∉ l) → fresh s l bs.
Proof.
  intros HD Hnd Hbs. split; [done|]. intros b Hb. destruct (Hbs b Hb) as [Hd Hl].
  destruct (HD b Hd) as (? & ? & ?). split; [|done].
  rewrite elem_of_cons, elem_of_app, list_elem_of_singleton. tauto.
Qed.

(** The store before construction: [n] new blocks and nothing else. *)
Definition new_blocks_state (n : Z) : qstate :=
  MkQState (list_to_map ((λ i, (i, new_KVCacheBlock i)) <$> range 0 n)) (MkQueue 0 0 0).

Lemma new_blocks_lookup n b :
  mem (new_blocks_state n) !! b
  = if decide (0 ≤ b < n) then Some (new_KVCacheBlock b) else None.
Proof.
  simpl. case_decide as Hb.
  - apply elem_of_list_to_map_1.
    + rewrite <-list_fmap_compose. simpl. rewrite list_fmap_id. apply NoDup_range.
    + apply list_elem_of_fmap. exists b. split; [done|]. by apply elem_of_range.
  - apply not_elem_of_list_to_map_1. rewrite <-list_fmap_compose. simpl.
    rewrite list_fmap_id. by rewrite elem_of_range.
Qed.

Lemma queue_init_new n :
  ok (queue_init (range 0 n)) (new_blocks_state n) (λ _ s,
    queue_rep s (range 0 n) ∧ queue s = MkQueue (len (range 0 n)) (-1) (-2) ∧
    ∀ b, b ≠ -1 → b ≠ -2 →
      strip <$> mem s !! b = if decide (0 ≤ b < n) then Some (new_KVCacheBlock b) else None).
Proof.
  eapply ok_mono; [apply queue_init_ok|].
  - apply NoDup_range.
  - rewrite elem_of_range. lia.
  - rewrite elem_of_range. lia.
  - intros b Hb%elem_of_range. rewrite new_blocks_lookup. rewrite decide_True by done. eauto.
  - intros b. unfold prv, nxt. rewrite new_blocks_lookup. by case_decide.
  - intros ? s (? & ? & Hs). split_and!; [done..|]. intros b ??. rewrite Hs by done.
    rewrite new_blocks_lookup. by case_decide.
Qed.

Module Refinement.

Inductive qop : Type :=
| OpPopleft
| OpPopleftN (n : Z)
| OpRemove (b : loc)
| OpAppend (b : loc)
| OpAppendN (bs : list loc)
| OpPrependN (bs : list loc)
| OpGetAll.

(** The implementation's call, its result as a list of blocks. *)
Definition run_op (o : qop) : M qstate (list loc) :=
  match o with
  | OpPopleft => let* b := popleft in ret [b]
  | OpPopleftN n => popleft_n n
  | OpRemove b => remove b ;;; ret []
  | OpAppend b => append b ;;; ret []
  | OpAppendN bs => append_n bs ;;; ret []
  | OpPrependN bs => prepend_n bs ;;; ret []
  | OpGetAll => get_all_free_blocks
  end.

(** The abstract queue. *)
Definition spec_op (o : qop) (l : list loc) : res (list loc) * list loc :=
  match o with
  | OpPopleft => match l with [] => (Err ValueError, []) | b :: l' => (Ok [b], l') end
  | OpPopleftN n =>
      if len l <? n then (Err AssertionError, l)
      else (Ok (take (Z.to_nat n) l), drop (Z.to_nat n) l)
  | OpRemove b =>
      if decide (b ∈ l) then (Ok [], filter (λ x, x ≠ b) l) else (Err RuntimeError, l)
  | OpAppend b => (Ok [], l ++ [b])
  | OpAppendN bs => (Ok [], l ++ bs)
  | OpPrependN bs => (Ok [], bs ++ l)
  | OpGetAll => (Ok l, l)
  end.

(** What the callers respect: blocks come from the pool [D], and a block is
    queued only when it is not in the queue. *)
Definition op_pre (D : list loc) (o : qop) (l : list loc) : Prop :=
  match o with
  | OpPopleft | OpGetAll => True
  | OpPopleftN n => 0 ≤ n
  | OpRemove b => b ∈ D
  | OpAppend b => b ∈ D ∧ b ∉ l
  | OpAppendN bs | OpPrependN bs => NoDup bs ∧ Forall (λ b, b ∈ D ∧ b ∉ l) bs
  end.
#[export] Instance op_pre_dec D o l : Decision (op_pre D o l).
Proof. destruct o; simpl; apply _. Defined.

Lemma filter_remove (b : loc) l1 l2 :
  NoDup (l1 ++ b :: l2) → filter (λ x, x ≠ b) (l1 ++ b :: l2) = l1 ++ l2.
Proof.
  intros (_ & Hd & Hn)%NoDup_app. apply NoDup_cons in Hn as [Hn _].
  rewrite filter_app, filter_cons_False by naive_solver.
  rewrite !filter_id; [done| |]; intros x Hx ->; [done|].
  by apply (Hd _ Hx); left.
Qed.

Definition agrees (o : qop) (s : qstate) (l : list loc) : Prop :=
  let '(r, s') := run_op o s in
  let '(r0, l') := spec_op o l in
  r = r0 ∧ queue_rep s' l' ∧ frame_ok s s'.

Lemma agrees_ok o s l r0 l' :
  spec_op o l = (Ok r0, l') →
  ok (run_op o) s (λ r s', r = r0 ∧ queue_rep s' l' ∧ frame_ok s s') → agrees o s l.
Proof.
  unfold agrees, ok. intros ->. destruct (run_op o s) as [[a|e] s']; [|done].
  by intros (-> & ? & ?).
Qed.

Lemma step_agrees D o s l :
  queue_rep s l → pool_objects s D → op_pre D o l → agrees o s l.
Proof.
  intros Hrep HD Hpre. destruct o as [|n|b|b|bs|bs|]; simpl in Hpre.
  - destruct l as [|b l].
    + unfold agrees, run_op, bind. by rewrite popleft_raises.
    + eapply agrees_ok; [done|]. simpl. ok_step.
      eapply ok_mono; [by apply popleft_ok|]. by intros ? s' (-> & ? & ?).
  - destruct (decide (len l < n)).
    + unfold agrees. simpl. rewrite (popleft_n_raises _ l), (proj2 (Z.ltb_lt _ _)) by done. done.
    + eapply agrees_ok; [simpl; by rewrite (proj2 (Z.ltb_ge _ _)) by lia|].
      apply popleft_n_ok; [done|lia].
  - destruct (HD b Hpre) as ([blk Hblk] & ? & ?).
    destruct (decide (b ∈ l)) as [Hb|Hb].
    + apply list_elem_of_split in Hb as (l1 & l2 & ->).
      assert (NoDup (l1 ++ b :: l2)) as Hnd.
      { destruct Hrep as [Hnd _ _ _ _]. apply NoDup_cons in Hnd as [_ Hnd].
        by apply NoDup_app in Hnd as [? _]. }
      eapply agrees_ok; [simpl; by rewrite decide_True by set_solver|].
      simpl. ok_step. rewrite filter_remove by done.
      eapply ok_mono; [by apply remove_ok|]. intros ? s' [??]. by apply ok_ret.
    + unfold agrees, run_op, bind, spec_op.
      by rewrite (remove_raises _ l b blk), decide_False.
  - eapply agrees_ok; [done|]. simpl. ok_step. eapply ok_mono; [apply append_ok; [done|]|by intros ? s' [??]].
    eapply pool_objects_fresh; [done|apply NoDup_singleton|].
    by intros x ->%list_elem_of_singleton.
  - eapply agrees_ok; [done|]. simpl. ok_step. eapply ok_mono; [apply append_n_ok; [done|]|by intros ? s' [??]].
    eapply pool_objects_fresh; [done|apply Hpre|]. apply Forall_forall, Hpre.
  - eapply agrees_ok; [done|]. simpl. ok_step. eapply ok_mono; [apply prepend_n_ok; [done|]|by intros ? s' [??]].
    eapply pool_objects_fresh; [done|apply Hpre|]. apply Forall_forall, Hpre.
  - unfold agrees. simpl. by rewrite (get_all_free_blocks_ok _ l).
Qed.

(** A client's sequence of calls; it observes each outcome, and a raised
    exception does not stop it. *)
Fixpoint run_ops (os : list qop) (s : qstate) : list (res (list loc)) * qstate :=
  match os with
  | [] => ([], s)
  | o :: os =>
      let '(r, s1) := run_op o s in
      let '(rs, s2) := run_ops os s1 in (r :: rs, s2)
  end.

Fixpoint spec_ops (os : list qop) (l : list loc) : list (res (list loc)) * list loc :=
  match os with
  | [] => ([], l)
  | o :: os =>
      let '(r, l1) := spec_op o l in
      let '(rs, l2) := spec_ops os l1 in (r :: rs, l2)
  end.

Fixpoint ops_pre (D : list loc) (os : list qop) (l : list loc) : Prop :=
  match os with
  | [] => True
  | o :: os => op_pre D o l ∧ ops_pre D os (spec_op o l).2
  end.
#[export] Instance ops_pre_dec D os l : Decision (ops_pre D os l).
Proof. revert l. induction os; intros l; simpl; apply _. Defined.

Lemma ops_agree D os s l :
  queue_rep s l → pool_objects s D → ops_pre D os l →
  (run_ops os s).1 = (spec_ops os l).1 ∧
  queue_rep (run_ops os s).2 (spec_ops os l).2 ∧ frame_ok s (run_ops os s).2.
Proof.
  revert s l. induction os as [|o os IH]; intros s l Hrep HD Hpre; simpl; [done|].
  destruct Hpre as [Ho Hos]. pose proof (step_agrees D o s l Hrep HD Ho) as Ha.
  unfold agrees in Ha. destruct (run_op o s) as [r s1], (spec_op o l) as [r0 l1].
  destruct Ha as (-> & Hrep1 & Hfr).
  destruct (IH s1 l1) as (H1 & H2 & H3); [done|by eapply pool_objects_frame|done|].
  destruct (run_ops os s1), (spec_ops os l1). simpl in *. subst.
  split_and!; [done|done|by etransitivity].
Qed.


(** C12: From construction on, any sequence of queue calls whose callers queue
    only pool blocks that are not queued returns, call by call, what the
    abstract list of blocks returns (raised exceptions included); afterwards
    [get_all_free_blocks] walks exactly the abstract list, [num_free_blocks]
    is its length, and nothing but links was changed in the store. *)
Theorem free_queue_refines_list n os :
  ops_pre (range 0 n) os (range 0 n) →
  ∃ s0, queue_init (range 0 n) (new_blocks_state n) = (Ok tt, s0) ∧
    let '(rs, s) := run_ops os s0 in
    let '(rs', l) := spec_ops os (range 0 n) in
    rs = rs' ∧ get_all_free_blocks s = (Ok l, s) ∧
    num_free_blocks (queue s) = len l ∧ same_core (mem s0) (mem s).
Proof.
  intros Hpre. destruct (ok_inv _ _ _ (queue_init_new n)) as ([] & s0 & Hrun & Hrep & Hq & Hs).
  exists s0. split; [done|].
  assert (pool_objects s0 (range 0 n)) as HD.
  { intros b Hb%elem_of_range. rewrite Hq. simpl.
    specialize (Hs b ltac:(lia) ltac:(lia)). rewrite decide_True in Hs by done.
    split_and!; [|lia..]. destruct (mem s0 !! b); [eauto|done]. }
  destruct (ops_agree _ os s0 _ Hrep HD Hpre) as (H1 & H2 & H3).
  destruct (run_ops os s0), (spec_ops os (range 0 n)). simpl in *.
  split_and!; [done|by apply get_all_free_blocks_ok|apply H2|apply H3].
Qed.

Definition demo_ops : list qop :=
  [OpPopleft; OpPopleftN 2; OpRemove 4; OpAppendN [2; 0]; OpPrependN [1];
   OpRemove 4; OpPopleftN 9; OpAppend 4].

Lemma free_queue_refines_list_witness :
  ops_pre (range 0 6) demo_ops (range 0 6) ∧
  ∃ s0, queue_init (range 0 6) (new_blocks_state 6) = (Ok tt, s0) ∧
    let '(rs, s) := run_ops demo_ops s0 in
    let '(rs', l) := spec_ops demo_ops (range 0 6) in
    rs = rs' ∧ get_all_free_blocks s = (Ok l, s) ∧
    num_free_blocks (queue s) = len l ∧ same_core (mem s0) (mem s).
Proof.
  assert (ops_pre (range 0 6) demo_ops (range 0 6)) as Hpre.
  { apply (bool_decide_unpack _). vm_compute. exact I. }
  split; [exact Hpre|]. exact (free_queue_refines_list 6 demo_ops Hpre).
Defined.

End Refinement.
