(* ===== verification/BlockHash.v ===== *)
(** * Block-hash keys

    The byte-level keys of the prefix cache
    (src/vllm/vllm/v1/core/kv_cache_utils.py): packing a block hash with its
    KV-cache group id and unpacking it, the external form of a hash, the hash
    of a block's contents, and [BlockHashListWithBlockSize], which reads a list
    of hashes at a coarser block size.

    The functions the code receives from outside (hash functions, the hash
    seed, environment switches) are the class [HashEnv]. *)

From S2P Require Import Prelude FreeQueue.

(** Extra keys that enter a block hash: a multimodal item with its offset, a
    LoRA name or a cache salt, the digest of prompt embeddings. *)
Inductive extra_key : Type :=
| KeyMM (identifier : string) (offset : Z)
| KeyStr (s : string)
| KeyBytes (b : bytes).

#[export] Instance extra_key_eq_dec : EqDecision extra_key.
Proof. solve_decision. Defined.

(** The argument of the caching hash function. *)
Abbreviation hash_input := (bytes * list Z * option (list extra_key))%type (only parsing).

Class HashEnv : Type := {
  caching_hash_fn : hash_input → bytes;
  sha256_digest : bytes → bytes;
  NONE_HASH : bytes;
  VLLM_KV_EVENTS_USE_INT_BLOCK_HASHES : bool
}.

(** ** Integers as bytes *)

(** [n.to_bytes(k, "big", signed=False)], least significant byte first before
    the reversal. *)
Fixpoint le_bytes (k : nat) (n : Z) : bytes :=
  match k with
  | O => []
  | S k => n mod 256 :: le_bytes k (n / 256)
  end.

Definition to_bytes {S} (k : nat) (n : Z) : M S bytes :=
  if (0 <=? n) && (n <? 256 ^ Z.of_nat k) then ret (rev (le_bytes k n))
  else raise OverflowError.

(** [int.from_bytes(b, "big", signed=False)] *)
Definition from_bytes (b : bytes) : Z := fold_left (λ acc x, acc * 256 + x) b 0.

(** ** Packing *)

Definition make_block_hash_with_group_id {S} (block_hash : bytes) (group_id : Z) : M S bytes :=
  let* g := to_bytes 4 group_id in ret (block_hash ++ g).

Definition get_block_hash (key : bytes) : bytes := slice_to key (-4).

Definition get_group_id (key : bytes) : Z := from_bytes (slice_from key (-4)).

(** [ExternalBlockHash = bytes | int] *)
Inductive ExternalBlockHash : Type :=
| HashBytes (b : bytes)
| HashInt (n : Z).

#[export] Instance ExternalBlockHash_eq_dec : EqDecision ExternalBlockHash.
Proof. solve_decision. Defined.

Definition maybe_convert_block_hash `{HashEnv} (hash_bytes : bytes) : ExternalBlockHash :=
  if negb VLLM_KV_EVENTS_USE_INT_BLOCK_HASHES then HashBytes hash_bytes
  else HashInt (Z.land (from_bytes hash_bytes) (Z.shiftl 1 64 - 1)).

(** ** Hashing a block *)

(** [None] and the empty string are both falsy. *)
Definition hash_block_tokens `{HashEnv} (parent_block_hash : option bytes)
    (curr_block_token_ids : list Z) (extra_keys : option (list extra_key)) : bytes :=
  let parent := match parent_block_hash with
                | None | Some [] => NONE_HASH
                | Some h => h
                end in
  caching_hash_fn (parent, curr_block_token_ids, extra_keys).

(** ** [BlockHashListWithBlockSize] *)

Record BlockHashListWithBlockSize : Type := MkBHL {
  bhl_block_hashes : list bytes;
  scale_factor : Z
}.

Definition bhl_init {S} (block_hashes : list bytes) (hash_block_size target_block_size : Z)
  : M S BlockHashListWithBlockSize :=
  assert_ (target_block_size mod hash_block_size =? 0) ;;;
  ret (MkBHL block_hashes (target_block_size / hash_block_size)).

Definition bhl_len (l : BlockHashListWithBlockSize) : Z :=
  len (bhl_block_hashes l) / scale_factor l.

(** [_get_value_at] *)
Definition bhl_get_value_at (l : BlockHashListWithBlockSize) (idx : Z) : bytes :=
  let base := idx * scale_factor l in
  let end_ := base + scale_factor l in
  concat (slice (bhl_block_hashes l) base end_).

(** [l[a:]]: [slice.indices] clamps against [len(self)]. *)
Definition bhl_slice_from (l : BlockHashListWithBlockSize) (a : Z) : list bytes :=
  bhl_get_value_at l <$> range (py_bound (bhl_len l) a) (bhl_len l).

(** [__iter__] *)
Definition bhl_iter (l : BlockHashListWithBlockSize) : list bytes :=
  bhl_get_value_at l <$> range 0 (bhl_len l).

(** [BlockHashList = list[BlockHash] | BlockHashListWithBlockSize], and the
    operations the managers use on it.  Indexing a coarse list computes a
    slice and never fails; indexing a plain list past its end does. *)
Inductive BlockHashList : Type :=
| PlainHashes (l : list bytes)
| CoarseHashes (l : BlockHashListWithBlockSize).

Definition hashes_nth {S} (l : BlockHashList) (i : Z) : M S bytes :=
  match l with
  | PlainHashes l => or_raise IndexError (py_nth l i)
  | CoarseHashes l => ret (bhl_get_value_at l i)
  end.
Definition hashes_from (l : BlockHashList) (a : Z) : list bytes :=
  match l with
  | PlainHashes l => slice_from l a
  | CoarseHashes l => bhl_slice_from l a
  end.
Definition hashes_iter (l : BlockHashList) : list bytes :=
  match l with
  | PlainHashes l => l
  | CoarseHashes l => bhl_iter l
  end.

(** ** Byte strings round-trip *)

Definition is_byte (x : Z) : Prop := 0 ≤ x < 256.

Lemma length_le_bytes k n : length (le_bytes k n) = k.
Proof. revert n. induction k as [|k IH]; intros n; simpl; by rewrite ?IH. Qed.

Lemma le_bytes_are_bytes k n : Forall is_byte (le_bytes k n).
Proof.
  revert n. induction k as [|k IH]; intros n; simpl; constructor; [|apply IH].
  apply Z.mod_pos_bound. lia.
Qed.

Lemma from_bytes_snoc b x : from_bytes (b ++ [x]) = from_bytes b * 256 + x.
Proof. unfold from_bytes. by rewrite fold_left_app. Qed.

Lemma from_le_bytes k n : 0 ≤ n < 256 ^ Z.of_nat k → from_bytes (rev (le_bytes k n)) = n.
Proof.
  revert n. induction k as [|k IH]; intros n Hn.
  { change (256 ^ Z.of_nat 0) with 1 in Hn. simpl. change (from_bytes []) with 0. lia. }
  cbn [le_bytes rev]. rewrite from_bytes_snoc, IH.
  - pose proof (Z.div_mod n 256 ltac:(lia)). lia.
  - rewrite Nat2Z.inj_succ, Z.pow_succ_r in Hn by lia.
    split; [apply Z.div_pos; lia|]. apply Z.div_lt_upper_bound; lia.
Qed.

Lemma from_bytes_bound b :
  Forall is_byte b → 0 ≤ from_bytes b < 256 ^ Z.of_nat (length b).
Proof.
  induction b as [|x b IH] using rev_ind; [done|].
  intros [Hb [Hx _]%Forall_cons]%Forall_app. rewrite from_bytes_snoc, length_app.
  rewrite Nat2Z.inj_add, Z.pow_add_r by lia. specialize (IH Hb). unfold is_byte in Hx.
  change (256 ^ Z.of_nat (length [x])) with 256. lia.
Qed.

Lemma from_bytes_inj b1 b2 :
  Forall is_byte b1 → Forall is_byte b2 → length b1 = length b2 →
  from_bytes b1 = from_bytes b2 → b1 = b2.
Proof.
  revert b2. induction b1 as [|x b1 IH] using rev_ind; intros b2 H1 H2 Hl Heq.
  { by destruct b2. }
  destruct b2 as [|y b2 _] using rev_ind; [rewrite length_app in Hl; simpl in Hl; lia|].
  rewrite !from_bytes_snoc in Heq. rewrite !length_app in Hl. simpl in Hl.
  apply Forall_app in H1 as [H1 [Hx _]%Forall_cons]. apply Forall_app in H2 as [H2 [Hy _]%Forall_cons].
  unfold is_byte in *. assert (x = y) as -> by lia. f_equal. apply IH; try done; lia.
Qed.

(** A successful packing. *)
Lemma make_key_eq {S} h g (s : S) :
  0 ≤ g < 2 ^ 32 →
  make_block_hash_with_group_id h g s = (Ok (h ++ rev (le_bytes 4 g)), s).
Proof.
  intros Hg. unfold make_block_hash_with_group_id, to_bytes, bind.
  rewrite (proj2 (Z.leb_le _ _)), (proj2 (Z.ltb_lt _ _)) by (change (256 ^ Z.of_nat 4) with (2 ^ 32); lia). done.
Qed.

(** The key as a function of a valid group id. *)
Definition block_key (h : bytes) (g : Z) : bytes := h ++ rev (le_bytes 4 g).

Lemma length_rev_le_bytes k n : length (rev (le_bytes k n)) = k.
Proof. by rewrite length_rev, length_le_bytes. Qed.

Lemma get_block_hash_key h g : get_block_hash (block_key h g) = h.
Proof.
  unfold get_block_hash, slice_to, slice, py_bound, block_key, len.
  rewrite length_app, length_rev_le_bytes. cbn [Z.ltb Z.compare].
  rewrite Z.min_l, drop_0 by lia. rewrite take_app_length'; [done|]. lia.
Qed.

Lemma get_group_id_key h g : 0 ≤ g < 2 ^ 32 → get_group_id (block_key h g) = g.
Proof.
  intros Hg. unfold get_group_id, slice_from, slice, py_bound, block_key, len.
  rewrite length_app, length_rev_le_bytes. cbn [Z.ltb Z.compare].
  rewrite (proj2 (Z.ltb_ge _ _)) by lia.
  rewrite drop_app_length' by lia.
  rewrite take_ge by (rewrite length_rev_le_bytes; lia).
  apply from_le_bytes. change (256 ^ Z.of_nat 4) with (2 ^ 32). lia.
Qed.

Lemma block_key_inj h1 g1 h2 g2 :
  0 ≤ g1 < 2 ^ 32 → 0 ≤ g2 < 2 ^ 32 →
  block_key h1 g1 = block_key h2 g2 → h1 = h2 ∧ g1 = g2.
Proof.
  intros Hg1 Hg2 Heq. split.
  - by rewrite <-(get_block_hash_key h1 g1), Heq, get_block_hash_key.
  - by rewrite <-(get_group_id_key h1 g1 Hg1), Heq, get_group_id_key.
Qed.

(** ** A hash environment for examples: the encoding of the input as a number,
    after a marker byte that the seed does not have. *)

#[export] Instance extra_key_countable : Countable extra_key.
Proof.
  refine (inj_countable'
    (λ k, match k with
          | KeyMM i o => inl (i, o)
          | KeyStr s => inr (inl s)
          | KeyBytes b => inr (inr b)
          end)
    (λ x, match x with
          | inl (i, o) => KeyMM i o
          | inr (inl s) => KeyStr s
          | inr (inr b) => KeyBytes b
          end) _).
  by intros [].
Defined.

Definition injective_env : HashEnv := {|
  caching_hash_fn := λ x, [1; Zpos (encode x)];
  sha256_digest := λ b, b;
  NONE_HASH := [0];
  VLLM_KV_EVENTS_USE_INT_BLOCK_HASHES := false
|}.

(** C15: Packing a block hash with its group id.  A group id of 32 bits packs,
    and both parts come back from the key; any other group id raises
    OverflowError. *)
Theorem block_hash_key_roundtrip {S} h g (s : S) :
  if decide (0 ≤ g < 2 ^ 32)
  then ∃ key, make_block_hash_with_group_id h g s = (Ok key, s) ∧
    get_block_hash key = h ∧ get_group_id key = g ∧ len key = len h + 4
  else make_block_hash_with_group_id h g s = (Err OverflowError, s).
Proof.
  case_decide as Hg.
  - exists (block_key h g). split_and!.
    + by apply make_key_eq.
    + apply get_block_hash_key.
    + by apply get_group_id_key.
    + unfold block_key, len. rewrite length_app, length_rev_le_bytes. lia.
  - unfold make_block_hash_with_group_id, to_bytes, bind.
    change (256 ^ Z.of_nat 4) with (2 ^ 32).
    destruct (Z.leb_spec 0 g), (Z.ltb_spec g (2 ^ 32)); simpl; done || lia.
Qed.
