(* ===== verification/Request.v ===== *)
(** * Requests and their block hashes

    [Request] (src/vllm/vllm/v1/request.py) with its status machine, its token
    lists and its incremental block hashes, and the extra keys that enter a
    block hash (src/vllm/vllm/v1/core/kv_cache_utils.py).  Methods of a request
    are computations on the request object. *)

From S2P Require Import Prelude FreeQueue BlockHash.

(** ** Status *)

(** The constructors are in the order of the [IntEnum]. *)
Inductive RequestStatus : Type :=
| WAITING
| WAITING_FOR_STRUCTURED_OUTPUT_GRAMMAR
| WAITING_FOR_REMOTE_KVS
| WAITING_FOR_STREAMING_REQ
| RUNNING
| PREEMPTED
| FINISHED_STOPPED
| FINISHED_LENGTH_CAPPED
| FINISHED_ABORTED
| FINISHED_IGNORED
| FINISHED_ERROR
| FINISHED_REPETITION.

#[export] Instance RequestStatus_eq_dec : EqDecision RequestStatus.
Proof. solve_decision. Defined.

(** [enum.auto()] counts from 1. *)
Definition status_value (st : RequestStatus) : Z :=
  match st with
  | WAITING => 1
  | WAITING_FOR_STRUCTURED_OUTPUT_GRAMMAR => 2
  | WAITING_FOR_REMOTE_KVS => 3
  | WAITING_FOR_STREAMING_REQ => 4
  | RUNNING => 5
  | PREEMPTED => 6
  | FINISHED_STOPPED => 7
  | FINISHED_LENGTH_CAPPED => 8
  | FINISHED_ABORTED => 9
  | FINISHED_IGNORED => 10
  | FINISHED_ERROR => 11
  | FINISHED_REPETITION => 12
  end.

Inductive FinishReason : Type := STOP | LENGTH | ABORT | ERROR | REPETITION.

#[export] Instance FinishReason_eq_dec : EqDecision FinishReason.
Proof. solve_decision. Defined.

Definition status_is_finished (st : RequestStatus) : bool :=
  status_value PREEMPTED <? status_value st.

(** [_FINISHED_REASON_MAP.get(status)] *)
Definition status_finished_reason (st : RequestStatus) : option FinishReason :=
  match st with
  | FINISHED_STOPPED => Some STOP
  | FINISHED_LENGTH_CAPPED => Some LENGTH
  | FINISHED_ABORTED => Some ABORT
  | FINISHED_IGNORED => Some LENGTH
  | FINISHED_ERROR => Some ERROR
  | WAITING_FOR_STREAMING_REQ => Some STOP
  | FINISHED_REPETITION => Some REPETITION
  | _ => None
  end.

(** ** Inputs of a request *)

(** [PlaceholderRange]; [is_embed] is the mask, [None] when every position
    takes an embedding. *)
Record PlaceholderRange : Type := MkPlaceholder {
  mm_offset : Z;
  mm_length : Z;
  mm_is_embed : option (list bool)
}.

Definition get_num_embeds (p : PlaceholderRange) : Z :=
  match mm_is_embed p with
  | None => mm_length p
  | Some mask => len (filter (λ b, b = true) mask)
  end.

Record MultiModalFeatureSpec : Type := MkMMFeature {
  identifier : string;
  mm_position : PlaceholderRange
}.

Record LoRARequest : Type := MkLoRA {
  lora_name : string;
  lora_int_id : Z
}.

Record RepetitionDetectionParams : Type := MkRepetition {
  max_pattern_size : Z;
  min_pattern_size : Z;
  min_count : Z
}.

Record SamplingParams : Type := MkSampling {
  sp_max_tokens : option Z;
  sp_min_tokens : Z;
  sp_eos_token_id : option Z;
  sp_stop_token_ids : list Z;
  sp_repetition_detection : option RepetitionDetectionParams;
  sp_skip_reading_prefix_cache : option bool
}.

Record PoolingParams : Type := MkPooling {
  pp_skip_reading_prefix_cache : option bool
}.

Inductive StopReason : Type :=
| StopToken (t : Z)
| StopString (s : string).

(** A prompt given as embeddings is the list of the raw bytes of its rows. *)
Record Request : Type := MkRequest {
  request_id : string;
  priority : Z;
  arrival_time : Z;
  sampling_params : option SamplingParams;
  pooling_params : option PoolingParams;
  lora_request : option LoRARequest;
  cache_salt : option string;
  mm_features : list MultiModalFeatureSpec;
  prompt_token_ids : option (list Z);
  prompt_embeds : option (list bytes);
  prompt_embeds_per_block_hashes : gmap (Z * Z) bytes;
  num_prompt_tokens : Z;
  output_token_ids : list Z;
  all_token_ids : list Z;
  spec_token_ids : list Z;
  num_computed_tokens : Z;
  num_preemptions : Z;
  max_tokens : Z;
  status : RequestStatus;
  stop_reason : option StopReason;
  block_hashes : list bytes;
  block_hasher : option Z (** the block size of [get_request_block_hasher] *);
  skip_reading_prefix_cache : bool
}.

(** ** Attribute updates *)

Definition set_tokens (out all : list Z) (r : Request) : Request :=
  MkRequest (request_id r) (priority r) (arrival_time r) (sampling_params r)
    (pooling_params r) (lora_request r) (cache_salt r) (mm_features r)
    (prompt_token_ids r) (prompt_embeds r) (prompt_embeds_per_block_hashes r)
    (num_prompt_tokens r) out all (spec_token_ids r) (num_computed_tokens r)
    (num_preemptions r) (max_tokens r) (status r) (stop_reason r)
    (block_hashes r) (block_hasher r) (skip_reading_prefix_cache r).
Definition set_hashes (hs : list bytes) (r : Request) : Request :=
  MkRequest (request_id r) (priority r) (arrival_time r) (sampling_params r)
    (pooling_params r) (lora_request r) (cache_salt r) (mm_features r)
    (prompt_token_ids r) (prompt_embeds r) (prompt_embeds_per_block_hashes r)
    (num_prompt_tokens r) (output_token_ids r) (all_token_ids r)
    (spec_token_ids r) (num_computed_tokens r)
    (num_preemptions r) (max_tokens r) (status r) (stop_reason r)
    hs (block_hasher r) (skip_reading_prefix_cache r).
Definition set_embed_memo (m : gmap (Z * Z) bytes) (r : Request) : Request :=
  MkRequest (request_id r) (priority r) (arrival_time r) (sampling_params r)
    (pooling_params r) (lora_request r) (cache_salt r) (mm_features r)
    (prompt_token_ids r) (prompt_embeds r) m
    (num_prompt_tokens r) (output_token_ids r) (all_token_ids r)
    (spec_token_ids r) (num_computed_tokens r)
    (num_preemptions r) (max_tokens r) (status r) (stop_reason r)
    (block_hashes r) (block_hasher r) (skip_reading_prefix_cache r).
Definition set_status (st : RequestStatus) (r : Request) : Request :=
  MkRequest (request_id r) (priority r) (arrival_time r) (sampling_params r)
    (pooling_params r) (lora_request r) (cache_salt r) (mm_features r)
    (prompt_token_ids r) (prompt_embeds r) (prompt_embeds_per_block_hashes r)
    (num_prompt_tokens r) (output_token_ids r) (all_token_ids r)
    (spec_token_ids r) (num_computed_tokens r)
    (num_preemptions r) (max_tokens r) st (stop_reason r)
    (block_hashes r) (block_hasher r) (skip_reading_prefix_cache r).
Definition set_stop_reason (sr : option StopReason) (r : Request) : Request :=
  MkRequest (request_id r) (priority r) (arrival_time r) (sampling_params r)
    (pooling_params r) (lora_request r) (cache_salt r) (mm_features r)
    (prompt_token_ids r) (prompt_embeds r) (prompt_embeds_per_block_hashes r)
    (num_prompt_tokens r) (output_token_ids r) (all_token_ids r)
    (spec_token_ids r) (num_computed_tokens r)
    (num_preemptions r) (max_tokens r) (status r) sr
    (block_hashes r) (block_hasher r) (skip_reading_prefix_cache r).

(** ** Properties of a request *)

Definition num_tokens (r : Request) : Z := len (all_token_ids r).
Definition num_tokens_with_spec (r : Request) : Z :=
  len (all_token_ids r) + len (spec_token_ids r).
Definition num_output_tokens (r : Request) : Z := len (output_token_ids r).
Definition num_encoder_inputs (r : Request) : Z := len (mm_features r).
Definition has_encoder_inputs (r : Request) : bool := 0 <? num_encoder_inputs r.
Definition is_finished (r : Request) : bool := status_is_finished (status r).
Definition get_finished_reason (r : Request) : option FinishReason :=
  status_finished_reason (status r).
Definition has_output_token_ids (token_ids : list Z) (r : Request) : bool :=
  bool_decide (output_token_ids r = token_ids).

Definition get_num_encoder_embeds (r : Request) (input_id : Z) : M unit Z :=
  assert_ (input_id <? len (mm_features r)) ;;;
  let* f := or_raise IndexError (py_nth (mm_features r) input_id) in
  ret (get_num_embeds (mm_position f)).

Definition get_skip_reading_prefix_cache
    (sp : option SamplingParams) (pp : option PoolingParams) : bool :=
  match sp ≫= sp_skip_reading_prefix_cache with
  | Some b => b
  | None => match pp ≫= pp_skip_reading_prefix_cache with Some b => b | None => false end
  end.

Definition length_from_prompt_token_ids_or_embeds {S}
    (ids : option (list Z)) (embeds : option (list bytes)) : M S Z :=
  match ids, embeds with
  | None, None => raise ValueError
  | None, Some e => ret (len e)
  | Some t, None => ret (len t)
  | Some t, Some e => if negb (len e =? len t) then raise ValueError else ret (len t)
  end.

(** ** Extra keys of a block *)

(** The [while] loop over the features from [curr_mm_idx] on; [fs] is the
    suffix [mm_features[curr_mm_idx:]]. *)
Fixpoint mm_keys_loop (start_token_idx end_token_idx : Z)
    (fs : list MultiModalFeatureSpec) (curr_mm_idx : Z) (extra_keys : list extra_key)
  : list extra_key * Z :=
  match fs with
  | [] => (extra_keys, curr_mm_idx)
  | f :: fs' =>
      let offset := mm_offset (mm_position f) in
      let length := mm_length (mm_position f) in
      if offset <? end_token_idx then
        if offset + length <=? start_token_idx then
          mm_keys_loop start_token_idx end_token_idx fs' (curr_mm_idx + 1) extra_keys
        else
          let extra_keys :=
            extra_keys ++ [KeyMM (identifier f) (offset - start_token_idx)] in
          if offset + length <=? end_token_idx then
            mm_keys_loop start_token_idx end_token_idx fs' (curr_mm_idx + 1) extra_keys
          else (extra_keys, curr_mm_idx)
      else (extra_keys, curr_mm_idx)
  end.

(** [_gen_mm_extra_hash_keys] *)
Definition gen_mm_extra_hash_keys (start_token_idx end_token_idx start_mm_idx : Z)
  : M Request (list extra_key * Z) :=
  let* fs := gets mm_features in
  match last fs with
  | None => ret ([], start_mm_idx)
  | Some f =>
      let last_pos := mm_position f in
      if mm_offset last_pos + mm_length last_pos <=? start_token_idx then
        ret ([], start_mm_idx)
      else
        let* start_mm_idx :=
          if start_mm_idx <? 0 then
            assert_ (- start_mm_idx <=? len fs) ;;; ret (len fs + start_mm_idx)
          else ret start_mm_idx in
        ret (mm_keys_loop start_token_idx end_token_idx
               (slice_from fs start_mm_idx) start_mm_idx [])
  end.

(** [_gen_lora_extra_hash_keys] *)
Definition gen_lora_extra_hash_keys : M Request (list extra_key) :=
  let* l := gets lora_request in
  ret (match l with None => [] | Some l => [KeyStr (lora_name l)] end).

Section hashing.
Context `{HashEnv}.

(** [_gen_prompt_embeds_extra_hash_keys]: the digest is memoised per block. *)
Definition gen_prompt_embeds_extra_hash_keys (start_token_idx end_token_idx : Z)
  : M Request (list extra_key) :=
  let* e := gets prompt_embeds in
  match e with
  | None => ret []
  | Some rows =>
      let block_range := (start_token_idx, end_token_idx) in
      let* memo := gets prompt_embeds_per_block_hashes in
      match memo !! block_range with
      | Some h => ret [KeyBytes h]
      | None =>
          let h := sha256_digest (concat (slice rows start_token_idx end_token_idx)) in
          modify (set_embed_memo (<[block_range := h]> memo)) ;;;
          ret [KeyBytes h]
      end
  end.

Definition generate_block_hash_extra_keys
    (start_token_idx end_token_idx start_mm_idx : Z)
  : M Request (option (list extra_key) * Z) :=
  let* mm := gen_mm_extra_hash_keys start_token_idx end_token_idx start_mm_idx in
  let '(mm_extra_keys, new_start_mm_idx) := mm in
  let* lora_extra_keys := gen_lora_extra_hash_keys in
  let* salt := gets cache_salt in
  let cache_salt_keys :=
    match salt with
    | Some s => if (start_token_idx =? 0) && negb (String.eqb s EmptyString)
                then [KeyStr s] else []
    | None => []
    end in
  let* prompt_embeds_keys :=
    gen_prompt_embeds_extra_hash_keys start_token_idx end_token_idx in
  let extra_keys :=
    lora_extra_keys ++ mm_extra_keys ++ cache_salt_keys ++ prompt_embeds_keys in
  match extra_keys with
  | [] => ret (None, new_start_mm_idx)
  | _ => ret (Some extra_keys, new_start_mm_idx)
  end.

(** The [while True] loop of [request_block_hasher]; every iteration moves
    [start_token_idx] by the block size. *)
Fixpoint hasher_loop (fuel : nat) (block_size num_tokens start_token_idx curr_mm_idx : Z)
    (prev_block_hash_value : option bytes) (new_block_hashes : list bytes)
  : M Request (list bytes) :=
  match fuel with
  | O => raise OutOfFuel
  | S fuel =>
      let end_token_idx := start_token_idx + block_size in
      if num_tokens <? end_token_idx then ret new_block_hashes
      else
        let* ek := generate_block_hash_extra_keys start_token_idx end_token_idx curr_mm_idx in
        let '(extra_keys, curr_mm_idx) := ek in
        let* toks := gets all_token_ids in
        let block_tokens := slice toks start_token_idx end_token_idx in
        let block_hash := hash_block_tokens prev_block_hash_value block_tokens extra_keys in
        hasher_loop fuel block_size num_tokens (start_token_idx + block_size) curr_mm_idx
          (Some block_hash) (new_block_hashes ++ [block_hash])
  end.

(** [get_request_block_hasher(block_size, caching_hash_fn)] *)
Definition request_block_hasher (block_size : Z) : M Request (list bytes) :=
  let* hashes := gets block_hashes in
  let* num_tokens := gets num_tokens in
  let start_token_idx := len hashes * block_size in
  if num_tokens <? start_token_idx + block_size then ret []
  else
    let curr_mm_idx := if 0 <? start_token_idx then -1 else 0 in
    let prev_block_hash_value := last hashes in
    hasher_loop (S (Z.to_nat num_tokens)) block_size num_tokens
      start_token_idx curr_mm_idx prev_block_hash_value [].

Definition update_block_hashes : M Request unit :=
  let* hasher := gets block_hasher in
  match hasher with
  | None => ret tt
  | Some block_size =>
      let* new := request_block_hasher block_size in
      modify (λ r, set_hashes (block_hashes r ++ new) r)
  end.

Definition append_output_token_ids (token_ids : list Z) : M Request unit :=
  modify (λ r, set_tokens (output_token_ids r ++ token_ids) (all_token_ids r ++ token_ids) r) ;;;
  update_block_hashes.

(** The prompt part of [_all_token_ids]. *)
Definition prompt_tokens_or_zeros (r : Request) : list Z :=
  match prompt_token_ids r with
  | Some ids => ids
  | None => replicate (Z.to_nat (num_prompt_tokens r)) 0
  end.

Definition reset_output_token_ids (token_ids : list Z) : M Request unit :=
  modify (λ r, set_tokens token_ids (prompt_tokens_or_zeros r ++ token_ids) r) ;;;
  modify (set_hashes []) ;;;
  update_block_hashes.

(** [Request.__init__] on the modelled attributes. *)
Definition Request_init (rid : string) (ids : option (list Z))
    (sp : option SamplingParams) (pp : option PoolingParams) (arrival prio : Z)
    (embeds : option (list bytes)) (mm : list MultiModalFeatureSpec)
    (lora : option LoRARequest) (salt : option string)
    (structured : bool) (hasher : option Z) : M unit Request :=
  let* mx :=
    match pp, sp with
    | Some _, _ => ret (1, WAITING)
    | None, Some sp =>
        let* m := or_raise AssertionError (sp_max_tokens sp) in
        ret (m, if structured then WAITING_FOR_STRUCTURED_OUTPUT_GRAMMAR else WAITING)
    | None, None => raise ValueError
    end in
  let* n := length_from_prompt_token_ids_or_embeds ids embeds in
  let all := match ids with Some t => t | None => replicate (Z.to_nat n) 0 end in
  let r := MkRequest rid prio arrival sp pp lora salt mm ids embeds ∅ n [] all [] 0 0
             mx.1 mx.2 None [] hasher (get_skip_reading_prefix_cache sp pp) in
  match update_block_hashes r with
  | (Ok _, r') => ret r'
  | (Err e, _) => raise e
  end.
End hashing.
