(* ===== verification/HashChain.v ===== *)
(** * Block hashes identify prefixes

    What [request_block_hasher] (src/vllm/vllm/v1/core/kv_cache_utils.py)
    computes: the chain of hashes of the request's full blocks, each block
    contributing its tokens and its extra keys.  The incremental computation
    agrees with the computation from scratch, and under a collision-free hash
    function equal block hashes mean equal prefixes. *)

From stdpp Require Import sorting.
From S2P Require Import Prelude FreeQueue BlockHash Request.

(** ** The reference definition *)

Definition mm_end (f : MultiModalFeatureSpec) : Z :=
  mm_offset (mm_position f) + mm_length (mm_position f).

(** Items in prompt order, not overlapping. *)
Definition mm_sorted (fs : list MultiModalFeatureSpec) : Prop :=
  Forall (λ f, 0 ≤ mm_length (mm_position f)) fs ∧
  StronglySorted (λ f g, mm_end f ≤ mm_offset (mm_position g)) fs.

(** The items that reach into the block [s, e). *)
Definition mm_keys_of (fs : list MultiModalFeatureSpec) (s e : Z) : list extra_key :=
  (λ f, KeyMM (identifier f) (mm_offset (mm_position f) - s)) <$>
    filter (λ f, mm_offset (mm_position f) < e ∧ s < mm_end f) fs.

Section chain.
Context `{HashEnv}.

Definition embed_digest (rows : list bytes) (s e : Z) : bytes :=
  sha256_digest (concat (slice rows s e)).

Definition keys_of (r : Request) (s e : Z) : option (list extra_key) :=
  let keys :=
    match lora_request r with None => [] | Some l => [KeyStr (lora_name l)] end
    ++ mm_keys_of (mm_features r) s e
    ++ match cache_salt r with
       | Some salt => if (s =? 0) && negb (String.eqb salt EmptyString) then [KeyStr salt] else []
       | None => []
       end
    ++ match prompt_embeds r with
       | None => []
       | Some rows => [KeyBytes (embed_digest rows s e)]
       end in
  match keys with [] => None | _ => Some keys end.

(** What identifies block [i]: its tokens and its extra keys. *)
Definition block_content (r : Request) (bs i : Z) : list Z * option (list extra_key) :=
  (slice (all_token_ids r) (i * bs) (i * bs + bs), keys_of r (i * bs) (i * bs + bs)).

Fixpoint hash_chain (prev : option bytes) (cs : list (list Z * option (list extra_key)))
  : list bytes :=
  match cs with
  | [] => []
  | (toks, keys) :: cs' =>
      let h := hash_block_tokens prev toks keys in h :: hash_chain (Some h) cs'
  end.

Definition full_blocks (r : Request) (bs : Z) : list (list Z * option (list extra_key)) :=
  block_content r bs <$> range 0 (num_tokens r / bs).

(** The digests already computed are the digests of their blocks. *)
Definition memo_ok (r : Request) : Prop :=
  ∀ s e d rows, prompt_embeds_per_block_hashes r !! (s, e) = Some d →
    prompt_embeds r = Some rows → d = embed_digest rows s e.

(** ** Extra keys *)

Lemma mm_keys_of_nil_before fs s e :
  (∀ f, f ∈ fs → mm_end f ≤ s) → mm_keys_of fs s e = [].
Proof.
  intros Hf. unfold mm_keys_of. induction fs as [|f fs IH]; [done|].
  rewrite filter_cons_False by (pose proof (Hf f ltac:(left)); lia).
  apply IH. intros. apply Hf. by right.
Qed.

Lemma mm_keys_of_nil_after fs s e :
  (∀ f, f ∈ fs → e ≤ mm_offset (mm_position f)) → mm_keys_of fs s e = [].
Proof.
  intros Hf. unfold mm_keys_of. induction fs as [|f fs IH]; [done|].
  rewrite filter_cons_False by (pose proof (Hf f ltac:(left)); lia).
  apply IH. intros. apply Hf. by right.
Qed.

Lemma mm_sorted_cons f fs :
  mm_sorted (f :: fs) →
  0 ≤ mm_length (mm_position f) ∧ mm_sorted fs ∧
  ∀ g, g ∈ fs → mm_end f ≤ mm_offset (mm_position g) ∧ mm_end f ≤ mm_end g.
Proof.
  intros [[? Hl]%Forall_cons Hs]. inversion Hs as [|?? Hs' Hf]; subst.
  split_and!; [done|done|]. intros g Hg.
  rewrite Forall_forall in Hf, Hl. specialize (Hf g Hg). specialize (Hl g Hg).
  unfold mm_end in *. lia.
Qed.

Lemma mm_keys_loop_ok fs s e i acc :
  mm_sorted fs → s < e →
  ∃ k, mm_keys_loop s e fs i acc = (acc ++ mm_keys_of fs s e, i + Z.of_nat k) ∧
    (k ≤ length fs)%nat ∧ ∀ f, f ∈ take k fs → mm_end f ≤ e.
Proof.
  intros Hs Hse. revert i acc. induction fs as [|f fs IH]; intros i acc.
  { exists 0%nat. simpl. rewrite app_nil_r, Z.add_0_r. split_and!; [done|lia|].
    intros f Hf. by apply elem_of_nil in Hf. }
  apply mm_sorted_cons in Hs as (Hlen & Hs & Hf). specialize (IH Hs).
  cbn [mm_keys_loop]. fold (mm_end f). unfold mm_keys_of. rewrite filter_cons.
  destruct (Z.ltb_spec (mm_offset (mm_position f)) e) as [Ho|Ho].
  2: { exists 0%nat. rewrite decide_False by lia. fold (mm_keys_of fs s e).
       rewrite mm_keys_of_nil_after, app_nil_r, Z.add_0_r.
       - split_and!; [done|lia|]. intros g Hg. by apply elem_of_nil in Hg.
       - intros g Hg. specialize (Hf g Hg). unfold mm_end in *. lia. }
  destruct (Z.leb_spec (mm_end f) s) as [He|He].
  { destruct (IH (i + 1) acc) as (k & -> & Hk & Ht). exists (S k).
    rewrite decide_False by lia. split_and!; [f_equal; lia|simpl; lia|].
    intros g [->|Hg]%elem_of_cons; [lia|by apply Ht]. }
  rewrite decide_True by lia. rewrite fmap_cons.
  destruct (Z.leb_spec (mm_end f) e) as [He'|He'].
  - destruct (IH (i + 1) (acc ++ [KeyMM (identifier f) (mm_offset (mm_position f) - s)])) as (k & -> & Hk & Ht).
    exists (S k). rewrite <-app_assoc. split_and!; [f_equal; lia|simpl; lia|].
    intros g [->|Hg]%elem_of_cons; [lia|by apply Ht].
  - exists 0%nat. fold (mm_keys_of fs s e). rewrite mm_keys_of_nil_after, Z.add_0_r.
    + split_and!; [done|lia|]. intros g Hg. by apply elem_of_nil in Hg.
    + intros g Hg. specialize (Hf g Hg). lia.
Qed.

Lemma mm_keys_of_app fs1 fs2 s e :
  mm_keys_of (fs1 ++ fs2) s e = mm_keys_of fs1 s e ++ mm_keys_of fs2 s e.
Proof. unfold mm_keys_of. by rewrite filter_app, fmap_app. Qed.

Lemma mm_sorted_drop k fs : mm_sorted fs → mm_sorted (drop k fs).
Proof.
  revert k. induction fs as [|f fs IH]; intros k Hs; [by rewrite drop_nil|].
  destruct k as [|k]; [done|]. apply mm_sorted_cons in Hs as (_ & Hs & _). by apply IH.
Qed.

Lemma mm_sorted_last fs f g : mm_sorted fs → last fs = Some f → g ∈ fs → mm_end g ≤ mm_end f.
Proof.
  intros Hs Hl. destruct fs as [|x fs _] using rev_ind; [done|].
  rewrite last_snoc in Hl. injection Hl as ->. destruct Hs as [Hlen Hs].
  rewrite elem_of_app, list_elem_of_singleton. intros [Hg|Hg]; [|by subst].
  apply StronglySorted_app in Hs as (H1 & _).
  specialize (H1 g f Hg ltac:(by apply list_elem_of_singleton)).
  apply Forall_app in Hlen as [_ [Hlf _]%Forall_cons]. unfold mm_end in *. lia.
Qed.

(** The item index [idx] of the loop is safe for a block starting at [s]: the
    items before it have ended. *)
Definition idx_ok (fs : list MultiModalFeatureSpec) (s idx : Z) : Prop :=
  fs = [] ∨
  (- len fs ≤ idx ∧
   ∀ f, f ∈ take (Z.to_nat (if idx <? 0 then len fs + idx else idx)) fs → mm_end f ≤ s).

Lemma gen_mm_ok r s e idx :
  mm_sorted (mm_features r) → s < e → idx_ok (mm_features r) s idx →
  ok (gen_mm_extra_hash_keys s e idx) r (λ ki r', r' = r ∧
    ki.1 = mm_keys_of (mm_features r) s e ∧ idx_ok (mm_features r) e ki.2).
Proof.
  intros Hs Hse Hidx. unfold gen_mm_extra_hash_keys. ok_step. apply ok_gets.
  set (fs := mm_features r) in *. destruct (last fs) as [f|] eqn:Hl.
  2: { apply last_None in Hl. rewrite Hl. apply ok_ret. split_and!; [done..|by left]. }
  assert (fs ≠ []) as Hne by (by intros ->). destruct Hidx as [?|[Hlo Hidx]]; [done|].
  fold (mm_end f). destruct (Z.leb_spec (mm_end f) s) as [Hf|Hf].
  { apply ok_ret. split_and!; [done| |right; split; [done|]].
    - symmetry. apply mm_keys_of_nil_before. intros g Hg.
      pose proof (mm_sorted_last fs f g Hs Hl Hg). lia.
    - intros g Hg. specialize (Hidx g Hg). lia. }
  set (j := if idx <? 0 then len fs + idx else idx) in *.
  assert (0 ≤ j) as Hj by (unfold j; destruct (Z.ltb_spec idx 0); lia).
  ok_step. apply (ok_eq _ _ j r).
  { unfold j. destruct (Z.ltb_spec idx 0); [|done]. unfold bind, assert_.
    by rewrite (proj2 (Z.leb_le _ _)) by lia. }
  apply ok_ret. rewrite slice_from_nonneg by done.
  destruct (mm_keys_loop_ok (drop (Z.to_nat j) fs) s e j []) as (k & -> & Hk & Ht);
    [by apply mm_sorted_drop|done|].
  pose proof (len_nonneg fs).
  split_and!; [done| |right; split; [simpl; lia|]]; simpl.
  - rewrite <-(take_drop (Z.to_nat j) fs) at 2. rewrite mm_keys_of_app.
    by rewrite (mm_keys_of_nil_before (take _ _)).
  - rewrite (proj2 (Z.ltb_ge _ _)) by lia. intros g Hg.
    replace (Z.to_nat (j + Z.of_nat k)) with (Z.to_nat j + k)%nat in Hg by lia.
    rewrite <-take_take_drop in Hg. apply elem_of_app in Hg as [Hg|Hg].
    + specialize (Hidx g Hg). lia.
    + by apply Ht.
Qed.

(** Requests that differ only in the memo. *)
Definition same_but_memo (r r' : Request) : Prop :=
  ∃ m, r' = set_embed_memo m r.

#[export] Instance same_but_memo_preorder : PreOrder same_but_memo.
Proof.
  split.
  - intros r. exists (prompt_embeds_per_block_hashes r). by destruct r.
  - intros r1 r2 r3 [m1 ->] [m2 ->]. by exists m2.
Qed.

Lemma same_but_memo_content r r' bs i :
  same_but_memo r r' → block_content r' bs i = block_content r bs i.
Proof. by intros [m ->]. Qed.

(** Extra keys do not depend on the memo, nor on where a safe search starts. *)
Lemma generate_keys_ok r s e idx :
  mm_sorted (mm_features r) → s < e → idx_ok (mm_features r) s idx → memo_ok r →
  ok (generate_block_hash_extra_keys s e idx) r (λ ki r',
    ki.1 = keys_of r s e ∧ idx_ok (mm_features r) e ki.2 ∧ same_but_memo r r' ∧ memo_ok r').
Proof.
  intros Hs Hse Hidx Hm. unfold generate_block_hash_extra_keys. ok_step.
  eapply ok_mono; [by apply gen_mm_ok|]. intros [mk idx'] r' (-> & Hk & Hidx'). simpl in Hk, Hidx'.
  unfold gen_lora_extra_hash_keys. ok_steps.
  apply (ok_mono _ _ (λ ks r',
    ks = match prompt_embeds r with None => [] | Some rows => [KeyBytes (embed_digest rows s e)] end
    ∧ same_but_memo r r' ∧ memo_ok r')).
  - unfold gen_prompt_embeds_extra_hash_keys. ok_steps.
    destruct (prompt_embeds r) as [rows|] eqn:Hrows; [|by ok_steps]. ok_steps.
    destruct (prompt_embeds_per_block_hashes r !! (s, e)) as [d|] eqn:Hd; ok_steps.
    + by rewrite (Hm _ _ _ _ Hd Hrows).
    + split_and!; [done|by eexists|]. intros s' e' d rows' Hl Hr'. cbn in Hl, Hr'.
      apply lookup_insert_Some in Hl as [[[= <- <-] <-]|[_ Hl]]; [|by eapply Hm].
      rewrite Hrows in Hr'. by injection Hr' as ->.
  - intros ks r' (-> & Hsame & Hm'). subst mk. unfold keys_of.
    case_match eqn:Hkeys; ok_steps; split_and!; done.
Qed.

Lemma hasher_loop_ok fuel r bs k idx prev acc :
  0 < bs → mm_sorted (mm_features r) → memo_ok r → 0 ≤ k →
  idx_ok (mm_features r) (k * bs) idx → (Z.to_nat (num_tokens r / bs - k) < fuel)%nat →
  ok (hasher_loop fuel bs (num_tokens r) (k * bs) idx prev acc) r (λ hs r',
    hs = acc ++ hash_chain prev (block_content r bs <$> range k (num_tokens r / bs)) ∧
    same_but_memo r r' ∧ memo_ok r').
Proof.
  intros Hbs. revert r k idx prev acc. induction fuel as [|fuel IH];
    intros r k idx prev acc Hs Hm Hk Hidx Hfuel; [lia|]. cbn [hasher_loop].
  pose proof (Z.div_mod (num_tokens r) bs ltac:(lia)).
  pose proof (Z.mod_pos_bound (num_tokens r) bs ltac:(lia)).
  destruct (Z.ltb_spec (num_tokens r) (k * bs + bs)) as [Hlt|Hge].
  { apply ok_ret. rewrite range_nil by nia. simpl. rewrite app_nil_r. by split_and!. }
  assert (k < num_tokens r / bs) as Hk1 by nia.
  ok_step. eapply ok_mono; [apply generate_keys_ok; [done|nia|done..]|].
  intros [ks idx'] r1 (Hks & Hidx' & Hsame & Hm1). simpl in Hks, Hidx'. ok_steps.
  pose proof Hsame as [m Hr1].
  assert (all_token_ids r1 = all_token_ids r ∧ mm_features r1 = mm_features r ∧
    num_tokens r1 = num_tokens r) as (Ha & Hf & Hn) by by rewrite Hr1.
  replace (k * bs + bs) with ((k + 1) * bs) in * by lia. rewrite <-Hn.
  eapply ok_mono; [apply IH; rewrite ?Hf, ?Hn; try done; lia|].
  intros hs r2 (-> & Hsame2 & Hm2). rewrite Hn. split_and!; [|by etransitivity|done].
  rewrite (range_cons k) by done. rewrite fmap_cons, <-app_assoc. f_equal. subst ks.
  unfold block_content at 2. cbn [hash_chain app]. rewrite Ha.
  replace (k * bs + bs) with ((k + 1) * bs) by lia. do 2 f_equal.
  apply list_fmap_ext. intros _ i _. by apply same_but_memo_content.
Qed.

(** ** Hashes of a request *)

(** The hash list holds the hash of every full block. *)
Definition hashed (bs : Z) (r : Request) : Prop :=
  block_hasher r = Some bs ∧ mm_sorted (mm_features r) ∧ memo_ok r ∧
  block_hashes r = hash_chain None (full_blocks r bs).

Lemma length_hash_chain prev cs : length (hash_chain prev cs) = length cs.
Proof.
  revert prev. induction cs as [|[t k] cs IH]; intros prev; simpl; [done|]. by rewrite IH.
Qed.

Lemma hash_chain_app prev cs1 cs2 :
  hash_chain prev (cs1 ++ cs2)
  = hash_chain prev cs1
    ++ hash_chain (match last (hash_chain prev cs1) with Some h => Some h | None => prev end) cs2.
Proof.
  revert prev. induction cs1 as [|[t k] cs1 IH]; intros prev; [done|].
  cbn [hash_chain app]. rewrite IH. cbn [app]. do 3 f_equal.
  rewrite last_cons. by destruct (last _).
Qed.

(** From a hashed prefix of [k] blocks, [update_block_hashes] hashes the rest. *)
Lemma update_block_hashes_ok r bs k :
  0 < bs → block_hasher r = Some bs → mm_sorted (mm_features r) → memo_ok r →
  0 ≤ k ≤ num_tokens r / bs →
  block_hashes r = hash_chain None (block_content r bs <$> range 0 k) →
  (0 < k → ∀ f, f ∈ removelast (mm_features r) → mm_end f ≤ k * bs) →
  ok update_block_hashes r (λ _ r', hashed bs r' ∧
    same_but_memo r (set_hashes (block_hashes r) r')).
Proof.
  intros Hbs Hh Hs Hm Hk Hhs Hidx. unfold update_block_hashes. ok_steps. rewrite Hh.
  assert (len (block_hashes r) = k) as Hlen.
  { rewrite Hhs. unfold len. rewrite length_hash_chain, length_fmap, length_range. lia. }
  pose proof (range_app 0 k (num_tokens r / bs) Hk) as Hsplit.
  ok_step. eapply (ok_mono _ _ (λ hs r', block_hashes r ++ hs = hash_chain None (full_blocks r bs) ∧
    same_but_memo r r' ∧ memo_ok r')).
  - unfold request_block_hasher. ok_steps. rewrite Hlen.
    assert (hash_chain None (full_blocks r bs) = block_hashes r
      ++ hash_chain (last (block_hashes r)) (block_content r bs <$> range k (num_tokens r / bs))) as ->.
    { unfold full_blocks. rewrite Hsplit, fmap_app, hash_chain_app, <-Hhs. by destruct (last _). }
    pose proof (Z.div_mod (num_tokens r) bs ltac:(lia)).
    pose proof (Z.mod_pos_bound (num_tokens r) bs ltac:(lia)).
    pose proof (len_nonneg (all_token_ids r)) as Hnn. fold (num_tokens r) in Hnn.
    destruct (Z.ltb_spec (num_tokens r) (k * bs + bs)).
    + apply ok_ret. rewrite range_nil by nia. split_and!; done.
    + eapply ok_mono; [apply hasher_loop_ok; try done; [lia| |]|].
      * destruct (mm_features r) as [|f fs] eqn:Hfs; [by left|right].
        destruct (Z.ltb_spec 0 (k * bs)).
        -- split; [rewrite len_cons; pose proof (len_nonneg fs); lia|]. cbn [Z.ltb Z.compare].
           intros g Hg. apply Hidx; [nia|]. rewrite <-Hfs in *.
           replace (Z.to_nat (len (mm_features r) + -1)) with (pred (length (mm_features r))) in Hg
             by (unfold len; lia). by rewrite removelast_firstn_len.
        -- pose proof (len_nonneg (f :: fs)). split; [lia|]. intros g Hg. by apply elem_of_nil in Hg.
      * assert (num_tokens r / bs ≤ num_tokens r) by (apply Z.div_le_upper_bound; nia). lia.
      * intros hs r' (-> & ? & ?). done.
  - intros hs r' (Heq & [m ->] & Hm'). ok_steps. split; [|exists m; by destruct r].
    unfold hashed. split_and!; done.
Qed.

Lemma slice_app_l {A} (l l' : list A) a b :
  0 ≤ a ≤ b → b ≤ len l → slice (l ++ l') a b = slice l a b.
Proof.
  intros Ha Hb. unfold len in Hb. rewrite !slice_nonneg by lia.
  rewrite drop_app_le, take_app_le; [done|rewrite length_drop; lia|lia].
Qed.

Lemma content_append r bs i out new :
  0 < bs → 0 ≤ i → (i + 1) * bs ≤ num_tokens r →
  block_content (set_tokens out (all_token_ids r ++ new) r) bs i = block_content r bs i.
Proof.
  intros Hbs Hi Hle. unfold block_content. cbn [all_token_ids set_tokens].
  rewrite slice_app_l; [done|nia|]. unfold num_tokens in Hle. lia.
Qed.

(** At most the last multimodal item reaches beyond the hashed blocks. *)
Definition tail_has_last_item_only (bs : Z) (r : Request) : Prop :=
  0 < num_tokens r / bs →
  Forall (λ f, mm_end f ≤ num_tokens r / bs * bs) (removelast (mm_features r)).

(** [append_output_token_ids] changes the tokens, the hashes and the digest memo only. *)
Lemma append_output_ok bs r toks :
  0 < bs → hashed bs r → tail_has_last_item_only bs r →
  ∃ r', append_output_token_ids toks r = (Ok tt, r') ∧
    all_token_ids r' = all_token_ids r ++ toks ∧ output_token_ids r' = output_token_ids r ++ toks ∧
    block_hashes r' = hash_chain None (full_blocks r' bs) ∧
    len (block_hashes r') = num_tokens r' / bs ∧ hashed bs r' ∧
    ∃ m, r' = set_hashes (block_hashes r') (set_embed_memo m (set_tokens (output_token_ids r ++ toks) (all_token_ids r ++ toks) r)).
Proof.
  intros Hbs (Hh & Hs & Hm & Hhs) Htail.
  set (r1 := set_tokens (output_token_ids r ++ toks) (all_token_ids r ++ toks) r).
  pose proof (len_nonneg (all_token_ids r)) as Hnn. pose proof (len_nonneg toks) as Hnt.
  assert (num_tokens r1 = num_tokens r + len toks) as Hn1 by apply len_app.
  fold (num_tokens r) in Hnn.
  pose proof (Z.div_pos (num_tokens r) bs Hnn Hbs).
  pose proof (Z.mul_div_le (num_tokens r) bs Hbs).
  destruct (ok_inv _ _ _ (update_block_hashes_ok r1 bs (num_tokens r / bs) Hbs Hh Hs Hm
    ltac:(rewrite Hn1; split; [done|apply Z.div_le_mono; lia])
    ltac:(cbn; rewrite Hhs; f_equal; apply list_fmap_ext; intros ? i Hi;
          apply list_elem_of_lookup_2, elem_of_range in Hi; symmetry; apply content_append; [done|lia|nia])
    ltac:(intros Hk f Hf; specialize (Htail Hk); rewrite Forall_forall in Htail; by apply Htail)))
    as ([] & r' & Hrun & Hhashed & [m Hr']).
  assert (all_token_ids r' = all_token_ids r1 ∧ output_token_ids r' = output_token_ids r1) as [Ha Ho].
  { split.
    - by change (all_token_ids (set_hashes (block_hashes r1) r') = all_token_ids r1); rewrite Hr'.
    - by change (output_token_ids (set_hashes (block_hashes r1) r') = output_token_ids r1); rewrite Hr'. }
  exists r'. pose proof Hhashed as (_ & _ & _ & Hb). split_and!; try done.
  - rewrite Hb. unfold len, full_blocks. rewrite length_hash_chain, length_fmap, length_range.
    rewrite Z.sub_0_r, Z2Nat.id; [done|]. apply Z.div_pos; [apply len_nonneg|done].
  - exists m. transitivity (set_hashes (block_hashes r') (set_hashes (block_hashes r1) r')); [by destruct r'|].
    by rewrite Hr'.
Qed.

(** C13: Incremental hashing.  Appending generated tokens to a hashed request
    hashes exactly the blocks that became full, and the hash list is the one
    computed from scratch for the longer request, provided that at most the
    last multimodal item reaches beyond the blocks hashed before.  The proviso
    is needed: [two_items_same_hash] appends to a request without it. *)
Theorem append_output_hashed bs r toks :
  0 < bs → hashed bs r → tail_has_last_item_only bs r →
  ∃ r', append_output_token_ids toks r = (Ok tt, r') ∧
    all_token_ids r' = all_token_ids r ++ toks ∧ output_token_ids r' = output_token_ids r ++ toks ∧
    block_hashes r' = hash_chain None (full_blocks r' bs) ∧
    len (block_hashes r') = num_tokens r' / bs ∧ hashed bs r'.
Proof.
  intros Hbs Hh Ht. destruct (append_output_ok bs r toks Hbs Hh Ht) as (r' & ? & ? & ? & ? & ? & ? & _).
  by exists r'.
Qed.

Lemma Request_init_ok rid ids sp pp arrival prio embeds mm lora salt structured bs n :
  0 < bs → mm_sorted mm →
  (pp ≠ None ∨ ∃ sp', sp = Some sp' ∧ sp_max_tokens sp' ≠ None) →
  length_from_prompt_token_ids_or_embeds ids embeds tt = (Ok n, tt) →
  ∃ r, Request_init rid ids sp pp arrival prio embeds mm lora salt structured (Some bs) tt = (Ok r, tt) ∧
    num_tokens r = n ∧ output_token_ids r = [] ∧ hashed bs r.
Proof.
  intros Hbs Hs Hp Hn. unfold Request_init, bind.
  set (mx := match pp with Some _ => _ | None => _ end).
  assert (∃ v, mx tt = (Ok v, tt)) as [v ->].
  { unfold mx. destruct pp as [pp'|]; [by eexists|]. destruct Hp as [?|(sp' & -> & Hmax)]; [done|].
    unfold bind, or_raise. destruct (sp_max_tokens sp'); [by eexists|done]. }
  rewrite Hn. set (r0 := MkRequest _ _ _ _ _ _ _ _ _ _ _ _ _ _ _ _ _ _ _ _ _ _ _).
  assert (num_tokens r0 = n) as Hn0.
  { unfold num_tokens. cbn. unfold length_from_prompt_token_ids_or_embeds in Hn.
    destruct ids as [ids|], embeds as [e|]; repeat case_match; inversion Hn; subst; try done.
    unfold len. rewrite length_replicate. lia. }
  pose proof (len_nonneg (all_token_ids r0)) as Hnn. fold (num_tokens r0) in Hnn.
  destruct (ok_inv _ _ _ (update_block_hashes_ok r0 bs 0 Hbs eq_refl Hs
    ltac:(intros s e d rows Hl; cbn in Hl; by rewrite lookup_empty in Hl)
    ltac:(split; [done|by apply Z.div_pos]) eq_refl ltac:(lia)))
    as ([] & r' & -> & Hhashed & [m Hr']).
  exists r'. split; [done|]. split_and!; [| |done].
  - by change (num_tokens (set_hashes (block_hashes r0) r') = n); rewrite Hr'.
  - by change (output_token_ids (set_hashes (block_hashes r0) r') = []); rewrite Hr'.
Qed.

Lemma reset_output_ok bs r toks :
  0 < bs → block_hasher r = Some bs → mm_sorted (mm_features r) → memo_ok r →
  ∃ r', reset_output_token_ids toks r = (Ok tt, r') ∧
    all_token_ids r' = prompt_tokens_or_zeros r ++ toks ∧ output_token_ids r' = toks ∧ hashed bs r'.
Proof.
  intros Hbs Hh Hs Hm. unfold reset_output_token_ids, bind, modify.
  set (r1 := set_hashes [] _).
  pose proof (len_nonneg (all_token_ids r1)) as Hnn. fold (num_tokens r1) in Hnn.
  destruct (ok_inv _ _ _ (update_block_hashes_ok r1 bs 0 Hbs Hh Hs Hm
    ltac:(split; [done|by apply Z.div_pos]) eq_refl ltac:(lia)))
    as ([] & r' & Hrun & Hhashed & [m Hr']).
  exists r'. split_and!; [done| | |done].
  - by change (all_token_ids (set_hashes (block_hashes r1) r') = prompt_tokens_or_zeros r ++ toks); rewrite Hr'.
  - by change (output_token_ids (set_hashes (block_hashes r1) r') = toks); rewrite Hr'.
Qed.

(** Rewriting a history.  [reset_output_token_ids] replaces the generated
    tokens and rehashes from scratch, whatever the old hashes were. *)
Theorem reset_output_hashed bs r toks :
  0 < bs → block_hasher r = Some bs → mm_sorted (mm_features r) → memo_ok r →
  ∃ r', reset_output_token_ids toks r = (Ok tt, r') ∧
    all_token_ids r' = prompt_tokens_or_zeros r ++ toks ∧ output_token_ids r' = toks ∧ hashed bs r'.
Proof. exact (reset_output_ok bs r toks). Qed.

(** Construction.  A new request with a block hasher carries the hash of
    every full block of its prompt. *)
Theorem Request_init_hashed rid ids sp pp arrival prio embeds mm lora salt structured bs n :
  0 < bs → mm_sorted mm →
  (pp ≠ None ∨ ∃ sp', sp = Some sp' ∧ sp_max_tokens sp' ≠ None) →
  length_from_prompt_token_ids_or_embeds ids embeds tt = (Ok n, tt) →
  ∃ r, Request_init rid ids sp pp arrival prio embeds mm lora salt structured (Some bs) tt = (Ok r, tt) ∧
    num_tokens r = n ∧ output_token_ids r = [] ∧ hashed bs r.
Proof. exact (Request_init_ok rid ids sp pp arrival prio embeds mm lora salt structured bs n). Qed.

(** ** Requests as the code makes them

    A request is created with a block hasher, generated tokens are appended
    while at most the last item reaches beyond the hashed blocks, and its output
    is reset. *)

Inductive produced (bs : Z) : Request → Prop :=
| produced_new rid ids sp pp arrival prio embeds mm lora salt structured r :
    mm_sorted mm →
    Request_init rid ids sp pp arrival prio embeds mm lora salt structured (Some bs) tt = (Ok r, tt) → produced bs r
| produced_append r toks r' :
    produced bs r → tail_has_last_item_only bs r → append_output_token_ids toks r = (Ok tt, r') → produced bs r'
| produced_reset r toks r' :
    produced bs r → reset_output_token_ids toks r = (Ok tt, r') → produced bs r'.

Lemma init_hashed rid ids sp pp arrival prio embeds mm lora salt structured bs r :
  0 < bs → mm_sorted mm →
  Request_init rid ids sp pp arrival prio embeds mm lora salt structured (Some bs) tt = (Ok r, tt) → hashed bs r.
Proof.
  intros Hbs Hs Hr.
  assert (pp ≠ None ∨ ∃ sp', sp = Some sp' ∧ sp_max_tokens sp' ≠ None) as Hp.
  { destruct pp as [pp|]; [by left|right]. unfold Request_init in Hr. destruct sp as [sp|]; [|done].
    exists sp. split; [done|]. intros Hn. cbn in Hr. by rewrite Hn in Hr. }
  destruct (length_from_prompt_token_ids_or_embeds ids embeds tt) as [[n|e] []] eqn:Hn.
  - destruct (Request_init_ok rid ids sp pp arrival prio embeds mm lora salt structured bs n Hbs Hs Hp Hn)
      as (r' & Hr' & _ & _ & Hh). rewrite Hr in Hr'. by injection Hr' as <-.
  - unfold Request_init in Hr. apply bind_ok_inv in Hr as (v & [] & _ & Hr). unfold bind in Hr. by rewrite Hn in Hr.
Qed.

Lemma produced_hashed bs r : 0 < bs → produced bs r → hashed bs r.
Proof.
  intros Hbs. induction 1 as [rid ids sp pp arrival prio embeds mm lora salt structured r Hs Hr
                             |r toks r' _ IH Ht Hr|r toks r' _ IH Hr]; [by eapply init_hashed| |].
  - destruct (append_output_ok bs r toks Hbs IH Ht) as (r1 & Hr1 & _ & _ & _ & _ & Hh & _).
    rewrite Hr in Hr1. by injection Hr1 as <-.
  - destruct IH as (Hb & Hs & Hm & _). destruct (reset_output_ok bs r toks Hbs Hb Hs Hm) as (r1 & Hr1 & _ & _ & Hh).
    rewrite Hr in Hr1. by injection Hr1 as <-.
Qed.

(** ** Equal hashes, equal prefixes *)

(** What prefix caching relies on: no collisions, and no hash that equals the
    seed or is empty. *)
Class CollisionFree : Prop := {
  hash_inj : ∀ x y, caching_hash_fn x = caching_hash_fn y → x = y;
  hash_not_seed : ∀ x, caching_hash_fn x ≠ NONE_HASH;
  hash_not_nil : ∀ x, caching_hash_fn x ≠ []
}.

Definition parent_of (prev : option bytes) (hs : list bytes) (i : nat) : option bytes :=
  match i with O => prev | S i => hs !! i end.

Lemma hash_chain_lookup prev cs i h :
  hash_chain prev cs !! i = Some h →
  ∃ c, cs !! i = Some c ∧
    h = hash_block_tokens (parent_of prev (hash_chain prev cs) i) c.1 c.2.
Proof.
  revert prev i. induction cs as [|[t k] cs IH]; intros prev i; [done|].
  destruct i as [|i]; cbn [hash_chain lookup list_lookup].
  - intros [= <-]. by exists (t, k).
  - intros Hi. destruct (IH _ _ Hi) as (c & Hc & ->). exists c. split; [done|].
    by destruct i.
Qed.

Lemma hash_tokens_inj `{!CollisionFree} p1 t1 k1 p2 t2 k2 :
  hash_block_tokens p1 t1 k1 = hash_block_tokens p2 t2 k2 →
  (∀ h, p1 = Some h ∨ p2 = Some h → h ≠ NONE_HASH ∧ h ≠ []) → p1 = p2 ∧ t1 = t2 ∧ k1 = k2.
Proof.
  unfold hash_block_tokens. intros Heq%hash_inj Hp. injection Heq as Hpar -> ->.
  split_and!; [|done..]. destruct p1 as [h1|], p2 as [h2|]; [| | |done].
  - destruct (Hp h1) as [? ?]; [by left|]. destruct (Hp h2) as [? ?]; [by right|].
    destruct h1, h2; congruence.
  - destruct (Hp h1) as [? ?]; [by left|]. by destruct h1.
  - destruct (Hp h2) as [? ?]; [by right|]. by destruct h2.
Qed.

Lemma hash_chain_elem `{!CollisionFree} prev cs i h :
  hash_chain prev cs !! i = Some h → h ≠ NONE_HASH ∧ h ≠ [].
Proof.
  intros (c & _ & ->)%hash_chain_lookup. split; [apply hash_not_seed|apply hash_not_nil].
Qed.

Lemma hash_chain_inj `{!CollisionFree} cs1 cs2 i j h :
  hash_chain None cs1 !! i = Some h → hash_chain None cs2 !! j = Some h →
  i = j ∧ take (S i) cs1 = take (S j) cs2.
Proof.
  revert j h. induction i as [|i IH]; intros j h H1 H2;
    destruct (hash_chain_lookup _ _ _ _ H1) as (c1 & Hc1 & ->);
    destruct (hash_chain_lookup _ _ _ _ H2) as (c2 & Hc2 & Heq);
    apply hash_tokens_inj in Heq as (Hp & Ht & Hk);
    try (intros h'; destruct j; simpl; intros [?|?]; try done; by eapply hash_chain_elem).
  - destruct j as [|j]; simpl in Hp.
    + split; [done|]. destruct cs1, cs2; simplify_eq/=. destruct c1, c2. simpl in *. by subst.
    + apply lookup_lt_Some in H2. symmetry in Hp. apply lookup_ge_None_1 in Hp. lia.
  - destruct j as [|j]; simpl in Hp.
    { apply lookup_lt_Some in H1. apply lookup_ge_None_1 in Hp. lia. }
    destruct (hash_chain None cs1 !! i) as [h'|] eqn:Hi.
    2: { apply lookup_lt_Some in H1. apply lookup_ge_None_1 in Hi. lia. }
    destruct (IH j h' eq_refl (eq_sym Hp)) as [-> Htake]. split; [done|].
    rewrite (take_S_r _ _ _ Hc1), (take_S_r _ _ _ Hc2), Htake. destruct c1, c2. simpl in *. by subst.
Qed.

Lemma take_blocks {A} (l1 l2 : list A) bs n :
  0 < bs → (∀ k, 0 ≤ k < Z.of_nat n → slice l1 (k * bs) (k * bs + bs) = slice l2 (k * bs) (k * bs + bs)) →
  take (Z.to_nat (Z.of_nat n * bs)) l1 = take (Z.to_nat (Z.of_nat n * bs)) l2.
Proof.
  intros Hbs. induction n as [|n IH]; intros Hk; [done|].
  assert (∀ l : list A, take (Z.to_nat (Z.of_nat (S n) * bs)) l
    = take (Z.to_nat (Z.of_nat n * bs)) l ++ slice l (Z.of_nat n * bs) (Z.of_nat n * bs + bs)) as Hsp.
  { intros l. rewrite slice_nonneg, take_take_drop by lia. f_equal. lia. }
  rewrite !Hsp, IH by (intros; apply Hk; lia). f_equal. apply Hk. lia.
Qed.

(** C14: Block hashes identify prefixes.  Take two requests as the code makes
    them: created with multimodal items in order, extended by generated tokens
    while at most the last item reaches beyond the hashed blocks (without this
    [two_items_same_hash] shows a counterexample), and reset.  Under a
    collision-free hash function, if block [i] of one and block [j] of the other
    carry the same hash, then [i = j], the two requests agree on all tokens up to
    the end of that block, and on the extra keys (LoRA adapter, multimodal items
    with their offsets, cache salt, digests of prompt embeddings) of every block
    up to it. *)
Theorem block_hash_identifies_prefix `{!CollisionFree} bs r1 r2 i j h :
  0 < bs → produced bs r1 → produced bs r2 →
  block_hashes r1 !! i = Some h → block_hashes r2 !! j = Some h →
  i = j ∧
  take (Z.to_nat (Z.of_nat (S i) * bs)) (all_token_ids r1)
  = take (Z.to_nat (Z.of_nat (S i) * bs)) (all_token_ids r2) ∧
  ∀ k, 0 ≤ k ≤ Z.of_nat i → keys_of r1 (k * bs) (k * bs + bs) = keys_of r2 (k * bs) (k * bs + bs).
Proof.
  intros Hbs (_ & _ & _ & H1)%(produced_hashed _ _ Hbs) (_ & _ & _ & H2)%(produced_hashed _ _ Hbs) Hi Hj. rewrite H1 in Hi. rewrite H2 in Hj.
  destruct (hash_chain_inj _ _ _ _ _ Hi Hj) as [<- Htake]. split; [done|].
  assert (∀ k, 0 ≤ k ≤ Z.of_nat i → block_content r1 bs k = block_content r2 bs k) as Hc.
  { intros k Hk. apply (f_equal (λ l, l !! Z.to_nat k)) in Htake.
    rewrite !lookup_take_lt in Htake by lia. unfold full_blocks in Htake.
    apply lookup_lt_Some in Hi. apply lookup_lt_Some in Hj.
    rewrite length_hash_chain in Hi, Hj. unfold full_blocks in Hi, Hj.
    rewrite length_fmap, length_range in Hi, Hj.
    rewrite !list_lookup_fmap in Htake. unfold range in Htake.
    rewrite !lookup_seqZ_lt in Htake by lia.
    rewrite Z.add_0_l, Z2Nat.id in Htake by lia. by apply (inj Some) in Htake. }
  split.
  - apply take_blocks; [done|]. intros k Hk. by injection (Hc k ltac:(lia)).
  - intros k Hk. by injection (Hc k Hk).
Qed.

(** ** Two items in the last prompt block

    The comment in [request_block_hasher] says that once generated tokens
    complete a block only the last multimodal item matters.  With two items in
    the prompt's last partial block the first one does not enter the hash. *)

Definition two_items (first : string) : Request :=
  let item id off := MkMMFeature id (MkPlaceholder off 1 None) in
  MkRequest "r"%string 0 0 None None None None
    [item first 4; item "b"%string 5] (Some [1; 2; 3; 4; 9; 9]) None ∅ 6 [] [1; 2; 3; 4; 9; 9]
    [] 0 0 1 RUNNING None (hash_chain None [([1; 2; 3; 4], None)]) (Some 4) false.

(** C16: A collision without any hash collision.  Two requests whose prompts
    hold different items (say, different images) before a common last item in
    the same unfinished block get identical block hashes once two tokens are
    generated, for every hash function; the extra keys of that block differ. *)
Theorem two_items_same_hash :
  mm_sorted (mm_features (two_items "a")) ∧
  hashed 4 (two_items "a") ∧ hashed 4 (two_items "c") ∧
  keys_of (two_items "a") 4 8 ≠ keys_of (two_items "c") 4 8 ∧
  ∃ r1 r2, append_output_token_ids [7; 8] (two_items "a") = (Ok tt, r1) ∧
    append_output_token_ids [7; 8] (two_items "c") = (Ok tt, r2) ∧
    len (block_hashes r1) = 2 ∧ block_hashes r1 = block_hashes r2.
Proof.
  assert (∀ s, mm_sorted (mm_features (two_items s))) as Hs.
  { intros s. split; [repeat constructor; simpl; lia|].
    repeat constructor; unfold mm_end; simpl; lia. }
  assert (∀ s, hashed 4 (two_items s)) as Hh.
  { intros s. unfold hashed. split_and!; [done|apply Hs| |reflexivity].
    intros s' e d rows Hl. cbn in Hl. by rewrite lookup_empty in Hl. }
  split_and!; [apply Hs|apply Hh|apply Hh|intros Heq; vm_compute in Heq; discriminate Heq|].
  do 2 eexists. split_and!; reflexivity.
Qed.
End chain.

(** ** Concrete inputs *)

Section examples.
Let env : HashEnv := injective_env.
Existing Instance env.

#[local] Instance injective_env_collision_free : CollisionFree.
Proof.
  split.
  - intros x y Heq. injection Heq as Heq. by apply (inj encode) in Heq.
  - done.
  - done.
Qed.

(** A request with seven prompt tokens in blocks of two, and one item. *)
Definition text_request : Request :=
  set_hashes (hash_chain None [([1; 2], None); ([3; 4], None);
                               ([5; 6], Some [KeyMM "img"%string 0])])
    (MkRequest "r"%string 0 0 None None None None
       [MkMMFeature "img"%string (MkPlaceholder 4 2 None)] (Some [1; 2; 3; 4; 5; 6; 7]) None ∅ 7 []
       [1; 2; 3; 4; 5; 6; 7] [] 0 0 1 RUNNING None [] (Some 2) false).

Lemma text_request_hashed : hashed 2 text_request.
Proof.
  unfold hashed. split_and!; [done| | |reflexivity].
  - split; repeat constructor; simpl; lia.
  - intros s e d rows Hl. cbn in Hl. by rewrite lookup_empty in Hl.
Qed.

Lemma append_output_hashed_witness :
  tail_has_last_item_only 2 text_request ∧
  ∃ r', append_output_token_ids [8; 9] text_request = (Ok tt, r') ∧
    all_token_ids r' = all_token_ids text_request ++ [8; 9] ∧
    output_token_ids r' = output_token_ids text_request ++ [8; 9] ∧
    block_hashes r' = hash_chain None (full_blocks r' 2) ∧
    len (block_hashes r') = num_tokens r' / 2 ∧ hashed 2 r'.
Proof.
  assert (tail_has_last_item_only 2 text_request) as Ht by (intros _; constructor).
  split; [exact Ht|].
  exact (append_output_hashed 2 text_request [8; 9] ltac:(lia) text_request_hashed Ht).
Defined.

Lemma Request_init_hashed_witness :
  ∃ r, Request_init "r" (Some [1; 2; 3]) None (Some (MkPooling None)) 0 0 None [] None None false
         (Some 2) tt = (Ok r, tt) ∧
    num_tokens r = 3 ∧ output_token_ids r = [] ∧ hashed 2 r.
Proof.
  apply (Request_init_hashed "r" (Some [1; 2; 3]) None (Some (MkPooling None)) 0 0 None [] None None
    false 2 3); [lia|split; constructor|by left|reflexivity].
Defined.

Lemma reset_output_hashed_witness :
  ∃ r', reset_output_token_ids [4; 4; 4] text_request = (Ok tt, r') ∧
    all_token_ids r' = prompt_tokens_or_zeros text_request ++ [4; 4; 4] ∧
    output_token_ids r' = [4; 4; 4] ∧ hashed 2 r'.
Proof.
  apply (reset_output_hashed 2 text_request [4; 4; 4]); [lia|reflexivity| |];
    apply text_request_hashed.
Defined.

(** A request with an item, extended by two generated tokens, and a second
    request that shares the first two blocks. *)
Definition new_request (ids : list Z) (mm : list MultiModalFeatureSpec) : Request :=
  match Request_init "r" (Some ids) None (Some (MkPooling None)) 0 0 None mm None None false (Some 2) tt with
  | (Ok r, _) => r
  | (Err _, _) => text_request
  end.
Definition item_request : Request :=
  new_request [1; 2; 3; 4; 5; 6; 7] [MkMMFeature "img"%string (MkPlaceholder 4 2 None)].
Definition longer_request : Request := (append_output_token_ids [8; 9] item_request).2.
Definition other_request : Request := new_request [1; 2; 3; 4; 9] [].

Lemma longer_request_produced : produced 2 longer_request.
Proof.
  apply (produced_append 2 item_request [8; 9]); [|intros _; constructor|reflexivity].
  eapply (produced_new 2 "r" (Some [1; 2; 3; 4; 5; 6; 7]) None (Some (MkPooling None)) 0 0 None
    [MkMMFeature "img"%string (MkPlaceholder 4 2 None)] None None false); [|reflexivity].
  split; repeat constructor; simpl; lia.
Qed.
Lemma other_request_produced : produced 2 other_request.
Proof.
  eapply (produced_new 2 "r" (Some [1; 2; 3; 4; 9]) None (Some (MkPooling None)) 0 0 None [] None None false);
    [split; constructor|reflexivity].
Qed.

Lemma block_hash_identifies_prefix_witness :
  len (block_hashes longer_request) = 4 ∧
  ∃ h, block_hashes longer_request !! 1%nat = Some h ∧ block_hashes other_request !! 1%nat = Some h ∧
  (1%nat = 1%nat ∧
   take (Z.to_nat (Z.of_nat 2 * 2)) (all_token_ids longer_request)
   = take (Z.to_nat (Z.of_nat 2 * 2)) (all_token_ids other_request) ∧
   ∀ k, 0 ≤ k ≤ Z.of_nat 1 →
     keys_of longer_request (k * 2) (k * 2 + 2) = keys_of other_request (k * 2) (k * 2 + 2)).
Proof.
  split; [reflexivity|]. eexists. split; [reflexivity|]. split; [reflexivity|].
  eapply (block_hash_identifies_prefix 2 longer_request other_request 1 1);
    [lia|exact longer_request_produced|exact other_request_produced|reflexivity|reflexivity].
Defined.
End examples.
