(* ===== verification/BlockPool.v ===== *)
(** * The block pool and the prefix cache

    [BlockPool] (src/vllm/vllm/v1/core/block_pool.py): the blocks of the KV
    cache, the queue of free blocks, the prefix-cache map
    [BlockHashToBlockMap] and the KV-cache events
    (src/vllm/vllm/distributed/kv_events.py).  The pool is modelled without a
    metrics collector ([metrics_collector=None]).

    The first part is the code; the second part an abstract pool (free list,
    outstanding references, block hashes) and the lemmas that every operation
    of the code implements the abstract one. *)

From Stdlib Require Import QArith.
From S2P Require Import Prelude FreeQueue BlockHash Request.
Open Scope Z_scope.

(** ** [BlockHashToBlockMap] *)

(** [KVCacheBlock | dict[int, KVCacheBlock]]; a dict keeps insertion order. *)
Inductive cache_entry : Type :=
| Single (b : loc)
| Many (d : list (Z * loc)).

Abbreviation BlockHashToBlockMap := (gmap bytes cache_entry) (only parsing).

(** [d[k] = v] on an insertion-ordered dict. *)
Fixpoint dict_set (k : Z) (v : loc) (d : list (Z * loc)) : list (Z * loc) :=
  match d with
  | [] => [(k, v)]
  | (k', v') :: d' => if k =? k' then (k, v) :: d' else (k', v') :: dict_set k v d'
  end.

(** [d.pop(k, None)] *)
Fixpoint dict_pop (k : Z) (d : list (Z * loc)) : option loc * list (Z * loc) :=
  match d with
  | [] => (None, [])
  | (k', v') :: d' =>
      if k =? k' then (Some v', d')
      else let '(r, d'') := dict_pop k d' in (r, (k', v') :: d'')
  end.

(** ** Events *)

Definition MEDIUM_GPU : string := "GPU".

Inductive KVCacheEvent : Type :=
| BlockStored (ev_block_hashes : list ExternalBlockHash)
    (parent_block_hash : option ExternalBlockHash) (token_ids : list Z)
    (block_size : Z) (lora_id : option Z) (medium : option string)
    (lora_name : option string)
    (extra_keys : option (list (option (list extra_key)))) (group_idx : option Z)
    (kv_cache_spec_kind : option string) (kv_cache_spec_sliding_window : option Z)
| BlockRemoved (ev_block_hashes : list ExternalBlockHash) (medium : option string)
    (group_idx : option Z)
| AllBlocksCleared.

(** ** The pool *)

Record BlockPool : Type := MkPool {
  num_gpu_blocks : Z;
  enable_caching : bool;
  hash_block_size : Z;
  blocks : list loc;
  free_block_queue : qstate (** the object store and the queue's own fields *);
  cached_block_hash_to_block : BlockHashToBlockMap;
  null_block : loc;
  enable_kv_cache_events : bool;
  kv_event_queue : list KVCacheEvent
}.

Definition set_free_block_queue (q : qstate) (p : BlockPool) : BlockPool :=
  MkPool (num_gpu_blocks p) (enable_caching p) (hash_block_size p) (blocks p)
    q (cached_block_hash_to_block p) (null_block p)
    (enable_kv_cache_events p) (kv_event_queue p).
Definition set_cache (c : BlockHashToBlockMap) (p : BlockPool) : BlockPool :=
  MkPool (num_gpu_blocks p) (enable_caching p) (hash_block_size p) (blocks p)
    (free_block_queue p) c (null_block p)
    (enable_kv_cache_events p) (kv_event_queue p).
Definition set_events (e : list KVCacheEvent) (p : BlockPool) : BlockPool :=
  MkPool (num_gpu_blocks p) (enable_caching p) (hash_block_size p) (blocks p)
    (free_block_queue p) (cached_block_hash_to_block p) (null_block p)
    (enable_kv_cache_events p) e.

(** A queue or block operation on the pool's objects. *)
Definition onq {A} (m : M qstate A) : M BlockPool A :=
  zoom free_block_queue set_free_block_queue m.

(** A method of a request, called on a request the caller holds. *)
Definition on_request {S A} (m : M Request A) (r : Request) : M S (A * Request) :=
  match m r with
  | (Ok a, r') => ret (a, r')
  | (Err e, _) => raise e
  end.

(** *** Map operations *)

Definition get_one_block (key : bytes) : M BlockPool (option loc) :=
  let* cache := gets cached_block_hash_to_block in
  match cache !! key with
  | None => ret None
  | Some (Single b) => ret (Some b)
  | Some (Many d) =>
      let* kv := or_raise StopIteration (head d) in ret (Some kv.2)
  end.

Definition map_insert (key : bytes) (block : loc) : M BlockPool unit :=
  let* cache := gets cached_block_hash_to_block in
  match cache !! key with
  | None => modify (set_cache (<[key := Single block]> cache))
  | Some (Single b) =>
      let* blks := onq (read b) in
      let* blk := onq (read block) in
      modify (set_cache
        (<[key := Many (dict_set (block_id blk) block [(block_id blks, b)])]> cache))
  | Some (Many d) =>
      let* blk := onq (read block) in
      modify (set_cache (<[key := Many (dict_set (block_id blk) block d)]> cache))
  end.

Definition map_pop (key : bytes) (id : Z) : M BlockPool (option loc) :=
  let* cache := gets cached_block_hash_to_block in
  match cache !! key with
  | None => ret None
  | Some (Single b) =>
      let* blk := onq (read b) in
      if block_id blk =? id then
        modify (set_cache (delete key cache)) ;;; ret (Some b)
      else ret None
  | Some (Many d) =>
      let '(block, d') := dict_pop id d in
      (match d' with
       | [] => modify (set_cache (delete key cache))
       | _ => modify (set_cache (<[key := Many d']> cache))
       end) ;;;
      ret block
  end.

Definition map_len (c : BlockHashToBlockMap) : Z := Z.of_nat (size c).

(** *** Construction *)

Definition BlockPool_init (num_gpu_blocks : Z) (enable_caching : bool)
    (hash_block_size : Z) (enable_kv_cache_events : bool) : res BlockPool :=
  if negb (0 <? num_gpu_blocks) then Err AssertionError
  else
    let blocks := range 0 num_gpu_blocks in
    match
      (queue_init blocks ;;;
       let* null_block := popleft in
       write null_block (set_is_null true) ;;;
       ret null_block) (new_blocks_state num_gpu_blocks)
    with
    | (Ok null_block, q) =>
        Ok (MkPool num_gpu_blocks enable_caching hash_block_size blocks q ∅ null_block
              enable_kv_cache_events [])
    | (Err e, _) => Err e
    end.

(** *** Operations *)

Section pool_operations.
Context `{HashEnv}.

(** The loop of [get_cached_block] over the remaining groups. *)
Fixpoint get_cached_loop (h : bytes) (kv_cache_group_ids : list Z) (cached_blocks : list loc)
  : M BlockPool (option (list loc)) :=
  match kv_cache_group_ids with
  | [] => ret (Some cached_blocks)
  | group_id :: rest =>
      let* key := make_block_hash_with_group_id h group_id in
      let* block := get_one_block key in
      match block with
      | None => ret None
      | Some b => get_cached_loop h rest (cached_blocks ++ [b])
      end
  end.

Definition get_cached_block (h : bytes) (kv_cache_group_ids : list Z)
  : M BlockPool (option (list loc)) :=
  get_cached_loop h kv_cache_group_ids [].

(** [block_mask is not None and not block_mask[i]] *)
Definition masked_out {S} (block_mask : option (list bool)) (i : Z) : M S bool :=
  match block_mask with
  | None => ret false
  | Some mask => let* b := or_raise IndexError (py_nth mask i) in ret (negb b)
  end.

(** One iteration of the caching loop of [cache_full_blocks] at index [i]; the
    local variable is [new_hashes]. *)
Definition cache_one_block (new_block_hashes : list bytes) (kv_cache_group_id : Z)
    (block_mask : option (list bool)) (new_hashes : option (list ExternalBlockHash))
    (iblk : Z * loc) : M BlockPool (option (list ExternalBlockHash)) :=
  let '(i, blk) := iblk in
  let* b := onq (read blk) in
  let* skip := if is_null b then ret true else masked_out block_mask i in
  if skip then ret new_hashes
  else
    assert_ (bool_decide (block_hash b = None)) ;;;
    let* h := or_raise IndexError (py_nth new_block_hashes i) in
    let* key := make_block_hash_with_group_id h kv_cache_group_id in
    onq (write blk (set_block_hash (Some key))) ;;;
    map_insert key blk ;;;
    ret (match new_hashes with
         | None => None
         | Some l => Some (l ++ [maybe_convert_block_hash h])
         end).

(** One iteration of the extra-keys loop; the locals are the request (whose
    embedding digests are memoised), [curr_mm_idx] and [extra_keys_list]. *)
Definition event_keys_step (blocks : list loc) (num_cached_blocks block_size : Z)
    (block_mask : option (list bool))
    (st : Request * Z * list (option (list extra_key))) (i : Z)
  : M BlockPool (Request * Z * list (option (list extra_key))) :=
  let '(request, curr_mm_idx, extra_keys_list) := st in
  let* blk := or_raise IndexError (py_nth blocks i) in
  let* b := onq (read blk) in
  if is_null b then ret st
  else
    let* skip := masked_out block_mask (i - num_cached_blocks) in
    if skip then ret st
    else
      let block_start := i * block_size in
      let block_end := block_start + block_size in
      let* ek :=
        on_request (generate_block_hash_extra_keys block_start block_end curr_mm_idx) request in
      let '((extra_keys, curr_mm_idx), request) := ek in
      ret (request, curr_mm_idx, extra_keys_list ++ [extra_keys]).

(** The event of [cache_full_blocks]. *)
Definition emit_block_stored (request : Request) (blocks : list loc)
    (num_cached_blocks num_full_blocks block_size kv_cache_group_id : Z)
    (block_mask : option (list bool)) (block_hashes : BlockHashList)
    (new_hashes : list ExternalBlockHash) : M BlockPool unit :=
  let* parent_block_hash :=
    if num_cached_blocks =? 0 then ret None
    else
      let* h := hashes_nth block_hashes (num_cached_blocks - 1) in
      ret (Some (maybe_convert_block_hash h)) in
  let start_token_idx := num_cached_blocks * block_size in
  let end_token_idx := num_full_blocks * block_size in
  let* st := fold_each
    (event_keys_step blocks num_cached_blocks block_size block_mask)
    (range num_cached_blocks num_full_blocks) (request, 0, []) in
  let '(_, _, extra_keys_list) := st in
  modify (λ p, set_events (kv_event_queue p ++
    [BlockStored new_hashes parent_block_hash
       (slice (all_token_ids request) start_token_idx end_token_idx) block_size
       (lora_int_id <$> lora_request request) (Some MEDIUM_GPU)
       (Request.lora_name <$> lora_request request)
       (match extra_keys_list with [] => None | _ => Some extra_keys_list end)
       (Some kv_cache_group_id) None None]) p).

Definition cache_full_blocks (request : Request) (blocks : list loc)
    (num_cached_blocks num_full_blocks block_size kv_cache_group_id : Z)
    (block_mask : option (list bool)) : M BlockPool unit :=
  if num_full_blocks <=? num_cached_blocks then ret tt
  else
    let new_full_blocks := slice blocks num_cached_blocks num_full_blocks in
    assert_ (num_full_blocks <=? len (Request.block_hashes request)) ;;;
    assert_ (match block_mask with
             | None => true
             | Some mask => len mask =? len new_full_blocks
             end) ;;;
    let* hash_block_size := gets hash_block_size in
    let* block_hashes :=
      if block_size =? hash_block_size then ret (PlainHashes (Request.block_hashes request))
      else
        assert_ (block_size mod hash_block_size =? 0) ;;;
        let* l := bhl_init (Request.block_hashes request) hash_block_size block_size in
        ret (CoarseHashes l) in
    let new_block_hashes := hashes_from block_hashes num_cached_blocks in
    let* events := gets enable_kv_cache_events in
    let* new_hashes := fold_each
      (cache_one_block new_block_hashes kv_cache_group_id block_mask)
      (zip (range 0 (len new_full_blocks)) new_full_blocks)
      (if events then Some [] else None) in
    match new_hashes with
    | Some new_hashes =>
        emit_block_stored request blocks num_cached_blocks num_full_blocks block_size
          kv_cache_group_id block_mask block_hashes new_hashes
    | None => ret tt
    end.

(** [_maybe_evict_cached_block] *)
Definition maybe_evict_cached_block (block : loc) : M BlockPool bool :=
  let* b := onq (read block) in
  match block_hash b with
  | None => ret false
  | Some key =>
      let* popped := map_pop key (block_id b) in
      match popped with
      | None => ret false
      | Some _ =>
          onq (write block reset_hash) ;;;
          let* events := gets enable_kv_cache_events in
          (if events then
             modify (λ p, set_events (kv_event_queue p ++
               [BlockRemoved [maybe_convert_block_hash (get_block_hash key)]
                  (Some MEDIUM_GPU) (Some (get_group_id key))]) p)
           else ret tt) ;;;
          ret true
      end
  end.

Definition get_num_free_blocks : M BlockPool Z := onq (getq num_free_blocks).

(** The loop body of [get_new_blocks] after the eviction. *)
Definition claim_block (block : loc) : M BlockPool unit :=
  let* b := onq (read block) in
  assert_ (ref_cnt b =? 0) ;;;
  onq (write block (set_ref_cnt (λ n, n + 1))).

Definition get_new_blocks (num_blocks : Z) : M BlockPool (list loc) :=
  let* free := get_num_free_blocks in
  if free <? num_blocks then raise ValueError
  else
    let* ret_ := onq (popleft_n num_blocks) in
    let* caching := gets enable_caching in
    (if caching then
       for_each ret_ (λ block, maybe_evict_cached_block block ;;; claim_block block)
     else for_each ret_ claim_block) ;;;
    ret ret_.

Definition touch_one (block : loc) : M BlockPool unit :=
  let* b := onq (read block) in
  (if (ref_cnt b =? 0) && negb (is_null b) then onq (remove block) else ret tt) ;;;
  onq (write block (set_ref_cnt (λ n, n + 1))).

Definition touch (blocks : list loc) : M BlockPool unit := for_each blocks touch_one.

(** [block.ref_cnt == 0 and not block.is_null] *)
Definition is_freed (block : loc) : M BlockPool bool :=
  let* b := onq (read block) in ret ((ref_cnt b =? 0) && negb (is_null b)).

Fixpoint filter_each (f : loc → M BlockPool bool) (l : list loc) : M BlockPool (list loc) :=
  match l with
  | [] => ret []
  | x :: l' =>
      let* b := f x in
      let* rest := filter_each f l' in
      ret (if b then x :: rest else rest)
  end.

Definition free_blocks (ordered_blocks : list loc) (prepend : bool) : M BlockPool unit :=
  for_each ordered_blocks (λ block, onq (write block (set_ref_cnt (λ n, n - 1)))) ;;;
  let* freed_blocks := filter_each is_freed ordered_blocks in
  if prepend then onq (prepend_n freed_blocks) else onq (append_n freed_blocks).

(** [block_ids] enumerates the set in Python's iteration order. *)
Definition evict_blocks (block_ids : list Z) : M BlockPool unit :=
  for_each block_ids (λ block_id,
    let* bs := gets blocks in
    assert_ (block_id <? len bs) ;;;
    let* block := or_raise IndexError (py_nth bs block_id) in
    maybe_evict_cached_block block ;;; ret tt).

Definition reset_prefix_cache : M BlockPool bool :=
  let* n := gets num_gpu_blocks in
  let* free := get_num_free_blocks in
  let num_used_blocks := n - free in
  if negb (num_used_blocks =? 1) then ret false
  else
    modify (set_cache ∅) ;;;
    let* bs := gets blocks in
    for_each bs (λ block, onq (write block reset_hash)) ;;;
    let* events := gets enable_kv_cache_events in
    (if events then modify (λ p, set_events (kv_event_queue p ++ [AllBlocksCleared]) p)
     else ret tt) ;;;
    ret true.

(** The value of the floating-point expression as a rational. *)
Definition get_usage : M BlockPool Q :=
  let* n := gets num_gpu_blocks in
  let total_gpu_blocks := n - 1 in
  if total_gpu_blocks =? 0 then ret 0%Q
  else
    let* free := get_num_free_blocks in
    ret (1 - inject_Z free / inject_Z total_gpu_blocks)%Q.

Definition take_events : M BlockPool (list KVCacheEvent) :=
  let* enabled := gets enable_kv_cache_events in
  if negb enabled then ret []
  else
    let* events := gets kv_event_queue in
    modify (set_events []) ;;;
    ret events.

End pool_operations.

(** ** The abstract pool

    [a_free] lists the free blocks in eviction order, [a_refs] holds one
    occurrence of a block per outstanding reference to it, [a_hash] is the
    prefix cache: the hash key of every cached block. *)

Record apool : Type := MkAPool {
  a_free : list loc;
  a_refs : list loc;
  a_hash : gmap Z bytes
}.

(** The blocks filed under a key. *)
Definition members (e : option cache_entry) : list loc :=
  match e with
  | None => []
  | Some (Single b) => [b]
  | Some (Many d) => d.*2
  end.

(** A dict entry is not empty and maps every block's id to the block. *)
Definition entry_wf (e : option cache_entry) : Prop :=
  match e with
  | Some (Many d) => d ≠ [] ∧ NoDup d.*2 ∧ d.*1 = d.*2
  | _ => True
  end.

(** The map files exactly the hashed blocks, each under its key. *)
Record cache_rep (c : BlockHashToBlockMap) (h : gmap Z bytes) : Prop := {
  ca_members : ∀ key b, b ∈ members (c !! key) ↔ h !! b = Some key;
  ca_wf : ∀ key, entry_wf (c !! key)
}.

(** Block metadata and prefix cache, for reference counts [cnt] and block
    hashes [h]. *)
Record core_rep (p : BlockPool) (cnt : Z → Z) (h : gmap Z bytes) : Prop := {
  cr_pos : 0 < num_gpu_blocks p;
  cr_blocks : blocks p = range 0 (num_gpu_blocks p);
  cr_null : null_block p = 0;
  cr_block : ∀ b, 0 ≤ b < num_gpu_blocks p →
    ∃ blk, mem (free_block_queue p) !! b = Some blk ∧ block_id blk = b ∧
      is_null blk = (b =? 0) ∧ block_hash blk = h !! b ∧ (b ≠ 0 → ref_cnt blk = cnt b);
  cr_hash_dom : ∀ b key, h !! b = Some key → 0 < b < num_gpu_blocks p;
  cr_cache : cache_rep (cached_block_hash_to_block p) h;
  cr_caching : enable_caching p = false → h = ∅
}.

Record free_rep (q : qstate) (l : list loc) : Prop := {
  fr_queue : queue_rep q l;
  fr_head : fake_free_list_head (queue q) = -1;
  fr_tail : fake_free_list_tail (queue q) = -2
}.

Record pool_rep (p : BlockPool) (a : apool) : Prop := {
  pr_core : core_rep p (λ b, occ b (a_refs a)) (a_hash a);
  pr_queue : free_rep (free_block_queue p) (a_free a);
  pr_free : ∀ b, b ∈ a_free a ↔ 0 < b < num_gpu_blocks p ∧ b ∉ a_refs a;
  pr_refs : ∀ b, b ∈ a_refs a → 0 ≤ b < num_gpu_blocks p
}.

(** The attributes no operation assigns after construction. *)
Definition same_config (p p' : BlockPool) : Prop :=
  num_gpu_blocks p' = num_gpu_blocks p ∧ enable_caching p' = enable_caching p ∧
  hash_block_size p' = hash_block_size p ∧ blocks p' = blocks p ∧
  null_block p' = null_block p ∧ enable_kv_cache_events p' = enable_kv_cache_events p.

#[export] Instance same_config_equiv : PreOrder same_config.
Proof.
  split; [done|]. intros p1 p2 p3 H1 H2. unfold same_config in *. naive_solver congruence.
Qed.

(** *** Counting cached blocks *)

Section hash_counting.
Context (P : bytes → Prop) `{∀ k, Decision (P k)}.

(** The number of cached blocks whose key satisfies [P]. *)
Definition hcount (h : gmap Z bytes) : Z :=
  Z.of_nat (size (filter (λ kv : Z * bytes, P kv.2) h)).

Lemma hcount_empty : hcount ∅ = 0.
Proof. unfold hcount. by rewrite map_filter_empty, map_size_empty. Qed.

Lemma hcount_insert h b key :
  h !! b = None → hcount (<[b := key]> h) = (if decide (P key) then 1 else 0) + hcount h.
Proof.
  intros Hb. unfold hcount. case_decide as HP.
  - rewrite map_filter_insert_True by done. rewrite map_size_insert_None; [lia|].
    rewrite map_lookup_filter_None. by left.
  - rewrite map_filter_insert_False by done. by rewrite delete_id.
Qed.

Lemma hcount_delete h b key :
  h !! b = Some key → hcount (delete b h) = hcount h - (if decide (P key) then 1 else 0).
Proof.
  intros Hb. pose proof (hcount_insert (delete b h) b key (lookup_delete_eq _ _)) as Hc.
  rewrite insert_delete_id in Hc by done. lia.
Qed.
End hash_counting.

(** *** Counting events: what a consumer of the event stream believes *)

Section events.
Context `{HashEnv}.

Definition xcount (x : ExternalBlockHash) (l : list ExternalBlockHash) : Z :=
  len (filter (λ y, y = x) l).

Definition event_step (x : ExternalBlockHash) (g : Z) (acc : Z) (e : KVCacheEvent) : Z :=
  match e with
  | BlockStored hs _ _ _ _ _ _ _ gi _ _ => acc + (if decide (gi = Some g) then xcount x hs else 0)
  | BlockRemoved hs _ gi => acc - (if decide (gi = Some g) then xcount x hs else 0)
  | AllBlocksCleared => 0
  end.

(** Stored minus removed, per external hash and group, since the last clear. *)
Definition balance (x : ExternalBlockHash) (g : Z) (evs : list KVCacheEvent) : Z :=
  fold_left (event_step x g) evs 0.

(** A cached key as a consumer sees it. *)
Definition shows (x : ExternalBlockHash) (g : Z) (key : bytes) : Prop :=
  maybe_convert_block_hash (get_block_hash key) = x ∧ get_group_id key = g.
#[export] Instance shows_dec x g key : Decision (shows x g key).
Proof. unfold shows. apply _. Defined.

(** The events [taken] so far and those queued account for every cached block. *)
Definition events_match (p : BlockPool) (taken : list KVCacheEvent) (h : gmap Z bytes) : Prop :=
  enable_kv_cache_events p = true →
  ∀ x g, balance x g (taken ++ kv_event_queue p) = hcount (shows x g) h.

(** The frame of an operation: configuration kept, events keep matching. *)
Definition evolves (p : BlockPool) (h : gmap Z bytes) (p' : BlockPool) (h' : gmap Z bytes) : Prop :=
  same_config p p' ∧ ∀ taken, events_match p taken h → events_match p' taken h'.

Lemma evolves_trans p1 h1 p2 h2 p3 h3 :
  evolves p1 h1 p2 h2 → evolves p2 h2 p3 h3 → evolves p1 h1 p3 h3.
Proof. intros [H1 E1] [H2 E2]. split; [by etransitivity|]. auto. Qed.

Lemma evolves_same p p' h :
  same_config p p' → kv_event_queue p' = kv_event_queue p → evolves p h p' h.
Proof.
  intros Hc Hk. split; [done|]. intros t Ht. unfold events_match in *.
  destruct Hc as (_ & _ & _ & _ & _ & ->). by rewrite Hk.
Qed.

Lemma evolves_set_queue p q h : evolves p h (set_free_block_queue q p) h.
Proof. by apply evolves_same. Qed.

Lemma balance_snoc x g evs e : balance x g (evs ++ [e]) = event_step x g (balance x g evs) e.
Proof. unfold balance. by rewrite fold_left_app. Qed.

End events.

(** *** The map *)

Lemma dict_set_fresh k v d : k ∉ d.*1 → dict_set k v d = d ++ [(k, v)].
Proof.
  induction d as [|[k' v'] d IH]; simpl; [done|].
  intros [? ?]%not_elem_of_cons. rewrite (proj2 (Z.eqb_neq _ _)) by done. by rewrite IH.
Qed.

Lemma dict_pop_elem (b : loc) d :
  d.*1 = d.*2 → NoDup d.*2 → b ∈ d.*2 →
  ∃ d', dict_pop b d = (Some b, d') ∧ d'.*1 = d'.*2 ∧ NoDup d'.*2 ∧
    ∀ x, x ∈ d'.*2 ↔ x ∈ d.*2 ∧ x ≠ b.
Proof.
  induction d as [|[k v] d IH]; simpl; [by intros _ _ ?%elem_of_nil|].
  intros [= -> Hd] [Hv Hnd]%NoDup_cons Hb. destruct (Z.eqb_spec b v) as [->|Hne].
  - exists d. split_and!; [done..|]. intros x. rewrite elem_of_cons. naive_solver.
  - apply elem_of_cons in Hb as [?|Hb]; [done|].
    destruct (IH Hd Hnd Hb) as (d' & -> & Hd' & Hnd' & Hx).
    exists ((v, v) :: d'). simpl. split_and!; [done|by f_equal|..].
    + apply NoDup_cons. split; [|done]. rewrite Hx. tauto.
    + intros x. rewrite !elem_of_cons, Hx. naive_solver.
Qed.

Lemma cache_rep_empty : cache_rep ∅ ∅.
Proof.
  split; [|intros key; by rewrite lookup_empty].
  intros key b. rewrite !lookup_empty. simpl. rewrite elem_of_nil. done.
Qed.

(** Replacing the entry of [key] implements a change of the hash map. *)
Lemma cache_rep_update c h c' h' key :
  cache_rep c h →
  (∀ k, k ≠ key → c' !! k = c !! k) → entry_wf (c' !! key) →
  (∀ b, b ∈ members (c' !! key) ↔ h' !! b = Some key) →
  (∀ b k, k ≠ key → h' !! b = Some k ↔ h !! b = Some k) →
  cache_rep c' h'.
Proof.
  intros [Hm Hw] Hc Hwf Hk Hh. split.
  - intros k b. destruct (decide (k = key)) as [->|Hne]; [apply Hk|].
    by rewrite Hc, Hm, Hh.
  - intros k. destruct (decide (k = key)) as [->|Hne]; [done|]. by rewrite Hc.
Qed.

Lemma hash_insert_other (h : gmap Z bytes) b key x k :
  h !! b = None → k ≠ key → <[b := key]> h !! x = Some k ↔ h !! x = Some k.
Proof.
  intros Hb Hk. destruct (decide (x = b)) as [->|Hx].
  - rewrite lookup_insert_eq. split; congruence.
  - by rewrite lookup_insert_ne.
Qed.
Lemma hash_insert_same (h : gmap Z bytes) b key x :
  h !! b = None → <[b := key]> h !! x = Some key ↔ x = b ∨ h !! x = Some key.
Proof.
  intros Hb. destruct (decide (x = b)) as [->|Hx].
  - rewrite lookup_insert_eq. naive_solver.
  - rewrite lookup_insert_ne by done. naive_solver.
Qed.
Lemma hash_delete_other (h : gmap Z bytes) b key x k :
  h !! b = Some key → k ≠ key → delete b h !! x = Some k ↔ h !! x = Some k.
Proof.
  intros Hb Hk. destruct (decide (x = b)) as [->|Hx].
  - rewrite lookup_delete_eq. naive_solver congruence.
  - by rewrite lookup_delete_ne.
Qed.
Lemma hash_delete_same (h : gmap Z bytes) b key x :
  delete b h !! x = Some key ↔ h !! x = Some key ∧ x ≠ b.
Proof.
  destruct (decide (x = b)) as [->|Hx].
  - rewrite lookup_delete_eq. naive_solver.
  - rewrite lookup_delete_ne by done. naive_solver.
Qed.

(** *** Reading and writing the pool's blocks *)

Lemma ok_onq {A} (m : M qstate A) p Q :
  ok m (free_block_queue p) (λ a q, Q a (set_free_block_queue q p)) → ok (onq m) p Q.
Proof. apply ok_zoom. Qed.

Lemma set_free_block_queue_id p : set_free_block_queue (free_block_queue p) p = p.
Proof. by destruct p. Qed.

Lemma ok_pool_read p b blk Q :
  mem (free_block_queue p) !! b = Some blk → Q blk p → ok (onq (read b)) p Q.
Proof.
  intros Hb HQ. apply ok_onq. unfold ok, read, or_raise. rewrite Hb. simpl.
  by rewrite set_free_block_queue_id.
Qed.

(** The pool after [write b f]. *)
Definition with_block (p : BlockPool) (b : loc) (f : KVCacheBlock → KVCacheBlock) : BlockPool :=
  set_free_block_queue
    (MkQState (alter f b (mem (free_block_queue p))) (queue (free_block_queue p))) p.

Lemma ok_pool_write p b f (Q : unit → BlockPool → Prop) :
  Q tt (with_block p b f) → ok (onq (write b f)) p Q.
Proof. done. Qed.

Lemma free_rep_with_block p b f l :
  (∀ blk, next_free_block (f blk) = next_free_block blk ∧
          prev_free_block (f blk) = prev_free_block blk) →
  free_rep (free_block_queue p) l → free_rep (free_block_queue (with_block p b f)) l.
Proof.
  intros Hf [[Hnd Hlk Hnum Hno Hpo] Hh Ht]. split; [|done..].
  assert (∀ x, nxt (alter f b (mem (free_block_queue p))) x = nxt (mem (free_block_queue p)) x ∧
               prv (alter f b (mem (free_block_queue p))) x = prv (mem (free_block_queue p)) x) as Hx.
  { intros x. unfold nxt, prv. rewrite lookup_alter. case_decide as Hd; [|done]. subst.
    destruct (mem (free_block_queue p) !! x) as [blk|]; [|done]. simpl. apply (Hf blk). }
  split; simpl; [done| |done|..].
  - eapply linked_frame; [..|done]; intros x _; apply Hx.
  - intros x Hin. rewrite (proj1 (Hx x)). by apply Hno.
  - intros x Hin. rewrite (proj2 (Hx x)). by apply Hpo.
Qed.

Section core.
Implicit Types (p : BlockPool) (cnt : Z → Z) (h : gmap Z bytes).

Lemma core_rep_ext p cnt cnt' h :
  (∀ b, 0 < b < num_gpu_blocks p → cnt' b = cnt b) → core_rep p cnt h → core_rep p cnt' h.
Proof.
  intros Hc [? ? ? Hb ? ? ?]. split; try done.
  intros b Hr. destruct (Hb b Hr) as (blk & ? & ? & ? & ? & Hcnt).
  exists blk. split_and!; try done. intros Hne. rewrite Hc; [auto|lia].
Qed.

Lemma core_rep_queue p cnt h q :
  same_core (mem (free_block_queue p)) (mem q) →
  core_rep p cnt h → core_rep (set_free_block_queue q p) cnt h.
Proof.
  intros Hs [? ? ? Hb ? ? ?]. split; try done.
  intros b Hr. destruct (Hb b Hr) as (blk & Hblk & ? & ? & ? & ?).
  destruct (same_core_lookup _ _ _ _ Hs Hblk) as (blk' & Hblk' & Hst).
  exists blk'. assert (Hst' := Hst). destruct blk, blk'. unfold strip, set_prev, set_next in Hst.
  simpl in *. by simplify_eq.
Qed.

(** Writing one block: its new metadata decides the new counts and hashes. *)
Lemma core_rep_with_block p cnt h b f cnt' h' c :
  core_rep p cnt h → 0 ≤ b < num_gpu_blocks p →
  (∀ blk, mem (free_block_queue p) !! b = Some blk →
     block_id (f blk) = block_id blk ∧ is_null (f blk) = is_null blk ∧
     block_hash (f blk) = h' !! b ∧ (b ≠ 0 → ref_cnt (f blk) = cnt' b)) →
  (∀ x, x ≠ b → cnt' x = cnt x ∧ h' !! x = h !! x) →
  (h' !! b ≠ None → b ≠ 0) →
  cache_rep c h' → (enable_caching p = false → h' = ∅) →
  core_rep (set_cache c (with_block p b f)) cnt' h'.
Proof.
  intros [? ? ? Hb Hd ? ?] Hr Hf Hx Hb0 Hc Hen. split; try done; cbn.
  - intros x Hxr. rewrite lookup_alter. destruct (decide (b = x)) as [<-|Hne].
    + destruct (Hb b Hr) as (blk & Hblk & ? & ? & ? & ?). rewrite Hblk.
      destruct (Hf _ Hblk) as (? & ? & ? & ?). exists (f blk).
      split_and!; [done|congruence|congruence|done|done].
    + destruct (Hb x Hxr) as (blk & Hblk & ? & ? & ? & ?). destruct (Hx x) as [Hcx Hhx]; [done|].
      exists blk. rewrite Hhx, Hcx. done.
  - intros x key Hk. destruct (decide (x = b)) as [->|Hne].
    + assert (b ≠ 0) by (apply Hb0; congruence). lia.
    + apply (Hd x key). destruct (Hx x Hne) as [_ <-]. done.
Qed.

Lemma core_rep_set_ref_cnt p cnt h b f :
  core_rep p cnt h → 0 ≤ b < num_gpu_blocks p →
  core_rep (with_block p b (set_ref_cnt f)) (λ x, if decide (x = b) then f (cnt b) else cnt x) h.
Proof.
  intros Hcr Hr. destruct (cr_block _ _ _ Hcr b Hr) as (blk & Hblk & _ & Hn & Hh & Hc).
  assert (with_block p b (set_ref_cnt f)
    = set_cache (cached_block_hash_to_block p) (with_block p b (set_ref_cnt f))) as -> by done.
  eapply core_rep_with_block; try done.
  - intros blk' Hblk'. simplify_eq. simpl. rewrite decide_True by done.
    split_and!; try done. intros. by rewrite Hc.
  - intros x Hne. by rewrite decide_False.
  - intros Hne. destruct (h !! b) as [key|] eqn:Hk; [|done].
    pose proof (cr_hash_dom _ _ _ Hcr _ _ Hk). lia.
  - apply Hcr.
  - apply Hcr.
Qed.
End core.

Lemma map_pop_ok p cnt h b key :
  core_rep p cnt h → h !! b = Some key →
  ok (map_pop key b) p (λ r p', r = Some b ∧
    ∃ c, p' = set_cache c p ∧ cache_rep c (delete b h)).
Proof.
  intros Hcr Hb. pose proof (cr_hash_dom _ _ _ Hcr _ _ Hb) as Hr.
  pose proof (cr_cache _ _ _ Hcr) as Hca. pose proof Hca as [Hm Hw].
  assert (b ∈ members (cached_block_hash_to_block p !! key)) as Hin by by apply Hm.
  pose proof (Hw key) as Hwf. pose proof (Hm key) as Hmk.
  assert (∀ c', (∀ k, k ≠ key → c' !! k = cached_block_hash_to_block p !! k) →
    entry_wf (c' !! key) → (∀ x, x ∈ members (c' !! key) ↔
       x ∈ members (cached_block_hash_to_block p !! key) ∧ x ≠ b) →
    cache_rep c' (delete b h)) as Hupd.
  { intros c' H1 H2 H3. eapply cache_rep_update; [done..| |].
    - intros x. by rewrite H3, Hm, hash_delete_same.
    - intros x k Hk. by eapply hash_delete_other. }
  unfold map_pop. ok_steps.
  destruct (cached_block_hash_to_block p !! key) as [[b'|d]|] eqn:He; simpl in Hin.
  - apply list_elem_of_singleton in Hin as <-.
    destruct (cr_block _ _ _ Hcr b ltac:(lia)) as (blk & Hblk & Hid & _).
    ok_step. eapply ok_pool_read; [done|]. rewrite Hid, Z.eqb_refl. ok_steps.
    split; [done|]. eexists. split; [done|]. apply Hupd.
    + intros k Hk. by rewrite lookup_delete_ne.
    + by rewrite lookup_delete_eq.
    + intros x. rewrite lookup_delete_eq. simpl. set_solver.
  - destruct Hwf as (_ & Hnd & Hd).
    destruct (dict_pop_elem b d Hd Hnd Hin) as (d' & -> & Hd' & Hnd' & Hx).
    destruct d' as [|kv d'].
    + ok_steps. split; [done|]. eexists. split; [done|]. apply Hupd.
      * intros k Hk. by rewrite lookup_delete_ne.
      * by rewrite lookup_delete_eq.
      * intros x. rewrite lookup_delete_eq. apply Hx.
    + ok_steps. split; [done|]. eexists. split; [done|]. apply Hupd.
      * intros k Hk. by rewrite lookup_insert_ne.
      * rewrite lookup_insert_eq. done.
      * intros x. rewrite lookup_insert_eq. apply Hx.
  - by apply elem_of_nil in Hin.
Qed.

(** The block being filed already carries its key; the map does not. *)
Lemma map_insert_ok p c h b key :
  (∀ x k, h !! x = Some k → ∃ blk, mem (free_block_queue p) !! x = Some blk ∧ block_id blk = x) →
  (∃ blk, mem (free_block_queue p) !! b = Some blk ∧ block_id blk = b) →
  cached_block_hash_to_block p = c → cache_rep c h → h !! b = None →
  ok (map_insert key b) p (λ _ p',
    ∃ c', p' = set_cache c' p ∧ cache_rep c' (<[b := key]> h)).
Proof.
  intros Hids (blk & Hblk & Hid) Hpc Hca Hb. pose proof Hca as [Hm Hw].
  pose proof (Hw key) as Hwf.
  assert (b ∉ members (c !! key)) as Hnin by (rewrite Hm; congruence).
  assert (∀ e, entry_wf (Some e) → (∀ x, x ∈ members (Some e) ↔ x = b ∨ x ∈ members (c !! key)) →
    cache_rep (<[key := e]> c) (<[b := key]> h)) as Hupd.
  { intros e H2 H3. eapply cache_rep_update; [done|..].
    - intros k Hk. by rewrite lookup_insert_ne.
    - by rewrite lookup_insert_eq.
    - intros x. by rewrite lookup_insert_eq, H3, Hm, hash_insert_same.
    - intros x k Hk. by apply hash_insert_other. }
  unfold map_insert. ok_steps. rewrite Hpc.
  destruct (c !! key) as [[b'|d]|] eqn:He.
  - assert (h !! b' = Some key) as Hb'.
    { apply Hm. rewrite He. by apply list_elem_of_singleton. }
    destruct (Hids _ _ Hb') as (blk' & Hblk' & Hid').
    ok_step. eapply ok_pool_read; [done|]. ok_step. eapply ok_pool_read; [done|]. ok_steps.
    rewrite Hid, Hid'. eexists. split; [done|]. apply not_elem_of_cons in Hnin as [Hne _].
    rewrite dict_set_fresh by (simpl; set_solver). simpl. apply Hupd; simpl.
    + split_and!; [done| |done]. repeat constructor; set_solver.
    + intros x. set_solver.
  - destruct Hwf as (Hd & Hnd & Hdd). simpl in Hnin.
    ok_step. eapply ok_pool_read; [done|]. ok_steps. rewrite Hid.
    eexists. split; [done|]. rewrite dict_set_fresh by by rewrite Hdd. apply Hupd; simpl.
    + rewrite !fmap_app, Hdd. split_and!; [by destruct d| |done].
      apply NoDup_app. split_and!; [done| |apply NoDup_singleton].
      intros x Hx ->%list_elem_of_singleton. done.
    + intros x. rewrite fmap_app. simpl. set_solver.
  - ok_steps. eexists. split; [done|]. apply Hupd; simpl; [done|]. intros x. set_solver.
Qed.

Lemma xcount_one (x y : ExternalBlockHash) : xcount x [y] = if decide (y = x) then 1 else 0.
Proof. unfold xcount. rewrite filter_cons. by case_decide. Qed.

Lemma core_rep_set_events p cnt h e : core_rep p cnt h → core_rep (set_events e p) cnt h.
Proof. intros [? ? ? ? ? ? ?]. by split. Qed.

Lemma pool_rep_set_events p a e : pool_rep p a → pool_rep (set_events e p) a.
Proof. intros [Hcr ? ? ?]. split; [by apply core_rep_set_events|done..]. Qed.

Section pool_lemmas.
Context `{HashEnv}.
Implicit Types (p : BlockPool) (cnt : Z → Z) (h : gmap Z bytes).

Lemma evict_ok p cnt h l b :
  core_rep p cnt h → free_rep (free_block_queue p) l → 0 ≤ b < num_gpu_blocks p →
  ok (maybe_evict_cached_block b) p (λ r p',
    r = bool_decide (h !! b ≠ None) ∧ core_rep p' cnt (delete b h) ∧
    free_rep (free_block_queue p') l ∧ evolves p h p' (delete b h)).
Proof.
  intros Hcr Hfr Hr. destruct (cr_block _ _ _ Hcr b Hr) as (blk & Hblk & Hid & Hn & Hh & Hc).
  unfold maybe_evict_cached_block. ok_step. eapply ok_pool_read; [done|]. rewrite Hh, Hid.
  destruct (h !! b) as [key|] eqn:Hb.
  2: { ok_steps. rewrite delete_id by done. split_and!; [done..|]. by apply evolves_same. }
  ok_step. eapply ok_mono; [by eapply map_pop_ok|].
  intros r p1 (-> & c & -> & Hca). ok_step. apply ok_pool_write. ok_steps.
  assert (core_rep (set_cache c (with_block p b reset_hash)) cnt (delete b h)) as Hcr'.
  { eapply core_rep_with_block; [done|done|..|done|].
    - intros blk' Hblk'. simplify_eq. simpl. rewrite lookup_delete_eq. naive_solver.
    - intros x Hx. by rewrite lookup_delete_ne.
    - by rewrite lookup_delete_eq.
    - intros Hen. rewrite (cr_caching _ _ _ Hcr Hen) in Hb. done. }
  assert (free_rep (free_block_queue (with_block p b reset_hash)) l) as Hfr'
    by by apply free_rep_with_block.
  assert (bool_decide (Some key ≠ None) = true) as -> by done.
  destruct (enable_kv_cache_events p) eqn:Hev; cbn [enable_kv_cache_events set_cache with_block set_free_block_queue];
    rewrite Hev.
  - ok_steps. split_and!; [done| |done|].
    + by apply core_rep_set_events.
    + split; [done|]. intros t Ht _ x g. cbn. rewrite app_assoc, balance_snoc.
      rewrite (Ht Hev x g). rewrite (hcount_delete _ _ _ _ Hb). unfold event_step. f_equal.
      rewrite xcount_one. unfold shows. repeat case_decide; naive_solver.
  - ok_steps. split_and!; [done..|]. split; [done|]. intros t _ Hen. simpl in Hen. congruence.
Qed.

Lemma claim_ok p cnt h l b :
  core_rep p cnt h → free_rep (free_block_queue p) l → 0 < b < num_gpu_blocks p → cnt b = 0 →
  ok (claim_block b) p (λ _ p',
    core_rep p' (λ x, (if decide (x = b) then 1 else 0) + cnt x) h ∧
    free_rep (free_block_queue p') l ∧ evolves p h p' h).
Proof.
  intros Hcr Hfr Hr H0. destruct (cr_block _ _ _ Hcr b ltac:(lia)) as (blk & Hblk & _ & _ & _ & Hc).
  unfold claim_block. ok_step. eapply ok_pool_read; [done|]. ok_step.
  apply ok_assert. { rewrite Hc by lia. by rewrite H0. }
  apply ok_pool_write. split_and!.
  - eapply core_rep_ext; [|apply core_rep_set_ref_cnt; [done|lia]].
    intros x _. simpl. case_decide; subst; lia.
  - by apply free_rep_with_block.
  - by apply evolves_same.
Qed.

(** *** Allocation *)

Definition unhash (bs : list loc) (h : gmap Z bytes) : gmap Z bytes := foldr delete h bs.

Lemma lookup_unhash_in bs h b : b ∈ bs → unhash bs h !! b = None.
Proof. intros. by apply lookup_foldr_delete. Qed.
Lemma lookup_unhash_out bs h b : b ∉ bs → unhash bs h !! b = h !! b.
Proof. intros. by apply lookup_foldr_delete_not_elem_of. Qed.
Lemma unhash_subseteq bs h : unhash bs h ⊆ h.
Proof.
  apply map_subseteq_spec. intros b k Hb. destruct (decide (b ∈ bs)).
  - by rewrite lookup_unhash_in in Hb.
  - by rewrite lookup_unhash_out in Hb.
Qed.
Lemma unhash_cons b bs h : unhash bs (delete b h) = unhash (b :: bs) h.
Proof.
  unfold unhash. simpl. induction bs as [|x bs IH]; simpl; [done|].
  by rewrite IH, delete_delete.
Qed.
Lemma unhash_empty bs : unhash bs ∅ = ∅.
Proof. induction bs as [|x bs IH]; simpl; [done|]. by rewrite IH, delete_empty. Qed.

Lemma claim_loop_ok (f : loc → M BlockPool unit) (evict : bool) bs p cnt h l :
  (∀ p cnt h b, core_rep p cnt h → free_rep (free_block_queue p) l →
     0 < b < num_gpu_blocks p → cnt b = 0 → (evict = false → h = ∅) →
     ok (f b) p (λ _ p', core_rep p' (λ x, (if decide (x = b) then 1 else 0) + cnt x) (delete b h) ∧
       free_rep (free_block_queue p') l ∧ evolves p h p' (delete b h))) →
  core_rep p cnt h → free_rep (free_block_queue p) l → (evict = false → h = ∅) →
  NoDup bs → (∀ b, b ∈ bs → 0 < b < num_gpu_blocks p ∧ cnt b = 0) →
  ok (for_each bs f) p (λ _ p',
    core_rep p' (λ x, occ x bs + cnt x) (unhash bs h) ∧
    free_rep (free_block_queue p') l ∧ evolves p h p' (unhash bs h)).
Proof.
  intros Hf. revert p cnt h.
  induction bs as [|b bs IH]; intros p cnt h Hcr Hfr Hev Hnd Hbs; simpl.
  { apply ok_ret. split_and!; [done..|by apply evolves_same]. }
  apply NoDup_cons in Hnd as [Hb Hnd]. destruct (Hbs b ltac:(by left)) as [Hr H0].
  ok_step. eapply ok_mono; [by apply (Hf p cnt h b)|]. intros _ p1 (Hcr1 & Hfr1 & Hev1).
  pose proof (proj1 Hev1) as Hcfg.
  eapply ok_mono; [eapply IH; [done|done|..|done|]|].
  - intros He. rewrite (Hev He). apply delete_empty.
  - intros x Hx. destruct (Hbs x ltac:(by right)) as [Hrx Hx0].
    destruct Hcfg as [-> _]. split; [done|]. rewrite decide_False; [lia|]. by intros ->.
  - intros _ p2 (Hcr2 & Hfr2 & Hev2). rewrite unhash_cons in Hcr2, Hev2. split_and!.
    + eapply core_rep_ext; [|exact Hcr2]. intros x _. simpl.
      destruct (decide (b = x)), (decide (x = b)); lia || congruence.
    + done.
    + by eapply evolves_trans.
Qed.

Definition a_get (n : Z) (a : apool) : apool :=
  let bs := take (Z.to_nat n) (a_free a) in
  MkAPool (drop (Z.to_nat n) (a_free a)) (bs ++ a_refs a) (unhash bs (a_hash a)).

Lemma queue_rep_NoDup s l : queue_rep s l → NoDup l.
Proof. intros [Hnd _ _ _ _]. apply NoDup_cons in Hnd as [_ Hnd]. by apply NoDup_app in Hnd as [? _]. Qed.

Lemma free_rep_frame q q' l l' :
  free_rep q l → queue_rep q' l' → frame_ok q q' → free_rep q' l'.
Proof. intros [_ Hh Ht] Hq [_ [E1 E2]]. split; [done|congruence..]. Qed.

Lemma pool_rep_num_free p a : pool_rep p a →
  get_num_free_blocks p = (Ok (len (a_free a)), p).
Proof.
  intros Hp. unfold get_num_free_blocks, onq, zoom, getq, gets.
  rewrite set_free_block_queue_id. by rewrite (qr_num _ _ (fr_queue _ _ (pr_queue _ _ Hp))).
Qed.

Lemma pool_free_NoDup p a : pool_rep p a → NoDup (a_free a).
Proof. intros Hp. eapply queue_rep_NoDup, (fr_queue _ _ (pr_queue _ _ Hp)). Qed.

Lemma get_new_blocks_ok p a n :
  pool_rep p a → 0 ≤ n ≤ len (a_free a) →
  ok (get_new_blocks n) p (λ r p',
    r = take (Z.to_nat n) (a_free a) ∧ pool_rep p' (a_get n a) ∧
    evolves p (a_hash a) p' (a_hash (a_get n a))).
Proof.
  intros Hp Hn. pose proof Hp as [Hcr Hfr Hfree Hrefs].
  pose proof (pool_free_NoDup _ _ Hp) as Hnd.
  unfold get_new_blocks. ok_step. eapply ok_eq; [by apply pool_rep_num_free|].
  rewrite (proj2 (Z.ltb_ge _ _)) by lia. ok_step. apply ok_onq.
  eapply ok_mono; [apply popleft_n_ok; [apply Hfr|done]|].
  intros r q1 (-> & Hq1 & Hfr1). ok_steps. set (bs := take (Z.to_nat n) (a_free a)).
  assert (a_free a = bs ++ drop (Z.to_nat n) (a_free a)) as Hsplit by (symmetry; apply take_drop).
  pose proof Hnd as Hnd'. rewrite Hsplit in Hnd'. apply NoDup_app in Hnd' as (Hndb & Hdis & _).
  set (p1 := set_free_block_queue q1 p).
  assert (core_rep p1 (λ b, occ b (a_refs a)) (a_hash a)) as Hcr1
    by (apply core_rep_queue; [apply Hfr1|done]).
  assert (free_rep (free_block_queue p1) (drop (Z.to_nat n) (a_free a))) as Hf1
    by by eapply free_rep_frame.
  assert (∀ b, b ∈ bs → 0 < b < num_gpu_blocks p1 ∧ occ b (a_refs a) = 0) as Hbs.
  { intros b Hb. destruct (proj1 (Hfree b)) as [? ?]; [rewrite Hsplit; set_solver|].
    split; [done|by apply occ_0]. }
  apply (ok_mono _ _ (λ _ p', core_rep p' (λ x, occ x bs + occ x (a_refs a)) (unhash bs (a_hash a)) ∧
    free_rep (free_block_queue p') (drop (Z.to_nat n) (a_free a)) ∧
    evolves p1 (a_hash a) p' (unhash bs (a_hash a)))).
  - case_match eqn:Hc.
    + eapply (claim_loop_ok _ true); try done. intros p2 cnt h b Hcr2 Hfr2 Hb H0 _.
      ok_step. eapply ok_mono; [by eapply (evict_ok p2); [..|lia]|].
      intros r p3 (_ & Hcr3 & Hfr3 & Hev3). pose proof (proj1 (proj1 Hev3)) as Hnum.
      eapply ok_mono; [by eapply claim_ok; [..|rewrite Hnum|]|].
      intros _ p4 (? & ? & ?). split_and!; try done. by eapply evolves_trans.
    + eapply (claim_loop_ok _ false); try done.
      * intros p2 cnt h b Hcr2 Hfr2 Hb H0 Hemp. rewrite (Hemp eq_refl), delete_empty.
        rewrite (Hemp eq_refl) in Hcr2. by apply claim_ok.
      * intros _. by apply (cr_caching _ _ _ Hcr1).
  - intros _ p' (Hcr' & Hfr' & Hev'). ok_steps. split_and!; [done| |].
    2: { eapply evolves_trans; [|exact Hev']. by apply evolves_same. }
    pose proof (proj1 (proj1 Hev')) as Hnum. split; simpl.
    + eapply core_rep_ext; [|done]. intros x _. simpl. by rewrite occ_app.
    + done.
    + intros b. rewrite Hnum. cbn. split.
      * intros Hb. destruct (proj1 (Hfree b)) as [? ?]; [rewrite Hsplit; set_solver|].
        split; [done|]. rewrite elem_of_app. intros [Hb'|?]; [|done]. by eapply Hdis.
      * rewrite not_elem_of_app. intros (? & ? & ?).
        assert (b ∈ a_free a) as Hb by by apply Hfree.
        rewrite Hsplit in Hb. apply elem_of_app in Hb as [?|?]; done.
    + intros b. rewrite Hnum. rewrite elem_of_app. intros [Hb|Hb]; [|by apply Hrefs].
      destruct (Hbs b Hb). cbn in *. lia.
Qed.

Lemma get_new_blocks_raises p a n :
  pool_rep p a → len (a_free a) < n → get_new_blocks n p = (Err ValueError, p).
Proof.
  intros Hp Hn. unfold get_new_blocks, bind. rewrite (pool_rep_num_free _ _ Hp).
  by rewrite (proj2 (Z.ltb_lt _ _)).
Qed.

(** *** Touching and freeing *)

Lemma pool_rep_refs_perm p l refs refs' h :
  refs ≡ₚ refs' → pool_rep p (MkAPool l refs h) → pool_rep p (MkAPool l refs' h).
Proof.
  intros Hperm [Hcr Hfr Hf Hr]. split; simpl in *.
  - eapply core_rep_ext; [|done]. intros b _. simpl. by rewrite Hperm.
  - done.
  - intros b. by rewrite <-Hperm.
  - intros b. rewrite <-Hperm. apply Hr.
Qed.

Definition a_touch (bs : list loc) (a : apool) : apool :=
  MkAPool (filter (λ b, b ∉ bs) (a_free a)) (bs ++ a_refs a) (a_hash a).

Lemma touch_one_ok p a b :
  pool_rep p a → 0 ≤ b < num_gpu_blocks p →
  ok (touch_one b) p (λ _ p', pool_rep p' (a_touch [b] a) ∧
    evolves p (a_hash a) p' (a_hash a)).
Proof.
  intros Hp Hr. pose proof Hp as [Hcr Hfr Hfree Hrefs].
  destruct (cr_block _ _ _ Hcr b Hr) as (blk & Hblk & _ & Hn & _ & Hc).
  unfold touch_one. ok_step. eapply ok_pool_read; [done|]. ok_step.
  apply (ok_mono _ _ (λ _ p', core_rep p' (λ x, occ x (a_refs a)) (a_hash a) ∧
    free_rep (free_block_queue p') (filter (λ x, x ∉ [b]) (a_free a)) ∧
    evolves p (a_hash a) p' (a_hash a))).
  - destruct (decide (b ∈ a_free a)) as [Hb|Hb].
    + pose proof Hb as Hb'. apply Hfree in Hb' as [Hb0 Hnr].
      rewrite Hc, (proj2 (occ_0 _ _) Hnr), Hn, (proj2 (Z.eqb_neq b 0)) by lia. simpl.
      apply list_elem_of_split in Hb as (l1 & l2 & Hl).
      apply ok_onq. eapply ok_mono; [apply (remove_ok _ l1 b l2); rewrite <-Hl; apply Hfr|].
      intros _ q' (Hq & Hq'). split_and!; [by apply core_rep_queue; [apply Hq'|]| |by apply evolves_same].
      cbn. eapply free_rep_frame; [done| |done].
      assert (filter (λ x, x ∉ [b]) (a_free a) = l1 ++ l2) as ->; [|done].
      pose proof (pool_free_NoDup _ _ Hp) as Hnd. rewrite Hl in Hnd |- *.
      rewrite <-(Refinement.filter_remove b l1 l2 Hnd). apply list_filter_iff. intros x. set_solver.
    + assert (((ref_cnt blk =? 0) && negb (is_null blk)) = false) as ->.
      { rewrite Hn. apply andb_false_iff. destruct (Z.eqb_spec b 0); [by right|].
        left. rewrite Hc by done. apply Z.eqb_neq. intros H0%occ_0. apply Hb, Hfree. split; [lia|done]. }
      apply ok_ret. split_and!; [done| |by apply evolves_same].
      rewrite filter_id; [done|]. intros x Hx. rewrite list_elem_of_singleton. by intros ->.
  - intros _ p1 (Hcr1 & Hfr1 & Hev1). apply ok_pool_write.
    pose proof (proj1 (proj1 Hev1)) as Hnum. split.
    2: { eapply evolves_trans; [done|by apply evolves_same]. }
    split; cbn.
    + eapply core_rep_ext; [|apply core_rep_set_ref_cnt; [exact Hcr1|by rewrite Hnum]].
      intros x _. simpl. destruct (decide (b = x)), (decide (x = b)); subst; lia || congruence.
    + by apply (free_rep_with_block p1).
    + intros x. rewrite Hnum, list_elem_of_filter, Hfree. set_solver.
    + intros x. rewrite Hnum. intros [->|Hx]%elem_of_cons; [done|by apply Hrefs].
Qed.

Lemma a_touch_cons b bs a :
  a_free (a_touch bs (a_touch [b] a)) = a_free (a_touch (b :: bs) a) ∧
  a_refs (a_touch bs (a_touch [b] a)) ≡ₚ a_refs (a_touch (b :: bs) a).
Proof.
  simpl. split.
  - rewrite list_filter_filter. apply list_filter_iff. intros x. set_solver.
  - by rewrite <-Permutation_middle.
Qed.

Lemma touch_ok p a bs :
  pool_rep p a → (∀ b, b ∈ bs → 0 ≤ b < num_gpu_blocks p) →
  ok (touch bs) p (λ _ p', pool_rep p' (a_touch bs a) ∧ evolves p (a_hash a) p' (a_hash a)).
Proof.
  revert p a. induction bs as [|b bs IH]; intros p a Hp Hbs; unfold touch in *; simpl.
  - apply ok_ret. unfold a_touch. rewrite filter_id by (intros; apply not_elem_of_nil).
    destruct a; simpl. split; [done|by apply evolves_same].
  - ok_step. eapply ok_mono; [apply touch_one_ok; [done|apply Hbs; by left]|].
    intros _ p1 [Hp1 Hev1]. pose proof (proj1 (proj1 Hev1)) as Hnum.
    eapply ok_mono; [apply IH; [done|rewrite Hnum; intros x Hx; apply Hbs; by right]|].
    intros _ p2 [Hp2 Hev2]. split; [|by eapply evolves_trans].
    destruct (a_touch_cons b bs a) as [Hf Hr].
    unfold a_touch in Hp2 at 1. simpl in Hf. cbn [a_free a_refs a_hash a_touch] in Hp2, Hr.
    rewrite Hf in Hp2. eapply pool_rep_refs_perm; [exact Hr|exact Hp2].
Qed.

Lemma decr_loop_ok bs p cnt h l :
  core_rep p cnt h → free_rep (free_block_queue p) l →
  (∀ b, b ∈ bs → 0 ≤ b < num_gpu_blocks p) →
  ok (for_each bs (λ b, onq (write b (set_ref_cnt (λ n, n - 1))))) p (λ _ p',
    core_rep p' (λ x, cnt x - occ x bs) h ∧ free_rep (free_block_queue p') l ∧ evolves p h p' h).
Proof.
  revert p cnt. induction bs as [|b bs IH]; intros p cnt Hcr Hfr Hbs; simpl.
  - apply ok_ret. split_and!; [|done|by apply evolves_same].
    eapply core_rep_ext; [|done]. intros; simpl; lia.
  - ok_step. apply ok_pool_write. eapply ok_mono; [eapply IH|].
    + by apply core_rep_set_ref_cnt; [|apply Hbs; left].
    + by apply free_rep_with_block.
    + intros x Hx. apply Hbs. by right.
    + intros _ p' (Hcr' & Hfr' & Hev'). split_and!; [|done|].
      * eapply core_rep_ext; [|done]. intros x _. simpl.
        destruct (decide (b = x)), (decide (x = b)); subst; lia || congruence.
      * eapply evolves_trans; [|done]. by apply evolves_same.
Qed.

Lemma filter_each_pure (f : loc → M BlockPool bool) (P : loc → Prop) `{∀ x, Decision (P x)} l p :
  (∀ x, x ∈ l → f x p = (Ok (bool_decide (P x)), p)) →
  filter_each f l p = (Ok (filter P l), p).
Proof.
  induction l as [|x l IH]; intros Hf; [done|]. cbn [filter_each]. unfold bind.
  rewrite Hf by left. rewrite IH by (intros; apply Hf; by right).
  rewrite filter_cons. by case_decide; case_bool_decide.
Qed.

Lemma onq_read_eq p cnt h b :
  core_rep p cnt h → 0 ≤ b < num_gpu_blocks p →
  ∃ blk, onq (read b) p = (Ok blk, p) ∧ block_id blk = b ∧ is_null blk = (b =? 0) ∧
    block_hash blk = h !! b ∧ (b ≠ 0 → ref_cnt blk = cnt b).
Proof.
  intros Hcr Hb. destruct (cr_block _ _ _ Hcr b Hb) as (blk & Hblk & ?). exists blk.
  split; [|done]. unfold onq, zoom, read, or_raise. rewrite Hblk. simpl.
  by rewrite set_free_block_queue_id.
Qed.

Lemma filter_each_freed p cnt h bs :
  core_rep p cnt h → (∀ b, b ∈ bs → 0 ≤ b < num_gpu_blocks p) →
  filter_each is_freed bs p = (Ok (filter (λ b, b ≠ 0 ∧ cnt b = 0) bs), p).
Proof.
  intros Hcr Hbs. apply (filter_each_pure _ (λ b, b ≠ 0 ∧ cnt b = 0)). intros b Hb.
  destruct (onq_read_eq p cnt h b Hcr (Hbs b Hb)) as (blk & Hrd & _ & Hn & _ & Hc).
  unfold is_freed, bind. rewrite Hrd, Hn. unfold ret. do 2 f_equal.
  destruct (Z.eqb_spec b 0) as [->|Hb0]; cbn [negb].
  - by rewrite andb_false_r, bool_decide_eq_false_2 by tauto.
  - rewrite Hc, andb_true_r by done. destruct (Z.eqb_spec (cnt b) 0).
    + by rewrite bool_decide_eq_true_2.
    + by rewrite bool_decide_eq_false_2 by tauto.
Qed.

(** The blocks of [bs] whose last reference goes away. *)
Definition freed_of (refs bs : list loc) : list loc := filter (λ b, b ≠ 0 ∧ b ∉ refs) bs.

Definition a_release (bs : list loc) (prepend : bool) (l refs : list loc) (h : gmap Z bytes) : apool :=
  MkAPool (if prepend then freed_of refs bs ++ l else l ++ freed_of refs bs) refs h.

Lemma free_blocks_ok p l refs h bs prepend :
  pool_rep p (MkAPool l (bs ++ refs) h) → NoDup (freed_of refs bs) →
  ok (free_blocks bs prepend) p (λ _ p',
    pool_rep p' (a_release bs prepend l refs h) ∧ evolves p h p' h).
Proof.
  intros Hp Hnd. pose proof Hp as [Hcr Hfr Hfree Hrefs]. simpl in *.
  assert (∀ b, b ∈ bs → 0 ≤ b < num_gpu_blocks p) as Hbs by (intros; apply Hrefs; set_solver).
  unfold free_blocks. ok_step. eapply ok_mono; [by eapply decr_loop_ok|].
  intros _ p1 (Hcr1 & Hfr1 & Hev1). pose proof (proj1 (proj1 Hev1)) as Hnum.
  assert (core_rep p1 (λ b, occ b refs) h) as Hcr1'.
  { eapply core_rep_ext; [|done]. intros b _. simpl. rewrite occ_app. lia. }
  ok_step. eapply ok_eq; [apply (filter_each_freed p1 _ h bs Hcr1'); by rewrite Hnum|].
  assert (filter (λ b, b ≠ 0 ∧ occ b refs = 0) bs = freed_of refs bs) as ->.
  { apply list_filter_iff. intros b. by rewrite occ_0. }
  assert (fresh (free_block_queue p1) l (freed_of refs bs)) as Hfresh.
  { split; [done|]. intros b [[Hb0 Hbr] Hb]%list_elem_of_filter.
    destruct Hfr1 as [_ -> ->]. pose proof (Hbs b Hb).
    destruct (cr_block _ _ _ Hcr1 b) as (blk & ? & _); [by rewrite Hnum|]. split; [|eauto].
    rewrite elem_of_cons, elem_of_app, list_elem_of_singleton.
    intros [?|[Hl|?]]; [lia| |lia]. apply Hfree in Hl as [_ Hl]. set_solver. }
  assert (∀ q' l', (∀ b, b ∈ l' ↔ b ∈ l ∨ b ∈ freed_of refs bs) →
    queue_rep q' l' → frame_ok (free_block_queue p1) q' →
    pool_rep (set_free_block_queue q' p1) (MkAPool l' refs h) ∧
    evolves p h (set_free_block_queue q' p1) h) as Hdone.
  { intros q' l' Hl' Hq' Hfq. split; [|eapply evolves_trans; [done|by apply evolves_same]].
    split; cbn.
    - apply core_rep_queue; [apply Hfq|done].
    - by eapply free_rep_frame.
    - intros b. rewrite Hnum, Hl', Hfree. unfold freed_of. rewrite list_elem_of_filter, not_elem_of_app.
      split.
      + intros [(? & ? & ?)|((? & ?) & Hb)]; [done|]. pose proof (Hbs b Hb). split; [lia|done].
      + intros [? ?]. destruct (decide (b ∈ bs)); [right; split; [split; [lia|done]|done]|by left].
    - intros b Hb. rewrite Hnum. apply Hrefs. set_solver. }
  unfold a_release. case_match; apply ok_onq.
  - eapply ok_mono; [by apply prepend_n_ok; [apply Hfr1|]|]. intros _ q' [? ?].
    apply Hdone; [set_solver|done..].
  - eapply ok_mono; [by apply append_n_ok; [apply Hfr1|]|]. intros _ q' [? ?].
    apply Hdone; [set_solver|done..].
Qed.

(** *** Caching full blocks *)

(** The hash of block [i] when [scale] hashes make up one block. *)
Definition block_hash_at (hs : list bytes) (scale i : Z) : bytes :=
  bhl_get_value_at (MkBHL hs scale) i.

Lemma block_hash_at_1 hs i x : 0 ≤ i → hs !! Z.to_nat i = Some x → block_hash_at hs 1 i = x.
Proof.
  intros Hi Hx. unfold block_hash_at, bhl_get_value_at. simpl.
  rewrite slice_nonneg by lia. replace (Z.to_nat (i * 1)) with (Z.to_nat i) by lia.
  replace (Z.to_nat (i * 1 + 1) - Z.to_nat i)%nat with 1%nat by lia.
  apply drop_S in Hx. rewrite Hx. simpl. by rewrite app_nil_r.
Qed.

(** The hash list [cache_full_blocks] reads. *)
Definition hash_list (hs : list bytes) (hash_block_size block_size : Z) : BlockHashList :=
  if block_size =? hash_block_size then PlainHashes hs
  else CoarseHashes (MkBHL hs (block_size / hash_block_size)).

Lemma hash_list_nth {S} hs hbs bs i (s : S) :
  0 < hbs → 0 < bs → 0 ≤ i → (i + 1) * (bs / hbs) ≤ len hs →
  hashes_nth (hash_list hs hbs bs) i s = (Ok (block_hash_at hs (bs / hbs) i), s).
Proof.
  intros H1 H2 Hi Hlen. unfold hash_list. destruct (Z.eqb_spec bs hbs) as [->|Hne]; [|done].
  rewrite Z.div_same in * by lia. simpl. rewrite py_nth_nonneg by done.
  destruct (lookup_lt_is_Some_2 hs (Z.to_nat i)) as [x Hx]; [unfold len in *; lia|].
  rewrite Hx. simpl. by rewrite (block_hash_at_1 hs i x).
Qed.

Lemma hash_list_from hs hbs bs a i :
  0 < hbs → 0 < bs → bs mod hbs = 0 → 0 ≤ a → 0 ≤ i → (a + i + 1) * (bs / hbs) ≤ len hs →
  py_nth (hashes_from (hash_list hs hbs bs) a) i = Some (block_hash_at hs (bs / hbs) (a + i)).
Proof.
  intros H1 H2 Hmod Ha Hi Hlen. rewrite py_nth_nonneg by done.
  unfold hash_list. destruct (Z.eqb_spec bs hbs) as [->|Hne]; simpl.
  - rewrite Z.div_same in * by lia. rewrite slice_from_nonneg, lookup_drop by done.
    destruct (lookup_lt_is_Some_2 hs (Z.to_nat a + Z.to_nat i)) as [x Hx]; [unfold len in *; lia|].
    rewrite Hx. f_equal. symmetry. apply block_hash_at_1; [lia|]. by rewrite Z2Nat.inj_add by lia.
  - unfold bhl_slice_from. assert (0 < bs / hbs) as Hs.
    { apply Z.div_str_pos. apply Z.mod_divide in Hmod; [|lia]. apply Z.divide_pos_le in Hmod; lia. }
    assert (a + i < bhl_len (MkBHL hs (bs / hbs))) as Hb.
    { unfold bhl_len. simpl. assert (a + i + 1 ≤ len hs / (bs / hbs)); [|lia].
      apply Z.div_le_lower_bound; lia. }
    rewrite list_lookup_fmap. unfold py_bound. rewrite (proj2 (Z.ltb_ge _ _)), Z.min_l by lia.
    unfold range. rewrite lookup_seqZ_lt by lia. simpl. do 2 f_equal. lia.
Qed.

(** [block_mask is None or block_mask[i]] *)
Definition mask_allows (block_mask : option (list bool)) (i : Z) : bool :=
  match block_mask with None => true | Some mask => default false (py_nth mask i) end.

(** The blocks that enter the cache, with their hashes. *)
Definition to_store (hash : Z → bytes) (block_mask : option (list bool))
    (iblks : list (Z * loc)) : list (loc * bytes) :=
  (λ ib, (ib.2, hash ib.1)) <$>
    filter (λ ib : Z * loc, ib.2 ≠ 0 ∧ mask_allows block_mask ib.1 = true) iblks.

Definition file_hashes (g : Z) (new : list (loc * bytes)) (h : gmap Z bytes) : gmap Z bytes :=
  foldl (λ h bh, <[bh.1 := block_key bh.2 g]> h) h new.

Lemma to_store_cons hash mask i blk iblks :
  to_store hash mask ((i, blk) :: iblks)
  = (if decide (blk ≠ 0 ∧ mask_allows mask i = true) then [(blk, hash i)] else [])
    ++ to_store hash mask iblks.
Proof. unfold to_store. rewrite filter_cons. simpl. by case_decide. Qed.

Lemma masked_out_eq {S} mask i (s : S) :
  (∀ m, mask = Some m → 0 ≤ i < len m) →
  masked_out mask i s = (Ok (negb (mask_allows mask i)), s).
Proof.
  intros Hm. unfold masked_out, mask_allows. destruct mask as [m|]; [|done].
  specialize (Hm m eq_refl). rewrite py_nth_nonneg by lia.
  destruct (lookup_lt_is_Some_2 m (Z.to_nat i)) as [x Hx]; [unfold len in *; lia|].
  by rewrite Hx.
Qed.

Lemma cache_one_ok p cnt h l hs hash g mask nh i blk :
  core_rep p cnt h → free_rep (free_block_queue p) l → enable_caching p = true →
  0 ≤ g < 2 ^ 32 → 0 ≤ blk < num_gpu_blocks p →
  (∀ m, mask = Some m → 0 ≤ i < len m) → py_nth hs i = Some (hash i) →
  (blk ≠ 0 → mask_allows mask i = true → h !! blk = None) →
  ok (cache_one_block hs g mask nh (i, blk)) p (λ nh' p',
    core_rep p' cnt (file_hashes g (to_store hash mask [(i, blk)]) h) ∧
    free_rep (free_block_queue p') l ∧ same_config p p' ∧
    kv_event_queue p' = kv_event_queue p ∧
    nh' = (λ l, l ++ ((λ bh, maybe_convert_block_hash bh.2) <$> to_store hash mask [(i, blk)])) <$> nh).
Proof.
  intros Hcr Hfr Hen Hg Hr Hm Hi Hnone.
  destruct (cr_block _ _ _ Hcr blk Hr) as (b & Hblk & Hid & Hn & Hh & Hc).
  unfold cache_one_block. ok_step. eapply ok_pool_read; [done|]. rewrite Hn, to_store_cons.
  ok_step. apply (ok_eq _ _ (bool_decide (¬ (blk ≠ 0 ∧ mask_allows mask i = true))) p).
  { destruct (Z.eqb_spec blk 0) as [->|Hb0].
    - rewrite bool_decide_eq_true_2 by tauto. done.
    - rewrite masked_out_eq by done. do 2 f_equal.
      destruct (mask_allows mask i); [by rewrite bool_decide_eq_false_2 by tauto|].
      by rewrite bool_decide_eq_true_2 by naive_solver. }
  destruct (decide (blk ≠ 0 ∧ mask_allows mask i = true)) as [[Hb0 Hma]|Hskip].
  2: { rewrite bool_decide_eq_true_2 by done. apply ok_ret. cbn. split_and!; try done.
       destruct nh; simpl; by rewrite ?app_nil_r. }
  rewrite bool_decide_eq_false_2 by tauto. specialize (Hnone Hb0 Hma).
  ok_step. apply ok_assert; [by rewrite Hh, Hnone|]. ok_step. rewrite Hi. apply ok_ret. ok_step.
  eapply ok_eq; [by apply make_key_eq|]. fold (block_key (hash i) g). ok_step.
  apply ok_pool_write. ok_step.
  eapply ok_mono; [eapply (map_insert_ok _ (cached_block_hash_to_block p) h)|]; try done.
  - intros x k Hx. pose proof (cr_hash_dom _ _ _ Hcr _ _ Hx) as Hxr.
    destruct (cr_block _ _ _ Hcr x ltac:(lia)) as (bx & Hbx & Hidx & _).
    cbn. rewrite lookup_alter_ne by (intros ->; congruence). eauto.
  - cbn. rewrite lookup_alter_eq, Hblk. simpl. eauto.
  - apply Hcr.
  - intros _ p' (c & -> & Hca). ok_steps. cbn [to_store app list_fmap fmap foldl file_hashes].
    split_and!; try done.
    + eapply core_rep_with_block; try done.
      * intros b' Hb'. simplify_eq. cbn. rewrite lookup_insert_eq. done.
      * intros x Hx. cbn. by rewrite lookup_insert_ne by done.
      * intros Hf. congruence.
    + by apply free_rep_with_block.
Qed.

Lemma file_hashes_app g new1 new2 h :
  file_hashes g (new1 ++ new2) h = file_hashes g new2 (file_hashes g new1 h).
Proof. unfold file_hashes. by rewrite foldl_app. Qed.

Lemma file_hashes_out g new h b : b ∉ new.*1 → file_hashes g new h !! b = h !! b.
Proof.
  revert h. induction new as [|[x k] new IH]; intros h; simpl; [done|].
  intros [? ?]%not_elem_of_cons. rewrite IH by done. by rewrite lookup_insert_ne.
Qed.

Lemma file_hashes_in g new h b k :
  NoDup new.*1 → (b, k) ∈ new → file_hashes g new h !! b = Some (block_key k g).
Proof.
  revert h. induction new as [|[x k'] new IH]; intros h; simpl; [by intros _ ?%elem_of_nil|].
  intros [Hx Hnd]%NoDup_cons [[= -> ->]|Hb]%elem_of_cons.
  - rewrite file_hashes_out by done. by rewrite lookup_insert_eq.
  - by apply IH.
Qed.

Lemma cache_loop_ok iblks p cnt h l hs hash g mask nh :
  core_rep p cnt h → free_rep (free_block_queue p) l → enable_caching p = true →
  0 ≤ g < 2 ^ 32 →
  (∀ i blk, (i, blk) ∈ iblks → 0 ≤ blk < num_gpu_blocks p ∧
     (∀ m, mask = Some m → 0 ≤ i < len m) ∧ py_nth hs i = Some (hash i)) →
  NoDup (to_store hash mask iblks).*1 →
  (∀ b, b ∈ (to_store hash mask iblks).*1 → h !! b = None) →
  ok (fold_each (cache_one_block hs g mask) iblks nh) p (λ nh' p',
    core_rep p' cnt (file_hashes g (to_store hash mask iblks) h) ∧
    free_rep (free_block_queue p') l ∧ same_config p p' ∧
    kv_event_queue p' = kv_event_queue p ∧
    nh' = (λ l, l ++ ((λ bh, maybe_convert_block_hash bh.2) <$> to_store hash mask iblks)) <$> nh).
Proof.
  revert p h nh. induction iblks as [|[i blk] iblks IH]; intros p h nh Hcr Hfr Hen Hg Hi Hnd Hnone.
  { apply ok_ret. cbn. split_and!; try done. destruct nh; simpl; by rewrite ?app_nil_r. }
  rewrite to_store_cons in *. rewrite fmap_app in Hnd, Hnone.
  apply NoDup_app in Hnd as (_ & Hdis & Hnd). cbn [fold_each].
  destruct (Hi i blk ltac:(left)) as (Hr & Hm & Hhash).
  ok_step. eapply ok_mono; [eapply cache_one_ok; try done|].
  { intros H0 Hma. apply Hnone. rewrite decide_True by done. simpl. set_solver. }
  intros nh1 p1 (Hcr1 & Hfr1 & Hcfg & Hk1 & ->). rewrite to_store_cons in *.
  change (to_store hash mask []) with (@nil (loc * bytes)) in *. rewrite app_nil_r in *.
  set (new := if decide _ then _ else _) in *.
  eapply ok_mono; [eapply IH; try done|].
  - by rewrite (proj1 (proj2 Hcfg)).
  - intros i' blk' Hin. rewrite (proj1 Hcfg). apply Hi. by right.
  - intros b Hb. rewrite file_hashes_out; [apply Hnone; set_solver|].
    intros Hb'. by apply (Hdis b).
  - intros nh2 p2 (Hcr2 & Hfr2 & Hcfg2 & Hk2 & ->). rewrite file_hashes_app. split_and!; try done.
    + by etransitivity.
    + by rewrite Hk2.
    + destruct nh; simpl; [|done]. by rewrite fmap_app, app_assoc.
Qed.

Lemma gen_mm_keys_ok r a b i :
  0 ≤ i → ok (gen_mm_extra_hash_keys a b i) r (λ ki r', 0 ≤ ki.2 ∧ r' = r).
Proof.
  intros Hi. unfold gen_mm_extra_hash_keys. ok_steps.
  destruct (last (mm_features r)); [|by ok_steps]. case_match; [by ok_steps|].
  rewrite (proj2 (Z.ltb_ge _ _)) by done. ok_steps. split; [|done].
  generalize (@nil extra_key). generalize (slice_from (mm_features r) i). intros fs.
  revert i Hi. induction fs as [|f fs IH]; intros i Hi acc; simpl; [done|].
  repeat case_match; simpl; try done; apply IH; lia.
Qed.

Lemma extra_keys_ok r a b i :
  0 ≤ i → ok (generate_block_hash_extra_keys a b i) r (λ ki _, 0 ≤ ki.2).
Proof.
  intros Hi. unfold generate_block_hash_extra_keys. ok_step.
  eapply ok_mono; [by apply gen_mm_keys_ok|]. intros [mk i'] r' [Hi' ->]. simpl in Hi'.
  unfold gen_lora_extra_hash_keys, gen_prompt_embeds_extra_hash_keys. ok_steps.
  case_match; ok_steps; repeat case_match; ok_steps; repeat case_match; by ok_steps.
Qed.

Lemma event_keys_step_ok p cnt h bs nc bsz mask r i acc j :
  core_rep p cnt h → (∀ b, b ∈ bs → 0 ≤ b < num_gpu_blocks p) →
  nc ≤ j < len bs → 0 ≤ nc → (∀ m, mask = Some m → j - nc < len m) → 0 ≤ i →
  ok (event_keys_step bs nc bsz mask (r, i, acc) j) p (λ st p', p' = p ∧ 0 ≤ st.1.2).
Proof.
  intros Hcr Hbs Hj Hnc Hm Hi. unfold event_keys_step. rewrite py_nth_nonneg by lia.
  destruct (lookup_lt_is_Some_2 bs (Z.to_nat j)) as [b Hb]; [unfold len in *; lia|].
  rewrite Hb. ok_step. apply ok_ret. ok_step.
  destruct (cr_block _ _ _ Hcr b) as (blk & Hblk & _).
  { by apply Hbs, (list_elem_of_lookup_2 _ _ _ Hb). }
  eapply ok_pool_read; [done|]. case_match; [by ok_steps|]. ok_step.
  eapply ok_eq; [apply masked_out_eq; intros m Hmm; specialize (Hm m Hmm); lia|].
  case_match; [by ok_steps|]. ok_step. unfold on_request.
  destruct (ok_inv _ _ _ (extra_keys_ok r (j * bsz) (j * bsz + bsz) i Hi)) as ([ks i'] & r' & -> & Hi').
  by ok_steps.
Qed.

(** Counting the keys of the new blocks. *)
Lemma hcount_file x g new h :
  0 ≤ g < 2 ^ 32 → NoDup new.*1 → (∀ b, b ∈ new.*1 → h !! b = None) → ∀ g',
  hcount (shows x g') (file_hashes g new h)
  = hcount (shows x g') h
    + (if decide (g = g') then xcount x ((λ bh, maybe_convert_block_hash bh.2) <$> new) else 0).
Proof.
  intros Hg Hnd Hnone g'. revert h Hnone.
  induction new as [|[b k] new IH]; intros h Hnone; simpl.
  { unfold xcount. simpl. unfold len. simpl. case_decide; lia. }
  apply NoDup_cons in Hnd as [Hb Hnd]. rewrite IH; [|done|].
  2: { intros x' Hx'. rewrite lookup_insert_ne by (by intros ->). apply Hnone. by right. }
  rewrite hcount_insert by (apply Hnone; left). unfold xcount. rewrite filter_cons.
  assert (shows x g' (block_key k g) ↔ maybe_convert_block_hash k = x ∧ g = g') as Hsh.
  { unfold shows. by rewrite get_block_hash_key, get_group_id_key. }
  rewrite (decide_ext _ _ _ _ Hsh). clear.
  change (list_fmap _ _ ?f ?l) with (f <$> l).
  destruct (decide (g = g')), (decide (maybe_convert_block_hash k = x)); rewrite ?len_cons;
    case_decide; first [lia | tauto].
Qed.

(** What [cache_full_blocks] files: the non-null unmasked blocks among
    [bs[nc:nf]], each with the hash of its index. *)
Definition new_entries (hs : list bytes) (scale : Z) (bs : list loc) (nc nf : Z)
    (mask : option (list bool)) : list (loc * bytes) :=
  to_store (λ i, block_hash_at hs scale (nc + i)) mask
    (zip (range 0 (len (slice bs nc nf))) (slice bs nc nf)).

Lemma elem_of_zip_range (bs : list loc) i b :
  (i, b) ∈ zip (range 0 (len bs)) bs ↔ 0 ≤ i ∧ bs !! Z.to_nat i = Some b.
Proof.
  rewrite list_elem_of_lookup. unfold range, len. rewrite Z.sub_0_r. split.
  - intros [j Hj]. apply lookup_zip_Some in Hj as [Hi Hb].
    apply lookup_seqZ in Hi as [-> ?]. split; [lia|]. by replace (Z.to_nat (0 + Z.of_nat j)) with j by lia.
  - intros [Hi Hb]. exists (Z.to_nat i). apply lookup_zip_Some. split; [|done].
    apply lookup_seqZ. apply lookup_lt_Some in Hb. lia.
Qed.

Lemma lookup_slice (bs : list loc) nc nf i :
  0 ≤ nc ≤ nf → 0 ≤ i → slice bs nc nf !! Z.to_nat i
  = if decide (i < nf - nc) then bs !! Z.to_nat (nc + i) else None.
Proof.
  intros Hn Hi. rewrite slice_nonneg by lia. case_decide.
  - rewrite lookup_take_lt by lia. rewrite lookup_drop. f_equal. lia.
  - apply lookup_take_ge. lia.
Qed.

Lemma elem_of_new_entries hs scale bs nc nf mask b k :
  0 ≤ nc ≤ nf →
  (b, k) ∈ new_entries hs scale bs nc nf mask ↔
  ∃ i, nc ≤ i < nf ∧ bs !! Z.to_nat i = Some b ∧ b ≠ 0 ∧
    mask_allows mask (i - nc) = true ∧ k = block_hash_at hs scale i.
Proof.
  intros Hn. unfold new_entries, to_store. rewrite list_elem_of_fmap. split.
  - intros ([i b'] & [= -> ->] & [[Hb0 Hm] Hin]%list_elem_of_filter). simpl in *.
    apply elem_of_zip_range in Hin as [Hi Hb]. rewrite lookup_slice in Hb by done.
    case_decide; [|done]. exists (nc + i). replace (nc + i - nc) with i by lia.
    split_and!; done || lia.
  - intros (i & Hi & Hb & Hb0 & Hm & ->). exists (i - nc, b). simpl.
    replace (nc + (i - nc)) with i by lia. split; [done|].
    apply list_elem_of_filter. split; [done|]. apply elem_of_zip_range.
    rewrite lookup_slice by lia. rewrite decide_True by lia.
    replace (nc + (i - nc)) with i by lia. split; [lia|done].
Qed.

Lemma len_slice {A} (l : list A) a b : 0 ≤ a ≤ b → b ≤ len l → len (slice l a b) = b - a.
Proof.
  intros. rewrite slice_nonneg by lia. unfold len in *. rewrite length_take, length_drop. lia.
Qed.

Lemma emit_block_stored_ok p cnt h r bs nc nf bsz g mask hs hbs nh :
  core_rep p cnt h → (∀ b, b ∈ bs → 0 ≤ b < num_gpu_blocks p) →
  0 ≤ nc < nf → nf ≤ len bs → 0 < hbs → 0 < bsz → nf * (bsz / hbs) ≤ len hs →
  (∀ m, mask = Some m → len m = nf - nc) →
  ok (emit_block_stored r bs nc nf bsz g mask (hash_list hs hbs bsz) nh) p (λ _ p',
    ∃ parent toks lora_id lora_name keys,
      p' = set_events (kv_event_queue p ++
        [BlockStored nh parent toks bsz lora_id (Some MEDIUM_GPU) lora_name keys (Some g) None None]) p).
Proof.
  intros Hcr Hbs Hn Hlen Hhbs Hbsz Hhs Hm. unfold emit_block_stored. ok_step.
  apply (ok_mono _ _ (λ _ p', p' = p)).
  { case_match; [by ok_steps|]. ok_step. assert (nc ≠ 0) by (by apply Z.eqb_neq).
    eapply ok_eq; [apply hash_list_nth; try done; [lia|]|by ok_steps].
    assert (0 ≤ bsz / hbs) by (apply Z.div_pos; lia). nia. }
  intros parent p' ->. ok_step.
  eapply (ok_mono _ _ (λ st p', p' = p ∧ 0 ≤ st.1.2)).
  - eapply (ok_fold_each _ (λ ks st s, s = p ∧ 0 ≤ st.1.2 ∧ ∀ j, j ∈ ks → nc ≤ j < nf)).
    + split_and!; [done..|]. intros j. apply elem_of_range.
    + intros j ks [[r' i] acc] s (-> & Hi & Hks). pose proof (Hks j ltac:(left)) as Hj.
      eapply ok_mono; [eapply event_keys_step_ok; try done; [lia..|]|].
      * intros m Hmm. rewrite (Hm m Hmm). lia.
      * intros st' s' [-> Hi']. split_and!; [done..|]. intros j' Hj'. apply Hks. by right.
    + by intros st s (? & ? & _).
  - intros [[r' i] keys] p' [-> _]. ok_steps. by repeat eexists.
Qed.

Lemma cache_full_blocks_ok p a r bs nc nf bsz g mask :
  let hs := Request.block_hashes r in
  let new := new_entries hs (bsz / hash_block_size p) bs nc nf mask in
  let h' := file_hashes g new (a_hash a) in
  pool_rep p a → enable_caching p = true → 0 ≤ g < 2 ^ 32 →
  (∀ b, b ∈ bs → 0 ≤ b < num_gpu_blocks p) → 0 ≤ nc < nf → nf ≤ len bs →
  0 < hash_block_size p → 0 < bsz → bsz mod hash_block_size p = 0 →
  nf * (bsz / hash_block_size p) ≤ len hs →
  (∀ m, mask = Some m → len m = nf - nc) →
  NoDup new.*1 → (∀ b, b ∈ new.*1 → a_hash a !! b = None) →
  ok (cache_full_blocks r bs nc nf bsz g mask) p (λ _ p',
    pool_rep p' (MkAPool (a_free a) (a_refs a) h') ∧ evolves p (a_hash a) p' h').
Proof.
  intros hs new h' [Hcr Hfr Hfree Hrefs] Hen Hg Hbs Hn Hnf Hhbs Hbsz Hmod Hhs Hm Hnd Hnone.
  assert (1 ≤ bsz / hash_block_size p) as Hsc.
  { apply Z.mod_divide in Hmod; [|lia]. apply Z.divide_pos_le in Hmod; [|lia].
    apply Z.div_le_lower_bound; lia. }
  unfold cache_full_blocks. fold hs. rewrite (proj2 (Z.leb_gt _ _)) by lia. ok_step.
  apply ok_assert; [apply Z.leb_le; nia|]. ok_step. apply ok_assert.
  { destruct mask as [m|]; [|done]. rewrite len_slice by lia. by rewrite (Hm m), Z.eqb_refl. }
  ok_steps. apply (ok_eq _ _ (hash_list hs (hash_block_size p) bsz) p).
  { unfold hash_list. case_match; [done|]. unfold bhl_init, assert_, bind.
    by rewrite Hmod. }
  ok_steps. eapply ok_mono; [eapply (cache_loop_ok _ p _ _ _ _ (λ i, block_hash_at hs (bsz / hash_block_size p) (nc + i))); try done|].
  { intros i blk [Hi Hb]%elem_of_zip_range. rewrite lookup_slice in Hb by lia.
    case_decide as Hlt; [|done].
    split; [by apply Hbs, (list_elem_of_lookup_2 _ _ _ Hb)|]. split.
    - intros m Hmm. rewrite (Hm m Hmm). lia.
    - apply hash_list_from; try done; [lia|]. nia. }
  intros nh p1 (Hcr1 & Hfr1 & Hcfg & Hk & ->). fold new in Hcr1 |- *.
  assert (pool_rep p1 (MkAPool (a_free a) (a_refs a) h')) as Hp1.
  { split; try done; simpl; rewrite (proj1 Hcfg); done. }
  destruct (enable_kv_cache_events p) eqn:Hev; simpl.
  - eapply ok_mono; [eapply emit_block_stored_ok; [exact Hcr1|by rewrite (proj1 Hcfg)|done..]|].
    intros _ p2 (parent & toks & lid & lname & keys & ->). split.
    + by apply pool_rep_set_events.
    + split; [done|]. intros t Ht _ x g'. cbn. rewrite app_assoc, balance_snoc, Hk.
      rewrite (Ht Hev x g'). unfold h'. rewrite hcount_file by done. simpl. f_equal.
      fold (new_entries hs (bsz / hash_block_size p) bs nc nf mask). fold new.
      destruct (decide (g = g')), (decide (Some g = Some g')); congruence.
  - apply ok_ret. split; [done|]. split; [done|]. intros t _ Hen'.
    destruct Hcfg as (_ & _ & _ & _ & _ & Hc). congruence.
Qed.

(** *** Eviction, reset, lookup *)

Definition a_evict (bs : list loc) (a : apool) : apool :=
  MkAPool (a_free a) (a_refs a) (unhash bs (a_hash a)).

Lemma evict_blocks_ok p a ids :
  pool_rep p a → (∀ b, b ∈ ids → 0 ≤ b < num_gpu_blocks p) →
  ok (evict_blocks ids) p (λ _ p',
    pool_rep p' (a_evict ids a) ∧ evolves p (a_hash a) p' (a_hash (a_evict ids a))).
Proof.
  unfold evict_blocks. revert p a. induction ids as [|b ids IH]; intros p a Hp Hids; simpl.
  { apply ok_ret. destruct a. split; [done|by apply evolves_same]. }
  pose proof Hp as [Hcr Hfr Hfree Hrefs]. pose proof (Hids b ltac:(left)) as Hb.
  pose proof (cr_blocks _ _ _ Hcr) as Hbl.
  assert (blocks p !! Z.to_nat b = Some b) as Hlk.
  { rewrite Hbl. unfold range. rewrite lookup_seqZ_lt by lia. f_equal. lia. }
  ok_steps. apply ok_assert.
  { apply Z.ltb_lt. rewrite Hbl. unfold len. rewrite length_range. lia. }
  ok_step. rewrite py_nth_nonneg by lia. rewrite Hlk. apply ok_ret. ok_steps.
  eapply ok_mono; [by eapply evict_ok|]. intros _ p1 (_ & Hcr1 & Hfr1 & Hev1). ok_steps.
  pose proof (proj1 (proj1 Hev1)) as Hnum.
  eapply ok_mono; [apply (IH p1 (a_evict [b] a))|].
  - split; simpl; rewrite ?Hnum; done.
  - intros x Hx. rewrite Hnum. apply Hids. by right.
  - intros _ p2 [Hp2 Hev2]. unfold a_evict in *. cbn [a_free a_refs a_hash] in *.
    change (unhash [b] (a_hash a)) with (delete b (a_hash a)) in *.
    rewrite unhash_cons in Hp2, Hev2. split; [done|by eapply evolves_trans].
Qed.

Lemma reset_loop_ok bs p l :
  free_rep (free_block_queue p) l →
  ok (for_each bs (λ b, onq (write b reset_hash))) p (λ _ p',
    free_rep (free_block_queue p') l ∧ p' = set_free_block_queue (free_block_queue p') p ∧
    ∀ x, mem (free_block_queue p') !! x
         = (if decide (x ∈ bs) then reset_hash <$> mem (free_block_queue p) !! x
            else mem (free_block_queue p) !! x)).
Proof.
  revert p. induction bs as [|b bs IH]; intros p Hfr; cbn [for_each].
  { apply ok_ret. rewrite set_free_block_queue_id. split_and!; [done..|]. intros x.
    rewrite decide_False; [done|apply not_elem_of_nil]. }
  ok_step. apply ok_pool_write.
  eapply ok_mono; [apply IH; by apply free_rep_with_block|].
  intros _ p' (Hfr' & -> & Hx). split_and!; [done..|]. intros x. rewrite Hx. cbn.
  rewrite lookup_alter. destruct (decide (b = x)) as [->|Hne].
  - rewrite (decide_True (P := x ∈ x :: bs)) by left.
    destruct (mem (free_block_queue p) !! x); by case_decide.
  - rewrite (decide_ext (x ∈ b :: bs) (x ∈ bs)); [done|]. set_solver.
Qed.

(** With every non-null block free, the reset empties the prefix cache. *)
Lemma reset_prefix_cache_ok p a :
  pool_rep p a →
  ok reset_prefix_cache p (λ r p',
    r = bool_decide (len (a_free a) = num_gpu_blocks p - 1) ∧
    let h' := if r then ∅ else a_hash a in
    pool_rep p' (MkAPool (a_free a) (a_refs a) h') ∧ evolves p (a_hash a) p' h').
Proof.
  intros Hp. pose proof Hp as [Hcr Hfr Hfree Hrefs]. unfold reset_prefix_cache. ok_steps.
  eapply ok_eq; [by apply pool_rep_num_free|]. case_bool_decide as Hlen.
  2: { assert ((num_gpu_blocks p - len (a_free a) =? 1) = false) as -> by (apply Z.eqb_neq; lia).
       simpl. apply ok_ret. destruct a. split_and!; [done..|by apply evolves_same]. }
  assert ((num_gpu_blocks p - len (a_free a) =? 1) = true) as -> by (apply Z.eqb_eq; lia).
  cbn [negb]. ok_steps. eapply ok_mono; [by apply reset_loop_ok|].
  intros _ p1 (Hfr1 & Hp1 & Hx).
  assert (core_rep p1 (λ b, occ b (a_refs a)) ∅) as Hcr1.
  { destruct Hcr as [? Hbl ? Hblk ? ? ?]. rewrite Hp1. split; try done; cbn.
    - intros b Hb. destruct (Hblk b Hb) as (blk & Hm & ? & ? & ? & ?). rewrite Hx, decide_True.
      + cbn. rewrite Hm. exists (reset_hash blk). rewrite lookup_empty. done.
      + cbn. rewrite Hbl. by apply elem_of_range.
    - apply cache_rep_empty. }
  ok_steps. assert (enable_kv_cache_events p1 = enable_kv_cache_events p) as Hee by by rewrite Hp1.
  assert (same_config p p1) as Hcfg by by rewrite Hp1.
  assert (pool_rep p1 (MkAPool (a_free a) (a_refs a) ∅)) as Hpr
    by (split; try done; simpl; rewrite (proj1 Hcfg); done).
  destruct (enable_kv_cache_events p) eqn:Hev; rewrite Hee; ok_steps.
  - split_and!; [done|by apply pool_rep_set_events|]. split; [done|]. intros t _ _ x g. cbn.
    by rewrite app_assoc, balance_snoc, hcount_empty.
  - split_and!; [done..|]. split; [done|]. intros t _ Hen. congruence.
Qed.

Lemma get_one_block_ok p cnt h key :
  core_rep p cnt h → ∃ r, get_one_block key p = (Ok r, p) ∧
    match r with
    | Some b => h !! b = Some key
    | None => ∀ b, h !! b ≠ Some key
    end.
Proof.
  intros Hcr. destruct (cr_cache _ _ _ Hcr) as [Hm Hw]. specialize (Hm key). specialize (Hw key).
  unfold get_one_block, bind, gets.
  destruct (cached_block_hash_to_block p !! key) as [[b|d]|]; simpl in *.
  - eexists. split; [done|]. apply Hm. by apply list_elem_of_singleton.
  - destruct Hw as (Hd & _ & _). destruct d as [|[k b] d]; [done|]. eexists. split; [done|].
    apply Hm. simpl. left.
  - eexists. split; [done|]. intros b Hb%Hm. by apply elem_of_nil in Hb.
Qed.

Lemma get_cached_loop_ok p cnt h hs gs acc :
  core_rep p cnt h → (∀ g, g ∈ gs → 0 ≤ g < 2 ^ 32) →
  ∃ r, get_cached_loop hs gs acc p = (Ok r, p) ∧
    match r with
    | Some bs => ∃ new, bs = acc ++ new ∧
        Forall2 (λ g b, h !! b = Some (block_key hs g)) gs new
    | None => ∃ g, g ∈ gs ∧ ∀ b, h !! b ≠ Some (block_key hs g)
    end.
Proof.
  intros Hcr. revert acc. induction gs as [|g gs IH]; intros acc Hgs; simpl.
  { eexists. split; [done|]. exists []. by rewrite app_nil_r. }
  unfold bind. rewrite make_key_eq by (apply Hgs; left). fold (block_key hs g).
  destruct (get_one_block_ok p cnt h (block_key hs g) Hcr) as (r & -> & Hr).
  destruct r as [b|].
  - destruct (IH (acc ++ [b])) as (r & -> & Hr'); [intros; apply Hgs; by right|].
    eexists. split; [done|]. destruct r as [bs|].
    + destruct Hr' as (new & -> & Hf). exists (b :: new). rewrite <-app_assoc. by split; [|constructor].
    + destruct Hr' as (g' & ? & ?). exists g'. split; [by right|done].
  - eexists. split; [done|]. exists g. split; [left|done].
Qed.

(** A lookup hits exactly when every group has a block filed under its key,
    and then returns such blocks. *)
Lemma get_cached_block_ok p a hs gs :
  pool_rep p a → (∀ g, g ∈ gs → 0 ≤ g < 2 ^ 32) →
  ∃ r, get_cached_block hs gs p = (Ok r, p) ∧
    match r with
    | Some bs => Forall2 (λ g b, a_hash a !! b = Some (block_key hs g)) gs bs
    | None => ∃ g, g ∈ gs ∧ ∀ b, a_hash a !! b ≠ Some (block_key hs g)
    end.
Proof.
  intros Hp Hgs. destruct (get_cached_loop_ok p _ _ hs gs [] (pr_core _ _ Hp) Hgs) as (r & Hr & Hm).
  exists r. split; [done|]. destruct r; [|done]. by destruct Hm as (new & -> & ?).
Qed.

(** *** Construction *)

Lemma BlockPool_init_ok n caching hbs events :
  0 < n → ∃ p, BlockPool_init n caching hbs events = Ok p ∧
    pool_rep p (MkAPool (range 1 n) [] ∅) ∧ events_match p [] ∅ ∧
    num_gpu_blocks p = n ∧ enable_caching p = caching ∧ hash_block_size p = hbs ∧
    enable_kv_cache_events p = events.
Proof.
  intros Hn. unfold BlockPool_init. rewrite (proj2 (Z.ltb_lt 0 n)) by done. cbn [negb].
  assert (ok (queue_init (range 0 n) ;;;
       let* null_block := popleft in
       write null_block (set_is_null true) ;;;
       ret null_block) (new_blocks_state n) (λ b q, b = 0 ∧
     free_rep q (range 1 n) ∧ ∀ b, 0 ≤ b < n → strip <$> mem q !! b
       = Some (set_is_null (b =? 0) (new_KVCacheBlock b)))) as Hok.
  { ok_step. eapply ok_mono; [apply queue_init_new|]. intros _ q (Hq & Hqq & Hm).
    rewrite range_cons in Hq by done. ok_step. eapply ok_mono; [by apply popleft_ok|].
    intros b q1 (-> & Hq1 & Hfr1 & Hh & Ht). ok_step. apply ok_modify. ok_steps.
    assert (free_rep q1 (range (0 + 1) n)) as Hfr.
    { split; [done|by rewrite <-?Hh, ?Hqq in *|by rewrite <-?Ht, ?Hqq in *]. }
    split_and!; [done| |].
    - set (p0 := MkPool n caching hbs [] q1 ∅ 0 events []).
      by apply (free_rep_with_block p0 0 (set_is_null true)).
    - intros b Hb. cbn. rewrite lookup_alter. specialize (Hm b ltac:(lia) ltac:(lia)).
      rewrite decide_True in Hm by done.
      assert (strip <$> mem q1 !! b = Some (new_KVCacheBlock b)) as Hm1.
      { rewrite <-Hm, <-!lookup_fmap. by rewrite Hfr1. }
      destruct (decide (0 = b)) as [<-|Hd];
        destruct (mem q1 !! _) as [blk|]; try done; apply (inj Some) in Hm1; apply (f_equal Some).
      + change (set_is_null true (strip blk) = set_is_null true (new_KVCacheBlock 0)). congruence.
      + rewrite (proj2 (Z.eqb_neq b 0)) by lia. exact Hm1. }
  destruct (ok_inv _ _ _ Hok) as (b & q & -> & -> & Hfr & Hm).
  eexists. split; [done|]. split_and!; try done.
  - split; cbn; [|done| |by intros ? ?%elem_of_nil].
    + split; cbn; try done; [|apply cache_rep_empty].
      intros b Hb. specialize (Hm b Hb). destruct (mem q !! b) as [blk|]; [|done].
      injection Hm as Hm. exists blk. destruct blk. unfold strip, set_prev, set_next, set_is_null in Hm.
      simpl in *. simplify_eq. rewrite lookup_empty. done.
    + intros b. rewrite elem_of_range. split; [|lia]. intros. split; [lia|apply not_elem_of_nil].
Qed.

End pool_lemmas.
