(* ===== verification/PoolProps.v ===== *)
(** * Safety of the block pool

    The states a pool reaches under legal calls, and what holds in all of
    them: the free queue holds exactly the blocks without references, the
    reference counts are exact, the prefix cache files every hashed block
    under its own key, no legal call raises, and the event stream accounts for
    the cached blocks. *)

From S2P Require Import Prelude FreeQueue BlockHash Request BlockPool.

Section pool_safety.
Context `{HashEnv}.

(** ** Calls and when they are legal *)

Inductive pool_op : Type :=
| OGet (n : Z)
| OTouch (bs : list loc)
| OFree (bs : list loc) (prepend : bool)
| OCache (r : Request) (bs : list loc) (nc nf bsz g : Z) (mask : option (list bool))
| OEvict (ids : list Z)
| OReset
| OTake.

Inductive pool_result : Type :=
| RBlocks (bs : list loc)
| RUnit
| RBool (b : bool)
| REvents (evs : list KVCacheEvent).

Definition run_pool_op (o : pool_op) : M BlockPool pool_result :=
  match o with
  | OGet n => let* bs := get_new_blocks n in ret (RBlocks bs)
  | OTouch bs => touch bs ;;; ret RUnit
  | OFree bs prepend => free_blocks bs prepend ;;; ret RUnit
  | OCache r bs nc nf bsz g mask => cache_full_blocks r bs nc nf bsz g mask ;;; ret RUnit
  | OEvict ids => evict_blocks ids ;;; ret RUnit
  | OReset => let* b := reset_prefix_cache in ret (RBool b)
  | OTake => let* evs := take_events in ret (REvents evs)
  end.

(** The references the callers hold before and after a call. *)
Definition refs_after (o : pool_op) (r : pool_result) (refs refs' : list loc) : Prop :=
  match o, r with
  | OGet _, RBlocks bs => refs' = bs ++ refs
  | OTouch bs, _ => refs' = bs ++ refs
  | OFree bs _, _ => refs ≡ₚ bs ++ refs'
  | _, _ => refs' = refs
  end.

Definition taken_after (r : pool_result) (taken : list KVCacheEvent) : list KVCacheEvent :=
  match r with REvents evs => taken ++ evs | _ => taken end.

Definition hash_of (p : BlockPool) (b : loc) : option bytes :=
  mem (free_block_queue p) !! b ≫= block_hash.

(** What callers respect.  A caller frees only references it holds, and never
    the last two references to a block in one call; blocks to cache are full,
    hashed by the request and not cached yet. *)
Definition legal (o : pool_op) (p : BlockPool) (refs : list loc) : Prop :=
  match o with
  | OGet n => 0 ≤ n ≤ num_free_blocks (queue (free_block_queue p))
  | OTouch bs | OEvict bs => ∀ b, b ∈ bs → 0 ≤ b < num_gpu_blocks p
  | OFree bs _ => ∃ refs', refs ≡ₚ bs ++ refs' ∧ NoDup (freed_of refs' bs)
  | OCache r bs nc nf bsz g mask =>
      let scale := bsz / hash_block_size p in
      let new := new_entries (Request.block_hashes r) scale bs nc nf mask in
      enable_caching p = true ∧ 0 ≤ g < 2 ^ 32 ∧
      (∀ b, b ∈ bs → 0 ≤ b < num_gpu_blocks p) ∧ 0 ≤ nc < nf ∧ nf ≤ len bs ∧
      0 < hash_block_size p ∧ 0 < bsz ∧ bsz mod hash_block_size p = 0 ∧
      nf * scale ≤ len (Request.block_hashes r) ∧
      (∀ m, mask = Some m → len m = nf - nc) ∧
      NoDup new.*1 ∧ (∀ b, b ∈ new.*1 → hash_of p b = None)
  | OReset | OTake => True
  end.

(** [pool_reachable p refs taken]: [p] results from a construction and legal
    calls that returned; the callers hold [refs] and took the events [taken]. *)
Inductive pool_reachable : BlockPool → list loc → list KVCacheEvent → Prop :=
| reach_init n caching hbs events p :
    BlockPool_init n caching hbs events = Ok p → pool_reachable p [] []
| reach_step p refs taken o r p' refs' :
    pool_reachable p refs taken → legal o p refs →
    run_pool_op o p = (Ok r, p') → refs_after o r refs refs' →
    pool_reachable p' refs' (taken_after r taken).

(** ** Every legal call of a represented pool returns and keeps it represented *)

Lemma hash_of_rep p a b :
  pool_rep p a → 0 ≤ b < num_gpu_blocks p → hash_of p b = a_hash a !! b.
Proof.
  intros [Hcr _ _ _] Hb. destruct (cr_block _ _ _ Hcr b Hb) as (blk & Hblk & _ & _ & Hh & _).
  unfold hash_of. by rewrite Hblk.
Qed.

Lemma new_entries_elem hs scale bs nc nf mask b :
  0 ≤ nc ≤ nf → b ∈ (new_entries hs scale bs nc nf mask).*1 → b ∈ bs.
Proof.
  intros Hn. rewrite list_elem_of_fmap. intros ([b' k] & -> & Hin).
  apply elem_of_new_entries in Hin as (i & _ & Hb & _); [|done].
  by apply (list_elem_of_lookup_2 _ _ _ Hb).
Qed.

(** The result keeps the representation for the references that are left. *)
Definition step_good (o : pool_op) (p : BlockPool) (a : apool) (taken : list KVCacheEvent)
    (r : pool_result) (p' : BlockPool) : Prop :=
  ∀ refs', refs_after o r (a_refs a) refs' →
    ∃ a', a_refs a' = refs' ∧ pool_rep p' a' ∧
      events_match p' (taken_after r taken) (a_hash a').

Lemma step_good_intro o p a taken r p' a' :
  (∀ refs', refs_after o r (a_refs a) refs' → a_refs a' ≡ₚ refs') →
  taken_after r taken = taken → events_match p taken (a_hash a) →
  pool_rep p' a' → evolves p (a_hash a) p' (a_hash a') → step_good o p a taken r p'.
Proof.
  intros Hr Ht Hm Hp [_ Hev] refs' Href. specialize (Hr refs' Href).
  exists (MkAPool (a_free a') refs' (a_hash a')). split_and!; [done| |].
  - destruct a'. by eapply pool_rep_refs_perm.
  - rewrite Ht. by apply Hev.
Qed.

Lemma legal_step_ok o p a taken :
  pool_rep p a → events_match p taken (a_hash a) → legal o p (a_refs a) →
  ok (run_pool_op o) p (step_good o p a taken).
Proof.
  intros Hp Hm Hl. destruct o; cbn [run_pool_op legal] in *; ok_step.
  - rewrite (qr_num _ _ (fr_queue _ _ (pr_queue _ _ Hp))) in Hl.
    eapply ok_mono; [by apply get_new_blocks_ok|]. intros bs p' (-> & Hp' & Hev). ok_step.
    eapply step_good_intro; [|done..]. by intros refs' ->.
  - eapply ok_mono; [by apply touch_ok|]. intros _ p' (Hp' & Hev). ok_step.
    eapply step_good_intro; [|done..]. by intros refs' ->.
  - destruct Hl as (refs0 & Hperm & Hnd). destruct a as [l refs h]. simpl in *.
    eapply ok_mono; [eapply (free_blocks_ok p l refs0 h); [by eapply pool_rep_refs_perm|done]|].
    intros _ p' (Hp' & Hev). ok_step. eapply step_good_intro; [|done..].
    simpl. intros refs' Hr. rewrite Hperm in Hr. by apply Permutation_app_inv_l in Hr.
  - destruct Hl as (? & ? & Hbs & ? & ? & ? & ? & ? & ? & ? & Hnd & Hnone).
    eapply ok_mono; [eapply cache_full_blocks_ok; try done|].
    { intros b Hb. rewrite <-(hash_of_rep p a); [by apply Hnone|done|].
      apply Hbs. eapply new_entries_elem; [|done]. lia. }
    intros _ p' (Hp' & Hev). ok_step. eapply step_good_intro; [|done..]. by intros refs' ->.
  - eapply ok_mono; [by apply evict_blocks_ok|]. intros _ p' (Hp' & Hev). ok_step.
    eapply step_good_intro; [|done..]. by intros refs' ->.
  - eapply ok_mono; [by apply reset_prefix_cache_ok|]. intros b p' (_ & Hp' & Hev). ok_step.
    eapply step_good_intro; [|done..]. by intros refs' ->.
  - unfold take_events. ok_steps. destruct (enable_kv_cache_events p) eqn:He; cbn [negb]; ok_steps.
    + intros refs' ->. exists a. split_and!; [done|by apply pool_rep_set_events|].
      intros _ x g. cbn. rewrite app_nil_r. by apply Hm.
    + intros refs' ->. exists a. split_and!; [done..|]. simpl. by rewrite app_nil_r.
Qed.

Lemma reachable_rep p refs taken :
  pool_reachable p refs taken →
  ∃ a, a_refs a = refs ∧ pool_rep p a ∧ events_match p taken (a_hash a).
Proof.
  induction 1 as [n caching hbs events p Hinit|p refs taken o r p' refs' _ IH Hl Hrun Hr].
  - destruct (decide (0 < n)) as [Hn|Hn].
    + destruct (BlockPool_init_ok n caching hbs events Hn) as (p' & Heq & Hp & Hm & _).
      rewrite Hinit in Heq. injection Heq as ->. by exists (MkAPool (range 1 n) [] ∅).
    + unfold BlockPool_init in Hinit. by rewrite (proj2 (Z.ltb_ge 0 n)) in Hinit by lia.
  - destruct IH as (a & <- & Hp & Hm). pose proof (legal_step_ok o p a taken Hp Hm Hl) as Hok.
    unfold ok in Hok. rewrite Hrun in Hok. destruct (Hok refs' Hr) as (a' & ? & ? & ?). by exists a'.
Qed.

(** ** What holds in every reachable state *)

Definition ref_cnt_of (p : BlockPool) (b : loc) : option Z :=
  ref_cnt <$> mem (free_block_queue p) !! b.

(** C17: In every reachable pool the free queue lists, without repetition and
    with the right count, exactly the non-null blocks nobody references; every
    block's reference count is the number of references held to it; and the
    prefix cache files a block under a key exactly when the block carries
    that key as its hash. *)
Theorem pool_invariant p refs taken :
  pool_reachable p refs taken →
  ∃ l, get_all_free_blocks (free_block_queue p) = (Ok l, free_block_queue p) ∧
    NoDup l ∧ get_num_free_blocks p = (Ok (len l), p) ∧
    (∀ b, b ∈ l ↔ 0 < b < num_gpu_blocks p ∧ b ∉ refs) ∧
    (∀ b, 0 < b < num_gpu_blocks p → ref_cnt_of p b = Some (occ b refs)) ∧
    (∀ key b, b ∈ members (cached_block_hash_to_block p !! key) ↔
       0 < b < num_gpu_blocks p ∧ hash_of p b = Some key).
Proof.
  intros (a & <- & Hp & _)%reachable_rep. pose proof Hp as [Hcr Hfr Hfree _].
  exists (a_free a). split_and!.
  - apply get_all_free_blocks_ok, Hfr.
  - by eapply pool_free_NoDup.
  - by apply pool_rep_num_free.
  - done.
  - intros b Hb. destruct (cr_block _ _ _ Hcr b ltac:(lia)) as (blk & Hblk & _ & _ & _ & Hc).
    unfold ref_cnt_of. rewrite Hblk. simpl. rewrite Hc; [done|lia].
  - intros key b. rewrite (ca_members _ _ (cr_cache _ _ _ Hcr)). split.
    + intros Hk. pose proof (cr_hash_dom _ _ _ Hcr _ _ Hk). split; [done|].
      rewrite (hash_of_rep p a); [done..|lia].
    + intros [Hb Hk]. rewrite (hash_of_rep p a) in Hk; [done..|lia].
Qed.

(** C18: No legal call raises: from a reachable pool every legal call returns,
    into a reachable pool. *)
Theorem pool_calls_return p refs taken o :
  pool_reachable p refs taken → legal o p refs →
  ∃ r p' refs', run_pool_op o p = (Ok r, p') ∧ refs_after o r refs refs' ∧
    pool_reachable p' refs' (taken_after r taken).
Proof.
  intros Hreach Hl. pose proof (reachable_rep _ _ _ Hreach) as (a & <- & Hp & Hm).
  destruct (ok_inv _ _ _ (legal_step_ok o p a taken Hp Hm Hl)) as (r & p' & Hrun & _).
  assert (∃ refs', refs_after o r (a_refs a) refs') as [refs' Hr].
  { destruct o, r; simpl in *; try by eexists. all: by destruct Hl as (refs' & ? & _); exists refs'. }
  exists r, p', refs'. split_and!; [done..|]. by eapply reach_step.
Qed.

(** C19: Allocation.  With enough free blocks [get_new_blocks n] takes the first
    [n] of the free queue [l], in order: distinct blocks that nobody referenced,
    now with one reference each and no hash.  The cached entries of these blocks,
    and no others, leave the table of cached blocks; every other block keeps its
    hash and its references, and the free queue its rest.  With too few free
    blocks it raises ValueError and changes nothing. *)
Theorem get_new_blocks_spec p refs taken n :
  pool_reachable p refs taken → 0 ≤ n →
  ∃ l, get_all_free_blocks (free_block_queue p) = (Ok l, free_block_queue p) ∧
  if len l <? n then get_new_blocks n p = (Err ValueError, p)
  else ∃ p', get_new_blocks n p = (Ok (take (Z.to_nat n) l), p') ∧
    let bs := take (Z.to_nat n) l in
    len bs = n ∧ NoDup bs ∧
    (∀ b, b ∈ bs → b ∉ refs ∧ b ≠ null_block p ∧ hash_of p' b = None ∧ ref_cnt_of p' b = Some 1) ∧
    (∀ key b, b ∈ members (cached_block_hash_to_block p' !! key) ↔
       b ∈ members (cached_block_hash_to_block p !! key) ∧ b ∉ bs) ∧
    (∀ b, 0 < b < num_gpu_blocks p → b ∉ bs → hash_of p' b = hash_of p b ∧ ref_cnt_of p' b = ref_cnt_of p b) ∧
    get_all_free_blocks (free_block_queue p') = (Ok (drop (Z.to_nat n) l), free_block_queue p').
Proof.
  intros (a & <- & Hp & _)%reachable_rep Hn. pose proof Hp as [Hcr Hfr Hfree _].
  exists (a_free a). split; [apply get_all_free_blocks_ok, Hfr|].
  pose proof (pool_free_NoDup _ _ Hp) as Hnd.
  destruct (Z.ltb_spec (len (a_free a)) n) as [Hlt|Hge]; [by eapply get_new_blocks_raises|].
  destruct (ok_inv _ _ _ (get_new_blocks_ok p a n Hp ltac:(lia))) as (r & p' & Hrun & -> & Hp' & Hev & _).
  exists p'. split; [done|]. cbn zeta. set (bs := take _ _) in *.
  assert (NoDup bs) as Hndb by by apply sublist_NoDup with (a_free a); [|apply sublist_take].
  pose proof (proj1 Hev) as Hnum.
  split_and!; [unfold len in *; unfold bs; rewrite length_take; lia|done| | | |apply get_all_free_blocks_ok, Hp'].
  2: { intros key b. rewrite (ca_members _ _ (cr_cache _ _ _ (pr_core _ _ Hp'))), (ca_members _ _ (cr_cache _ _ _ Hcr)).
       cbn. fold bs. destruct (decide (b ∈ bs)) as [Hb|Hb]; [|by rewrite lookup_unhash_out; tauto].
       rewrite lookup_unhash_in by done. split; [done|]. by intros [_ ?]. }
  2: { intros b Hb Hn'. rewrite (hash_of_rep p' _ _ Hp'), (hash_of_rep p a) by (done || lia). cbn. fold bs.
       split; [by rewrite lookup_unhash_out|].
       destruct (cr_block _ _ _ (pr_core _ _ Hp') b ltac:(lia)) as (blk' & Hblk' & _ & _ & _ & Hc').
       destruct (cr_block _ _ _ Hcr b ltac:(lia)) as (blk & Hblk & _ & _ & _ & Hc).
       unfold ref_cnt_of. rewrite Hblk, Hblk'. cbn. rewrite Hc, Hc' by lia. cbn. fold bs.
       by rewrite occ_app, (proj2 (occ_0 b bs) Hn'). }
  intros b Hb. assert (b ∈ a_free a) as Hbf by by apply subseteq_take in Hb.
  apply Hfree in Hbf as [Hr Hnr]. rewrite (cr_null _ _ _ Hcr).
  destruct (cr_block _ _ _ (pr_core _ _ Hp') b) as (blk & Hblk & _ & _ & Hh & Hc).
  { rewrite (proj1 Hev). lia. }
  unfold hash_of, ref_cnt_of. rewrite Hblk. simpl. split_and!; [done|lia| |].
  - rewrite Hh. simpl. by rewrite lookup_unhash_in.
  - rewrite Hc by lia. simpl. fold bs. rewrite occ_app, (occ_NoDup_elem b bs) by done.
    by rewrite (proj2 (occ_0 _ _) Hnr).
Qed.

Definition holds_of (P : bytes → Prop) (o : option bytes) : Prop :=
  match o with Some key => P key | None => False end.
#[local] Instance holds_of_dec P `{∀ k, Decision (P k)} o : Decision (holds_of P o).
Proof. destruct o; simpl; apply _. Defined.

(** The number of blocks whose hash a consumer sees as [x] in group [g]. *)
Definition cached_as (p : BlockPool) (x : ExternalBlockHash) (g : Z) : Z :=
  len (filter (λ b, holds_of (shows x g) (hash_of p b))
         (range 0 (num_gpu_blocks p))).

Lemma hcount_range (P : bytes → Prop) `{∀ k, Decision (P k)} (h : gmap Z bytes) ks :
  NoDup ks → (∀ b key, h !! b = Some key → b ∈ ks) →
  hcount P h = len (filter (λ b, holds_of P (h !! b)) ks).
Proof.
  revert h. induction ks as [|k ks IH]; intros h Hnd Hdom.
  { assert (h = ∅) as -> by (apply map_empty; intros b; destruct (h !! b) eqn:Hb; [|done];
      by apply Hdom, elem_of_nil in Hb). apply hcount_empty. }
  apply NoDup_cons in Hnd as [Hk Hnd].
  assert (filter (λ b, holds_of P (h !! b)) ks
    = filter (λ b, holds_of P (delete k h !! b)) ks) as Hf.
  { clear -Hk. induction ks as [|b ks IH]; [done|]. apply not_elem_of_cons in Hk as [Hb Hk].
    rewrite !filter_cons, IH by done. rewrite lookup_delete_ne by done. done. }
  rewrite filter_cons, Hf.
  assert (hcount P (delete k h)
    = len (filter (λ b, holds_of P (delete k h !! b)) ks)) as IH'.
  { apply IH; [done|]. intros b key Hb. apply lookup_delete_Some in Hb as [Hne Hb].
    apply Hdom in Hb. apply elem_of_cons in Hb as [?|?]; congruence. }
  destruct (h !! k) as [key|] eqn:Hhk.
  - rewrite (hcount_delete _ _ _ _ Hhk) in IH'.
    repeat case_decide; rewrite ?len_cons; first [lia|done].
  - rewrite !delete_id in IH' |- * by done. case_decide; done.
Qed.

(** C20: The event stream is complete.  Replaying all events, those taken and
    those still queued, a consumer that counts stored and removed hashes per
    group (and forgets everything at a clear) ends with the number of blocks
    the prefix cache holds for each hash. *)
Theorem pool_events_account p refs taken x g :
  pool_reachable p refs taken → enable_kv_cache_events p = true →
  balance x g (taken ++ kv_event_queue p) = cached_as p x g.
Proof.
  intros (a & <- & Hp & Hm)%reachable_rep He. rewrite (Hm He).
  pose proof (pr_core _ _ Hp) as Hcr.
  rewrite (hcount_range _ _ (range 0 (num_gpu_blocks p)) (NoDup_range _ _)).
  2: { intros b key Hb. apply (cr_hash_dom _ _ _ Hcr) in Hb. apply elem_of_range. lia. }
  unfold cached_as. f_equal.
  assert (∀ b, b ∈ range 0 (num_gpu_blocks p) → hash_of p b = a_hash a !! b) as Hh
    by (intros b ?%elem_of_range; by apply hash_of_rep).
  revert Hh. generalize (range 0 (num_gpu_blocks p)). intros ks. clear.
  induction ks as [|b ks IH]; intros Hh; [done|]. rewrite !filter_cons, IH by (intros; apply Hh; by right).
  by rewrite (Hh b) by left.
Qed.

(** Lookup.  [get_cached_block] returns one block per group, each carrying
    the hash asked for in that group, and reports a miss only when some group
    has no such block; it changes nothing. *)
Theorem get_cached_block_spec p refs taken h gs :
  pool_reachable p refs taken → Forall (λ g, 0 ≤ g < 2 ^ 32) gs →
  ∃ r, get_cached_block h gs p = (Ok r, p) ∧
    match r with
    | Some bs => Forall2 (λ g b, 0 < b < num_gpu_blocks p ∧ hash_of p b = Some (block_key h g)) gs bs
    | None => ∃ g, g ∈ gs ∧
        ∀ b, 0 ≤ b < num_gpu_blocks p → hash_of p b ≠ Some (block_key h g)
    end.
Proof.
  intros (a & <- & Hp & _)%reachable_rep Hgs. rewrite Forall_forall in Hgs.
  destruct (get_cached_block_ok p a h gs Hp Hgs) as (r & Hr & Hm).
  exists r. split; [done|]. destruct r as [bs|].
  - eapply Forall2_impl; [done|]. intros g b Hb.
    pose proof (cr_hash_dom _ _ _ (pr_core _ _ Hp) _ _ Hb). split; [done|].
    rewrite (hash_of_rep p a); [done..|lia].
  - destruct Hm as (g & Hg & Hno). exists g. split; [done|]. intros b Hb.
    rewrite (hash_of_rep p a) by done. apply Hno.
Qed.

Lemma all_free_iff p a :
  pool_rep p a →
  len (a_free a) = num_gpu_blocks p - 1 ↔ Forall (λ b, b = null_block p) (a_refs a).
Proof.
  intros Hp. pose proof Hp as [Hcr Hfr Hfree Hrefs].
  rewrite Forall_forall. rewrite (cr_null _ _ _ Hcr). pose proof (cr_pos _ _ _ Hcr) as Hpos.
  assert (a_free a ⊆+ range 1 (num_gpu_blocks p)) as Hsub.
  { apply NoDup_submseteq; [by eapply pool_free_NoDup|]. intros b Hb%Hfree. apply elem_of_range. lia. }
  assert (len (range 1 (num_gpu_blocks p)) = num_gpu_blocks p - 1) as Hlr
    by (unfold len; rewrite length_range; lia).
  split.
  - intros Hl b Hb. destruct (decide (b = 0)) as [|Hb0]; [done|exfalso].
    assert (a_free a ≡ₚ range 1 (num_gpu_blocks p)) as Hperm.
    { apply submseteq_length_Permutation; [done|]. unfold len in *. lia. }
    pose proof (Hrefs b Hb). assert (b ∈ a_free a) as Hbf by (rewrite Hperm; apply elem_of_range; lia).
    by apply Hfree in Hbf as [_ ?].
  - intros Hall. rewrite <-Hlr. unfold len. f_equal. apply Permutation_length, NoDup_Permutation.
    + by eapply pool_free_NoDup.
    + apply NoDup_range.
    + intros b. rewrite Hfree, elem_of_range. split; [lia|]. intros. split; [lia|].
      intros Hb%Hall. lia.
Qed.

(** Reset.  [reset_prefix_cache] succeeds exactly when no reference to a
    real block is held; then no block carries a hash any more.  Otherwise the
    pool is unchanged. *)
Theorem reset_prefix_cache_spec p refs taken :
  pool_reachable p refs taken →
  ∃ p', reset_prefix_cache p = (Ok (bool_decide (Forall (λ b, b = null_block p) refs)), p') ∧
    if decide (Forall (λ b, b = null_block p) refs)
    then ∀ b, 0 ≤ b < num_gpu_blocks p → hash_of p' b = None
    else p' = p.
Proof.
  intros (a & <- & Hp & _)%reachable_rep. pose proof Hp as [Hcr Hfr Hfree Hrefs].
  pose proof (all_free_iff p a Hp) as Hiff.
  destruct (ok_inv _ _ _ (reset_prefix_cache_ok p a Hp)) as (r & p' & Hrun & -> & Hp' & Hcfg & _).
  destruct (decide (Forall (λ b, b = null_block p) (a_refs a))) as [Hall|Hall].
  - exists p'. rewrite Hrun, (bool_decide_ext _ _ Hiff). split; [done|]. intros b Hb.
    rewrite (bool_decide_eq_true_2 _ (proj2 Hiff Hall)) in Hp'.
    rewrite (hash_of_rep _ _ _ Hp'); [done|]. by rewrite (proj1 Hcfg).
  - exists p. split; [|done]. rewrite bool_decide_eq_false_2 by done.
    unfold reset_prefix_cache, bind, gets. rewrite (pool_rep_num_free _ _ Hp).
    assert (len (a_free a) ≠ num_gpu_blocks p - 1) by tauto.
    by rewrite (proj2 (Z.eqb_neq _ _)) by lia.
Qed.

(** Eviction order.  Freeing a list of held references appends the blocks
    that lost their last reference to the free queue in the given order (or
    puts them in front, in that order), keeps every hash, and leaves the other
    free blocks in their order. *)
Theorem free_blocks_spec p refs taken bs prepend refs' :
  pool_reachable p refs taken → refs ≡ₚ bs ++ refs' → NoDup (freed_of refs' bs) →
  ∃ l p', get_all_free_blocks (free_block_queue p) = (Ok l, free_block_queue p) ∧
    free_blocks bs prepend p = (Ok tt, p') ∧
    get_all_free_blocks (free_block_queue p') =
      (Ok (if prepend then freed_of refs' bs ++ l else l ++ freed_of refs' bs),
       free_block_queue p') ∧
    ∀ b, 0 ≤ b < num_gpu_blocks p → hash_of p' b = hash_of p b.
Proof.
  intros (a & <- & Hp & _)%reachable_rep Hperm Hnd. destruct a as [l refs h]. simpl in Hperm.
  pose proof (pool_rep_refs_perm _ _ _ _ _ Hperm Hp) as Hp0.
  destruct (ok_inv _ _ _ (free_blocks_ok p l refs' h bs prepend Hp0 Hnd)) as ([] & p' & Hrun & Hp' & Hcfg & _).
  exists l, p'. split_and!; [apply get_all_free_blocks_ok, Hp|done|apply get_all_free_blocks_ok, Hp'|].
  intros b Hb. rewrite (hash_of_rep _ _ _ Hp'), (hash_of_rep _ _ _ Hp); [done..|].
  by rewrite (proj1 Hcfg).
Qed.

End pool_safety.

(** ** A concrete run *)

Section demo.
Let env : HashEnv := injective_env.
Existing Instance env.

(** Six blocks of four tokens; a request of two full blocks. *)
Definition demo_request : Request :=
  MkRequest "r"%string 0 0 None None None None [] (Some (replicate 8 7)) None ∅ 8 []
    (replicate 8 7) [] 0 0 1 WAITING None [[1; 2]; [3; 4]] (Some 4) false.

Definition demo_pool : BlockPool :=
  match BlockPool_init 6 true 4 true with
  | Ok p => p
  | Err _ => MkPool 0 false 0 [] (new_blocks_state 0) ∅ 0 false []
  end.

Definition demo_step (o : pool_op) (p : BlockPool) : BlockPool := (run_pool_op o p).2.

Definition demo_cache : pool_op := OCache demo_request [1; 2; 3] 0 2 4 0 None.
Definition demo_pool1 : BlockPool := Eval vm_compute in demo_step (OGet 3) demo_pool.
Definition demo_pool2 : BlockPool := Eval vm_compute in demo_step demo_cache demo_pool1.

Lemma demo_legal_cache : legal demo_cache demo_pool1 [1; 2; 3].
Proof.
  cbn [legal demo_cache]. set (new := new_entries _ _ _ _ _ _).
  assert (new.*1 = [1; 2]) as -> by (vm_compute; reflexivity).
  split_and!; try (vm_compute; (reflexivity || congruence || lia)).
  - intros b Hb. change (num_gpu_blocks demo_pool1) with 6. set_solver by lia.
  - by apply (bool_decide_unpack _).
  - intros b Hb. apply elem_of_cons in Hb as [->|Hb]; [vm_compute; reflexivity|].
    apply list_elem_of_singleton in Hb as ->. vm_compute. reflexivity.
Qed.

Lemma demo_reachable1 : pool_reachable demo_pool1 [1; 2; 3] [].
Proof.
  change (@nil KVCacheEvent) with (taken_after (RBlocks [1; 2; 3]) []).
  eapply (reach_step demo_pool [] [] (OGet 3)).
  - by apply (reach_init 6 true 4 true).
  - vm_compute. split; congruence.
  - vm_compute. reflexivity.
  - done.
Qed.

Lemma demo_reachable2 : pool_reachable demo_pool2 [1; 2; 3] [].
Proof.
  change (@nil KVCacheEvent) with (taken_after RUnit []).
  eapply (reach_step demo_pool1 [1; 2; 3] [] demo_cache).
  - apply demo_reachable1.
  - apply demo_legal_cache.
  - vm_compute. reflexivity.
  - done.
Qed.

Lemma pool_invariant_witness :
  ∃ l, get_all_free_blocks (free_block_queue demo_pool2) = (Ok l, free_block_queue demo_pool2) ∧
    NoDup l ∧ get_num_free_blocks demo_pool2 = (Ok (len l), demo_pool2) ∧
    (∀ b, b ∈ l ↔ 0 < b < num_gpu_blocks demo_pool2 ∧ b ∉ [1; 2; 3]) ∧
    (∀ b, 0 < b < num_gpu_blocks demo_pool2 → ref_cnt_of demo_pool2 b = Some (occ b [1; 2; 3])) ∧
    (∀ key b, b ∈ members (cached_block_hash_to_block demo_pool2 !! key) ↔
       0 < b < num_gpu_blocks demo_pool2 ∧ hash_of demo_pool2 b = Some key).
Proof. exact (pool_invariant demo_pool2 [1; 2; 3] [] demo_reachable2). Defined.

Lemma pool_calls_return_witness :
  legal demo_cache demo_pool1 [1; 2; 3] ∧
  ∃ r p' refs', run_pool_op demo_cache demo_pool1 = (Ok r, p') ∧
    refs_after demo_cache r [1; 2; 3] refs' ∧ pool_reachable p' refs' (taken_after r []).
Proof.
  split; [exact demo_legal_cache|].
  exact (pool_calls_return demo_pool1 [1; 2; 3] [] demo_cache demo_reachable1 demo_legal_cache).
Defined.

Lemma get_new_blocks_spec_witness :
  ∃ l, get_all_free_blocks (free_block_queue demo_pool2) = (Ok l, free_block_queue demo_pool2) ∧
  if len l <? 2 then get_new_blocks 2 demo_pool2 = (Err ValueError, demo_pool2)
  else ∃ p', get_new_blocks 2 demo_pool2 = (Ok (take (Z.to_nat 2) l), p') ∧
    let bs := take (Z.to_nat 2) l in
    len bs = 2 ∧ NoDup bs ∧
    (∀ b, b ∈ bs → b ∉ [1; 2; 3] ∧ b ≠ null_block demo_pool2 ∧
       hash_of p' b = None ∧ ref_cnt_of p' b = Some 1) ∧
    (∀ key b, b ∈ members (cached_block_hash_to_block p' !! key) ↔
       b ∈ members (cached_block_hash_to_block demo_pool2 !! key) ∧ b ∉ bs) ∧
    (∀ b, 0 < b < num_gpu_blocks demo_pool2 → b ∉ bs →
       hash_of p' b = hash_of demo_pool2 b ∧ ref_cnt_of p' b = ref_cnt_of demo_pool2 b) ∧
    get_all_free_blocks (free_block_queue p') = (Ok (drop (Z.to_nat 2) l), free_block_queue p').
Proof. exact (get_new_blocks_spec demo_pool2 [1; 2; 3] [] 2 demo_reachable2 ltac:(lia)). Defined.

Lemma pool_events_account_witness :
  enable_kv_cache_events demo_pool2 = true ∧
  balance (HashBytes [1; 2]) 0 ([] ++ kv_event_queue demo_pool2)
  = cached_as demo_pool2 (HashBytes [1; 2]) 0 ∧
  cached_as demo_pool2 (HashBytes [1; 2]) 0 = 1.
Proof.
  split; [reflexivity|]. split; [|vm_compute; reflexivity].
  exact (pool_events_account demo_pool2 [1; 2; 3] [] (HashBytes [1; 2]) 0 demo_reachable2 eq_refl).
Defined.

Lemma get_cached_block_spec_witness :
  ∃ r, get_cached_block [3; 4] [0] demo_pool2 = (Ok r, demo_pool2) ∧
    match r with
    | Some bs => Forall2 (λ g b, 0 < b < num_gpu_blocks demo_pool2 ∧
        hash_of demo_pool2 b = Some (block_key [3; 4] g)) [0] bs
    | None => ∃ g, g ∈ [0] ∧
        ∀ b, 0 ≤ b < num_gpu_blocks demo_pool2 → hash_of demo_pool2 b ≠ Some (block_key [3; 4] g)
    end.
Proof.
  apply (get_cached_block_spec demo_pool2 [1; 2; 3] [] [3; 4] [0] demo_reachable2).
  constructor; [lia|constructor].
Defined.

Lemma reset_prefix_cache_spec_witness :
  ∃ p', reset_prefix_cache demo_pool2
        = (Ok (bool_decide (Forall (λ b, b = null_block demo_pool2) [1; 2; 3])), p') ∧
    if decide (Forall (λ b, b = null_block demo_pool2) [1; 2; 3])
    then ∀ b, 0 ≤ b < num_gpu_blocks demo_pool2 → hash_of p' b = None
    else p' = demo_pool2.
Proof. exact (reset_prefix_cache_spec demo_pool2 [1; 2; 3] [] demo_reachable2). Defined.

Lemma free_blocks_spec_witness :
  ∃ l p', get_all_free_blocks (free_block_queue demo_pool2) = (Ok l, free_block_queue demo_pool2) ∧
    free_blocks [3; 2] false demo_pool2 = (Ok tt, p') ∧
    get_all_free_blocks (free_block_queue p') =
      (Ok (l ++ freed_of [1] [3; 2]), free_block_queue p') ∧
    ∀ b, 0 ≤ b < num_gpu_blocks demo_pool2 → hash_of p' b = hash_of demo_pool2 b.
Proof.
  apply (free_blocks_spec demo_pool2 [1; 2; 3] [] [3; 2] false [1] demo_reachable2).
  - apply (bool_decide_unpack _). vm_compute. exact I.
  - apply (bool_decide_unpack _). vm_compute. exact I.
Defined.
End demo.
