(* ===== verification/KVCacheSpec.v ===== *)
(** * KV-cache specifications

    The layer specifications of src/vllm/vllm/v1/kv_cache_interface.py as the
    managers use them: block size, attention window, admission caps, and the
    manager class registered for each specification
    (src/vllm/vllm/v1/kv_cache_spec_registry.py and
    [register_all_kvcache_specs]).  Tensor shapes and byte sizes are left out. *)

From S2P Require Import Prelude.

Inductive mamba_mode : Type := MambaNone | MambaAll | MambaAlign.
#[export] Instance mamba_mode_eq_dec : EqDecision mamba_mode.
Proof. solve_decision. Defined.

(** The specification classes with the fields the managers read. *)
Inductive spec_fields : Type :=
| FullAttentionSpec (block_size : Z)
| TQFullAttentionSpec (block_size : Z)
| MLAAttentionSpec (block_size : Z)
| HiddenStateCacheSpec (block_size : Z)
| SinkFullAttentionSpec (block_size : Z) (sink_len : option Z)
| SlidingWindowSpec (block_size sliding_window : Z)
| SlidingWindowMLASpec (block_size sliding_window : Z)
| ChunkedLocalAttentionSpec (block_size attention_chunk_size : Z)
| MambaSpec (block_size : Z) (mamba_cache_mode : mamba_mode) (num_speculative_blocks : Z)
| CrossAttentionSpec (block_size : Z)
| EncoderOnlyAttentionSpec (block_size : Z).

#[export] Instance spec_fields_eq_dec : EqDecision spec_fields.
Proof. solve_decision. Defined.

(** [layout] stands for the fields that describe tensors (head counts, head
    sizes, data types, paddings); they enter equality only. *)
Record KVCacheSpec : Type := MkSpec {
  fields : spec_fields;
  layout : Z
}.

#[export] Instance KVCacheSpec_eq_dec : EqDecision KVCacheSpec.
Proof. solve_decision. Defined.

Definition spec_block_size (s : KVCacheSpec) : Z :=
  match fields s with
  | FullAttentionSpec b | TQFullAttentionSpec b | MLAAttentionSpec b
  | HiddenStateCacheSpec b | SinkFullAttentionSpec b _ | SlidingWindowSpec b _
  | SlidingWindowMLASpec b _ | ChunkedLocalAttentionSpec b _ | MambaSpec b _ _
  | CrossAttentionSpec b | EncoderOnlyAttentionSpec b => b
  end.

(** [isinstance(spec, FullAttentionSpec)]: subclasses included. *)
Definition is_full_attention (s : KVCacheSpec) : bool :=
  match fields s with
  | FullAttentionSpec _ | TQFullAttentionSpec _ | MLAAttentionSpec _
  | HiddenStateCacheSpec _ | SinkFullAttentionSpec _ _ => true
  | _ => false
  end.
Definition is_sliding_window (s : KVCacheSpec) : bool :=
  match fields s with SlidingWindowSpec _ _ | SlidingWindowMLASpec _ _ => true | _ => false end.
Definition is_chunked_local (s : KVCacheSpec) : bool :=
  match fields s with ChunkedLocalAttentionSpec _ _ => true | _ => false end.
Definition is_mamba (s : KVCacheSpec) : bool :=
  match fields s with MambaSpec _ _ _ => true | _ => false end.

(** [type(spec) in (FullAttentionSpec, TQFullAttentionSpec, MLAAttentionSpec)]:
    exact classes. *)
Definition needs_zeroing_ids (s : KVCacheSpec) : bool :=
  match fields s with
  | FullAttentionSpec _ | TQFullAttentionSpec _ | MLAAttentionSpec _ => true
  | _ => false
  end.

(** [max_admission_blocks_per_request], for the classes that define it. *)
Definition SlidingWindow_max_admission (block_size sliding_window max_num_batched_tokens
    max_model_len : Z) : Z :=
  let num_tokens := Z.min (sliding_window - 1 + max_num_batched_tokens) max_model_len in
  cdiv num_tokens block_size + 1.
Definition ChunkedLocal_max_admission (block_size attention_chunk_size max_num_batched_tokens
    max_model_len : Z) : Z :=
  let num_tokens := Z.min (attention_chunk_size + max_num_batched_tokens) max_model_len in
  cdiv num_tokens block_size.
Definition max_admission_blocks_per_request (s : KVCacheSpec)
    (max_num_batched_tokens max_model_len : Z) : option Z :=
  match fields s with
  | SlidingWindowSpec bs w | SlidingWindowMLASpec bs w =>
      Some (SlidingWindow_max_admission bs w max_num_batched_tokens max_model_len)
  | ChunkedLocalAttentionSpec bs c =>
      Some (ChunkedLocal_max_admission bs c max_num_batched_tokens max_model_len)
  | _ => None
  end.

(** [get_kv_cache_spec_kind], as the value of the enum. *)
Definition get_kv_cache_spec_kind (s : KVCacheSpec) : string :=
  match fields s with
  | SlidingWindowMLASpec _ _ => "sliding_window_mla"
  | MLAAttentionSpec _ | HiddenStateCacheSpec _ => "mla_attention"
  | SinkFullAttentionSpec _ _ => "sink_full_attention"
  | FullAttentionSpec _ | TQFullAttentionSpec _ => "full_attention"
  | ChunkedLocalAttentionSpec _ _ => "chunked_local_attention"
  | SlidingWindowSpec _ _ => "sliding_window"
  | MambaSpec _ _ _ => "mamba"
  | EncoderOnlyAttentionSpec _ => "encoder_only_attention"
  | CrossAttentionSpec _ => "cross_attention"
  end.

Definition get_kv_cache_spec_sliding_window (s : KVCacheSpec) : option Z :=
  match fields s with
  | SlidingWindowSpec _ w | SlidingWindowMLASpec _ w => Some w
  | _ => None
  end.

(** ** Groups and configuration *)

Record KVCacheGroupSpec : Type := MkGroup {
  group_spec : KVCacheSpec;
  is_eagle_group : bool
}.

Record KVCacheConfig : Type := MkConfig {
  num_blocks : Z;
  kv_cache_groups : list KVCacheGroupSpec
}.

Definition has_mamba_layers (c : KVCacheConfig) : bool :=
  existsb (λ g, is_mamba (group_spec g)) (kv_cache_groups c).
Definition needs_kv_cache_zeroing (c : KVCacheConfig) : bool := has_mamba_layers c.

(** ** The registered managers *)

Inductive manager_class : Type :=
| FullAttentionManager
| SlidingWindowManager
| ChunkedLocalAttentionManager
| MambaManager
| CrossAttentionManager
| SinkFullAttentionManager.

#[export] Instance manager_class_eq_dec : EqDecision manager_class.
Proof. solve_decision. Defined.

(** [KVCacheSpecRegistry.get_manager_class] with the built-in registrations. *)
Definition get_manager_class (s : KVCacheSpec) : option manager_class :=
  match fields s with
  | FullAttentionSpec _ | TQFullAttentionSpec _ | MLAAttentionSpec _
  | HiddenStateCacheSpec _ => Some FullAttentionManager
  | SlidingWindowSpec _ _ | SlidingWindowMLASpec _ _ => Some SlidingWindowManager
  | MambaSpec _ _ _ => Some MambaManager
  | ChunkedLocalAttentionSpec _ _ => Some ChunkedLocalAttentionManager
  | CrossAttentionSpec _ => Some CrossAttentionManager
  | SinkFullAttentionSpec _ _ => Some SinkFullAttentionManager
  | EncoderOnlyAttentionSpec _ => None
  end.
