(* ===== verification/SingleType.v ===== *)
(** * Single-type managers

    [SingleTypeKVCacheManager] and its subclasses
    (src/vllm/vllm/v1/core/single_type_kv_cache_manager.py): which blocks each
    request owns in one KV-cache group, and how they are allocated, cached,
    recycled, aliased and freed.  A method runs on the manager and the block
    pool it shares with the other managers.  Cache-hit search is in
    [CacheHit]. *)

From S2P Require Import Prelude FreeQueue BlockHash Request BlockPool KVCacheSpec.

(** ** State *)

Record Manager : Type := MkManager {
  cls : manager_class;
  kv_cache_spec : KVCacheSpec;
  scheduler_block_size : Z;
  block_size : Z;
  dcp_world_size : Z;
  pcp_world_size : Z;
  mgr_enable_caching : bool;
  max_admission : option Z;
  new_block_ids : list Z;
  req_to_blocks : gmap string (list loc);
  num_cached_block : gmap string Z;
  kv_cache_group_id : Z;
  mgr_null_block : loc;
  use_eagle : bool;
  (** [MambaManager] *)
  cached_blocks_this_step : gset bytes;
  last_state_block_idx : gmap string Z;
  allocated_block_reqs : gset string
}.

Definition set_new_block_ids (v : list Z) (m : Manager) : Manager :=
  MkManager (cls m) (kv_cache_spec m) (scheduler_block_size m) (block_size m)
    (dcp_world_size m) (pcp_world_size m) (mgr_enable_caching m) (max_admission m)
    v (req_to_blocks m) (num_cached_block m) (kv_cache_group_id m)
    (mgr_null_block m) (use_eagle m) (cached_blocks_this_step m)
    (last_state_block_idx m) (allocated_block_reqs m).
Definition set_tables (v : gmap string (list loc)) (nc : gmap string Z) (m : Manager) : Manager :=
  MkManager (cls m) (kv_cache_spec m) (scheduler_block_size m) (block_size m)
    (dcp_world_size m) (pcp_world_size m) (mgr_enable_caching m) (max_admission m)
    (new_block_ids m) v nc (kv_cache_group_id m)
    (mgr_null_block m) (use_eagle m) (cached_blocks_this_step m)
    (last_state_block_idx m) (allocated_block_reqs m).
Definition set_req_to_blocks (v : gmap string (list loc)) (m : Manager) : Manager :=
  set_tables v (num_cached_block m) m.
Definition set_num_cached_block (v : gmap string Z) (m : Manager) : Manager :=
  set_tables (req_to_blocks m) v m.
Definition set_use_eagle (v : bool) (m : Manager) : Manager :=
  MkManager (cls m) (kv_cache_spec m) (scheduler_block_size m) (block_size m)
    (dcp_world_size m) (pcp_world_size m) (mgr_enable_caching m) (max_admission m)
    (new_block_ids m) (req_to_blocks m) (num_cached_block m) (kv_cache_group_id m)
    (mgr_null_block m) v (cached_blocks_this_step m)
    (last_state_block_idx m) (allocated_block_reqs m).
Definition set_mamba (step : gset bytes) (last : gmap string Z) (alloc : gset string)
    (m : Manager) : Manager :=
  MkManager (cls m) (kv_cache_spec m) (scheduler_block_size m) (block_size m)
    (dcp_world_size m) (pcp_world_size m) (mgr_enable_caching m) (max_admission m)
    (new_block_ids m) (req_to_blocks m) (num_cached_block m) (kv_cache_group_id m)
    (mgr_null_block m) (use_eagle m) step last alloc.

(** A manager and the pool it works on. *)
Record mstate : Type := MkMS {
  ms_pool : BlockPool;
  ms_mgr : Manager
}.

Definition onp {A} (m : M BlockPool A) : M mstate A :=
  zoom ms_pool (λ p s, MkMS p (ms_mgr s)) m.
Definition getm {A} (f : Manager → A) : M mstate A := gets (λ s, f (ms_mgr s)).
Definition modm (f : Manager → Manager) : M mstate unit :=
  modify (λ s, MkMS (ms_pool s) (f (ms_mgr s))).

(** [self.req_to_blocks[rid]]: a defaultdict creates the missing entry. *)
Definition blocks_at (rid : string) (m : Manager) : list loc :=
  default [] (req_to_blocks m !! rid).
Definition put_blocks (rid : string) (bs : list loc) : M mstate unit :=
  modm (λ m, set_req_to_blocks (<[rid := bs]> (req_to_blocks m)) m).
Definition req_blocks (rid : string) : M mstate (list loc) :=
  let* bs := getm (blocks_at rid) in
  put_blocks rid bs ;;;
  ret bs.

(** [self.num_cached_block.get(rid, 0)] and [self.num_cached_block[rid] = n] *)
Definition cached_at (rid : string) (m : Manager) : Z := default 0 (num_cached_block m !! rid).
Definition put_cached (rid : string) (n : Z) : M mstate unit :=
  modm (λ m, set_num_cached_block (<[rid := n]> (num_cached_block m)) m).

(** ** Construction *)

Definition Manager_init (c : manager_class) (kv_cache_spec : KVCacheSpec) (null_block : loc)
    (enable_caching : bool) (kv_cache_group_id scheduler_block_size dcp pcp : Z)
    (max_admission : option Z) : Manager :=
  let bs := spec_block_size kv_cache_spec in
  MkManager c kv_cache_spec scheduler_block_size
    (if 1 <? dcp * pcp then bs * (dcp * pcp) else bs) dcp pcp enable_caching max_admission
    [] ∅ ∅ kv_cache_group_id null_block false ∅ ∅ ∅.

(** [get_manager_for_kv_cache_spec] as the coordinator calls it, with
    [scheduler_block_size] among the keyword arguments.
    [SinkFullAttentionManager.__init__] has no such parameter, so that call
    raises TypeError. *)
Definition get_manager_for_kv_cache_spec (kv_cache_spec : KVCacheSpec)
    (max_num_batched_tokens max_model_len : Z) (null_block : loc) (enable_caching : bool)
    (kv_cache_group_id scheduler_block_size dcp pcp : Z) : res Manager :=
  match get_manager_class kv_cache_spec with
  | None => Err AssertionError
  | Some SinkFullAttentionManager => Err TypeError
  | Some c =>
      Ok (Manager_init c kv_cache_spec null_block enable_caching kv_cache_group_id
            scheduler_block_size dcp pcp
            (max_admission_blocks_per_request kv_cache_spec max_num_batched_tokens max_model_len))
  end.

(** ** Skipped tokens *)

Definition SlidingWindow_get_num_skipped_tokens (sliding_window num_computed_tokens : Z) : Z :=
  Z.max 0 (num_computed_tokens - sliding_window + 1).
Definition ChunkedLocal_get_num_skipped_tokens (attention_chunk_size num_computed_tokens : Z) : Z :=
  num_computed_tokens / attention_chunk_size * attention_chunk_size.
Definition Mamba_get_num_skipped_tokens (num_computed_tokens : Z) : Z := num_computed_tokens - 1.

Definition get_num_skipped_tokens (m : Manager) (num_computed_tokens : Z) : Z :=
  match cls m, fields (kv_cache_spec m) with
  | SlidingWindowManager, (SlidingWindowSpec _ w | SlidingWindowMLASpec _ w) =>
      SlidingWindow_get_num_skipped_tokens w num_computed_tokens
  | ChunkedLocalAttentionManager, ChunkedLocalAttentionSpec _ c =>
      ChunkedLocal_get_num_skipped_tokens c num_computed_tokens
  | MambaManager, _ => Mamba_get_num_skipped_tokens num_computed_tokens
  | _, _ => 0
  end.

Definition mamba_cache_mode (m : Manager) : mamba_mode :=
  match fields (kv_cache_spec m) with MambaSpec _ mode _ => mode | _ => MambaNone end.
Definition num_speculative_blocks (m : Manager) : Z :=
  match fields (kv_cache_spec m) with MambaSpec _ _ n => n | _ => 0 end.

(** ** How many blocks an allocation needs *)

Definition is_evictable (b : loc) : M BlockPool bool :=
  let* blk := onq (read b) in ret ((ref_cnt blk =? 0) && negb (is_null blk)).

(** [_get_num_evictable_blocks] *)
Definition get_num_evictable_blocks (bs : list loc) : M BlockPool Z :=
  let* l := filter_each is_evictable bs in ret (len l).

Definition base_get_num_blocks_to_allocate (request_id : string) (num_tokens : Z)
    (new_computed_blocks : list loc) (total_computed_tokens : Z) (apply_admission_cap : bool)
  : M mstate Z :=
  let* m := getm (λ m, m) in
  let num_required_blocks := cdiv num_tokens (block_size m) in
  let num_required_blocks :=
    match max_admission m with
    | Some cap => if apply_admission_cap then Z.min num_required_blocks cap else num_required_blocks
    | None => num_required_blocks
    end in
  let num_req_blocks := len (blocks_at request_id m) in
  match num_cached_block m !! request_id with
  | Some _ =>
      assert_ (len new_computed_blocks =? 0) ;;;
      ret (Z.max (num_required_blocks - num_req_blocks) 0)
  | None =>
      let num_skipped_tokens := get_num_skipped_tokens m total_computed_tokens in
      let num_local_computed_blocks := len new_computed_blocks + num_req_blocks in
      let num_skipped_blocks := num_skipped_tokens / block_size m in
      let num_new_blocks :=
        Z.max (num_required_blocks - Z.max num_skipped_blocks num_local_computed_blocks) 0 in
      let num_skipped_new_computed_blocks := Z.max 0 (num_skipped_blocks - num_req_blocks) in
      let* num_evictable_blocks :=
        onp (get_num_evictable_blocks
               (slice_from new_computed_blocks num_skipped_new_computed_blocks)) in
      ret (num_new_blocks + num_evictable_blocks)
  end.

Definition Mamba_get_num_blocks_to_allocate (request_id : string) (num_tokens : Z)
    (new_computed_blocks : list loc) (total_computed_tokens num_tokens_main_model : Z)
    (apply_admission_cap : bool) : M mstate Z :=
  let* m := getm (λ m, m) in
  assert_ (is_mamba (kv_cache_spec m)) ;;;
  let* generated_this_step :=
    match last new_computed_blocks with
    | None => ret false
    | Some b =>
        let* blk := onp (onq (read b)) in
        ret (match block_hash blk with
             | Some h => bool_decide (h ∈ cached_blocks_this_step m)
             | None => false
             end)
    end in
  if generated_this_step then
    let* n := onp (gets num_gpu_blocks) in ret (n + 1)
  else
    let spec_blocks := num_speculative_blocks m in
    if bool_decide (mamba_cache_mode m ≠ MambaAlign) then
      let num_tokens :=
        if 0 <? spec_blocks
        then num_tokens + spec_block_size (kv_cache_spec m) * spec_blocks else num_tokens in
      base_get_num_blocks_to_allocate request_id num_tokens new_computed_blocks
        total_computed_tokens apply_admission_cap
    else
      let num_required_blocks := cdiv num_tokens_main_model (block_size m) + spec_blocks in
      let* rb := req_blocks request_id in
      let num_new_blocks := num_required_blocks - len new_computed_blocks - len rb in
      let num_new_blocks :=
        if 0 <? num_new_blocks then
          if bool_decide (request_id ∈ allocated_block_reqs m) then 1 else 1 + spec_blocks
        else num_new_blocks in
      let* num_evictable := onp (get_num_evictable_blocks new_computed_blocks) in
      ret (num_new_blocks + num_evictable).

Definition get_num_blocks_to_allocate (request_id : string) (num_tokens : Z)
    (new_computed_blocks : list loc) (total_computed_tokens num_tokens_main_model : Z)
    (apply_admission_cap : bool) : M mstate Z :=
  let* c := getm cls in
  match c with
  | MambaManager =>
      Mamba_get_num_blocks_to_allocate request_id num_tokens new_computed_blocks
        total_computed_tokens num_tokens_main_model apply_admission_cap
  | _ =>
      base_get_num_blocks_to_allocate request_id num_tokens new_computed_blocks
        total_computed_tokens apply_admission_cap
  end.

(** ** Allocation *)

Section manager_operations.
Context `{HashEnv}.

(** [self.new_block_ids.extend(...)], for the exact classes listed. *)
Definition record_new_ids (bs : list loc) : M mstate unit :=
  let* s := getm kv_cache_spec in
  if needs_zeroing_ids s then
    let* ids := onp (map_each (λ b, let* blk := onq (read b) in ret (block_id blk)) bs) in
    modm (λ m, set_new_block_ids (new_block_ids m ++ ids) m)
  else ret tt.

Definition base_allocate_new_computed_blocks (request_id : string)
    (new_computed_blocks : list loc)
    (num_local_computed_tokens num_external_computed_tokens : Z) : M mstate unit :=
  let* m := getm (λ m, m) in
  match num_cached_block m !! request_id with
  | Some _ => assert_ (len new_computed_blocks =? 0)
  | None =>
      let* rb := req_blocks request_id in
      assert_ (len rb =? 0) ;;;
      let num_total_computed_tokens :=
        num_local_computed_tokens + num_external_computed_tokens in
      let num_skipped_tokens := get_num_skipped_tokens m num_total_computed_tokens in
      let num_skipped_blocks := num_skipped_tokens / block_size m in
      let '(new_computed_blocks, num_external_computed_tokens) :=
        if 0 <? num_skipped_blocks then
          (slice_from new_computed_blocks num_skipped_blocks,
           Z.min (num_total_computed_tokens - num_skipped_tokens) num_external_computed_tokens)
        else (new_computed_blocks, num_external_computed_tokens) in
      (if mgr_enable_caching m then onp (touch new_computed_blocks)
       else assert_ (bool_decide (new_computed_blocks = []))) ;;;
      let rb := rb ++ replicate (Z.to_nat num_skipped_blocks) (mgr_null_block m)
                   ++ new_computed_blocks in
      put_blocks request_id rb ;;;
      put_cached request_id (len rb) ;;;
      if 0 <? num_external_computed_tokens then
        let* allocated_blocks :=
          onp (get_new_blocks (cdiv num_total_computed_tokens (block_size m) - len rb)) in
        put_blocks request_id (rb ++ allocated_blocks) ;;;
        record_new_ids allocated_blocks
      else ret tt
  end.

(** Cross-attention blocks are never shared. *)
Definition Cross_allocate_new_computed_blocks (new_computed_blocks : list loc) : M mstate unit :=
  assert_ (len new_computed_blocks =? 0).

Definition allocate_new_computed_blocks (request_id : string) (new_computed_blocks : list loc)
    (num_local_computed_tokens num_external_computed_tokens : Z) : M mstate unit :=
  let* c := getm cls in
  match c with
  | CrossAttentionManager => Cross_allocate_new_computed_blocks new_computed_blocks
  | _ => base_allocate_new_computed_blocks request_id new_computed_blocks
           num_local_computed_tokens num_external_computed_tokens
  end.

Definition base_allocate_new_blocks (request_id : string) (num_tokens : Z)
  : M mstate (list loc) :=
  let* rb := req_blocks request_id in
  let* bs := getm block_size in
  let num_required_blocks := cdiv num_tokens bs in
  let num_new_blocks := num_required_blocks - len rb in
  if num_new_blocks <=? 0 then ret []
  else
    let* new_blocks := onp (get_new_blocks num_new_blocks) in
    put_blocks request_id (rb ++ new_blocks) ;;;
    record_new_ids new_blocks ;;;
    ret new_blocks.

(** The loop that moves the previous step's speculative blocks to the end. *)
Fixpoint reuse_speculative (null : loc) (num_skipped_blocks : Z) (idxs : list Z) (rb : list loc)
  : M mstate (list loc) :=
  match idxs with
  | [] => ret rb
  | block_idx :: idxs' =>
      if block_idx <? num_skipped_blocks then
        let* b := or_raise IndexError (py_nth rb block_idx) in
        reuse_speculative null num_skipped_blocks idxs' (py_set (rb ++ [b]) block_idx null)
      else ret rb
  end.

Definition Mamba_allocate_align (request_id : string) (num_tokens_main_model : Z)
  : M mstate (list loc) :=
  let* rb := req_blocks request_id in
  let* m := getm (λ m, m) in
  let spec_blocks := num_speculative_blocks m in
  let num_required_blocks := cdiv num_tokens_main_model (block_size m) + spec_blocks in
  if num_required_blocks =? len rb then ret []
  else
    assert_ (len rb <? num_required_blocks) ;;;
    let prev_block_len := len rb in
    let blocks_allocated := bool_decide (request_id ∈ allocated_block_reqs m) in
    (if blocks_allocated then
       modm (λ m, set_mamba (cached_blocks_this_step m)
         (<[request_id := prev_block_len - 1 - spec_blocks]> (last_state_block_idx m))
         (allocated_block_reqs m) m)
     else if 0 <? prev_block_len then
       modm (λ m, set_mamba (cached_blocks_this_step m)
         (<[request_id := prev_block_len - 1]> (last_state_block_idx m))
         (allocated_block_reqs m) m)
     else ret tt) ;;;
    let num_skipped_blocks := num_required_blocks - spec_blocks - 1 in
    let rb :=
      if prev_block_len <? num_skipped_blocks
      then rb ++ replicate (Z.to_nat (num_skipped_blocks - prev_block_len)) (mgr_null_block m)
      else rb in
    let* rb :=
      if blocks_allocated then
        reuse_speculative (mgr_null_block m) num_skipped_blocks
          (range (prev_block_len - spec_blocks) prev_block_len) rb
      else ret rb in
    put_blocks request_id rb ;;;
    let num_new_blocks := num_required_blocks - len rb in
    assert_ (if blocks_allocated then num_new_blocks <=? 1
             else num_new_blocks <=? spec_blocks + 1) ;;;
    let* new_blocks := onp (get_new_blocks num_new_blocks) in
    put_blocks request_id (rb ++ new_blocks) ;;;
    modm (λ m, set_mamba (cached_blocks_this_step m) (last_state_block_idx m)
      ({[request_id]} ∪ allocated_block_reqs m) m) ;;;
    ret (slice_from (rb ++ new_blocks) prev_block_len).

Definition Mamba_allocate_new_blocks (request_id : string) (num_tokens num_tokens_main_model : Z)
  : M mstate (list loc) :=
  let* m := getm (λ m, m) in
  assert_ (is_mamba (kv_cache_spec m)) ;;;
  if bool_decide (mamba_cache_mode m ≠ MambaAlign) then
    base_allocate_new_blocks request_id
      (if 0 <? num_speculative_blocks m
       then num_tokens + block_size m * num_speculative_blocks m else num_tokens)
  else Mamba_allocate_align request_id num_tokens_main_model.

Definition allocate_new_blocks (request_id : string) (num_tokens num_tokens_main_model : Z)
  : M mstate (list loc) :=
  let* c := getm cls in
  match c with
  | MambaManager => Mamba_allocate_new_blocks request_id num_tokens num_tokens_main_model
  | _ => base_allocate_new_blocks request_id num_tokens
  end.

Definition take_new_block_ids : M mstate (list Z) :=
  let* ids := getm new_block_ids in
  modm (set_new_block_ids []) ;;;
  ret ids.

(** ** Caching *)

(** [_contiguous_blocks_for_hit] *)
Definition contiguous_blocks_for_hit (window_size block_size : Z) (use_eagle : bool) : Z :=
  let blocks := cdiv (window_size - 1) block_size in
  if use_eagle then blocks + 1 else blocks.

(** [for i in idxs: mask[i - start_block] = True] *)
Definition mark (start_block : Z) (mask : list bool) (idxs : list Z) : list bool :=
  foldl (λ mask i, py_set mask (i - start_block) true) mask idxs.

(** [SlidingWindowManager.reachable_block_mask]; [window] and [block_size] are
    the specification's. *)
Definition SlidingWindow_reachable_block_mask {S} (start_block end_block : Z)
    (alignment_tokens : option Z) (kv_cache_spec : KVCacheSpec) (use_eagle : bool)
    (retention_interval num_prompt_tokens : option Z) : M S (option (list bool)) :=
  match fields kv_cache_spec with
  | SlidingWindowSpec block_size window | SlidingWindowMLASpec block_size window =>
      match alignment_tokens with
      | None => ret None
      | Some alignment_tokens =>
          assert_ (alignment_tokens mod block_size =? 0) ;;;
          let need := contiguous_blocks_for_hit window block_size use_eagle in
          let shift := if use_eagle then 1 else 0 in
          let mask := replicate (Z.to_nat (end_block - start_block)) false in
          let segment_tokens :=
            match retention_interval with
            | None => Some alignment_tokens
            | Some r => if r =? 0 then None else Some r
            end in
          let replay (mask : list bool) :=
            match retention_interval, num_prompt_tokens with
            | Some _, Some n =>
                let latest := (n - 1) / alignment_tokens * alignment_tokens in
                let prompt_end_block := latest / block_size + shift in
                mark start_block mask
                  (range (Z.max start_block (prompt_end_block - need))
                     (Z.min end_block prompt_end_block))
            | _, _ => mask
            end in
          match segment_tokens with
          | None => ret (Some (replay mask))
          | Some segment_tokens =>
              let per_segment := segment_tokens / block_size in
              if per_segment <=? need then ret None
              else
                let tails := filter
                  (λ i, shift ≤ i ∧ per_segment - need ≤ (i - shift) mod per_segment)
                  (range start_block end_block) in
                ret (Some (replay (mark start_block mask tails)))
          end
      end
  | _ => raise AssertionError
  end.

Definition reachable_block_mask {S} (c : manager_class) (start_block end_block : Z)
    (alignment_tokens : option Z) (kv_cache_spec : KVCacheSpec) (use_eagle : bool)
    (retention_interval num_prompt_tokens : option Z) : M S (option (list bool)) :=
  match c with
  | SlidingWindowManager =>
      SlidingWindow_reachable_block_mask start_block end_block alignment_tokens kv_cache_spec
        use_eagle retention_interval num_prompt_tokens
  | _ => ret None
  end.

Definition base_cache_blocks (request : Request) (num_tokens : Z)
    (retention_interval : option Z) : M mstate unit :=
  let* m := getm (λ m, m) in
  let num_cached_blocks := cached_at (request_id request) m in
  let num_full_blocks := num_tokens / block_size m in
  if num_full_blocks <=? num_cached_blocks then ret tt
  else
    let* block_mask :=
      reachable_block_mask (cls m) num_cached_blocks num_full_blocks
        (Some (scheduler_block_size m)) (kv_cache_spec m) (use_eagle m)
        retention_interval (Some (num_prompt_tokens request)) in
    let* rb := req_blocks (request_id request) in
    onp (cache_full_blocks request rb num_cached_blocks num_full_blocks (block_size m)
           (kv_cache_group_id m) block_mask) ;;;
    put_cached (request_id request) num_full_blocks.

(** [self.cached_blocks_this_step.add(block.block_hash)] for the blocks just
    cached. *)
Definition Mamba_note_cached (b : loc) : M mstate unit :=
  let* blk := onp (onq (read b)) in
  if is_null blk then ret tt
  else
    assert_ (bool_decide (block_hash blk ≠ None)) ;;;
    let* h := or_raise AssertionError (block_hash blk) in
    modm (λ m, set_mamba ({[h]} ∪ cached_blocks_this_step m) (last_state_block_idx m)
      (allocated_block_reqs m) m).

Definition Mamba_cache_blocks (request : Request) (num_tokens : Z)
    (retention_interval : option Z) : M mstate unit :=
  let* before := getm (cached_at (request_id request)) in
  base_cache_blocks request num_tokens retention_interval ;;;
  let* after := getm (cached_at (request_id request)) in
  if before <? after then
    let* rb := req_blocks (request_id request) in
    for_each (slice rb before after) Mamba_note_cached
  else ret tt.

Definition cache_blocks (request : Request) (num_tokens : Z)
    (retention_interval : option Z) : M mstate unit :=
  let* c := getm cls in
  match c with
  | MambaManager => Mamba_cache_blocks request num_tokens retention_interval
  | CrossAttentionManager => raise ValueError
  | _ => base_cache_blocks request num_tokens retention_interval
  end.

(** ** Freeing *)

(** [self.req_to_blocks.pop(rid, [])] *)
Definition pop_blocks (request_id : string) : M mstate (list loc) :=
  let* bs := getm (blocks_at request_id) in
  modm (λ m, set_req_to_blocks (delete request_id (req_to_blocks m)) m) ;;;
  ret bs.
Definition pop_cached (request_id : string) : M mstate unit :=
  modm (λ m, set_num_cached_block (delete request_id (num_cached_block m)) m).

Definition base_free (request_id : string) : M mstate unit :=
  let* rb := pop_blocks request_id in
  onp (free_blocks (rev rb) false) ;;;
  pop_cached request_id.

Definition is_unhashed (b : loc) : M BlockPool bool :=
  let* blk := onq (read b) in ret (bool_decide (block_hash blk = None)).
Definition is_hashed (b : loc) : M BlockPool bool :=
  let* blk := onq (read b) in ret (bool_decide (block_hash blk ≠ None)).

Definition SlidingWindow_free (request_id : string) : M mstate unit :=
  let* rb := pop_blocks request_id in
  (match rb with
   | [] => ret tt
   | _ =>
       let* cached := onp (filter_each is_hashed (rev rb)) in
       let* uncached := onp (filter_each is_unhashed (rev rb)) in
       onp (free_blocks cached false) ;;;
       onp (free_blocks uncached true)
   end) ;;;
  pop_cached request_id.

Definition Mamba_free (request_id : string) : M mstate unit :=
  let* m := getm (λ m, m) in
  (if bool_decide (mamba_cache_mode m = MambaAlign) then
     modm (λ m, set_mamba (cached_blocks_this_step m) (delete request_id (last_state_block_idx m))
       (allocated_block_reqs m ∖ {[request_id]}) m)
   else ret tt) ;;;
  base_free request_id.

Definition free (request_id : string) : M mstate unit :=
  let* c := getm cls in
  match c with
  | SlidingWindowManager => SlidingWindow_free request_id
  | MambaManager => Mamba_free request_id
  | _ => base_free request_id
  end.

(** ** Aliasing *)

Definition alias_request_blocks_from_snapshot (dst_request_id : string) (src_blocks : list loc)
    (src_num_cached_blocks num_prefix_blocks : Z) : M mstate unit :=
  if num_prefix_blocks <? 0 then raise ValueError
  else if len src_blocks <? num_prefix_blocks then raise ValueError
  else
    let* old_dst_blocks := pop_blocks dst_request_id in
    (match old_dst_blocks with
     | [] => ret tt
     | _ => onp (free_blocks (rev old_dst_blocks) false)
     end) ;;;
    let aliased_blocks := slice_to src_blocks num_prefix_blocks in
    put_blocks dst_request_id aliased_blocks ;;;
    let* shared := onp (filter_each
      (λ b, let* blk := onq (read b) in ret (negb (is_null blk))) aliased_blocks) in
    onp (touch shared) ;;;
    put_cached dst_request_id (Z.min src_num_cached_blocks num_prefix_blocks).

Definition alias_request_blocks (dst_request_id src_request_id : string)
    (num_prefix_blocks : Z) : M mstate unit :=
  let* src := getm (λ m, req_to_blocks m !! src_request_id) in
  match src with
  | None => raise ValueError
  | Some src_blocks =>
      let* n := getm (cached_at src_request_id) in
      alias_request_blocks_from_snapshot dst_request_id src_blocks n num_prefix_blocks
  end.

(** ** Recycling blocks outside the attention window *)

(** The loop of [remove_skipped_blocks] over the remaining indices; the locals
    are the request's blocks and the two lists of removed blocks. *)
Fixpoint skip_loop (null : loc) (idxs : list Z) (bs cached uncached : list loc)
  : M BlockPool (list loc * list loc * list loc) :=
  match idxs with
  | [] => ret (bs, cached, uncached)
  | i :: idxs' =>
      let* b := or_raise IndexError (py_nth bs i) in
      if b =? null then ret (bs, cached, uncached)
      else
        let* blk := onq (read b) in
        match block_hash blk with
        | None => skip_loop null idxs' (py_set bs i null) cached (uncached ++ [b])
        | Some _ => skip_loop null idxs' (py_set bs i null) (cached ++ [b]) uncached
        end
  end.

Definition base_remove_skipped_blocks (request_id : string) (total_computed_tokens : Z)
  : M mstate unit :=
  let* m := getm (λ m, m) in
  let num_skipped_tokens := get_num_skipped_tokens m total_computed_tokens in
  if num_skipped_tokens <=? 0 then ret tt
  else
    let* bs := req_blocks request_id in
    let num_skipped_blocks := Z.min (num_skipped_tokens / block_size m) (len bs) in
    let* st := onp (skip_loop (mgr_null_block m) (range_down 0 num_skipped_blocks) bs [] []) in
    let '(bs', removed_cached_blocks, removed_uncached_blocks) := st in
    put_blocks request_id bs' ;;;
    onp (free_blocks removed_cached_blocks false) ;;;
    onp (free_blocks removed_uncached_blocks true).

Definition Mamba_remove_skipped_blocks (request_id : string) (num_computed_tokens : Z)
  : M mstate unit :=
  let* m := getm (λ m, m) in
  assert_ (is_mamba (kv_cache_spec m)) ;;;
  let num_computed_tokens := Z.max 0 (num_computed_tokens - num_speculative_blocks m) in
  base_remove_skipped_blocks request_id num_computed_tokens ;;;
  if bool_decide (mamba_cache_mode m = MambaAlign) then
    match last_state_block_idx m !! request_id with
    | None => ret tt
    | Some idx =>
        if idx <? cdiv num_computed_tokens (block_size m) - 1 then
          let* bs := req_blocks request_id in
          let* b := or_raise IndexError (py_nth bs idx) in
          if b =? mgr_null_block m then ret tt
          else
            onp (free_blocks [b] false) ;;;
            put_blocks request_id (py_set bs idx (mgr_null_block m))
        else ret tt
    end
  else ret tt.

Definition remove_skipped_blocks (request_id : string) (total_computed_tokens : Z)
  : M mstate unit :=
  let* c := getm cls in
  match c with
  | MambaManager => Mamba_remove_skipped_blocks request_id total_computed_tokens
  | _ => base_remove_skipped_blocks request_id total_computed_tokens
  end.

(** ** Common prefix *)

(** The scan of [FullAttentionManager.get_num_common_prefix_blocks]. *)
Fixpoint count_shared (num_requests : Z) (bs : list loc) (n : Z) : M BlockPool Z :=
  match bs with
  | [] => ret n
  | b :: bs' =>
      let* blk := onq (read b) in
      if ref_cnt blk =? num_requests then count_shared num_requests bs' (n + 1) else ret n
  end.

Definition get_num_common_prefix_blocks (running_request_id : string) : M mstate Z :=
  let* c := getm cls in
  match c with
  | FullAttentionManager | SinkFullAttentionManager =>
      let* bs := req_blocks running_request_id in
      let* n := getm (λ m, Z.of_nat (size (req_to_blocks m))) in
      onp (count_shared n bs 0)
  | _ => ret 0
  end.

(** ** Steps *)

Definition new_step_starts : M mstate unit :=
  let* c := getm cls in
  match c with
  | MambaManager =>
      modm (λ m, set_mamba ∅ (last_state_block_idx m) (allocated_block_reqs m) m)
  | _ => ret tt
  end.

End manager_operations.
