(* ===== verification/Ownership.v ===== *)
(** * Ownership of blocks

    The requests of all managers share one pool.  An owner is a request's block
    list in one group with the number of its leading blocks that were offered
    to the prefix cache.  [own_rep] ties the owners to the pool: reference
    counts are the owners' occurrences, an owner lists no real block twice, and
    with caching on the blocks an owner has not offered yet carry no hash and
    belong to it alone.  The lemmas state what the pool's operations do to the
    owners; they are what the managers are proved against. *)

From S2P Require Import Prelude FreeQueue BlockHash Request BlockPool.

Abbreviation owner := (list loc * Z)%type (only parsing).

(** Block 0 is the null block; its references are not counted. *)
Definition real (l : list loc) : list loc := filter (λ b, b ≠ 0) l.

(** The blocks not offered to the prefix cache yet. *)
Definition unc (o : owner) : list loc := real (drop (Z.to_nat o.2) o.1).

Definition refs (os : list owner) : list loc := concat os.*1.

Record own_rep (p : BlockPool) (os : list owner) (l : list loc) (h : gmap Z bytes) : Prop := {
  ow_pool : pool_rep p (MkAPool l (refs os) h);
  ow_nodup : ∀ o, o ∈ os → NoDup (real o.1);
  ow_fresh : enable_caching p = true → ∀ o b, o ∈ os → b ∈ unc o →
    h !! b = None ∧ occ b (refs os) ≤ 1
}.

(** ** Lists without the null block *)

Lemma elem_of_real b l : b ∈ real l ↔ b ≠ 0 ∧ b ∈ l.
Proof. unfold real. by rewrite list_elem_of_filter. Qed.
Lemma real_app l1 l2 : real (l1 ++ l2) = real l1 ++ real l2.
Proof. apply filter_app. Qed.
Lemma real_replicate k : real (replicate k 0) = [].
Proof. induction k as [|k IH]; [done|]. simpl. unfold real in *. by rewrite filter_cons_False by tauto. Qed.
Lemma occ_real b l : b ≠ 0 → occ b (real l) = occ b l.
Proof. intros Hb. unfold real. rewrite occ_filter. by rewrite decide_True. Qed.
#[export] Instance real_perm : Proper ((≡ₚ) ==> (≡ₚ)) real.
Proof. intros l1 l2 H. unfold real. by rewrite H. Qed.

Lemma refs_cons o os : refs (o :: os) = o.1 ++ refs os.
Proof. done. Qed.
Lemma refs_app os1 os2 : refs (os1 ++ os2) = refs os1 ++ refs os2.
Proof. unfold refs. by rewrite fmap_app, concat_app. Qed.
#[export] Instance refs_perm : Proper ((≡ₚ) ==> (≡ₚ)) refs.
Proof. intros os1 os2 H. unfold refs. by rewrite H. Qed.
Lemma elem_of_refs b os : b ∈ refs os ↔ ∃ o, o ∈ os ∧ b ∈ o.1.
Proof.
  unfold refs. rewrite list_elem_of_In, in_concat. setoid_rewrite <-list_elem_of_In.
  split.
  - intros (l & (o & -> & Ho)%list_elem_of_fmap & Hb). eauto.
  - intros (o & Ho & Hb). exists o.1. split; [|done]. apply list_elem_of_fmap. eauto.
Qed.

(** Only the real references matter to the pool. *)
Lemma pool_rep_refs_real p l rs rs' h :
  real rs ≡ₚ real rs' → (∀ b, b ∈ rs' → b = 0 ∨ b ∈ rs) →
  pool_rep p (MkAPool l rs h) → pool_rep p (MkAPool l rs' h).
Proof.
  intros Hperm Hsub [Hcr Hfr Hf Hr]. cbn [a_free a_refs a_hash] in *.
  assert (∀ b, b ≠ 0 → occ b rs' = occ b rs) as Hocc.
  { intros b Hb. by rewrite <-(occ_real b rs' Hb), <-(occ_real b rs Hb), Hperm. }
  split; cbn [a_free a_refs a_hash].
  - eapply core_rep_ext; [|done]. intros b Hb. apply Hocc. lia.
  - done.
  - intros b. rewrite Hf. split; intros [Hb Hn]; (split; [done|]); apply occ_0; apply occ_0 in Hn;
      rewrite Hocc in * by lia; done.
  - intros b Hb. destruct (Hsub b Hb) as [->|Hb']; [|by apply Hr].
    pose proof (cr_pos _ _ _ Hcr). lia.
Qed.

Lemma own_rep_perm p os os' l h : os ≡ₚ os' → own_rep p os l h → own_rep p os' l h.
Proof.
  intros Hperm [Hp Hn Hf]. split.
  - eapply pool_rep_refs_perm; [|exact Hp]. by rewrite Hperm.
  - intros o Ho. apply Hn. by rewrite Hperm.
  - intros He o b Ho Hb. rewrite <-Hperm. apply (Hf He o b); [by rewrite Hperm|done].
Qed.

(** An owner's blocks can be regrouped: split between two owners, the null
    blocks dropped or added, as long as nothing counts as not offered that was
    offered before. *)
Lemma own_rep_split p cur n a na b nb R l h :
  real cur ≡ₚ real a ++ real b →
  (enable_caching p = true → ∀ x, x ∈ unc (a, na) ∨ x ∈ unc (b, nb) → x ∈ unc (cur, n)) →
  own_rep p ((cur, n) :: R) l h → own_rep p ((a, na) :: (b, nb) :: R) l h.
Proof.
  intros Hperm Hunc [Hp Hn Hf].
  assert (real (refs ((cur, n) :: R)) ≡ₚ real (refs ((a, na) :: (b, nb) :: R))) as Hreal.
  { rewrite !refs_cons. simpl. rewrite !real_app, Hperm. by rewrite app_assoc. }
  pose proof (Hn (cur, n) ltac:(left)) as Hnd. simpl in Hnd. rewrite Hperm in Hnd.
  apply NoDup_app in Hnd as (Hna & _ & Hnb).
  split.
  - eapply pool_rep_refs_real; [exact Hreal| |exact Hp].
    intros x. rewrite !refs_cons. simpl. destruct (decide (x = 0)); [by left|right].
    assert (x ∈ real (refs ((a, na) :: (b, nb) :: R))) as Hx by by apply elem_of_real.
    rewrite <-Hreal in Hx. by apply elem_of_real in Hx as [_ ?].
  - intros o [->|[->|Ho]%elem_of_cons]%elem_of_cons; simpl; [done..|]. apply Hn. by right.
  - intros He o x Ho Hx. assert (x ≠ 0) as Hx0 by by apply elem_of_real in Hx as [? _].
    assert (∃ o', o' ∈ (cur, n) :: R ∧ x ∈ unc o') as (o' & Ho' & Hx').
    { apply elem_of_cons in Ho as [->|[->|Ho]%elem_of_cons].
      - exists (cur, n). split; [left|]. apply (Hunc He). by left.
      - exists (cur, n). split; [left|]. apply (Hunc He). by right.
      - exists o. split; [by right|done]. }
    destruct (Hf He o' x Ho' Hx') as [? Hle]. split; [done|].
    by rewrite <-(occ_real x), <-Hreal, occ_real.
Qed.

Lemma unc_nil n : unc ([], n) = [].
Proof. unfold unc. simpl. by rewrite drop_nil. Qed.
Lemma unc_all (l : list loc) n : len l ≤ n → unc (l, n) = [].
Proof. intros. unfold unc. simpl. rewrite drop_ge; [done|]. unfold len in *. lia. Qed.
Lemma unc_subseteq o : unc o ⊆ real o.1.
Proof.
  intros x [? Hx]%elem_of_real. apply elem_of_real. split; [done|]. by eapply subseteq_drop.
Qed.
Lemma elem_of_unc b l n :
  b ∈ unc (l, n) ↔ b ≠ 0 ∧ ∃ i, (Z.to_nat n ≤ i)%nat ∧ l !! i = Some b.
Proof.
  unfold unc. rewrite elem_of_real, list_elem_of_lookup. simpl. setoid_rewrite lookup_drop.
  split; intros [? [i Hi]]; (split; [done|]).
  - exists (Z.to_nat n + i)%nat. split; [lia|done].
  - exists (i - Z.to_nat n)%nat. replace (Z.to_nat n + (i - Z.to_nat n))%nat with i by lia. tauto.
Qed.

(** Empty owners come and go. *)
Lemma own_rep_nil p n R l h : own_rep p (([], n) :: R) l h ↔ own_rep p R l h.
Proof.
  split; intros [Hp Hn Hf]; split; try done.
  - intros o Ho. apply Hn. by right.
  - intros He o b Ho Hb. apply (Hf He o b); [by right|done].
  - intros o [->|Ho]%elem_of_cons; [constructor|by apply Hn].
  - intros He o b [->|Ho]%elem_of_cons Hb; [by rewrite unc_nil in Hb; apply elem_of_nil in Hb|].
    by apply (Hf He o b).
Qed.

(** A regrouping within one owner. *)
Lemma own_rep_change p cur n cur' n' R l h :
  real cur ≡ₚ real cur' →
  (enable_caching p = true → ∀ x, x ∈ unc (cur', n') → x ∈ unc (cur, n)) →
  own_rep p ((cur, n) :: R) l h → own_rep p ((cur', n') :: R) l h.
Proof.
  intros Hperm Hunc Hrep.
  apply (own_rep_split _ _ _ cur' n' [] 0) in Hrep.
  - apply (own_rep_nil p 0). eapply own_rep_perm; [apply Permutation_swap|exact Hrep].
  - by rewrite app_nil_r.
  - rewrite unc_nil. intros He x [?|?%elem_of_nil]; [auto|done].
Qed.

Lemma own_rep_range p os l h o b :
  own_rep p os l h → o ∈ os → b ∈ o.1 → 0 ≤ b < num_gpu_blocks p.
Proof.
  intros [Hp _ _] Ho Hb. apply (pr_refs _ _ Hp). simpl. apply elem_of_refs. eauto.
Qed.

Lemma own_rep_not_free p os l h o b :
  own_rep p os l h → o ∈ os → b ∈ o.1 → b ∉ l.
Proof.
  intros [Hp _ _] Ho Hb Hl. apply (pr_free _ _ Hp) in Hl as [_ Hl]. apply Hl. simpl.
  apply elem_of_refs. eauto.
Qed.

(** ** The pool's operations on owners *)

Section operations.
Context `{HashEnv}.

Lemma own_get p cur n R l h k :
  own_rep p ((cur, n) :: R) l h → 0 ≤ k ≤ len l →
  ok (get_new_blocks k) p (λ bs p',
    bs = take (Z.to_nat k) l ∧
    own_rep p' ((cur ++ bs, n) :: R) (drop (Z.to_nat k) l) (unhash bs h) ∧
    evolves p h p' (unhash bs h)).
Proof.
  intros Hrep Hk. pose proof Hrep as [Hp Hn Hf].
  eapply ok_mono; [by apply (get_new_blocks_ok p _ k Hp)|].
  intros bs p' (-> & Hp' & Hev). unfold a_get in Hp', Hev. cbn [a_free a_refs a_hash] in *.
  set (bs := take (Z.to_nat k) l) in *. split_and!; [done| |done].
  assert (∀ b, b ∈ bs → 0 < b ∧ b ∉ refs ((cur, n) :: R)) as Hbs.
  { intros b Hb%subseteq_take. apply (pr_free _ _ Hp) in Hb as [? ?]. split; [lia|done]. }
  assert (NoDup bs) as Hnd.
  { apply (sublist_NoDup bs l); [|apply sublist_take]. by apply (pool_free_NoDup _ _ Hp). }
  assert (bs ++ refs ((cur, n) :: R) ≡ₚ refs ((cur ++ bs, n) :: R)) as Hperm.
  { rewrite !refs_cons. simpl. rewrite !app_assoc. by rewrite (Permutation_app_comm bs cur). }
  split.
  - eapply pool_rep_refs_perm; [exact Hperm|exact Hp'].
  - intros o [->|Ho]%elem_of_cons; [|apply Hn; by right]. simpl. rewrite real_app.
    apply NoDup_app. split_and!; [apply (Hn (cur, n)); left| |by apply NoDup_filter].
    intros x [_ Hx]%elem_of_real [_ Hx']%elem_of_real. destruct (Hbs x Hx') as [_ Hx2].
    apply Hx2. rewrite refs_cons. simpl. set_solver.
  - intros He o b Ho Hb. rewrite <-Hperm, occ_app.
    assert (enable_caching p = true) as He' by by rewrite <-(proj1 (proj2 (proj1 Hev))).
    destruct (decide (b ∈ bs)) as [Hin|Hin].
    + rewrite lookup_unhash_in by done. split; [done|].
      rewrite (occ_NoDup_elem b bs) by done. destruct (Hbs b Hin) as [_ Hn0%occ_0]. lia.
    + rewrite lookup_unhash_out by done. rewrite (proj2 (occ_0 b bs)) by done.
      assert (∃ o', o' ∈ (cur, n) :: R ∧ b ∈ unc o') as (o' & Ho' & Hb').
      { apply elem_of_cons in Ho as [->|Ho]; [|exists o; split; [by right|done]].
        exists (cur, n). split; [left|]. unfold unc in *. simpl in *.
        rewrite drop_app, real_app in Hb. apply elem_of_app in Hb as [Hb|Hb]; [done|].
        apply elem_of_real in Hb as [_ Hb]. by apply subseteq_drop in Hb. }
      destruct (Hf He' o' b Ho' Hb'). split; [done|lia].
Qed.

(** A new owner of blocks that nobody is about to offer to the cache. *)
Lemma own_touch p R l h pad bs :
  own_rep p R l h → NoDup (real bs) → (∀ b, b ∈ bs → 0 ≤ b < num_gpu_blocks p) →
  (enable_caching p = true → ∀ o b, o ∈ R → b ∈ unc o → b ∉ bs) →
  ok (touch bs) p (λ _ p',
    own_rep p' ((replicate pad 0 ++ bs, len (replicate pad 0 ++ bs)) :: R)
      (filter (λ b, b ∉ bs) l) h ∧ evolves p h p' h).
Proof.
  intros [Hp Hn Hf] Hnd Hr Hun. eapply ok_mono; [by apply (touch_ok p _ bs Hp)|].
  intros _ p' [Hp' Hev]. unfold a_touch in Hp'. cbn [a_free a_refs a_hash] in *. split; [|done].
  split.
  - eapply pool_rep_refs_real; [| |exact Hp'].
    + rewrite refs_cons. simpl. by rewrite !real_app, real_replicate.
    + intros b. rewrite refs_cons. simpl. rewrite !elem_of_app.
      intros [[Hb|?]|?]; [|tauto..]. left. by apply elem_of_replicate in Hb as [-> _].
  - intros o [->|Ho]%elem_of_cons; [|by apply Hn]. simpl. by rewrite real_app, real_replicate.
  - intros He o b Ho Hb.
    assert (enable_caching p = true) as He' by by rewrite <-(proj1 (proj2 (proj1 Hev))).
    apply elem_of_cons in Ho as [->|Ho].
    { rewrite unc_all in Hb by done. by apply elem_of_nil in Hb. }
    destruct (Hf He' o b Ho Hb) as [? Hle]. split; [done|].
    rewrite refs_cons. cbn [fst]. rewrite !occ_app.
    rewrite (proj2 (occ_0 b bs)) by by eapply Hun.
    rewrite (proj2 (occ_0 b (replicate pad 0))); [lia|].
    intros [-> _]%elem_of_replicate. by apply elem_of_real in Hb as [? _].
Qed.

(** Releasing everything an owner has, in any order. *)
Lemma own_free p cur n R l h bs prepend :
  own_rep p ((cur, n) :: R) l h → bs ≡ₚ cur →
  ok (free_blocks bs prepend) p (λ _ p',
    own_rep p' R (a_free (a_release bs prepend l (refs R) h)) h ∧ evolves p h p' h).
Proof.
  intros [Hp Hn Hf] Hperm.
  assert (pool_rep p (MkAPool l (bs ++ refs R) h)) as Hp1.
  { eapply pool_rep_refs_perm; [|exact Hp]. rewrite refs_cons. simpl. by rewrite Hperm. }
  eapply ok_mono; [apply (free_blocks_ok p l (refs R) h bs prepend Hp1)|].
  { unfold freed_of. pose proof (Hn (cur, n) ltac:(left)) as Hnd. simpl in Hnd.
    rewrite <-Hperm in Hnd. unfold real in Hnd.
    assert (filter (λ b, b ≠ 0 ∧ b ∉ refs R) bs = filter (λ b, b ∉ refs R) (real bs)) as ->.
    { unfold real. rewrite list_filter_filter. apply list_filter_iff. tauto. }
    by apply NoDup_filter. }
  intros _ p' [Hp' Hev]. split; [|done]. split; [done| |].
  - intros o Ho. apply Hn. by right.
  - intros He o b Ho Hb.
    assert (enable_caching p = true) as He' by by rewrite <-(proj1 (proj2 (proj1 Hev))).
    destruct (Hf He' o b ltac:(by right) Hb) as [? Hle]. split; [done|].
    rewrite refs_cons, occ_app in Hle. pose proof (occ_nonneg b cur). simpl in Hle. lia.
Qed.

(** Losing hashes keeps everything. *)
Lemma own_rep_unhash p p' os l h h' :
  own_rep p os l h → pool_rep p' (MkAPool l (refs os) h') → same_config p p' → h' ⊆ h →
  own_rep p' os l h'.
Proof.
  intros [Hp Hn Hf] Hp' Hc Hsub. split; [done..|]. intros He o b Ho Hb.
  rewrite (proj1 (proj2 Hc)) in He. destruct (Hf He o b Ho Hb) as [Hh ?]. split; [|done].
  destruct (h' !! b) eqn:Hb'; [|done]. eapply lookup_weaken in Hb'; [|done]. congruence.
Qed.

Lemma real_lookup_inj l i j b :
  NoDup (real l) → b ≠ 0 → l !! i = Some b → l !! j = Some b → i = j.
Proof.
  revert i j. induction l as [|x l IH]; intros i j Hnd Hb; [done|].
  assert (NoDup (real l) ∧ (x = b → b ∉ l)) as [Hnd' Hx].
  { unfold real in *. rewrite filter_cons in Hnd. case_decide as Hd.
    - apply NoDup_cons in Hnd as [Hn ?]. split; [done|]. intros -> Hin. apply Hn.
      apply list_elem_of_filter. done.
    - split; [done|]. intros ->. by destruct Hd. }
  destruct i as [|i], j as [|j]; simpl; intros Hi Hj; [done|..].
  - injection Hi as ->. exfalso. apply Hx; [done|]. by apply (list_elem_of_lookup_2 _ _ _ Hj).
  - injection Hj as ->. exfalso. apply Hx; [done|]. by apply (list_elem_of_lookup_2 _ _ _ Hi).
  - f_equal. by apply IH.
Qed.

Lemma new_entries_NoDup hs scale cur nc nf mask :
  0 ≤ nc ≤ nf → NoDup (real cur) → NoDup (new_entries hs scale cur nc nf mask).*1.
Proof.
  intros Hn Hnd. unfold new_entries, to_store. rewrite <-list_fmap_compose.
  apply NoDup_fmap_2_strong.
  - intros [i b] [j b'] [[Hb _] Hi]%list_elem_of_filter [_ Hj]%list_elem_of_filter. simpl.
    intros <-. simpl in Hb. apply elem_of_zip_range in Hi as [Hi0 Hi], Hj as [Hj0 Hj].
    rewrite lookup_slice in Hi, Hj by done. repeat case_decide; [|done..].
    pose proof (real_lookup_inj _ _ _ _ Hnd Hb Hi Hj). f_equal. lia.
  - apply NoDup_filter. apply (NoDup_fmap_1 fst). rewrite fst_zip; [apply NoDup_range|].
    rewrite length_range. unfold len. lia.
Qed.

Lemma own_cache p cur n nf R l h r bsz g mask :
  let scale := bsz / BlockPool.hash_block_size p in
  let h' := file_hashes g (new_entries (Request.block_hashes r) scale cur n nf mask) h in
  own_rep p ((cur, n) :: R) l h → enable_caching p = true → 0 ≤ g < 2 ^ 32 →
  0 ≤ n < nf → nf ≤ len cur → 0 < BlockPool.hash_block_size p → 0 < bsz →
  bsz mod BlockPool.hash_block_size p = 0 → nf * scale ≤ len (Request.block_hashes r) →
  (∀ m, mask = Some m → len m = nf - n) →
  ok (cache_full_blocks r cur n nf bsz g mask) p (λ _ p',
    own_rep p' ((cur, nf) :: R) l h' ∧ evolves p h p' h').
Proof.
  intros scale h' [Hp Hn Hf] He Hg Hnf Hlen Hhbs Hbsz Hmod Hhs Hm.
  pose proof (Hn (cur, n) ltac:(left)) as Hnd. simpl in Hnd.
  set (new := new_entries (Request.block_hashes r) scale cur n nf mask) in *.
  assert (∀ b, b ∈ new.*1 → b ≠ 0 ∧ ∃ i, n ≤ i < nf ∧ cur !! Z.to_nat i = Some b) as Hnew.
  { intros b ([b' k] & -> & Hin)%list_elem_of_fmap.
    apply elem_of_new_entries in Hin as (i & ? & ? & ? & _); [|lia]. eauto. }
  assert (∀ b, b ∈ new.*1 → b ∈ unc (cur, n)) as Hunc.
  { intros b (Hb & i & Hi & Hl)%Hnew. apply elem_of_unc. split; [done|].
    exists (Z.to_nat i). split; [lia|done]. }
  eapply ok_mono; [apply (cache_full_blocks_ok p _ r cur n nf bsz g mask Hp); try done|].
  - intros b Hb. apply (pr_refs _ _ Hp). simpl. rewrite refs_cons. simpl. set_solver.
  - apply new_entries_NoDup; [lia|done].
  - intros b Hb. apply (Hf He (cur, n)); [left|by apply Hunc].
  - intros _ p' [Hp' Hev]. cbn [a_free a_refs a_hash] in Hp', Hev. split; [|done]. split.
    + exact Hp'.
    + intros o [->|Ho]%elem_of_cons; [done|]. apply Hn. by right.
    + intros _ o b Ho Hb. change (refs ((cur, nf) :: R)) with (refs ((cur, n) :: R)).
      assert (∃ o', o' ∈ (cur, n) :: R ∧ b ∈ unc o' ∧ b ∉ new.*1) as (o' & Ho' & Hb' & Hout).
      { apply elem_of_cons in Ho as [->|Ho].
        - apply elem_of_unc in Hb as (Hb0 & j & Hj & Hl). exists (cur, n). split_and!; [left| |].
          + apply elem_of_unc. split; [done|]. exists j. split; [lia|done].
          + intros (_ & i & Hi & Hl')%Hnew.
            pose proof (real_lookup_inj _ _ _ _ Hnd Hb0 Hl Hl'). lia.
        - exists o. split_and!; [by right|done|]. intros Hin%Hunc.
          destruct (Hf He (cur, n) b ltac:(left) Hin) as [_ Hle].
          rewrite refs_cons, occ_app in Hle. cbn [fst] in Hle.
          assert (0 < occ b cur). { apply occ_pos. apply unc_subseteq, elem_of_real in Hin. tauto. }
          assert (0 < occ b (refs R)). { apply occ_pos, elem_of_refs. exists o. split; [done|].
            apply unc_subseteq, elem_of_real in Hb. tauto. }
          lia. }
      destruct (Hf He o' b Ho' Hb'). split; [|done]. unfold h'.
      rewrite file_hashes_out; [done|exact Hout].
Qed.
End operations.
