(* ===== verification/SingleTypeProps.v ===== *)
(** * What the single-type managers guarantee

    Every operation of a manager keeps the ownership invariant of [Ownership]
    for its own requests and for everybody else's references, and does to its
    request exactly what the lemma says.  The predictor
    [get_num_blocks_to_allocate] is enough: when the pool has as many free
    blocks as it says, the allocation that follows does not raise. *)

From S2P Require Import Prelude FreeQueue BlockHash Request BlockPool KVCacheSpec SingleType Ownership.

(** ** A manager's requests as owners *)

Definition entry_owner (nc : gmap string Z) (e : string * list loc) : owner :=
  (e.2, default 0 (nc !! e.1)).
Definition mgr_owners (m : Manager) : list owner :=
  entry_owner (num_cached_block m) <$> map_to_list (req_to_blocks m).
(** The owners other than [rid]. *)
Definition rest (rid : string) (m : Manager) : list owner :=
  entry_owner (num_cached_block m) <$> map_to_list (delete rid (req_to_blocks m)).

(** The attributes the operations never assign. *)
Definition same_static (m m' : Manager) : Prop :=
  cls m' = cls m ∧ kv_cache_spec m' = kv_cache_spec m ∧
  scheduler_block_size m' = scheduler_block_size m ∧ block_size m' = block_size m ∧
  mgr_enable_caching m' = mgr_enable_caching m ∧ max_admission m' = max_admission m ∧
  kv_cache_group_id m' = kv_cache_group_id m ∧ mgr_null_block m' = mgr_null_block m ∧
  use_eagle m' = use_eagle m.

#[export] Instance same_static_preorder : PreOrder same_static.
Proof.
  split; [done|]. intros m1 m2 m3 H1 H2. unfold same_static in *. naive_solver congruence.
Qed.

(** [m'] differs from [m] for the request [rid] only. *)
Definition only_changes (rid : string) (m m' : Manager) : Prop :=
  delete rid (req_to_blocks m') = delete rid (req_to_blocks m) ∧
  delete rid (num_cached_block m') = delete rid (num_cached_block m) ∧
  same_static m m'.

#[export] Instance only_changes_preorder rid : PreOrder (only_changes rid).
Proof.
  split; [by intros m; split_and!|]. intros m1 m2 m3 (A1 & B1 & C1) (A2 & B2 & C2).
  split_and!; [congruence..|by etransitivity].
Qed.

(** The configuration of a manager on its pool. *)
Record mgr_static (p : BlockPool) (m : Manager) : Prop := {
  st_bs : 0 < block_size m;
  st_null : mgr_null_block m = 0;
  st_group : 0 ≤ kv_cache_group_id m < 2 ^ 32;
  st_caching : mgr_enable_caching m = enable_caching p;
  st_hash : enable_caching p = true →
    0 < BlockPool.hash_block_size p ∧ block_size m mod BlockPool.hash_block_size p = 0
}.

Record mgr_rep (s : mstate) (R : list owner) (l : list loc) (h : gmap Z bytes) : Prop := {
  mg_own : own_rep (ms_pool s) (mgr_owners (ms_mgr s) ++ R) l h;
  mg_static : mgr_static (ms_pool s) (ms_mgr s);
  mg_cached : ∀ rid n, num_cached_block (ms_mgr s) !! rid = Some n → 0 ≤ n
}.

Lemma mgr_static_keep p p' m m' :
  mgr_static p m → same_config p p' → same_static m m' → mgr_static p' m'.
Proof.
  intros [] (C1 & C2 & C3 & C4 & C5 & C6) (S1 & S2 & S3 & S4 & S5 & S6 & S7 & S8 & S9).
  split; rewrite ?C2, ?C3, ?S4, ?S5, ?S7, ?S8; done.
Qed.

Lemma entry_owners_ext (nc nc' : gmap string Z) (es : list (string * list loc)) :
  (∀ e, e ∈ es → nc' !! e.1 = nc !! e.1) →
  entry_owner nc' <$> es = entry_owner nc <$> es.
Proof.
  intros Heq. apply list_fmap_ext. intros i e He.
  unfold entry_owner. rewrite Heq; [done|]. by apply (list_elem_of_lookup_2 _ _ _ He).
Qed.

Lemma rest_only_changes rid m m' : only_changes rid m m' → rest rid m' = rest rid m.
Proof.
  intros (Hb & Hc & _). unfold rest. rewrite Hb. apply entry_owners_ext.
  intros [r bs] Hin%elem_of_map_to_list. simpl.
  assert (r ≠ rid) as Hne by (intros ->; by rewrite lookup_delete_eq in Hin).
  rewrite <-(lookup_delete_ne (num_cached_block m') rid r) by done.
  by rewrite Hc, lookup_delete_ne.
Qed.

(** The owners seen from one request. *)
Lemma owners_focus rid p m R l h :
  own_rep p (mgr_owners m ++ R) l h ↔
  own_rep p ((blocks_at rid m, cached_at rid m) :: rest rid m ++ R) l h.
Proof.
  unfold mgr_owners, rest, blocks_at, cached_at.
  destruct (req_to_blocks m !! rid) as [bs|] eqn:Hb; simpl.
  - assert (entry_owner (num_cached_block m) <$> map_to_list (req_to_blocks m) ≡ₚ
      (bs, default 0 (num_cached_block m !! rid)) ::
      (entry_owner (num_cached_block m) <$> map_to_list (delete rid (req_to_blocks m)))) as Hperm.
    { rewrite <-(insert_delete_id _ _ _ Hb) at 1.
      rewrite map_to_list_insert by apply lookup_delete_eq. done. }
    split; apply own_rep_perm; by rewrite Hperm.
  - rewrite delete_id by done. symmetry. apply own_rep_nil.
Qed.

Lemma rest_delete rid m m' :
  req_to_blocks m' = delete rid (req_to_blocks m) → only_changes rid m m' →
  mgr_owners m' = rest rid m.
Proof.
  intros Hb Hoc. rewrite <-(rest_only_changes _ _ _ Hoc). unfold mgr_owners, rest.
  by rewrite Hb, delete_delete_eq.
Qed.

(** Re-establishing the representation after a change to one request. *)
Lemma mgr_rep_refocus rid s R l h p' m' l' h' :
  mgr_rep s R l h → same_config (ms_pool s) p' → only_changes rid (ms_mgr s) m' →
  (∀ n, num_cached_block m' !! rid = Some n → 0 ≤ n) →
  own_rep p' ((blocks_at rid m', cached_at rid m') :: rest rid (ms_mgr s) ++ R) l' h' →
  mgr_rep (MkMS p' m') R l' h'.
Proof.
  intros [Ho Hs Hc] Hcfg Hoc Hn Hown. split; cbn [ms_pool ms_mgr].
  - apply (owners_focus rid). by rewrite (rest_only_changes _ _ _ Hoc).
  - eapply mgr_static_keep; [done..|]. apply Hoc.
  - intros r n Hr. destruct (decide (r = rid)) as [->|Hne]; [by apply Hn|].
    destruct Hoc as (_ & Hd & _). apply (Hc r n).
    rewrite <-(lookup_delete_ne _ rid r) by done. rewrite <-Hd. by rewrite lookup_delete_ne.
Qed.

(** ** Stepping through a manager's method *)

Lemma ok_onp {A} (m : M BlockPool A) s (Q : A → mstate → Prop) :
  ok m (ms_pool s) (λ a p, Q a (MkMS p (ms_mgr s))) → ok (onp m) s Q.
Proof. apply (ok_zoom ms_pool (λ p s, MkMS p (ms_mgr s))). Qed.
Lemma ok_getm {A} (f : Manager → A) s (Q : A → mstate → Prop) :
  Q (f (ms_mgr s)) s → ok (getm f) s Q.
Proof. done. Qed.
Lemma ok_modm f s (Q : unit → mstate → Prop) :
  Q tt (MkMS (ms_pool s) (f (ms_mgr s))) → ok (modm f) s Q.
Proof. done. Qed.
Lemma ok_put_blocks rid bs s (Q : unit → mstate → Prop) :
  Q tt (MkMS (ms_pool s) (set_req_to_blocks (<[rid := bs]> (req_to_blocks (ms_mgr s))) (ms_mgr s))) →
  ok (put_blocks rid bs) s Q.
Proof. done. Qed.
Lemma ok_put_cached rid n s (Q : unit → mstate → Prop) :
  Q tt (MkMS (ms_pool s) (set_num_cached_block (<[rid := n]> (num_cached_block (ms_mgr s))) (ms_mgr s))) →
  ok (put_cached rid n) s Q.
Proof. done. Qed.

Lemma bind_getm_eq {A B} (f : Manager → A) (k : A → M mstate B) s :
  bind (getm f) k s = k (f (ms_mgr s)) s.
Proof. done. Qed.
Lemma onp_eq {A} (m : M BlockPool A) s r p :
  m (ms_pool s) = (r, p) → onp m s = (r, MkMS p (ms_mgr s)).
Proof. unfold onp, zoom. by intros ->. Qed.

Ltac mgr_step :=
  match goal with
  | |- ok (bind _ _) _ _ => apply ok_bind
  | |- ok (ret _) _ _ => apply ok_ret
  | |- ok (getm _) _ _ => apply ok_getm
  | |- ok (gets _) _ _ => apply ok_gets
  | |- ok (modm _) _ _ => apply ok_modm
  | |- ok (put_blocks _ _) _ _ => apply ok_put_blocks
  | |- ok (put_cached _ _) _ _ => apply ok_put_cached
  | |- ok (req_blocks _) _ _ => unfold req_blocks; apply ok_bind, ok_getm, ok_bind, ok_put_blocks, ok_ret
  | |- ok (pop_blocks _) _ _ => unfold pop_blocks; apply ok_bind, ok_getm, ok_bind, ok_modm, ok_ret
  | |- ok (pop_cached _) _ _ => unfold pop_cached; apply ok_modm
  end; cbn beta.
Ltac mgr_steps := repeat mgr_step.

(** The tables of an updated manager. *)
Ltac tables :=
  unfold blocks_at, cached_at;
  cbn [req_to_blocks num_cached_block set_req_to_blocks set_num_cached_block set_tables
       set_new_block_ids set_mamba ms_mgr ms_pool];
  rewrite ?lookup_insert_eq, ?lookup_delete_eq.

Lemma only_changes_tables rid m bl nc :
  delete rid bl = delete rid (req_to_blocks m) →
  delete rid nc = delete rid (num_cached_block m) →
  only_changes rid m (set_tables bl nc m).
Proof. intros. by split_and!. Qed.

(** Closes [only_changes] goals of managers built with the setters. *)
Ltac only_changes :=
  split_and!;
  cbn [req_to_blocks num_cached_block set_req_to_blocks set_num_cached_block set_tables
       set_new_block_ids set_mamba ms_mgr];
  rewrite ?delete_insert_eq, ?delete_delete_eq; done.

Section managers.
Context `{HashEnv}.

(** [req_to_blocks[rid]] creates an empty entry; nothing depends on it. *)
Lemma touch_entry_only_changes rid m :
  only_changes rid m (set_req_to_blocks (<[rid := blocks_at rid m]> (req_to_blocks m)) m).
Proof. only_changes. Qed.

(** *** [allocate_new_blocks] *)

Lemma read_ids_ok p os l h bs :
  own_rep p os l h → (∀ b, b ∈ bs → 0 ≤ b < num_gpu_blocks p) →
  map_each (λ b, let* blk := onq (read b) in ret (block_id blk)) bs p = (Ok bs, p).
Proof.
  intros [Hp _ _] Hbs. rewrite (map_each_pure _ id); [by rewrite list_fmap_id|].
  intros b Hb. destruct (onq_read_eq _ _ _ b (pr_core _ _ Hp) (Hbs b Hb)) as (blk & Hrd & Hid & _).
  unfold bind. rewrite Hrd. by rewrite Hid.
Qed.

Lemma record_new_ids_ok s os l h bs :
  own_rep (ms_pool s) os l h → (∀ b, b ∈ bs → 0 ≤ b < num_gpu_blocks (ms_pool s)) →
  ok (record_new_ids bs) s (λ _ s', ∃ ids, s' = MkMS (ms_pool s) (set_new_block_ids ids (ms_mgr s))
    ∧ ids = new_block_ids (ms_mgr s)
            ++ (if needs_zeroing_ids (kv_cache_spec (ms_mgr s)) then bs else [])).
Proof.
  intros Hown Hbs. unfold record_new_ids. mgr_steps. case_match.
  - mgr_step. apply ok_onp. eapply ok_eq; [by eapply read_ids_ok|]. mgr_steps.
    eexists. split; [by destruct s|done].
  - mgr_steps. eexists. split; [|done]. rewrite app_nil_r. by destruct s as [? []].
Qed.

(** What [rid] gets: [new] blocks from the front of the free list. *)
Record extends (rid : string) (s : mstate) (R : list owner) (l : list loc) (h : gmap Z bytes)
    (new : list loc) (s' : mstate) : Prop := {
  ex_rep : mgr_rep s' R (drop (length new) l) (unhash new h);
  ex_new : new = take (length new) l;
  ex_evolves : evolves (ms_pool s) h (ms_pool s') (unhash new h);
  ex_only : only_changes rid (ms_mgr s) (ms_mgr s');
  ex_blocks : blocks_at rid (ms_mgr s') = blocks_at rid (ms_mgr s) ++ new;
  ex_cached : num_cached_block (ms_mgr s') = num_cached_block (ms_mgr s)
}.

Lemma base_allocate_new_blocks_ok s R l h rid nt :
  mgr_rep s R l h →
  cdiv nt (block_size (ms_mgr s)) - len (blocks_at rid (ms_mgr s)) ≤ len l →
  ok (base_allocate_new_blocks rid nt) s (λ new s',
    len new = Z.max 0 (cdiv nt (block_size (ms_mgr s)) - len (blocks_at rid (ms_mgr s))) ∧
    extends rid s R l h new s').
Proof.
  intros Hrep Hneed. pose proof Hrep as [Hown Hst Hc].
  set (m := ms_mgr s) in *. set (cur := blocks_at rid m) in *.
  unfold base_allocate_new_blocks. mgr_steps. cbn [ms_mgr ms_pool block_size set_req_to_blocks set_tables].
  fold m. fold cur. set (k := cdiv nt (block_size m) - len cur) in *.
  pose proof (proj1 (owners_focus rid _ _ _ _ _) Hown) as Hfoc. fold m cur in Hfoc.
  destruct (Z.leb_spec k 0) as [Hk|Hk]; mgr_steps.
  - split; [rewrite len_nil; lia|]. split; try done.
    + eapply mgr_rep_refocus; [exact Hrep|done|apply touch_entry_only_changes| |].
      * intros n Hn. by apply (Hc rid).
      * tables. exact Hfoc.
    + apply touch_entry_only_changes.
    + tables. simpl. by rewrite app_nil_r.
  - apply ok_onp. cbn [ms_pool].
    eapply ok_mono; [apply (own_get _ _ _ _ _ _ k Hfoc); lia|].
    intros bs p' (Hbs & Hown' & Hev). mgr_steps. cbn [ms_pool ms_mgr].
    assert (length bs = Z.to_nat k) as Hlen.
    { rewrite Hbs, length_take. unfold len in *. lia. }
    eapply ok_mono; [eapply record_new_ids_ok; [exact Hown'|]|].
    { intros b Hb. eapply own_rep_range; [exact Hown'|left|]. simpl. set_solver. }
    intros _ s' (ids & -> & _). mgr_steps. split; [unfold len; lia|].
    assert (only_changes rid m (set_new_block_ids ids (set_req_to_blocks (<[rid:=cur ++ bs]>
      (<[rid:=cur]> (req_to_blocks m))) (set_req_to_blocks (<[rid:=cur]> (req_to_blocks m)) m)))) as Hoc
      by only_changes.
    split; cbn [ms_pool ms_mgr]; try done.
    + rewrite Hlen. eapply mgr_rep_refocus; [exact Hrep|apply Hev|exact Hoc| |].
      * intros n Hn. by apply (Hc rid).
      * tables. exact Hown'.
    + by rewrite Hlen.
    + tables. done.
Qed.

(** *** [allocate_new_computed_blocks] *)

(** The computed blocks inside the attention window, and the external tokens
    that still need blocks. *)
Definition kept_computed (m : Manager) (nb : list loc) (total : Z) : list loc :=
  let sk := get_num_skipped_tokens m total / block_size m in
  if 0 <? sk then slice_from nb sk else nb.
Definition kept_external (m : Manager) (total ext : Z) : Z :=
  if 0 <? get_num_skipped_tokens m total / block_size m
  then Z.min (total - get_num_skipped_tokens m total) ext else ext.
Definition padding (m : Manager) (total : Z) : list loc :=
  replicate (Z.to_nat (get_num_skipped_tokens m total / block_size m)) 0.

(** Blocks that a cache lookup may return: real ones are hashed and appear
    once. *)
Record lookup_result (p : BlockPool) (h : gmap Z bytes) (nb : list loc) : Prop := {
  lr_range : ∀ b, b ∈ nb → 0 ≤ b < num_gpu_blocks p;
  lr_nodup : NoDup (real nb);
  lr_hashed : ∀ b, b ∈ nb → b ≠ 0 → h !! b ≠ None;
  lr_caching : enable_caching p = false → nb = []
}.

Lemma kept_computed_suffix m nb total : kept_computed m nb total `suffix_of` nb.
Proof.
  unfold kept_computed. destruct (Z.ltb_spec 0 (get_num_skipped_tokens m total / block_size m)); [|done].
  rewrite slice_from_nonneg by lia. apply suffix_drop.
Qed.

Lemma lookup_result_suffix p h nb nb' :
  nb' `suffix_of` nb → lookup_result p h nb → lookup_result p h nb'.
Proof.
  intros [k ->] [Hr Hnd Hh Hc]. split.
  - intros b Hb. apply Hr. set_solver.
  - rewrite real_app in Hnd. by apply NoDup_app in Hnd as (_ & _ & ?).
  - intros b Hb. apply Hh. set_solver.
  - intros He. apply Hc in He. by apply app_eq_nil in He as [_ ->].
Qed.

(** What [rid] gets: padding, the kept cache hits and new blocks for the
    external tokens. *)
Record extends_computed (rid : string) (s : mstate) (R : list owner) (l : list loc)
    (h : gmap Z bytes) (pad nb new : list loc) (s' : mstate) : Prop := {
  ec_rep : mgr_rep s' R (drop (length new) (filter (λ b, b ∉ nb) l)) (unhash new h);
  ec_new : new = take (length new) (filter (λ b, b ∉ nb) l);
  ec_evolves : evolves (ms_pool s) h (ms_pool s') (unhash new h);
  ec_only : only_changes rid (ms_mgr s) (ms_mgr s');
  ec_blocks : blocks_at rid (ms_mgr s') = pad ++ nb ++ new;
  ec_cached : num_cached_block (ms_mgr s') = <[rid := len (pad ++ nb)]> (num_cached_block (ms_mgr s))
}.

Lemma touch_computed_ok s R l h rid nb pad :
  mgr_rep s R l h → blocks_at rid (ms_mgr s) = [] → lookup_result (ms_pool s) h nb →
  ok (if mgr_enable_caching (ms_mgr s) then onp (touch nb)
      else assert_ (bool_decide (nb = []))) s (λ _ s',
    own_rep (ms_pool s') ((replicate pad 0 ++ nb, len (replicate pad 0 ++ nb)) :: rest rid (ms_mgr s) ++ R)
      (filter (λ b, b ∉ nb) l) h ∧
    evolves (ms_pool s) h (ms_pool s') h ∧ ms_mgr s' = ms_mgr s).
Proof.
  intros [Hown Hst Hc] Hcur [Hr Hnd Hh Hcach]. rewrite (st_caching _ _ Hst).
  apply (owners_focus rid) in Hown. rewrite Hcur in Hown. apply (proj1 (own_rep_nil _ _ _ _ _)) in Hown.
  destruct (enable_caching (ms_pool s)) eqn:He.
  - apply ok_onp. eapply ok_mono; [apply (own_touch _ _ _ _ pad nb Hown Hnd Hr)|].
    + intros _ o b Ho Hb Hbn. destruct (ow_fresh _ _ _ _ Hown He o b Ho Hb) as [Hnone _].
      apply unc_subseteq, elem_of_real in Hb as [Hb0 _]. by apply (Hh b).
    + intros _ p' [Hown' Hev]. done.
  - rewrite (Hcach eq_refl). apply ok_assert; [done|]. split_and!; [|by apply evolves_same|done].
    rewrite app_nil_r. rewrite filter_id by (intros; apply not_elem_of_nil).
    apply (proj2 (own_rep_nil _ 0 _ _ _)) in Hown. eapply own_rep_change; [| |exact Hown].
    + by rewrite real_replicate.
    + intros _ x. by rewrite unc_all.
Qed.

Lemma base_allocate_new_computed_blocks_ok s R l h rid nb local ext :
  let m := ms_mgr s in
  let total := local + ext in
  let nb' := kept_computed m nb total in
  let pad := padding m total in
  let k := if 0 <? kept_external m total ext
           then cdiv total (block_size m) - len (pad ++ nb') else 0 in
  mgr_rep s R l h → num_cached_block m !! rid = None → blocks_at rid m = [] →
  lookup_result (ms_pool s) h nb → 0 ≤ k ≤ len (filter (λ b, b ∉ nb') l) →
  ok (base_allocate_new_computed_blocks rid nb local ext) s (λ _ s',
    ∃ new, len new = k ∧ extends_computed rid s R l h pad nb' new s').
Proof.
  intros m total nb' pad k Hrep Hnone Hcur Hlr Hk. pose proof Hrep as [Hown Hst Hc].
  unfold base_allocate_new_computed_blocks. mgr_steps. fold m. rewrite Hnone. mgr_steps.
  fold m. rewrite Hcur. apply ok_assert; [done|]. fold total.
  assert ((if 0 <? get_num_skipped_tokens m total / block_size m
           then (slice_from nb (get_num_skipped_tokens m total / block_size m),
                 Z.min (total - get_num_skipped_tokens m total) ext) else (nb, ext))
          = (nb', kept_external m total ext)) as ->.
  { unfold nb', kept_computed, kept_external. by case_match. }
  assert (mgr_null_block m = 0) as -> by apply Hst. cbn [app]. mgr_step.
  set (s1 := MkMS (ms_pool s) _).
  change (mgr_enable_caching m) with (mgr_enable_caching (ms_mgr s1)).
  assert (only_changes rid m (ms_mgr s1)) as Hoc1 by (unfold s1; only_changes).
  eapply ok_mono; [apply (touch_computed_ok s1 R l h rid nb'
    (Z.to_nat (get_num_skipped_tokens m total / block_size m)))|].
  - eapply mgr_rep_refocus; [exact Hrep|done|exact Hoc1| |].
    + intros n. tables. fold m. by rewrite Hnone.
    + tables. apply (owners_focus rid) in Hown. fold m in Hown. by rewrite Hcur in Hown.
  - unfold s1. tables. done.
  - eapply lookup_result_suffix; [apply kept_computed_suffix|exact Hlr].
  - intros _ [p2 m2] (Hown2 & Hev2 & Hm2). cbn [ms_pool ms_mgr] in Hown2, Hev2, Hm2. subst m2.
    rewrite (rest_only_changes _ _ _ Hoc1) in Hown2. fold (padding m total) in Hown2 |- *. fold pad in Hown2 |- *.
    subst s1. cbn [ms_pool ms_mgr] in Hev2, Hoc1 |- *. mgr_steps. cbn [ms_pool ms_mgr].
    destruct (Z.ltb_spec 0 (kept_external m total ext)) as [Hext|Hext]; unfold k in Hk |- *.
    + mgr_step. apply ok_onp. cbn [ms_pool].
      eapply ok_mono; [apply (own_get _ _ _ _ _ _ _ Hown2 Hk)|].
      intros new p3 (Hnew & Hown3 & Hev3). mgr_steps. cbn [ms_pool ms_mgr].
      assert (length new = Z.to_nat (cdiv total (block_size m) - len (pad ++ nb'))) as Hlen.
      { rewrite Hnew, length_take. unfold len in *. lia. }
      eapply ok_mono; [eapply record_new_ids_ok; [exact Hown3|]|].
      { intros b Hb. eapply own_rep_range; [exact Hown3|left|]. simpl. set_solver. }
      intros _ s' (ids & -> & _). exists new. split; [unfold len in *; lia|].
      match goal with |- extends_computed _ _ _ _ _ _ _ _ (MkMS ?p ?m') =>
        assert (only_changes rid m m') as Hoc by only_changes end.
      assert (evolves (ms_pool s) h p3 (unhash new h)) as Hev by by eapply evolves_trans.
      split; cbn [ms_pool ms_mgr]; try done.
      * rewrite Hlen. eapply mgr_rep_refocus; [exact Hrep|apply Hev|exact Hoc| |].
        -- intros n. tables. intros [= <-]. apply len_nonneg.
        -- tables. exact Hown3.
      * by rewrite Hlen.
      * tables. simpl. by rewrite <-app_assoc.
    + mgr_steps. exists []. split; [done|].
      match goal with |- extends_computed _ _ _ _ _ _ _ _ (MkMS ?p ?m') =>
        assert (only_changes rid m m') as Hoc by only_changes end.
      split; cbn [ms_pool ms_mgr length take drop]; try done.
      * eapply mgr_rep_refocus; [exact Hrep|apply Hev2|exact Hoc| |].
        -- intros n. tables. intros [= <-]. apply len_nonneg.
        -- tables. exact Hown2.
      * tables. simpl. by rewrite app_nil_r.
Qed.

(** *** The predictor *)

Lemma evictable_ok p os l h bs :
  own_rep p os l h → (∀ b, b ∈ bs → 0 ≤ b < num_gpu_blocks p) →
  get_num_evictable_blocks bs p = (Ok (len (filter (λ b, b ∈ l) bs)), p).
Proof.
  intros [Hp _ _] Hbs. unfold get_num_evictable_blocks, bind.
  rewrite (filter_each_pure _ (λ b, b ∈ l)); [done|]. intros b Hb.
  destruct (onq_read_eq _ _ _ b (pr_core _ _ Hp) (Hbs b Hb)) as (blk & Hrd & _ & Hn & _ & Hc).
  unfold is_evictable, bind. rewrite Hrd, Hn. unfold ret. do 2 f_equal.
  pose proof (pr_free _ _ Hp b) as Hfree. simpl in Hfree, Hc.
  destruct (Z.eqb_spec b 0) as [->|Hb0]; cbn [negb].
  - rewrite andb_false_r, bool_decide_eq_false_2; [done|]. intros ?%Hfree. lia.
  - rewrite Hc, andb_true_r by done. pose proof (Hbs b Hb).
    destruct (Z.eqb_spec (occ b (refs os)) 0) as [Ho|Ho].
    + rewrite bool_decide_eq_true_2; [done|]. apply Hfree. split; [lia|]. by apply occ_0.
    + rewrite bool_decide_eq_false_2; [done|]. intros [_ Hn']%Hfree. by apply Ho, occ_0.
Qed.

Lemma len_filter_out (l bs : list loc) :
  NoDup l → NoDup (real bs) → 0 ∉ l →
  len (filter (λ b, b ∉ bs) l) = len l - len (filter (λ b, b ∈ l) bs).
Proof.
  intros Hl Hbs H0.
  assert (len (filter (λ b, b ∈ l) bs) = len (filter (λ b, b ∈ bs) l)) as ->.
  { unfold len. f_equal. apply Permutation_length, NoDup_Permutation.
    - assert (filter (λ b, b ∈ l) bs = filter (λ b, b ∈ l) (real bs)) as ->.
      { unfold real. rewrite list_filter_filter. apply list_filter_iff. intros b.
        split; [|tauto]. intros Hb. split; [done|]. by intros ->. }
      by apply NoDup_filter.
    - by apply NoDup_filter.
    - intros b. rewrite !list_elem_of_filter. tauto. }
  clear. unfold len. induction l as [|x l IH]; [done|]. rewrite !filter_cons.
  destruct (decide (x ∈ bs)), (decide (x ∉ bs)); try done; simpl; lia.
Qed.

Lemma own_rep_free_list p os l h : own_rep p os l h → NoDup l ∧ 0 ∉ l.
Proof.
  intros [Hp _ _]. split; [by apply (pool_free_NoDup _ _ Hp)|].
  intros Hf. apply (pr_free _ _ Hp) in Hf. lia.
Qed.

Lemma free_after_touch p os l h nb :
  own_rep p os l h → NoDup (real nb) →
  len (filter (λ b, b ∉ nb) l) = len l - len (filter (λ b, b ∈ l) nb).
Proof. intros [? ?]%own_rep_free_list ?. by apply len_filter_out. Qed.

(** The blocks for [nt] tokens; the admission gate caps them for groups that
    never hold more. *)
Definition required_blocks (cap : bool) (nt : Z) (m : Manager) : Z :=
  match max_admission m with
  | Some most => if cap then Z.min (cdiv nt (block_size m)) most else cdiv nt (block_size m)
  | None => cdiv nt (block_size m)
  end.
Lemma required_blocks_uncapped nt m : required_blocks false nt m = cdiv nt (block_size m).
Proof. unfold required_blocks. by destruct (max_admission m). Qed.

(** The value of the predictor for a request with no blocks yet. *)
Lemma base_predict_new s R l h rid nt nb total cap :
  let m := ms_mgr s in
  let sk := get_num_skipped_tokens m total / block_size m in
  mgr_rep s R l h → num_cached_block m !! rid = None → blocks_at rid m = [] →
  lookup_result (ms_pool s) h nb →
  base_get_num_blocks_to_allocate rid nt nb total cap s
  = (Ok (Z.max (required_blocks cap nt m - Z.max sk (len nb)) 0
         + len (filter (λ b, b ∈ l) (kept_computed m nb total))), s).
Proof.
  intros m sk [Hown Hst Hc] Hnone Hcur Hlr.
  assert (slice_from nb (Z.max 0 sk) = kept_computed m nb total) as Hslice.
  { unfold kept_computed. fold sk. destruct (Z.ltb_spec 0 sk); [by rewrite Z.max_r by lia|].
    rewrite Z.max_l by lia. by rewrite slice_from_nonneg. }
  unfold base_get_num_blocks_to_allocate. rewrite bind_getm_eq. fold m.
  rewrite Hnone, Hcur. change (len (@nil loc)) with 0. fold sk. rewrite Z.sub_0_r, Z.add_0_r, Hslice.
  erewrite bind_eq.
  2: { apply onp_eq. apply (evictable_ok _ _ _ _ _ Hown).
       intros b Hb. apply (lr_range _ _ _ Hlr).
       destruct (kept_computed_suffix m nb total) as [k ->]. set_solver. }
  unfold ret, required_blocks. destruct s. by case_match.
Qed.

(** The value for a request that runs already. *)
Lemma base_predict_running s rid nt nb total c cap :
  num_cached_block (ms_mgr s) !! rid = Some c → nb = [] →
  base_get_num_blocks_to_allocate rid nt nb total cap s
  = (Ok (Z.max (required_blocks cap nt (ms_mgr s) - len (blocks_at rid (ms_mgr s))) 0), s).
Proof.
  intros Hc ->. unfold base_get_num_blocks_to_allocate. rewrite bind_getm_eq, Hc.
  erewrite bind_eq by done. unfold ret, required_blocks. by case_match.
Qed.

(** The window parameters that make skipping sensible. *)
Definition window_ok (m : Manager) : Prop :=
  match fields (kv_cache_spec m) with
  | SlidingWindowSpec _ w | SlidingWindowMLASpec _ w => 0 < w
  | ChunkedLocalAttentionSpec _ c => 0 < c
  | _ => True
  end.

Lemma skipped_le m total :
  window_ok m → 0 ≤ total → get_num_skipped_tokens m total ≤ total.
Proof.
  unfold window_ok, get_num_skipped_tokens, SlidingWindow_get_num_skipped_tokens,
    ChunkedLocal_get_num_skipped_tokens, Mamba_get_num_skipped_tokens. intros Hw Ht.
  destruct (cls m), (fields (kv_cache_spec m)); try lia.
  rewrite Z.mul_comm. by apply Z.mul_div_le.
Qed.

Lemma len_padded_computed m nb total :
  len (padding m total ++ kept_computed m nb total)
  = Z.max (Z.max 0 (get_num_skipped_tokens m total / block_size m)) (len nb).
Proof.
  rewrite len_app. unfold padding, kept_computed.
  set (sk := get_num_skipped_tokens m total / block_size m).
  unfold len at 1. rewrite length_replicate. pose proof (len_nonneg nb).
  destruct (Z.ltb_spec 0 sk); [|lia].
  rewrite slice_from_nonneg by lia. unfold len. rewrite length_drop. lia.
Qed.

(** A request that enters with the cache hits [nb] and [ext] external tokens:
    if the predictor's answer fits the free blocks, attaching the hits and
    allocating up to [nt] tokens succeeds and uses exactly that many free
    blocks. *)
Lemma base_allocation_fits s R l h rid nt nb local ext :
  let m := ms_mgr s in
  let total := local + ext in
  mgr_rep s R l h → window_ok m → num_cached_block m !! rid = None → blocks_at rid m = [] →
  lookup_result (ms_pool s) h nb → 0 ≤ ext → 0 ≤ local → len nb * block_size m ≤ local →
  total ≤ nt →
  ∃ n, base_get_num_blocks_to_allocate rid nt nb total false s = (Ok n, s) ∧ 0 ≤ n ∧
    (n ≤ len l →
     ok (base_allocate_new_computed_blocks rid nb local ext ;;; base_allocate_new_blocks rid nt) s
       (λ _ s', ∃ l' h' new,
          mgr_rep s' R l' h' ∧ evolves (ms_pool s) h (ms_pool s') h' ∧
          only_changes rid m (ms_mgr s') ∧ len l' = len l - n ∧
          blocks_at rid (ms_mgr s') = padding m total ++ kept_computed m nb total ++ new ∧
          len (blocks_at rid (ms_mgr s')) =
            Z.max (cdiv nt (block_size m)) (len (padding m total ++ kept_computed m nb total)))).
Proof.
  intros m total Hrep Hw Hnone Hcur Hlr He Hl0 Hnb Hnt.
  pose proof Hrep as [Hown Hst Hc]. pose proof (st_bs _ _ Hst) as Hbs. fold m in Hbs.
  set (sk := get_num_skipped_tokens m total / block_size m) in *.
  set (nb' := kept_computed m nb total) in *.
  eexists. split; [by apply (base_predict_new s R l h)|]. rewrite required_blocks_uncapped.
  fold m. fold sk. fold nb'. set (num_new := Z.max _ 0). set (ev := len _).
  pose proof (len_nonneg (filter (λ b, b ∈ l) nb')) as Hev0. fold ev in Hev0.
  split; [lia|]. intros Hfit.
  assert (len (filter (λ b, b ∉ nb') l) = len l - ev) as Hl1.
  { eapply free_after_touch; [exact Hown|].
    apply (lr_nodup _ _ _ (lookup_result_suffix _ _ _ _ (kept_computed_suffix m nb total) Hlr)). }
  pose proof (len_padded_computed m nb total) as Hpad. fold sk nb' in Hpad.
  pose proof (cdiv_mono total nt (block_size m) Hbs Hnt) as Hmono.
  assert (sk ≤ cdiv total (block_size m)) as Hsk.
  { etransitivity; [|by apply div_le_cdiv]. apply Z.div_le_mono; [done|].
    apply skipped_le; [done|lia]. }
  assert (len nb ≤ cdiv total (block_size m)) as Hnbc.
  { pose proof (cdiv_spec total (block_size m) Hbs). nia. }
  assert (0 ≤ cdiv total (block_size m)) as Hct by (apply cdiv_nonneg; lia).
  ok_step. eapply ok_mono; [apply (base_allocate_new_computed_blocks_ok s R l h rid nb local ext); try done|].
  { fold m total. fold nb'. rewrite Hpad, Hl1. case_match; lia. }
  intros _ s1 (new1 & Hlen1 & [Hrep1 Hnew1 Hev1 Hoc1 Hb1 Hc1]). fold m total in Hlen1, Hb1, Hc1, Hoc1, Hrep1, Hnew1.
  fold nb' in Hlen1, Hb1, Hc1, Hrep1, Hnew1.
  assert (len (blocks_at rid (ms_mgr s1)) = Z.max (Z.max 0 sk) (len nb) + len new1) as Hlb.
  { rewrite Hb1, app_assoc, len_app. lia. }
  assert (block_size (ms_mgr s1) = block_size m) as Hbs1 by apply Hoc1.
  assert (0 ≤ len new1 ≤ len l - ev) as Hnew1l.
  { rewrite Hlen1, Hpad. case_match; lia. }
  assert (len (drop (length new1) (filter (λ b, b ∉ nb') l)) = len l - ev - len new1) as Hl2.
  { unfold len in *. rewrite length_drop. lia. }
  assert (len new1 ≤ Z.max 0 (cdiv total (block_size m) - Z.max (Z.max 0 sk) (len nb))) as Hk1.
  { rewrite Hlen1, Hpad. case_match; lia. }
  eapply ok_mono; [apply (base_allocate_new_blocks_ok s1 R _ _ rid nt Hrep1)|].
  { rewrite Hbs1, Hlb, Hl2. lia. }
  intros new2 s2 (Hlen2 & [Hrep2 Hnew2 Hev2 Hoc2 Hb2 Hc2]).
  rewrite Hbs1, Hlb in Hlen2.
  eexists _, _, (new1 ++ new2). split_and!; [exact Hrep2|by eapply evolves_trans|by etransitivity|..].
  - unfold len in *. rewrite length_drop. lia.
  - rewrite Hb2, Hb1. by rewrite <-!app_assoc.
  - rewrite Hb2, len_app, Hlb, Hlen2, Hpad. clear - Hmono Hk1 Hnew1l.
    generalize dependent (cdiv total (block_size m)). lia.
Qed.

(** *** Freeing a request *)

(** [rid] is forgotten and everything it held is released. *)
Record releases (rid : string) (s : mstate) (R : list owner) (l : list loc) (h : gmap Z bytes)
    (l' : list loc) (s' : mstate) : Prop := {
  rl_rep : mgr_rep s' R l' h;
  rl_evolves : evolves (ms_pool s) h (ms_pool s') h;
  rl_only : only_changes rid (ms_mgr s) (ms_mgr s');
  rl_blocks : req_to_blocks (ms_mgr s') = delete rid (req_to_blocks (ms_mgr s));
  rl_cached : num_cached_block (ms_mgr s') = delete rid (num_cached_block (ms_mgr s))
}.

Lemma releases_intro rid s R l h l' p' m' :
  mgr_rep s R l h → own_rep p' (rest rid (ms_mgr s) ++ R) l' h →
  evolves (ms_pool s) h p' h → same_static (ms_mgr s) m' →
  req_to_blocks m' = delete rid (req_to_blocks (ms_mgr s)) →
  num_cached_block m' = delete rid (num_cached_block (ms_mgr s)) →
  releases rid s R l h l' (MkMS p' m').
Proof.
  intros Hrep Hown Hev Hst Hb Hc.
  assert (only_changes rid (ms_mgr s) m') as Hoc.
  { split_and!; [rewrite Hb; by rewrite delete_delete_eq|rewrite Hc; by rewrite delete_delete_eq|done]. }
  split; try done. eapply mgr_rep_refocus; [exact Hrep|apply Hev|done| |].
  - rewrite Hc. intros n. by rewrite lookup_delete_eq.
  - unfold blocks_at, cached_at. rewrite Hb, Hc, !lookup_delete_eq. by apply own_rep_nil.
Qed.

Lemma base_free_ok s R l h rid :
  mgr_rep s R l h →
  ok (base_free rid) s (λ _ s', releases rid s R l h
    (l ++ freed_of (refs (rest rid (ms_mgr s) ++ R)) (rev (blocks_at rid (ms_mgr s)))) s').
Proof.
  intros Hrep. pose proof (proj1 (owners_focus rid _ _ _ _ _) (mg_own _ _ _ _ Hrep)) as Hown.
  unfold base_free. mgr_steps. apply ok_onp. cbn [ms_pool].
  eapply ok_mono; [eapply (own_free _ _ _ _ _ _ _ false Hown); symmetry; apply Permutation_rev|].
  intros _ p' [Hown' Hev]. mgr_steps. cbn [ms_pool ms_mgr]. by apply (releases_intro _ s R l h).
Qed.

Lemma filter_hashed_eq p os l h bs :
  own_rep p os l h → (∀ b, b ∈ bs → 0 ≤ b < num_gpu_blocks p) →
  filter_each is_hashed bs p = (Ok (filter (λ b, h !! b ≠ None) bs), p) ∧
  filter_each is_unhashed bs p = (Ok (filter (λ b, h !! b = None) bs), p).
Proof.
  intros [Hp _ _] Hbs.
  assert (∀ b, b ∈ bs → ∃ blk, onq (read b) p = (Ok blk, p) ∧ block_hash blk = h !! b) as Hrd.
  { intros b Hb. destruct (onq_read_eq _ _ _ b (pr_core _ _ Hp) (Hbs b Hb)) as (blk & ? & _ & _ & ? & _).
    by exists blk. }
  split; apply filter_each_pure; intros b Hb; destruct (Hrd b Hb) as (blk & Hr & Hh);
    [unfold is_hashed|unfold is_unhashed]; erewrite bind_eq by exact Hr; by rewrite Hh.
Qed.

Lemma filter_partition (P : loc → Prop) `{∀ b, Decision (P b)} (bs : list loc) :
  filter (λ b, ¬ P b) bs ++ filter P bs ≡ₚ bs.
Proof.
  induction bs as [|b bs IH]; [done|]. rewrite !filter_cons.
  destruct (decide (P b)), (decide (¬ P b)); try tauto; simpl.
  - by rewrite <-Permutation_middle, IH.
  - by rewrite IH.
Qed.

(** Releasing the hashed blocks of [cur] at the back of the free queue and the
    unhashed ones at the front. *)
Lemma free_by_hash_ok p cur n R l h bs :
  own_rep p ((cur, n) :: R) l h → bs ≡ₚ cur →
  ok (free_blocks (filter (λ b, h !! b ≠ None) bs) false ;;;
      free_blocks (filter (λ b, h !! b = None) bs) true) p (λ _ p',
    ∃ l', own_rep p' R l' h ∧ evolves p h p' h ∧ l ⊆+ l').
Proof.
  intros Hown Hperm. set (c := filter (λ b, h !! b ≠ None) bs). set (u := filter (λ b, h !! b = None) bs).
  assert (own_rep p ((c, len c) :: (u, len u) :: R) l h) as Hown1.
  { eapply own_rep_split; [| |exact Hown].
    - rewrite <-Hperm, <-real_app. apply real_perm. symmetry.
      exact (filter_partition (λ b, h !! b = None) bs).
    - rewrite !unc_all by done. by intros _ x [?%elem_of_nil|?%elem_of_nil]. }
  ok_step. eapply ok_mono; [by apply (own_free _ _ _ _ _ _ c false Hown1)|].
  intros _ p1 [Hown2 Hev1].
  eapply ok_mono; [by apply (own_free _ _ _ _ _ _ u true Hown2)|].
  intros _ p2 [Hown3 Hev2]. eexists. split_and!; [exact Hown3|by eapply evolves_trans|].
  cbn [a_free a_release]. by apply submseteq_inserts_l, submseteq_inserts_r.
Qed.

Lemma SlidingWindow_free_ok s R l h rid :
  mgr_rep s R l h →
  ok (SlidingWindow_free rid) s (λ _ s', ∃ l', releases rid s R l h l' s').
Proof.
  intros Hrep. pose proof (proj1 (owners_focus rid _ _ _ _ _) (mg_own _ _ _ _ Hrep)) as Hown.
  unfold SlidingWindow_free. mgr_steps.
  destruct (blocks_at rid (ms_mgr s)) as [|b bs] eqn:Hcur.
  { mgr_steps. cbn [ms_pool ms_mgr]. exists l. apply releases_intro; try done.
    exact (proj1 (own_rep_nil _ _ _ _ _) Hown). }
  set (cur := b :: bs) in *.
  assert (∀ b, b ∈ rev cur → 0 ≤ b < num_gpu_blocks (ms_pool s)) as Hr.
  { intros x Hx. eapply own_rep_range; [exact Hown|left|]. simpl. by rewrite (Permutation_rev cur). }
  destruct (filter_hashed_eq _ _ _ _ _ Hown Hr) as [Hh Hu]. ok_steps.
  apply ok_onp. cbn [ms_pool]. eapply ok_eq; [exact Hh|]. ok_step.
  apply ok_onp. cbn [ms_pool]. eapply ok_eq; [exact Hu|]. ok_step. apply ok_onp. cbn [ms_pool].
  pose proof (free_by_hash_ok _ _ _ _ _ _ (rev cur) Hown ltac:(symmetry; apply Permutation_rev)) as Hfree.
  apply ok_bind_inv in Hfree. eapply ok_mono; [exact Hfree|]. intros [] p1 Hfree1. cbn beta in Hfree1.
  apply ok_onp. cbn [ms_pool]. eapply ok_mono; [exact Hfree1|]. intros _ p2 (l' & Hown' & Hev & _).
  mgr_steps. cbn [ms_pool ms_mgr]. exists l'. by apply releases_intro.
Qed.

Lemma free_ok s R l h rid :
  mgr_rep s R l h → ok (free rid) s (λ _ s', ∃ l', releases rid s R l h l' s').
Proof.
  intros Hrep.
  assert (ok (base_free rid) s (λ _ s', ∃ l', releases rid s R l h l' s')) as Hbase.
  { eapply ok_mono; [by apply base_free_ok|]. intros [] s' Hrel. eexists. exact Hrel. }
  unfold free. mgr_steps. destruct (cls (ms_mgr s)); try exact Hbase.
  - by apply SlidingWindow_free_ok.
  - unfold Mamba_free. mgr_steps. case_bool_decide; mgr_steps; [|exact Hbase].
    set (s1 := MkMS _ _).
    assert (mgr_rep s1 R l h) as Hrep1
      by (destruct Hrep as [Ho [] Hc]; split; [exact Ho|by split|exact Hc]).
    eapply ok_mono; [by apply (base_free_ok s1)|].
    intros _ s' [H1 H2 (H3 & H4 & H5) H6 H7]. eexists. split; done.
Qed.

(** *** Recycling *)

Lemma range_down_S k : range_down 0 (Z.of_nat (S k)) = Z.of_nat k :: range_down 0 (Z.of_nat k).
Proof.
  unfold range_down. rewrite (range_app 0 (Z.of_nat k) (Z.of_nat (S k))) by lia.
  rewrite (range_cons (Z.of_nat k) (Z.of_nat (S k))), (range_nil (Z.of_nat k + 1)) by lia.
  by rewrite rev_app_distr.
Qed.

(** The block list with the positions [j, k) nulled. *)
Definition nulled (bs : list loc) (j k : nat) : list loc :=
  take j bs ++ replicate (k - j) 0 ++ drop k bs.
Definition segment (bs : list loc) (j k : nat) : list loc := take (k - j) (drop j bs).

Lemma nulled_same bs k : nulled bs k k = bs.
Proof. unfold nulled. rewrite Nat.sub_diag. simpl. apply take_drop. Qed.

Lemma nulled_step bs j k :
  (j ≤ k)%nat → (k < length bs)%nat → nulled (<[k := 0]> bs) j k = nulled bs j (S k).
Proof.
  intros Hj Hk. unfold nulled. rewrite take_insert_ge by lia.
  rewrite drop_insert_ge by lia. rewrite Nat.sub_diag.
  destruct (lookup_lt_is_Some_2 bs k Hk) as [b Hb]. rewrite (drop_S _ _ _ Hb). simpl.
  replace (S k - j)%nat with (S (k - j)) by lia. rewrite replicate_S_end, <-app_assoc. done.
Qed.

Lemma segment_step bs j k b :
  (j ≤ k)%nat → bs !! k = Some b → segment bs j (S k) = segment bs j k ++ [b].
Proof.
  intros Hj Hb. unfold segment. replace (S k - j)%nat with (S (k - j)) by lia.
  apply take_S_r. rewrite lookup_drop. by replace (j + (k - j))%nat with k by lia.
Qed.

Lemma segment_insert bs j k : (j ≤ k)%nat → segment (<[k := 0]> bs) j k = segment bs j k.
Proof.
  intros Hj. unfold segment. rewrite drop_insert_ge by lia. by rewrite take_insert_ge.
Qed.

Lemma skip_loop_ok p cnt h k bs c u :
  core_rep p cnt h → (∀ b, b ∈ bs → 0 ≤ b < num_gpu_blocks p) → (k ≤ length bs)%nat →
  ∃ j, (j ≤ k)%nat ∧
    skip_loop 0 (range_down 0 (Z.of_nat k)) bs c u p
    = (Ok (nulled bs j k, c ++ filter (λ b, h !! b ≠ None) (rev (segment bs j k)),
           u ++ filter (λ b, h !! b = None) (rev (segment bs j k))), p) ∧
    (∀ b, b ∈ segment bs j k → b ≠ 0) ∧ (j = 0%nat ∨ bs !! pred j = Some 0).
Proof.
  intros Hcr. revert bs c u. induction k as [|k IH]; intros bs c u Hbs Hk.
  { exists 0%nat. rewrite nulled_same. unfold segment. simpl. rewrite !app_nil_r.
    split_and!; [lia|done|by intros b ?%elem_of_nil|by left]. }
  rewrite range_down_S. cbn [skip_loop]. rewrite py_nth_nonneg by lia. rewrite Nat2Z.id.
  destruct (lookup_lt_is_Some_2 bs k) as [b Hb]; [lia|]. rewrite Hb.
  erewrite bind_eq by done. destruct (Z.eqb_spec b 0) as [->|Hb0].
  { exists (S k). rewrite nulled_same. unfold segment. rewrite Nat.sub_diag. simpl.
    rewrite !app_nil_r. split_and!; [lia|done|by intros b ?%elem_of_nil|by right]. }
  destruct (onq_read_eq p cnt h b Hcr) as (blk & Hrd & _ & _ & Hh & _).
  { by apply Hbs, (list_elem_of_lookup_2 _ _ _ Hb). }
  erewrite bind_eq by exact Hrd. rewrite Hh, py_set_nonneg, Nat2Z.id by lia.
  assert (∀ x, x ∈ <[k:=0]> bs → 0 ≤ x < num_gpu_blocks p) as Hbs1.
  { pose proof (cr_pos _ _ _ Hcr). intros x Hx. apply list_elem_of_lookup in Hx as [i Hi].
    apply list_lookup_insert_Some in Hi as [(_ & <- & _)|[_ Hi]]; [lia|].
    by apply Hbs, (list_elem_of_lookup_2 _ _ _ Hi). }
  assert (∀ c' u', ∃ j, (j ≤ S k)%nat ∧
    skip_loop 0 (range_down 0 (Z.of_nat k)) (<[k:=0]> bs) c' u' p
    = (Ok (nulled bs j (S k), c' ++ filter (λ b, h !! b ≠ None) (rev (segment bs j k)),
           u' ++ filter (λ b, h !! b = None) (rev (segment bs j k))), p) ∧
    segment bs j (S k) = segment bs j k ++ [b] ∧
    (∀ x, x ∈ segment bs j k ++ [b] → x ≠ 0) ∧ (j = 0%nat ∨ bs !! pred j = Some 0)) as Hrec.
  { intros c' u'. destruct (IH (<[k:=0]> bs) c' u' Hbs1) as (j & Hj & Heq & Hnz & Hlast).
    { rewrite length_insert. lia. }
    exists j. rewrite segment_insert in Heq, Hnz by done. rewrite nulled_step in Heq by lia.
    split_and!; [lia|done|by apply segment_step| |].
    - intros x [Hx|Hx]%elem_of_app; [by apply Hnz|]. by apply list_elem_of_singleton in Hx as ->.
    - destruct Hlast as [?|Hlast]; [by left|]. destruct j as [|j]; [by left|right].
      rewrite list_lookup_insert_ne in Hlast; [done|]. simpl. lia. }
  destruct (h !! b) as [key|] eqn:Hhb.
  - destruct (Hrec (c ++ [b]) u) as (j & ? & -> & Hseg & ? & ?). exists j. rewrite Hseg.
    split_and!; try done. rewrite rev_app_distr, !filter_app. simpl.
    rewrite !filter_cons, Hhb. simpl. by rewrite <-app_assoc.
  - destruct (Hrec c (u ++ [b])) as (j & ? & -> & Hseg & ? & ?). exists j. rewrite Hseg.
    split_and!; try done. rewrite rev_app_distr, !filter_app. simpl.
    rewrite !filter_cons, Hhb. simpl. by rewrite <-app_assoc.
Qed.

Lemma real_nulled bs j k :
  (j ≤ k)%nat → real bs ≡ₚ real (nulled bs j k) ++ real (segment bs j k).
Proof.
  intros Hj. unfold nulled. rewrite !real_app, real_replicate. simpl.
  rewrite <-app_assoc, (Permutation_app_comm (real (drop k bs))), app_assoc.
  rewrite <-!real_app. unfold segment. rewrite take_take_drop.
  replace (j + (k - j))%nat with k by lia. by rewrite take_drop.
Qed.

Lemma lookup_nulled bs j k i b :
  (j ≤ k ≤ length bs)%nat → nulled bs j k !! i = Some b → b ≠ 0 →
  bs !! i = Some b ∧ ¬ (j ≤ i < k)%nat.
Proof.
  intros Hk Hi Hb. unfold nulled in Hi.
  rewrite lookup_app in Hi. destruct (take j bs !! i) eqn:Ht.
  { simplify_eq. apply lookup_take_Some in Ht as [? ?]. split; [done|lia]. }
  apply lookup_ge_None_1 in Ht. rewrite length_take, Nat.min_l in * by lia.
  rewrite lookup_app in Hi. destruct (replicate (k - j) 0 !! (i - j)%nat) eqn:Hr.
  { simplify_eq. apply lookup_replicate_1 in Hr as [-> _]. done. }
  apply lookup_ge_None_1 in Hr. rewrite length_replicate in *. rewrite lookup_drop in Hi.
  replace (k + (i - j - (k - j)))%nat with i in Hi by lia. split; [done|lia].
Qed.

Lemma unc_nulled bs j k n x :
  (j ≤ k ≤ length bs)%nat → x ∈ unc (nulled bs j k, n) → x ∈ unc (bs, n).
Proof.
  intros Hk. rewrite !elem_of_unc. intros (Hx & i & Hi & Hl). split; [done|].
  destruct (lookup_nulled _ _ _ _ _ Hk Hl Hx). eauto.
Qed.

Lemma length_nulled bs j k : (j ≤ k ≤ length bs)%nat → length (nulled bs j k) = length bs.
Proof.
  intros. unfold nulled. rewrite !length_app, length_take, length_replicate, length_drop. lia.
Qed.


(** The positions [j, k) of [rid] become null and their blocks are released. *)
Record recycles (rid : string) (s : mstate) (R : list owner) (l : list loc) (h : gmap Z bytes)
    (j k : nat) (l' : list loc) (s' : mstate) : Prop := {
  rc_rep : mgr_rep s' R l' h;
  rc_evolves : evolves (ms_pool s) h (ms_pool s') h;
  rc_only : only_changes rid (ms_mgr s) (ms_mgr s');
  rc_bounds : (j ≤ k ≤ length (blocks_at rid (ms_mgr s)))%nat;
  rc_blocks : blocks_at rid (ms_mgr s') = nulled (blocks_at rid (ms_mgr s)) j k;
  rc_cached : num_cached_block (ms_mgr s') = num_cached_block (ms_mgr s);
  rc_free : l ⊆+ l'
}.

Lemma release_segment p cur n R l h j k :
  (j ≤ k ≤ length cur)%nat → own_rep p ((cur, n) :: R) l h →
  own_rep p ((segment cur j k, len (segment cur j k)) :: (nulled cur j k, n) :: R) l h.
Proof.
  intros Hk Hown. eapply own_rep_perm; [apply Permutation_swap|].
  eapply own_rep_split; [apply real_nulled; lia| |exact Hown].
  rewrite (unc_all (segment cur j k)) by done.
  intros _ x [Hx|?%elem_of_nil]; [|done]. by apply unc_nulled in Hx.
Qed.

(** The number of leading blocks outside the window. *)
Definition skipped_blocks (m : Manager) (rid : string) (total : Z) : nat :=
  let skt := get_num_skipped_tokens m total in
  if skt <=? 0 then 0%nat
  else Z.to_nat (Z.min (skt / block_size m) (len (blocks_at rid m))).

Lemma base_remove_skipped_blocks_ok s R l h rid total :
  mgr_rep s R l h →
  let cur := blocks_at rid (ms_mgr s) in
  let k := skipped_blocks (ms_mgr s) rid total in
  ok (base_remove_skipped_blocks rid total) s (λ _ s', ∃ j l',
    recycles rid s R l h j k l' s' ∧ (∀ b, b ∈ segment cur j k → b ≠ 0) ∧
    (j = 0%nat ∨ cur !! pred j = Some 0) ∧
    last_state_block_idx (ms_mgr s') = last_state_block_idx (ms_mgr s) ∧
    allocated_block_reqs (ms_mgr s') = allocated_block_reqs (ms_mgr s)).
Proof.
  intros Hrep cur k. pose proof Hrep as [Hown0 Hst Hc].
  pose proof (proj1 (owners_focus rid _ _ _ _ _) Hown0) as Hown. fold cur in Hown.
  unfold base_remove_skipped_blocks. mgr_steps. unfold k, skipped_blocks. set (m := ms_mgr s) in *.
  destruct (Z.leb_spec (get_num_skipped_tokens m total) 0) as [H0|H0].
  { mgr_steps. exists 0%nat, l. split; [|split_and!; [by intros b ?%elem_of_nil|by left|done..]].
    split; try done. lia. }
  assert (mgr_null_block m = 0) as -> by apply Hst. pose proof (st_bs _ _ Hst) as Hbs. fold m in Hbs.
  mgr_steps. fold m cur. set (kz := Z.min _ _).
  assert (0 ≤ kz ≤ len cur) as Hkz.
  { unfold kz. pose proof (Z.div_pos _ (block_size m) (Z.lt_le_incl _ _ H0) Hbs).
    pose proof (len_nonneg cur). fold m cur. lia. }
  assert (kz = Z.of_nat (Z.to_nat kz)) as Hkn by lia.
  destruct (skip_loop_ok (ms_pool s) _ h (Z.to_nat kz) cur [] [] (pr_core _ _ (ow_pool _ _ _ _ Hown)))
    as (j & Hj & Heq & Hnz & Hlast).
  { intros b Hb. eapply own_rep_range; [exact Hown|left|done]. }
  { unfold len in Hkz. lia. }
  apply ok_onp. cbn [ms_pool]. eapply ok_eq; [rewrite Hkn; exact Heq|]. cbn [app]. mgr_steps.
  cbn [ms_pool ms_mgr]. apply ok_onp. cbn [ms_pool].
  assert (j ≤ Z.to_nat kz ≤ length cur)%nat as Hjk by (unfold len in Hkz; lia).
  pose proof (release_segment _ _ _ _ _ _ _ _ Hjk Hown) as Hown1.
  pose proof (free_by_hash_ok _ _ _ _ _ _ (rev (segment cur j (Z.to_nat kz))) Hown1
    ltac:(symmetry; apply Permutation_rev)) as Hfree.
  apply ok_bind_inv in Hfree. eapply ok_mono; [exact Hfree|]. intros [] p1 Hfree1. cbn beta in Hfree1.
  apply ok_onp. cbn [ms_pool ms_mgr]. eapply ok_mono; [exact Hfree1|].
  intros _ p2 (l' & Hown' & Hev & Hsub). exists j, l'. split; [|done].
  match goal with |- recycles _ _ _ _ _ _ _ _ (MkMS ?p ?m') =>
    assert (only_changes rid m m') as Hoc by only_changes end.
  split; cbn [ms_pool ms_mgr]; try done.
  - eapply mgr_rep_refocus; [exact Hrep|apply Hev|exact Hoc| |].
    + intros n Hn. by apply (Hc rid).
    + tables. exact Hown'.
  - tables. done.
Qed.

(** *** Aliasing *)

(** [dst] drops what it had and shares the first [k] blocks of the snapshot. *)
Lemma alias_from_snapshot_ok s R l h dst src nsrc k :
  let aliased := take (Z.to_nat k) src in
  mgr_rep s R l h → 0 ≤ k ≤ len src → 0 ≤ nsrc →
  (∀ b, b ∈ aliased → 0 ≤ b < num_gpu_blocks (ms_pool s)) → NoDup (real aliased) →
  (enable_caching (ms_pool s) = true →
     k ≤ nsrc ∧ ∀ o b, o ∈ rest dst (ms_mgr s) ++ R → b ∈ unc o → b ∉ aliased) →
  ok (alias_request_blocks_from_snapshot dst src nsrc k) s (λ _ s', ∃ l',
    mgr_rep s' R l' h ∧ evolves (ms_pool s) h (ms_pool s') h ∧
    only_changes dst (ms_mgr s) (ms_mgr s') ∧ blocks_at dst (ms_mgr s') = aliased ∧
    cached_at dst (ms_mgr s') = Z.min nsrc k).
Proof.
  intros aliased Hrep Hk Hn Hr Hnd Hcach. pose proof Hrep as [Hown0 Hst Hc].
  pose proof (proj1 (owners_focus dst _ _ _ _ _) Hown0) as Hown.
  unfold alias_request_blocks_from_snapshot.
  rewrite (proj2 (Z.ltb_ge k 0)), (proj2 (Z.ltb_ge (len src) k)) by lia. mgr_steps.
  set (cur := blocks_at dst (ms_mgr s)) in *. set (m1 := set_req_to_blocks _ _).
  apply (ok_mono _ _ (λ _ s1, ∃ l1, ms_mgr s1 = m1 ∧ own_rep (ms_pool s1) (rest dst (ms_mgr s) ++ R) l1 h ∧
    evolves (ms_pool s) h (ms_pool s1) h)).
  { destruct cur as [|b cur'] eqn:Hcur.
    - mgr_steps. exists l. split_and!; [done| |by apply evolves_same].
      exact (proj1 (own_rep_nil _ _ _ _ _) Hown).
    - apply ok_onp. cbn [ms_pool ms_mgr].
      eapply ok_mono; [eapply (own_free _ _ _ _ _ _ _ false Hown); symmetry; apply Permutation_rev|].
      intros _ p1 [Hown1 Hev1]. eexists. split_and!; [done|exact Hown1|done]. }
  intros _ [p1 m1'] (l1 & Hm1 & Hown1 & Hev1). cbn [ms_pool ms_mgr] in Hm1, Hown1, Hev1. subst m1'.
  mgr_steps. cbn [ms_pool ms_mgr]. rewrite slice_to_nonneg by lia. fold aliased.
  assert (num_gpu_blocks p1 = num_gpu_blocks (ms_pool s)) as Hnum by apply Hev1.
  assert (enable_caching p1 = enable_caching (ms_pool s)) as Hec by apply Hev1.
  apply ok_onp. cbn [ms_pool ms_mgr]. eapply ok_eq.
  { apply (filter_each_pure _ (λ b, b ≠ 0)). intros b Hb.
    destruct (onq_read_eq _ _ _ b (pr_core _ _ (ow_pool _ _ _ _ Hown1))) as (blk & Hrd & _ & Hnull & _).
    { rewrite Hnum. by apply Hr. }
    erewrite bind_eq by exact Hrd. rewrite Hnull. unfold ret. do 2 f_equal.
    destruct (Z.eqb_spec b 0); [by rewrite bool_decide_eq_false_2 by tauto|by rewrite bool_decide_eq_true_2]. }
  fold (real aliased). mgr_step. apply ok_onp. cbn [ms_pool ms_mgr].
  assert (∀ b, b ∈ real aliased → b ∈ aliased) as Hsub by (intros b ?%elem_of_real; tauto).
  eapply ok_mono; [apply (own_touch _ _ _ _ 0 (real aliased) Hown1)|].
  { unfold real. by apply NoDup_filter. }
  { intros b Hb. rewrite Hnum. by apply Hr, Hsub. }
  { rewrite Hec. intros He o b Ho Hb Hb'. destruct (Hcach He) as [_ Hno]. by apply (Hno o b), Hsub. }
  intros _ p2 [Hown2 Hev2]. mgr_steps. cbn [ms_pool ms_mgr]. cbn [replicate app] in Hown2.
  assert (evolves (ms_pool s) h p2 h) as Hev by by eapply evolves_trans.
  match goal with |- ∃ l', mgr_rep (MkMS ?p ?m') _ _ _ ∧ _ =>
    assert (only_changes dst (ms_mgr s) m') as Hoc by (unfold m1; only_changes) end.
  eexists. split_and!; [|exact Hev|exact Hoc|by tables|by tables].
  eapply mgr_rep_refocus; [exact Hrep|apply Hev|exact Hoc| |].
  - intros n. tables. intros [= <-]. lia.
  - tables. simpl. eapply own_rep_change; [| |exact Hown2].
    + unfold real. rewrite list_filter_filter. by rewrite (list_filter_iff _ (λ b, b ≠ 0)) by tauto.
    + intros He x Hx. rewrite unc_all in Hx; [by apply elem_of_nil in Hx|].
      assert (enable_caching (ms_pool s) = true) as He' by (rewrite <-He; symmetry; apply Hev).
      destruct (Hcach He') as [? _]. unfold aliased, len in *. rewrite length_take. lia.
Qed.
End managers.
