(* ===== verification/CachingProps.v ===== *)
(** * Which blocks enter the prefix cache

    [reachable_block_mask] keeps exactly the blocks that a later cache hit can
    use: the hit window before every segment boundary, and before the last
    aligned boundary of the prompt.  [cache_blocks] offers the full blocks of a
    request to the pool under that mask and keeps the ownership invariant. *)

From S2P Require Import Prelude FreeQueue BlockHash Request BlockPool KVCacheSpec SingleType Ownership SingleTypeProps.

(** ** The mask *)

Lemma lookup_mark start mask idxs i :
  (∀ j, j ∈ idxs → start ≤ j) → start ≤ i < start + len mask →
  mark start mask idxs !! Z.to_nat (i - start)
  = if decide (i ∈ idxs) then Some true else mask !! Z.to_nat (i - start).
Proof.
  unfold mark. revert mask. induction idxs as [|j idxs IH]; intros mask Hj Hi; [done|].
  cbn [foldl]. pose proof (Hj j ltac:(left)).
  rewrite py_set_nonneg by lia. rewrite IH.
  - destruct (decide (i ∈ idxs)) as [Hin|Hout].
    { rewrite decide_True; [done|by right]. }
    destruct (decide (i = j)) as [->|Hne].
    + rewrite decide_True by left. apply list_lookup_insert_eq. unfold len in Hi. lia.
    + rewrite list_lookup_insert_ne by lia. rewrite decide_False; [done|].
      by intros [?|?]%elem_of_cons.
  - intros. apply Hj. by right.
  - unfold len. rewrite length_insert. exact Hi.
Qed.

Lemma len_mark start mask idxs : len (mark start mask idxs) = len mask.
Proof.
  unfold mark. revert mask. induction idxs as [|j idxs IH]; intros mask; [done|].
  cbn [foldl]. rewrite IH. unfold py_set, len. case_match; by rewrite length_insert.
Qed.

(** The blocks a hit that ends at block [boundary] reads: the sliding window
    before it, shifted by one with Eagle, whose last matched block is dropped. *)
Definition hit_window (need shift boundary i : Z) : Prop :=
  boundary + shift - need ≤ i < boundary + shift.

Lemma segment_tail_iff need shift per i :
  0 ≤ need < per →
  (shift ≤ i ∧ per - need ≤ (i - shift) mod per) ↔
  ∃ k, 1 ≤ k ∧ hit_window need shift (k * per) i.
Proof.
  intros Hn. unfold hit_window. pose proof (Z.mod_pos_bound (i - shift) per ltac:(lia)).
  pose proof (Z.div_mod (i - shift) per ltac:(lia)) as Hdm. split.
  - intros [Hs Hm]. exists ((i - shift) / per + 1).
    assert (0 ≤ (i - shift) / per) by (apply Z.div_pos; lia). nia.
  - intros (k & Hk & Hi). split; [nia|].
    assert ((i - shift) / per = k - 1) as Hq. { symmetry. apply (Z.div_unique _ _ _ (i - shift - (k - 1) * per)); nia. }
    nia.
Qed.

Section mask.
Context {S : Type} (spec : KVCacheSpec) (block_size window alignment : Z) (use_eagle : bool).
Hypothesis Hspec : fields spec = SlidingWindowSpec block_size window ∨
  fields spec = SlidingWindowMLASpec block_size window.
Hypothesis Hbs : 0 < block_size.
Hypothesis Hwindow : 0 < window.
Hypothesis Halign : alignment mod block_size = 0.

Let need := contiguous_blocks_for_hit window block_size use_eagle.
Let shift := if use_eagle then 1 else 0.

Lemma need_nonneg : 0 ≤ need.
Proof.
  unfold need, contiguous_blocks_for_hit.
  pose proof (cdiv_nonneg (window - 1) block_size Hbs ltac:(lia)). case_match; lia.
Qed.

(** The spacing of the boundaries kept, in blocks; [None] when only the
    prompt's last boundary is kept. *)
Definition segment_blocks (retention_interval : option Z) : option Z :=
  match retention_interval with
  | None => Some (alignment / block_size)
  | Some r => if r =? 0 then None else Some (r / block_size)
  end.

(** The last aligned boundary before the end of the prompt, in blocks. *)
Definition prompt_boundary (num_prompt_tokens : Z) : Z :=
  (num_prompt_tokens - 1) / alignment * alignment / block_size.

Definition wanted (retention_interval num_prompt_tokens : option Z) (i : Z) : Prop :=
  (∃ per k, segment_blocks retention_interval = Some per ∧ 1 ≤ k ∧
     hit_window need shift (k * per) i) ∨
  (∃ n, retention_interval ≠ None ∧ num_prompt_tokens = Some n ∧
     hit_window need shift (prompt_boundary n) i).

Definition mask_spec (a b : Z) (ri np : option Z) (m : list bool) : Prop :=
  len m = b - a ∧
  ∀ i, a ≤ i < b → (m !! Z.to_nat (i - a) = Some true ↔ wanted ri np i).

Lemma replay_mark a b n mask :
  0 ≤ a ≤ b → len mask = b - a → ∀ i, a ≤ i < b →
  mark a mask (range (Z.max a (prompt_boundary n + shift - need))
    (Z.min b (prompt_boundary n + shift))) !! Z.to_nat (i - a) = Some true ↔
  mask !! Z.to_nat (i - a) = Some true ∨ hit_window need shift (prompt_boundary n) i.
Proof.
  intros Ha Hm i Hi. rewrite lookup_mark; [| |lia].
  - unfold hit_window. case_decide as Hd; rewrite elem_of_range in Hd; [|naive_solver lia].
    split; [right; lia|done].
  - intros j ?%elem_of_range. lia.
Qed.

(** Either every block is wanted, or the mask says which. *)
Lemma sliding_mask_eq a b ri np (s : S) :
  0 ≤ a ≤ b →
  ∃ r, SlidingWindow_reachable_block_mask a b (Some alignment) spec use_eagle ri np s = (Ok r, s) ∧
    match r with
    | None => ∃ per, segment_blocks ri = Some per ∧ per ≤ need
    | Some m => mask_spec a b ri np m
    end.
Proof.
  intros Ha. pose proof need_nonneg as Hneed.
  set (mask0 := replicate (Z.to_nat (b - a)) false).
  assert (len mask0 = b - a) as Hlen0 by (unfold len, mask0; rewrite length_replicate; lia).
  assert (∀ i, mask0 !! Z.to_nat (i - a) = Some true ↔ False) as Hno.
  { intros i. split; [|done]. unfold mask0. intros Hl%lookup_replicate_1. by destruct Hl. }
  set (replay := λ mask : list bool, match ri, np with
    | Some _, Some n => mark a mask (range (Z.max a (prompt_boundary n + shift - need))
        (Z.min b (prompt_boundary n + shift)))
    | _, _ => mask end).
  assert (∀ mask per', (∀ i, a ≤ i < b → mask !! Z.to_nat (i - a) = Some true ↔
      ∃ k, per' ≠ None ∧ 1 ≤ k ∧ hit_window need shift (k * default 0 per') i) →
    segment_blocks ri = per' → len mask = b - a → mask_spec a b ri np (replay mask)) as Hreplay.
  { intros mask per' Hmask Hper Hlen. unfold mask_spec, replay.
    assert (∀ i, (∃ k, per' ≠ None ∧ 1 ≤ k ∧ hit_window need shift (k * default 0 per') i) ↔
      ∃ per k, segment_blocks ri = Some per ∧ 1 ≤ k ∧ hit_window need shift (k * per) i) as Hseg.
    { intros i. rewrite Hper. destruct per'; naive_solver. }
    unfold wanted. destruct ri as [r|], np as [n|]; rewrite ?len_mark; (split; [done|]); intros i Hi;
      [rewrite replay_mark by done|..]; rewrite Hmask, Hseg by done; naive_solver. }
  unfold SlidingWindow_reachable_block_mask.
  assert (∀ k : M S (option (list bool)), (assert_ (alignment mod block_size =? 0) ;;; k) s = k s) as Hassert.
  { intros k. by rewrite (proj2 (Z.eqb_eq _ _) Halign). }
  set (tails := λ per, filter (λ i, shift ≤ i ∧ per - need ≤ (i - shift) mod per) (range a b)).
  assert (∀ per, need < per → ∀ i, a ≤ i < b →
    mark a mask0 (tails per) !! Z.to_nat (i - a) = Some true ↔
    ∃ k, Some per ≠ None ∧ 1 ≤ k ∧ hit_window need shift (k * per) i) as Htails.
  { intros per Hper i Hi. rewrite lookup_mark; [| |lia].
    - assert (i ∈ tails per ↔ ∃ k, Some per ≠ None ∧ 1 ≤ k ∧ hit_window need shift (k * per) i) as Ht.
      { unfold tails. rewrite list_elem_of_filter, elem_of_range, segment_tail_iff by lia. naive_solver. }
      case_decide; [naive_solver|]. rewrite Hno. naive_solver.
    - intros j [_ ?%elem_of_range]%list_elem_of_filter. lia. }
  assert (∃ r, (match (match ri with None => Some alignment | Some r => if r =? 0 then None else Some r end) with
      | None => ret (Some (replay mask0))
      | Some segment_tokens =>
          if segment_tokens / block_size <=? need then ret None
          else ret (Some (replay (mark a mask0 (tails (segment_tokens / block_size)))))
      end) s = (Ok r, s) ∧
    match r with None => ∃ per, segment_blocks ri = Some per ∧ per ≤ need
               | Some m => mask_spec a b ri np m end) as Hcore.
  { assert (∀ t, segment_blocks ri = Some (t / block_size) →
      ∃ r, (if t / block_size <=? need then ret None
            else ret (Some (replay (mark a mask0 (tails (t / block_size)))))) s = (Ok r, s) ∧
        match r with None => ∃ per, segment_blocks ri = Some per ∧ per ≤ need
                   | Some m => mask_spec a b ri np m end) as Hpos.
    { intros t Ht. destruct (Z.leb_spec (t / block_size) need) as [Hle|Hgt].
      - exists None. split; [done|eauto].
      - eexists. split; [done|]. cbn beta iota. eapply Hreplay; [|exact Ht|by rewrite len_mark].
        by apply Htails. }
    destruct ri as [r|]; [|by apply Hpos]. destruct (Z.eqb_spec r 0) as [->|Hr].
    - eexists. split; [done|]. cbn beta iota. eapply (Hreplay mask0 None); [|done..].
      intros i Hi. rewrite Hno. naive_solver.
    - apply Hpos. simpl. by rewrite (proj2 (Z.eqb_neq _ _) Hr). }
  destruct Hspec as [-> | ->]; rewrite Hassert; exact Hcore.
Qed.
End mask.

(** ** [cache_blocks] *)

Section caching.
Context `{HashEnv}.

Definition mask_config (m : Manager) : Prop :=
  match cls m, fields (kv_cache_spec m) with
  | SlidingWindowManager, (SlidingWindowSpec bs w | SlidingWindowMLASpec bs w) =>
      0 < bs ∧ 0 < w ∧ scheduler_block_size m mod bs = 0
  | SlidingWindowManager, _ => False
  | _, _ => True
  end.

Lemma reachable_mask_len {S} m a b ri np (s : S) :
  mask_config m → 0 ≤ a ≤ b →
  ∃ r, reachable_block_mask (cls m) a b (Some (scheduler_block_size m)) (kv_cache_spec m)
         (use_eagle m) ri np s = (Ok r, s) ∧
    (∀ mask, r = Some mask → len mask = b - a) ∧
    (cls m ≠ SlidingWindowManager → r = None).
Proof.
  intros Hm Hab. unfold reachable_block_mask, mask_config in *.
  assert (cls m = SlidingWindowManager ∨ cls m ≠ SlidingWindowManager) as [Hc|Hc]
    by (destruct (cls m); auto).
  - rewrite Hc in *.
    assert (∃ bs w, (fields (kv_cache_spec m) = SlidingWindowSpec bs w ∨
      fields (kv_cache_spec m) = SlidingWindowMLASpec bs w) ∧ 0 < bs ∧ 0 < w ∧
      scheduler_block_size m mod bs = 0) as (bs & w & Hf & Hbs & Hw & Hmod)
      by (destruct (fields (kv_cache_spec m)); naive_solver).
    destruct (sliding_mask_eq (kv_cache_spec m) bs w _ (use_eagle m) Hf Hbs Hw Hmod a b ri np s Hab)
      as (r & Heq & Hr). exists r. split_and!; [exact Heq| |done].
    intros mask ->. apply Hr.
  - exists None. split_and!; [|done..]. by destruct (cls m).
Qed.

(** [rid]'s full blocks [nc, nf) are offered under [mask]; the non-null ones it
    allows are filed under the hashes of their indices. *)
Definition filed (p : BlockPool) (m : Manager) (r : Request) (nf : Z) (mask : option (list bool))
    (h : gmap Z bytes) : gmap Z bytes :=
  let nc := cached_at (request_id r) m in
  if nc <? nf then
    file_hashes (kv_cache_group_id m)
      (new_entries (Request.block_hashes r) (block_size m / BlockPool.hash_block_size p)
         (blocks_at (request_id r) m) nc nf mask) h
  else h.

Record caches (r : Request) (nf : Z) (mask : option (list bool)) (s : mstate) (R : list owner)
    (l : list loc) (h h' : gmap Z bytes) (s' : mstate) : Prop := {
  ch_rep : mgr_rep s' R l h';
  ch_filed : h' = filed (ms_pool s) (ms_mgr s) r nf mask h;
  ch_evolves : evolves (ms_pool s) h (ms_pool s') h';
  ch_only : only_changes (request_id r) (ms_mgr s) (ms_mgr s');
  ch_blocks : blocks_at (request_id r) (ms_mgr s') = blocks_at (request_id r) (ms_mgr s);
  ch_cached : cached_at (request_id r) (ms_mgr s') = Z.max (cached_at (request_id r) (ms_mgr s)) nf
}.

(** The request has blocks and hashes for its first [nf] blocks. *)
Definition can_cache (s : mstate) (r : Request) (nf : Z) : Prop :=
  nf ≤ len (blocks_at (request_id r) (ms_mgr s)) ∧
  nf * (block_size (ms_mgr s) / BlockPool.hash_block_size (ms_pool s)) ≤ len (Request.block_hashes r).

Lemma cached_at_nonneg s R l h rid : mgr_rep s R l h → 0 ≤ cached_at rid (ms_mgr s).
Proof.
  intros [_ _ Hc]. unfold cached_at. destruct (_ !! rid) as [n|] eqn:Hn; simpl; [|done].
  by apply (Hc rid).
Qed.

Lemma base_cache_blocks_ok s R l h r nt ri :
  let m := ms_mgr s in
  let nf := nt / block_size m in
  mgr_rep s R l h → mask_config m → enable_caching (ms_pool s) = true → can_cache s r nf →
  ok (base_cache_blocks r nt ri) s (λ _ s', ∃ mask h', caches r nf mask s R l h h' s' ∧
    (cached_at (request_id r) m < nf →
     reachable_block_mask (cls m) (cached_at (request_id r) m) nf (Some (scheduler_block_size m))
       (kv_cache_spec m) (use_eagle m) ri (Some (num_prompt_tokens r)) s = (Ok mask, s)) ∧
    (cls m ≠ SlidingWindowManager → mask = None)).
Proof.
  intros m nf Hrep Hmc He [Hlen Hhs]. pose proof Hrep as [Hown0 Hst Hc]. fold m in Hhs, Hlen.
  set (rid := request_id r) in *. set (nc := cached_at rid m).
  pose proof (cached_at_nonneg _ _ _ _ rid Hrep) as Hnc. fold m nc in Hnc.
  pose proof (proj1 (owners_focus rid _ _ _ _ _) Hown0) as Hown.
  destruct Hst as [Hbs Hnull Hg Hmc' Hhash]. destruct (Hhash He) as [Hhbs Hmod]. fold m in Hbs, Hg, Hmod.
  unfold base_cache_blocks. mgr_steps. fold m rid nc nf.
  assert (∀ mask, filed (ms_pool s) m r nf mask h = if nc <? nf then
    file_hashes (kv_cache_group_id m) (new_entries (Request.block_hashes r)
      (block_size m / BlockPool.hash_block_size (ms_pool s)) (blocks_at rid m) nc nf mask) h else h)
    as Hfiled by done.
  destruct (Z.leb_spec nf nc) as [Hle|Hlt].
  { mgr_steps. exists None, h. split; [|split; [lia|done]].
    split; fold m rid; try done; [rewrite Hfiled; destruct (Z.ltb_spec nc nf); [lia|done]|fold nc; lia]. }
  destruct (reachable_mask_len m nc nf ri (Some (num_prompt_tokens r)) s Hmc ltac:(lia))
    as (mask & Hmask & Hml & Hnone).
  mgr_steps. eapply ok_eq; [exact Hmask|]. mgr_steps. cbn [ms_pool ms_mgr]. apply ok_onp. cbn [ms_pool].
  eapply ok_mono; [by apply (own_cache _ _ _ _ _ _ _ r (block_size m) (kv_cache_group_id m) mask Hown)|].
  intros _ p' [Hown' Hev]. mgr_steps. cbn [ms_pool ms_mgr]. fold m nc in Hev, Hown'.
  eexists mask, _. split; [|done].
  match goal with |- caches _ _ _ _ _ _ _ _ (MkMS ?p ?m') =>
    assert (only_changes rid m m') as Hoc by (unfold m; only_changes) end.
  split; cbn [ms_pool ms_mgr]; fold m rid.
  - eapply mgr_rep_refocus; [exact Hrep|apply Hev|exact Hoc| |].
    + intros n. tables. intros [= <-]. lia.
    + tables. exact Hown'.
  - rewrite Hfiled. destruct (Z.ltb_spec nc nf); [done|lia].
  - exact Hev.
  - exact Hoc.
  - by tables.
  - transitivity nf; [by tables|]. fold nc. lia.
Qed.

(** The blocks [MambaManager] notes are all cached: its mask is [None]. *)
Lemma filed_all p m r nf h i b :
  let nc := cached_at (request_id r) m in
  0 ≤ nc ≤ i → i < nf → NoDup (real (blocks_at (request_id r) m)) →
  blocks_at (request_id r) m !! Z.to_nat i = Some b → b ≠ 0 →
  filed p m r nf None h !! b ≠ None.
Proof.
  intros nc Hi Hlt Hnd Hb Hb0. unfold filed. fold nc. destruct (Z.ltb_spec nc nf); [|lia].
  erewrite file_hashes_in; [done|by apply new_entries_NoDup; [lia|]|].
  apply elem_of_new_entries; [lia|]. exists i. split_and!; done || lia.
Qed.

Lemma note_cached_ok s bs os l h :
  own_rep (ms_pool s) os l h →
  (∀ b, b ∈ bs → 0 ≤ b < num_gpu_blocks (ms_pool s) ∧ (b ≠ 0 → h !! b ≠ None)) →
  ok (for_each bs Mamba_note_cached) s (λ _ s', ∃ c,
    s' = MkMS (ms_pool s) (set_mamba c (last_state_block_idx (ms_mgr s))
           (allocated_block_reqs (ms_mgr s)) (ms_mgr s)) ∧
    ∀ k, k ∈ c ↔ k ∈ cached_blocks_this_step (ms_mgr s) ∨ ∃ b, b ∈ bs ∧ b ≠ 0 ∧ h !! b = Some k).
Proof.
  intros Hown. revert s Hown. induction bs as [|b bs IH]; intros s Hown Hbs; cbn [for_each].
  { mgr_step. exists (cached_blocks_this_step (ms_mgr s)). split; [by destruct s as [? []]|].
    intros k. split; [by left|]. intros [?|(b & ?%elem_of_nil & _)]; done. }
  mgr_step. unfold Mamba_note_cached at 1. mgr_step. destruct (Hbs b ltac:(left)) as [Hb Hh].
  destruct (onq_read_eq _ _ _ b (pr_core _ _ (ow_pool _ _ _ _ Hown)) Hb) as (blk & Hrd & _ & Hnull & Hhash & _).
  apply ok_onp. eapply ok_eq; [exact Hrd|]. rewrite Hnull.
  destruct (Z.eqb_spec b 0) as [->|Hb0].
  - mgr_step. eapply ok_mono; [apply IH; [exact Hown|]|].
    + intros x Hx. apply Hbs. by right.
    + intros [] s' (c & -> & Hc). exists c. split; [done|]. intros k. rewrite Hc. clear.
      setoid_rewrite elem_of_cons. naive_solver.
  - specialize (Hh Hb0). destruct (h !! b) as [key|] eqn:Hkey; [|done].
    cbn [a_hash] in Hhash. rewrite Hkey in Hhash. rewrite Hhash.
    mgr_step. apply ok_assert; [by apply bool_decide_eq_true_2|]. mgr_step. eapply (ok_or_raise _ _ key); [done|].
    mgr_step. eapply ok_mono; [apply IH; [exact Hown|]|].
    + intros x Hx. apply Hbs. by right.
    + intros [] s' (c & -> & Hc). exists c. split; [done|]. intros k. rewrite Hc.
      cbn [ms_mgr set_mamba cached_blocks_this_step]. setoid_rewrite elem_of_cons.
      rewrite elem_of_union, elem_of_singleton. clear - Hb0 Hkey. naive_solver.
Qed.

Lemma mgr_rep_mamba s R l h step last alloc :
  mgr_rep s R l h → mgr_rep (MkMS (ms_pool s) (set_mamba step last alloc (ms_mgr s))) R l h.
Proof. intros [Ho [] Hc]. split; [exact Ho|by split|exact Hc]. Qed.

Lemma Mamba_cache_blocks_ok s R l h r nt ri :
  let m := ms_mgr s in
  let nf := nt / block_size m in
  cls m = MambaManager →
  mgr_rep s R l h → enable_caching (ms_pool s) = true → can_cache s r nf →
  ok (Mamba_cache_blocks r nt ri) s (λ _ s', ∃ h', caches r nf None s R l h h' s').
Proof.
  intros m nf Hcls Hrep He Hcan. set (rid := request_id r).
  pose proof (cached_at_nonneg _ _ _ _ rid Hrep) as Hnc. fold m in Hnc.
  pose proof (proj1 (owners_focus rid _ _ _ _ _) (mg_own _ _ _ _ Hrep)) as Hown. fold m in Hown.
  pose proof (ow_nodup _ _ _ _ Hown _ ltac:(left)) as Hnd. simpl in Hnd.
  unfold Mamba_cache_blocks. mgr_steps. fold rid m.
  eapply ok_mono; [apply (base_cache_blocks_ok s R l h r nt ri Hrep); [|done..]|].
  { unfold mask_config. fold m. by rewrite Hcls. }
  intros [] s1 (mask & h' & [Hrep1 Hf1 Hev1 Hoc1 Hb1 Hc1] & _ & Hnone).
  fold m in Hnone, Hf1, Hoc1, Hb1, Hc1. fold rid nf in Hf1, Hoc1, Hb1, Hc1.
  rewrite Hnone in Hf1 by (by rewrite Hcls). mgr_steps. fold rid. rewrite Hc1.
  destruct (Z.ltb_spec (cached_at rid m) (Z.max (cached_at rid m) nf)) as [Hlt|Hge].
  - mgr_steps. rewrite Hb1. set (s2 := MkMS _ _).
    assert (mgr_rep s2 R l h') as Hrep2.
    { eapply mgr_rep_refocus; [exact Hrep1|done|unfold s2; only_changes| |].
      - intros n Hn. by apply (mg_cached _ _ _ _ Hrep1 rid).
      - pose proof (proj1 (owners_focus rid _ _ _ _ _) (mg_own _ _ _ _ Hrep1)) as Hown1.
        rewrite Hb1 in Hown1. unfold s2. tables. exact Hown1. }
    assert (blocks_at rid (ms_mgr s2) = blocks_at rid m) as Hb2 by (unfold s2; by tables).
    eapply ok_mono; [apply (note_cached_ok s2 _ _ _ h' (mg_own _ _ _ _ Hrep2))|].
    + intros b Hb. apply list_elem_of_lookup in Hb as [j Hj].
      replace j with (Z.to_nat (Z.of_nat j)) in Hj by lia. rewrite lookup_slice in Hj by lia.
      case_decide; [|done]. split.
      * eapply own_rep_range; [exact (proj1 (owners_focus rid _ _ _ _ _) (mg_own _ _ _ _ Hrep2))|left|].
        rewrite Hb2. by apply (list_elem_of_lookup_2 _ _ _ Hj).
      * intros Hb0. rewrite Hf1. eapply filed_all; [..|exact Hj|done]; fold rid; try done; lia.
    + intros [] s' (c & -> & _). exists h'. split; cbn [ms_pool ms_mgr]; try done.
      * by apply mgr_rep_mamba.
      * unfold s2. etransitivity; [exact Hoc1|]. only_changes.
  - mgr_steps. exists h'. by split.
Qed.

(** All the classes whose caching is defined. *)
Lemma cache_blocks_ok s R l h r nt ri :
  let m := ms_mgr s in
  let nf := nt / block_size m in
  cls m ≠ CrossAttentionManager → mgr_rep s R l h → mask_config m →
  enable_caching (ms_pool s) = true → can_cache s r nf →
  ok (cache_blocks r nt ri) s (λ _ s', ∃ mask h', caches r nf mask s R l h h' s').
Proof.
  intros m nf Hcls Hrep Hmc He Hcan. unfold cache_blocks. mgr_steps. fold m.
  pose proof (base_cache_blocks_ok s R l h r nt ri Hrep Hmc He Hcan) as Hbase.
  pose proof (λ Hm, Mamba_cache_blocks_ok s R l h r nt ri Hm Hrep He Hcan) as Hmamba.
  destruct (cls m) eqn:Hm; try done; try (eapply ok_mono; [exact Hbase|]; naive_solver).
  eapply ok_mono; [by apply Hmamba|]. naive_solver.
Qed.
End caching.
