(* ===== verification/MambaProps.v ===== *)
(** * Mamba state blocks in align mode

    [MambaManager] keeps one running-state block and a fixed number of
    speculative blocks per request.  [allocate_new_blocks] moves the previous
    speculative blocks to the end of the table, so a running request takes
    exactly one new block; [remove_skipped_blocks] releases the state block of
    two steps ago. *)

From S2P Require Import Prelude FreeQueue BlockHash Request BlockPool KVCacheSpec SingleType Ownership SingleTypeProps CachingProps.

(** ** The loop that reuses speculative blocks *)

(** What the loop does to the blocks from position [a] on. *)
Record moved (a q : Z) (rb rb' : list loc) : Prop := {
  mv_len : len rb' = len rb + q;
  mv_take : take (Z.to_nat a) rb' = take (Z.to_nat a) rb;
  mv_drop : real (drop (Z.to_nat a) rb') ≡ₚ real (drop (Z.to_nat a) rb)
}.

Lemma reuse_speculative_ok ns k a rb s :
  0 ≤ a → a + Z.of_nat k ≤ len rb →
  ∃ rb', reuse_speculative 0 ns (range a (a + Z.of_nat k)) rb s = (Ok rb', s) ∧
    moved a (Z.max 0 (Z.min (Z.of_nat k) (ns - a))) rb rb'.
Proof.
  revert a rb. induction k as [|k IH]; intros a rb Ha Hlen.
  { rewrite range_nil by lia. exists rb. split; [done|]. split; [lia|done..]. }
  rewrite range_cons by lia. cbn [reuse_speculative].
  destruct (Z.ltb_spec a ns) as [Hlt|Hge].
  2: { exists rb. split; [done|]. split; [lia|done..]. }
  rewrite py_nth_nonneg by done.
  destruct (lookup_lt_is_Some_2 rb (Z.to_nat a)) as [b Hb]; [unfold len in Hlen; lia|].
  rewrite Hb. erewrite bind_eq by done. rewrite py_set_nonneg by done.
  set (rb1 := <[Z.to_nat a := 0]> (rb ++ [b])).
  assert (len rb1 = len rb + 1) as Hlen1 by (unfold rb1, len; rewrite length_insert, length_app; simpl; lia).
  destruct (IH (a + 1) rb1) as (rb' & Heq & [Hl Ht Hd]); [lia..|].
  replace (a + Z.of_nat (S k)) with (a + 1 + Z.of_nat k) by lia. exists rb'. split; [exact Heq|].
  replace (Z.to_nat (a + 1)) with (S (Z.to_nat a)) in * by lia.
  assert (rb1 !! Z.to_nat a = Some 0) as H0.
  { unfold rb1. apply list_lookup_insert_eq. rewrite length_app. unfold len in Hlen. lia. }
  assert (rb' !! Z.to_nat a = Some 0) as H0'.
  { rewrite <-(lookup_take_lt _ (S (Z.to_nat a))), Ht, lookup_take_lt by lia. done. }
  split; [lia| |].
  - transitivity (take (Z.to_nat a) rb1).
    + apply (f_equal (take (Z.to_nat a))) in Ht. rewrite !take_take, !Nat.min_l in Ht by lia. done.
    + unfold rb1. rewrite take_insert_ge by lia. apply take_app_le. unfold len in Hlen. lia.
  - rewrite (drop_S _ _ _ H0'), (drop_S _ _ _ Hb).
    rewrite (real_app [0] (drop _ rb') : real (0 :: _) = _), (real_app [b] (drop _ rb) : real (b :: _) = _).
    change (real [0]) with (@nil loc). rewrite app_nil_l, Hd. unfold rb1.
    rewrite drop_insert_lt by lia.
    rewrite drop_app_le by (unfold len in Hlen; lia). rewrite real_app. apply Permutation_app_comm.
Qed.

Lemma moved_real a q rb rb' : moved a q rb rb' → real rb' ≡ₚ real rb.
Proof.
  intros [_ Ht Hd]. rewrite <-(take_drop (Z.to_nat a) rb'), <-(take_drop (Z.to_nat a) rb).
  by rewrite !real_app, Ht, Hd.
Qed.

(** Blocks before position [n ≤ a] keep their place. *)
Lemma moved_unc a q rb rb' n x :
  moved a q rb rb' → n ≤ a → x ∈ unc (rb', n) → x ∈ unc (rb, n).
Proof.
  intros [_ Ht Hd] Hn. unfold unc. cbn [fst snd].
  assert (∀ l : list loc, drop (Z.to_nat n) l
    = drop (Z.to_nat n) (take (Z.to_nat a) l) ++ drop (Z.to_nat a) l) as Hsplit.
  { intros l. rewrite <-(take_drop (Z.to_nat a) l) at 1.
    destruct (decide (Z.to_nat a ≤ length l)%nat).
    - apply drop_app_le. rewrite length_take. lia.
    - rewrite (drop_ge l (Z.to_nat a)) by lia. by rewrite !app_nil_r. }
  rewrite (Hsplit rb'), (Hsplit rb), !real_app, Ht, Hd. done.
Qed.

Section mamba.
Context `{HashEnv}.

Definition align_required (m : Manager) (nt : Z) : Z :=
  cdiv nt (block_size m) + num_speculative_blocks m.

(** The blocks [allocate_new_blocks] takes from the pool. *)
Definition align_need (m : Manager) (rid : string) (nt : Z) : Z :=
  let missing := align_required m nt - len (blocks_at rid m) in
  if missing =? 0 then 0
  else if bool_decide (rid ∈ allocated_block_reqs m) then 1
  else Z.min missing (num_speculative_blocks m + 1).

(** A request that has run before holds its state and speculative blocks, and
    the speculative ones were never offered to the cache. *)
Definition align_inv (p : BlockPool) (m : Manager) (rid : string) : Prop :=
  0 ≤ num_speculative_blocks m ∧
  (rid ∈ allocated_block_reqs m →
     num_speculative_blocks m + 1 ≤ len (blocks_at rid m) ∧
     (enable_caching p = true →
        cached_at rid m ≤ len (blocks_at rid m) - num_speculative_blocks m)) ∧
  (∀ i, last_state_block_idx m !! rid = Some i → 0 ≤ i < len (blocks_at rid m)).

(** The table before the new blocks: padding and moved blocks only. *)
Lemma align_rearrange m rid nt s cur :
  let sp := num_speculative_blocks m in
  let req := align_required m nt in
  let ns := req - sp - 1 in
  let padded := if len cur <? ns then cur ++ replicate (Z.to_nat (ns - len cur)) 0 else cur in
  let alloc := bool_decide (rid ∈ allocated_block_reqs m) in
  0 ≤ sp → len cur < req → (rid ∈ allocated_block_reqs m → sp + 1 ≤ len cur) →
  ∃ rb, (if alloc then reuse_speculative 0 ns (range (len cur - sp) (len cur)) padded
         else ret padded) s = (Ok rb, s) ∧
    req - len rb = (if alloc then 1 else Z.min (req - len cur) (sp + 1)) ∧
    real rb ≡ₚ real cur ∧
    ∀ n x, (rid ∈ allocated_block_reqs m → n ≤ len cur - sp) → x ∈ unc (rb, n) → x ∈ unc (cur, n).
Proof.
  intros sp req ns padded alloc Hsp Hlt Halloc.
  assert (len padded = Z.max (len cur) ns) as Hlp.
  { unfold padded. destruct (Z.ltb_spec (len cur) ns); [|lia].
    rewrite len_app. unfold len at 2. rewrite length_replicate. lia. }
  assert (real padded = real cur) as Hrp.
  { unfold padded. case_match; [|done]. by rewrite real_app, real_replicate, app_nil_r. }
  assert (∀ n x, x ∈ unc (padded, n) → x ∈ unc (cur, n)) as Hup.
  { intros n x. unfold padded. case_match; [|done]. rewrite !elem_of_unc.
    intros (Hx & i & Hi & Hl). split; [done|]. exists i. split; [done|].
    apply lookup_app_Some in Hl as [?|[_ [-> _]%lookup_replicate_1]]; done. }
  unfold alloc. destruct (decide (rid ∈ allocated_block_reqs m)) as [Hin|Hout].
  - rewrite bool_decide_eq_true_2 by done. specialize (Halloc Hin). pose proof (len_nonneg cur).
    destruct (reuse_speculative_ok ns (Z.to_nat sp) (len cur - sp) padded s) as (rb & Heq & Hmv); [lia..|].
    replace (len cur - sp + Z.of_nat (Z.to_nat sp)) with (len cur) in Heq by lia.
    exists rb. split_and!; [exact Heq|rewrite (mv_len _ _ _ _ Hmv); lia| |].
    + by rewrite (moved_real _ _ _ _ Hmv), Hrp.
    + intros n x Hn Hx. eapply Hup, moved_unc; [exact Hmv|by apply Hn|exact Hx].
  - rewrite bool_decide_eq_false_2 by done. exists padded. split_and!; [done|lia|by rewrite Hrp|].
    intros n x _. apply Hup.
Qed.

Lemma align_need_range m rid nt :
  0 ≤ num_speculative_blocks m → len (blocks_at rid m) ≤ align_required m nt → 0 ≤ align_need m rid nt.
Proof. intros. unfold align_need. repeat case_match; lia. Qed.

(** What [rid] gets: its blocks rearranged, then [taken] from the front of the
    free list. *)
Record align_extends (rid : string) (s : mstate) (R : list owner) (l : list loc) (h : gmap Z bytes)
    (nt : Z) (taken : list loc) (s' : mstate) : Prop := {
  ax_rep : mgr_rep s' R (drop (length taken) l) (unhash taken h);
  ax_new : taken = take (length taken) l;
  ax_evolves : evolves (ms_pool s) h (ms_pool s') (unhash taken h);
  ax_only : only_changes rid (ms_mgr s) (ms_mgr s');
  ax_blocks : ∃ kept, blocks_at rid (ms_mgr s') = kept ++ taken ∧
    real kept ≡ₚ real (blocks_at rid (ms_mgr s));
  ax_len : len (blocks_at rid (ms_mgr s')) = align_required (ms_mgr s) nt;
  ax_cached : num_cached_block (ms_mgr s') = num_cached_block (ms_mgr s);
  ax_inv : align_inv (ms_pool s') (ms_mgr s') rid
}.

Lemma Mamba_allocate_align_ok s R l h rid nt :
  let m := ms_mgr s in
  mgr_rep s R l h → align_inv (ms_pool s) m rid → 0 < nt →
  (enable_caching (ms_pool s) = true → cached_at rid m ≤ cdiv nt (block_size m)) →
  len (blocks_at rid m) ≤ align_required m nt → align_need m rid nt ≤ len l →
  ok (Mamba_allocate_align rid nt) s (λ _ s',
    ∃ taken, len taken = align_need m rid nt ∧ align_extends rid s R l h nt taken s').
Proof.
  intros m Hrep (Hsp & Halloc & Hidx) Hnt Hcache Hle Hfit. pose proof Hrep as [Hown0 Hst Hc].
  pose proof (proj1 (owners_focus rid _ _ _ _ _) Hown0) as Hown. fold m in Hown.
  set (cur := blocks_at rid m) in *. unfold Mamba_allocate_align. mgr_steps.
  cbn [ms_mgr ms_pool block_size set_req_to_blocks set_tables allocated_block_reqs mgr_null_block kv_cache_spec].
  fold m. fold cur. change (num_speculative_blocks (set_req_to_blocks _ _)) with (num_speculative_blocks m).
  set (sp := num_speculative_blocks m) in *. fold sp.
  set (req := align_required m nt) in *.
  change (cdiv nt (block_size m) + sp) with req. assert (mgr_null_block m = 0) as -> by apply Hst.
  unfold align_need in Hfit |- *. fold sp req cur in Hfit |- *.
  destruct (Z.eqb_spec req (len cur)) as [Heq|Hne].
  { mgr_steps. exists []. replace (req - len cur =? 0) with true by (symmetry; apply Z.eqb_eq; lia).
    split; [done|]. assert (only_changes rid m (set_req_to_blocks (<[rid:=cur]> (req_to_blocks m)) m)) as Hoc
      by only_changes.
    split; cbn [ms_pool ms_mgr length take drop unhash foldr]; try done.
    - eapply mgr_rep_refocus; [exact Hrep|done|exact Hoc| |].
      + intros n Hn. by apply (Hc rid).
      + tables. exact Hown.
    - exists cur. tables. simpl. by rewrite app_nil_r.
    - unfold blocks_at at 1. tables. done.
    - split_and!; [done|..]; tables; done. }
  replace (req - len cur =? 0) with false in * by (symmetry; apply Z.eqb_neq; lia).
  mgr_step. apply ok_assert; [apply Z.ltb_lt; lia|]. mgr_step.
  set (alloc := bool_decide (rid ∈ allocated_block_reqs m)) in *.
  set (m1 := set_req_to_blocks (<[rid:=cur]> (req_to_blocks m)) m).
  apply (ok_mono _ _ (λ _ s1, ∃ last, s1 = MkMS (ms_pool s)
    (set_mamba (cached_blocks_this_step m) last (allocated_block_reqs m) m1) ∧
    ∀ i, last !! rid = Some i → 0 ≤ i < len cur)).
  { unfold alloc. case_bool_decide as Hin; [|destruct (Z.ltb_spec 0 (len cur)) as [H0|H0]]; mgr_steps.
    - eexists. split; [done|]. intros i. rewrite lookup_insert_eq. intros [= <-].
      destruct (Halloc Hin). lia.
    - eexists. split; [done|]. intros i. rewrite lookup_insert_eq. intros [= <-]. lia.
    - exists (last_state_block_idx m). split; [by destruct m|done]. }
  intros [] s1 (last & -> & Hlast). mgr_step.
  destruct (align_rearrange m rid nt (MkMS (ms_pool s)
    (set_mamba (cached_blocks_this_step m) last (allocated_block_reqs m) m1)) cur) as (rb & Hrb & Hneed & Hreal & Hunc);
    [done|lia|by intros Hin; apply Halloc|].
  fold sp req alloc in Hrb, Hneed. eapply ok_eq; [exact Hrb|]. mgr_steps. rewrite Hneed.
  apply ok_assert; [unfold alloc; case_bool_decide; apply Z.leb_le; lia|].
  cbn [ms_pool ms_mgr]. mgr_step. apply ok_onp. cbn [ms_pool].
  assert (own_rep (ms_pool s) ((rb, cached_at rid m) :: rest rid m ++ R) l h) as Hown1.
  { eapply own_rep_change; [symmetry; exact Hreal| |exact Hown].
    intros He x. apply Hunc. intros Hin. by apply Halloc. }
  eapply ok_mono; [apply (own_get _ _ _ _ _ _ _ Hown1)|].
  { split; [|exact Hfit]. unfold alloc. case_bool_decide; lia. }
  intros taken p' (Htk & Hown2 & Hev). mgr_steps. cbn [ms_pool ms_mgr].
  set (k := if alloc then 1 else _) in *.
  assert (0 ≤ k) as Hk by (unfold k, alloc; case_bool_decide; lia).
  assert (length taken = Z.to_nat k) as Hlt.
  { rewrite Htk, length_take. unfold len in Hfit. lia. }
  exists taken. split; [unfold len; lia|].
  match goal with |- align_extends _ _ _ _ _ _ _ (MkMS ?p ?mm) => set (m' := mm) end.
  assert (only_changes rid m m') as Hoc by (unfold m', m1; only_changes).
  assert (blocks_at rid m' = rb ++ taken) as Hb' by (unfold m'; by tables).
  assert (num_cached_block m' = num_cached_block m) as Hc' by done.
  assert (num_speculative_blocks m' = sp ∧ last_state_block_idx m' = last) as [Hsp' Hlast'] by done.
  assert (len (rb ++ taken) = req) as Hlen by (rewrite len_app; unfold len at 2; lia).
  clearbody m'. split; cbn [ms_pool ms_mgr]; try done.
  - rewrite Hlt. eapply mgr_rep_refocus; [exact Hrep|apply Hev|exact Hoc| |].
    + intros n Hn. rewrite Hc' in Hn. by apply (Hc rid).
    + unfold cached_at. rewrite Hb', Hc'. exact Hown2.
  - by rewrite Hlt.
  - by exists rb.
  - by rewrite Hb'.
  - unfold align_inv. rewrite Hb', Hsp', Hlast', Hlen. pose proof (len_nonneg cur).
    split_and!; [done| |].
    + intros _. split.
      { pose proof (cdiv_spec nt (block_size m) (st_bs _ _ Hst)) as Hcd.
        pose proof (st_bs _ _ Hst) as Hbs. fold m in Hbs. unfold req, align_required. fold sp. nia. }
      intros He.
      assert (enable_caching (ms_pool s) = true) as He' by (rewrite <-He; symmetry; apply Hev).
      specialize (Hcache He'). unfold cached_at in *. rewrite Hc'.
      unfold req, align_required. fold sp. lia.
    + intros i Hi. destruct (Hlast i Hi). lia.
Qed.

(** ** Recycling *)

(** Some blocks of [rid] become null and are released. *)
Record thins (rid : string) (s : mstate) (R : list owner) (l : list loc) (h : gmap Z bytes)
    (l' : list loc) (s' : mstate) : Prop := {
  th_rep : mgr_rep s' R l' h;
  th_evolves : evolves (ms_pool s) h (ms_pool s') h;
  th_only : only_changes rid (ms_mgr s) (ms_mgr s');
  th_len : len (blocks_at rid (ms_mgr s')) = len (blocks_at rid (ms_mgr s));
  th_blocks : ∀ i b, blocks_at rid (ms_mgr s') !! i = Some b →
    b = 0 ∨ blocks_at rid (ms_mgr s) !! i = Some b;
  th_cached : num_cached_block (ms_mgr s') = num_cached_block (ms_mgr s);
  th_free : l ⊆+ l'
}.

Lemma thins_refl rid s R l h : mgr_rep s R l h → thins rid s R l h l s.
Proof. intros. split; try done. by right. Qed.

Lemma thins_trans rid s R l h l1 s1 l2 s2 :
  thins rid s R l h l1 s1 → thins rid s1 R l1 h l2 s2 → thins rid s R l h l2 s2.
Proof.
  intros [] []. split; try done; try (by etransitivity); [by eapply evolves_trans|].
  intros i b Hb. destruct (th_blocks1 i b Hb); auto.
Qed.

Lemma recycles_thins rid s R l h j k l' s' : recycles rid s R l h j k l' s' → thins rid s R l h l' s'.
Proof.
  intros [Hr He Ho Hb Hbl Hc Hf]. split; try done.
  - rewrite Hbl. unfold len. by rewrite length_nulled.
  - intros i b. rewrite Hbl. intros Hi. destruct (decide (b = 0)); [by left|right].
    by destruct (lookup_nulled _ _ _ _ _ Hb Hi).
Qed.

Lemma nulled_one bs i : (i < length bs)%nat → nulled bs i (S i) = <[i := 0]> bs.
Proof.
  intros Hi. unfold nulled. replace (S i - i)%nat with 1%nat by lia.
  by rewrite insert_take_drop by done.
Qed.

(** Releasing the block at one index. *)
Lemma drop_one_ok s R l h rid i b :
  mgr_rep s R l h → 0 ≤ i → blocks_at rid (ms_mgr s) !! Z.to_nat i = Some b →
  ok (onp (free_blocks [b] false) ;;; put_blocks rid (py_set (blocks_at rid (ms_mgr s)) i 0)) s
    (λ _ s', ∃ l', thins rid s R l h l' s' ∧
       last_state_block_idx (ms_mgr s') = last_state_block_idx (ms_mgr s) ∧
       allocated_block_reqs (ms_mgr s') = allocated_block_reqs (ms_mgr s)).
Proof.
  intros Hrep Hi Hb. pose proof Hrep as [Hown0 Hst Hc].
  pose proof (proj1 (owners_focus rid _ _ _ _ _) Hown0) as Hown.
  set (cur := blocks_at rid (ms_mgr s)) in *. pose proof (lookup_lt_Some _ _ _ Hb) as Hlt.
  assert (Z.to_nat i ≤ S (Z.to_nat i) ≤ length cur)%nat as Hk by lia.
  assert (segment cur (Z.to_nat i) (S (Z.to_nat i)) = [b]) as Hseg.
  { unfold segment. rewrite (drop_S _ _ _ Hb). by replace (S (Z.to_nat i) - Z.to_nat i)%nat with 1%nat by lia. }
  pose proof (release_segment _ _ _ _ _ _ _ _ Hk Hown) as Hown1. rewrite Hseg, nulled_one in Hown1 by lia.
  mgr_step. apply ok_onp. eapply ok_mono; [by apply (own_free _ _ _ _ _ _ [b] false Hown1)|].
  intros [] p' [Hown' Hev]. mgr_steps. cbn [ms_pool ms_mgr]. rewrite py_set_nonneg by done.
  match goal with |- ∃ l', thins _ _ _ _ _ _ (MkMS ?p ?m') ∧ _ =>
    assert (only_changes rid (ms_mgr s) m') as Hoc by only_changes end.
  eexists. split; [|done]. split; cbn [ms_pool ms_mgr].
  - eapply mgr_rep_refocus; [exact Hrep|apply Hev|exact Hoc| |].
    + intros n Hn. by apply (Hc rid).
    + tables. exact Hown'.
  - exact Hev.
  - exact Hoc.
  - tables. simpl. unfold len. by rewrite length_insert.
  - intros j x. tables. simpl. intros Hj.
    apply list_lookup_insert_Some in Hj as [(_ & <- & _)|[_ ?]]; [by left|by right].
  - done.
  - cbn [a_free a_release]. by apply submseteq_inserts_r.
Qed.

Lemma Mamba_remove_skipped_blocks_ok s R l h rid total :
  mgr_rep s R l h → is_mamba (kv_cache_spec (ms_mgr s)) = true → align_inv (ms_pool s) (ms_mgr s) rid →
  ok (Mamba_remove_skipped_blocks rid total) s (λ _ s', ∃ l', thins rid s R l h l' s' ∧
    align_inv (ms_pool s') (ms_mgr s') rid).
Proof.
  intros Hrep Hm Hinv. unfold Mamba_remove_skipped_blocks. mgr_steps. apply ok_assert; [done|].
  set (nct := Z.max 0 _).
  assert (∀ s' l', thins rid s R l h l' s' →
    last_state_block_idx (ms_mgr s') = last_state_block_idx (ms_mgr s) →
    allocated_block_reqs (ms_mgr s') = allocated_block_reqs (ms_mgr s) →
    align_inv (ms_pool s') (ms_mgr s') rid) as Hkeep.
  { intros s' l' Hth H1 H2. unfold align_inv, cached_at.
    rewrite H1, H2, (th_len _ _ _ _ _ _ _ Hth), (th_cached _ _ _ _ _ _ _ Hth).
    assert (num_speculative_blocks (ms_mgr s') = num_speculative_blocks (ms_mgr s)) as ->.
    { unfold num_speculative_blocks. destruct (th_only _ _ _ _ _ _ _ Hth) as (_ & _ & _ & Hsp & _). by rewrite Hsp. }
    assert (enable_caching (ms_pool s') = enable_caching (ms_pool s)) as ->; [|exact Hinv].
    apply (th_evolves _ _ _ _ _ _ _ Hth). }
  mgr_step. eapply ok_mono; [by apply base_remove_skipped_blocks_ok|].
  intros [] s1 (j & l1 & Hrec & _ & _ & Hl1 & Ha1). apply recycles_thins in Hrec as Hth1.
  assert (mgr_rep s1 R l1 h) as Hrep1 by apply Hth1.
  case_bool_decide; [|mgr_steps; exists l1; eauto].
  destruct (last_state_block_idx (ms_mgr s) !! rid) as [i|] eqn:Hi; [|mgr_steps; exists l1; eauto].
  case_match; [|mgr_steps; exists l1; eauto].
  destruct Hinv as (_ & _ & Hidx). pose proof (Hidx i Hi) as Hib.
  assert (mgr_null_block (ms_mgr s) = 0) as -> by apply Hrep.
  destruct (lookup_lt_is_Some_2 (blocks_at rid (ms_mgr s1)) (Z.to_nat i)) as [b Hb].
  { pose proof (th_len _ _ _ _ _ _ _ Hth1) as Hlen. unfold len in *. lia. }
  mgr_step. mgr_step. set (s2 := MkMS _ _).
  assert (mgr_rep s2 R l1 h ∧ blocks_at rid (ms_mgr s2) = blocks_at rid (ms_mgr s1)) as [Hrep2 Hb2].
  { split; [|unfold s2; by tables]. eapply mgr_rep_refocus; [exact Hrep1|done|unfold s2; only_changes| |].
    - intros n Hn. by apply (mg_cached _ _ _ _ Hrep1 rid).
    - unfold s2. tables. exact (proj1 (owners_focus rid _ _ _ _ _) (mg_own _ _ _ _ Hrep1)). }
  assert (thins rid s R l h l1 s2) as Hth2.
  { eapply thins_trans; [exact Hth1|]. split; try done; [|by rewrite Hb2|by rewrite Hb2; right].
    unfold s2. only_changes. }
  mgr_step. rewrite py_nth_nonneg by lia. eapply ok_or_raise; [exact Hb|].
  destruct (Z.eqb_spec b 0) as [->|Hb0]; [mgr_steps; exists l1; eauto|].
  rewrite <-Hb2 in Hb |- *. eapply ok_mono; [apply (drop_one_ok s2 R l1 h rid i b Hrep2); [lia|done]|].
  intros [] s3 (l3 & Hth3 & Hl3 & Ha3). exists l3.
  assert (thins rid s R l h l3 s3) by by eapply thins_trans. split; [done|].
  eapply Hkeep; [done|by rewrite Hl3|by rewrite Ha3].
Qed.
End mamba.
