(* ===== verification/CacheHit.v ===== *)
(** * Cache-hit search

    The [find_longest_cache_hit] class methods of
    src/vllm/vllm/v1/core/single_type_kv_cache_manager.py: how many leading
    tokens of a request are already in the prefix cache for a kind of
    attention, and in which blocks.  The methods only read the pool. *)

From S2P Require Import Prelude FreeQueue BlockHash Request BlockPool KVCacheSpec SingleType.

Section cache_hit.
Context `{HashEnv}.

(** [if cached_block := block_pool.get_cached_block(...)]: an empty list is
    false. *)
Definition lookup_hit (h : bytes) (kv_cache_group_ids : list Z) : M BlockPool (option (list loc)) :=
  let* r := get_cached_block h kv_cache_group_ids in
  ret (match r with Some [] => None | _ => r end).

(** [for computed, cached in zip(computed_blocks, cached_block):
    computed.append(cached)] *)
Fixpoint append_each (computed : list (list loc)) (cached : list loc) : list (list loc) :=
  match computed, cached with
  | c :: computed', b :: cached' => (c ++ [b]) :: append_each computed' cached'
  | _, _ => computed
  end.
(** ... [computed[i] = cached] *)
Fixpoint set_each (i : Z) (computed : list (list loc)) (cached : list loc) : list (list loc) :=
  match computed, cached with
  | c :: computed', b :: cached' => py_set c i b :: set_each i computed' cached'
  | _, _ => computed
  end.

(** [for computed in computed_blocks: computed.pop()] *)
Definition pop_each {S} (computed : list (list loc)) : M S (list (list loc)) :=
  map_each (λ c : list loc, match c with [] => raise IndexError | _ => ret (removelast c) end) computed.

(** [len(computed_blocks[0])] *)
Definition head_len {S} (computed : list (list loc)) : M S Z :=
  match computed with [] => raise IndexError | c :: _ => ret (len c) end.

(** [if drop_eagle_block and computed_blocks[0]: pop every list] *)
Definition drop_eagle {S} (drop_eagle_block : bool) (computed : list (list loc))
  : M S (list (list loc)) :=
  if drop_eagle_block then
    let* n := head_len computed in
    if n =? 0 then ret computed else pop_each computed
  else ret computed.

(** The [while] loop that restores the alignment of the hit length; every
    iteration shortens the lists, so their length is enough fuel. *)
Fixpoint realign_loop {S} (fuel : nat) (block_size alignment_tokens : Z)
    (computed : list (list loc)) : M S (list (list loc)) :=
  match fuel with
  | O => raise OutOfFuel
  | S fuel =>
      if block_size =? alignment_tokens then ret computed
      else
        let* n := head_len computed in
        if (n * block_size) mod alignment_tokens =? 0 then ret computed
        else
          let* computed := pop_each computed in
          realign_loop fuel block_size alignment_tokens computed
  end.
Definition realign {S} (block_size alignment_tokens : Z) (computed : list (list loc))
  : M S (list (list loc)) :=
  realign_loop (Datatypes.S (length (default [] (head computed)))) block_size alignment_tokens computed.

(** ** Full attention *)

(** The scan over the hashes, left to right, up to the first miss. *)
Fixpoint prefix_scan (hs : list bytes) (kv_cache_group_ids : list Z) (computed : list (list loc))
  : M BlockPool (list (list loc)) :=
  match hs with
  | [] => ret computed
  | h :: hs' =>
      let* r := lookup_hit h kv_cache_group_ids in
      match r with
      | Some cached => prefix_scan hs' kv_cache_group_ids (append_each computed cached)
      | None => ret computed
      end
  end.

Definition FullAttention_find_longest_cache_hit (block_hashes : BlockHashList) (max_length : Z)
    (kv_cache_group_ids : list Z) (kv_cache_spec : KVCacheSpec) (drop_eagle_block : bool)
    (alignment_tokens dcp_world_size pcp_world_size : Z) : M BlockPool (list (list loc)) :=
  assert_ (is_full_attention kv_cache_spec || is_chunked_local kv_cache_spec) ;;;
  let block_size := spec_block_size kv_cache_spec in
  let block_size :=
    if 1 <? dcp_world_size * pcp_world_size
    then block_size * (dcp_world_size * pcp_world_size) else block_size in
  let max_num_blocks := max_length / block_size in
  if max_num_blocks <? 0 then raise ValueError
  else
    let* computed := prefix_scan (slice_to (hashes_iter block_hashes) max_num_blocks)
      kv_cache_group_ids (replicate (length kv_cache_group_ids) []) in
    let* computed := drop_eagle drop_eagle_block computed in
    realign block_size alignment_tokens computed.

(** ** Sliding window *)

(** The scan from right to left; the result is the lists, the number of
    contiguous hits and whether a whole window was found. *)
Fixpoint window_scan (block_hashes : BlockHashList) (kv_cache_group_ids : list Z)
    (block_size alignment_tokens : Z) (drop_eagle_block : bool) (need : Z) (idxs : list Z)
    (computed : list (list loc)) (num_contiguous_blocks : Z)
  : M BlockPool (list (list loc) * Z * bool) :=
  match idxs with
  | [] => ret (computed, num_contiguous_blocks, false)
  | i :: idxs' =>
      let again := window_scan block_hashes kv_cache_group_ids block_size alignment_tokens
        drop_eagle_block need idxs' in
      let* h := hashes_nth block_hashes i in
      let* r := lookup_hit h kv_cache_group_ids in
      match r with
      | Some cached =>
          let post_pop_blocks := if drop_eagle_block then i else i + 1 in
          if (num_contiguous_blocks =? 0) && negb (block_size =? alignment_tokens)
             && negb ((post_pop_blocks * block_size) mod alignment_tokens =? 0)
          then again computed num_contiguous_blocks
          else
            let computed := set_each i computed cached in
            let num_contiguous_blocks := num_contiguous_blocks + 1 in
            if need <=? num_contiguous_blocks
            then ret ((λ c, slice_to c (i + num_contiguous_blocks)) <$> computed,
                      num_contiguous_blocks, true)
            else again computed num_contiguous_blocks
      | None => again computed 0
      end
  end.

Definition SlidingWindow_find_longest_cache_hit (block_hashes : BlockHashList) (max_length : Z)
    (kv_cache_group_ids : list Z) (kv_cache_spec : KVCacheSpec) (drop_eagle_block : bool)
    (alignment_tokens dcp_world_size pcp_world_size : Z) : M BlockPool (list (list loc)) :=
  match fields kv_cache_spec with
  | SlidingWindowSpec block_size sliding_window | SlidingWindowMLASpec block_size sliding_window =>
      assert_ (dcp_world_size =? 1) ;;;
      assert_ (pcp_world_size =? 1) ;;;
      let need := contiguous_blocks_for_hit sliding_window block_size drop_eagle_block in
      let max_num_blocks := max_length / block_size in
      let* null := gets null_block in
      let computed := replicate (length kv_cache_group_ids)
        (replicate (Z.to_nat max_num_blocks) null) in
      let* st := window_scan block_hashes kv_cache_group_ids block_size alignment_tokens
        drop_eagle_block need (range_down 0 max_num_blocks) computed 0 in
      let '(computed, num_contiguous_blocks, match_found) := st in
      let* computed :=
        if (match_found : bool) then ret computed
        else realign block_size alignment_tokens
               ((λ c, slice_to c num_contiguous_blocks) <$> computed) in
      if drop_eagle_block then
        let* n := head_len computed in
        if n =? 0 then ret computed
        else
          let* computed := pop_each computed in
          realign block_size alignment_tokens computed
      else ret computed
  | _ => raise AssertionError
  end.

(** ** Chunked local attention *)

Fixpoint chunk_scan (block_hashes : BlockHashList) (kv_cache_group_ids : list Z) (idxs : list Z)
    (computed : list (list loc)) : M BlockPool (list (list loc)) :=
  match idxs with
  | [] => ret computed
  | i :: idxs' =>
      let* h := hashes_nth block_hashes i in
      let* r := lookup_hit h kv_cache_group_ids in
      match r with
      | Some cached => chunk_scan block_hashes kv_cache_group_ids idxs' (append_each computed cached)
      | None => ret computed
      end
  end.

Definition ChunkedLocal_find_longest_cache_hit (block_hashes : BlockHashList) (max_length : Z)
    (kv_cache_group_ids : list Z) (kv_cache_spec : KVCacheSpec) (drop_eagle_block : bool)
    (alignment_tokens dcp_world_size pcp_world_size : Z) : M BlockPool (list (list loc)) :=
  match fields kv_cache_spec with
  | ChunkedLocalAttentionSpec block_size attention_chunk_size =>
      assert_ (negb drop_eagle_block) ;;;
      assert_ (dcp_world_size =? 1) ;;;
      assert_ (pcp_world_size =? 1) ;;;
      assert_ (block_size =? alignment_tokens) ;;;
      let max_num_blocks := max_length / block_size in
      let local_attention_start_idx :=
        if 0 <? max_length then max_length / attention_chunk_size * attention_chunk_size else 0 in
      let local_attention_start_block_idx := local_attention_start_idx / block_size in
      let* null := gets null_block in
      chunk_scan block_hashes kv_cache_group_ids
        (range local_attention_start_block_idx max_num_blocks)
        (replicate (length kv_cache_group_ids)
           (replicate (Z.to_nat local_attention_start_block_idx) null))
  | _ => raise AssertionError
  end.

(** ** Mamba *)

Fixpoint state_scan (block_hashes : BlockHashList) (kv_cache_group_ids : list Z)
    (block_size alignment_tokens : Z) (idxs : list Z) (computed : list (list loc))
  : M BlockPool (list (list loc)) :=
  match idxs with
  | [] => ret computed
  | i :: idxs' =>
      let* h := hashes_nth block_hashes i in
      let* r := lookup_hit h kv_cache_group_ids in
      match r with
      | Some cached =>
          if negb (block_size =? alignment_tokens)
             && negb (((i + 1) * block_size) mod alignment_tokens =? 0)
          then state_scan block_hashes kv_cache_group_ids block_size alignment_tokens idxs' computed
          else
            let* null := gets null_block in
            ret (append_each ((λ c, c ++ replicate (Z.to_nat i) null) <$> computed) cached)
      | None => state_scan block_hashes kv_cache_group_ids block_size alignment_tokens idxs' computed
      end
  end.

Definition Mamba_find_longest_cache_hit (block_hashes : BlockHashList) (max_length : Z)
    (kv_cache_group_ids : list Z) (kv_cache_spec : KVCacheSpec) (drop_eagle_block : bool)
    (alignment_tokens dcp_world_size pcp_world_size : Z) : M BlockPool (list (list loc)) :=
  assert_ (is_mamba kv_cache_spec) ;;;
  assert_ (dcp_world_size =? 1) ;;;
  assert_ (pcp_world_size =? 1) ;;;
  let block_size := spec_block_size kv_cache_spec in
  let max_num_blocks := max_length / block_size in
  state_scan block_hashes kv_cache_group_ids block_size alignment_tokens
    (range_down 0 max_num_blocks) (replicate (length kv_cache_group_ids) []).

(** ** Cross attention *)

Definition Cross_find_longest_cache_hit (kv_cache_spec : KVCacheSpec)
  : M BlockPool (list (list loc)) :=
  assert_ (match fields kv_cache_spec with CrossAttentionSpec _ => true | _ => false end) ;;;
  raise NotImplementedError.

Definition find_longest_cache_hit (c : manager_class) (block_hashes : BlockHashList)
    (max_length : Z) (kv_cache_group_ids : list Z) (kv_cache_spec : KVCacheSpec)
    (drop_eagle_block : bool) (alignment_tokens dcp_world_size pcp_world_size : Z)
  : M BlockPool (list (list loc)) :=
  match c with
  | FullAttentionManager | SinkFullAttentionManager =>
      FullAttention_find_longest_cache_hit block_hashes max_length kv_cache_group_ids
        kv_cache_spec drop_eagle_block alignment_tokens dcp_world_size pcp_world_size
  | SlidingWindowManager =>
      SlidingWindow_find_longest_cache_hit block_hashes max_length kv_cache_group_ids
        kv_cache_spec drop_eagle_block alignment_tokens dcp_world_size pcp_world_size
  | ChunkedLocalAttentionManager =>
      ChunkedLocal_find_longest_cache_hit block_hashes max_length kv_cache_group_ids
        kv_cache_spec drop_eagle_block alignment_tokens dcp_world_size pcp_world_size
  | MambaManager =>
      Mamba_find_longest_cache_hit block_hashes max_length kv_cache_group_ids
        kv_cache_spec drop_eagle_block alignment_tokens dcp_world_size pcp_world_size
  | CrossAttentionManager => Cross_find_longest_cache_hit kv_cache_spec
  end.
End cache_hit.
