(* ===== verification/CacheHitProps.v ===== *)
(** * What a cache hit guarantees

    Every search returns one list per group, all of the same length, whose
    blocks carry the hashes of the request at their positions; positions that
    the attention never reads again may hold the null block.  The hit is
    aligned, no longer than asked, and, for full attention and for the sliding
    window without Eagle, the longest such. *)

From S2P Require Import Prelude FreeQueue BlockHash Request BlockPool KVCacheSpec SingleType Ownership SingleTypeProps CacheHit.

(** ** Lists of equal length, one per group *)

Section rows.
Context (gids : list Z).

(** [computed] has a list of length [n] for each group, and [P g j b] holds of
    the block [b] at position [j] of group [g]. *)
Definition rows (n : nat) (P : Z → nat → loc → Prop) (computed : list (list loc)) : Prop :=
  Forall2 (λ g c, length c = n ∧ ∀ j b, c !! j = Some b → P g j b) gids computed.

Lemma rows_mono n (P Q : Z → nat → loc → Prop) computed :
  (∀ g j b, (j < n)%nat → P g j b → Q g j b) → rows n P computed → rows n Q computed.
Proof.
  intros HPQ Hr. eapply Forall2_impl; [exact Hr|]. intros g c [Hlen Hc]. split; [done|].
  intros j b Hj. apply HPQ; [|by apply Hc]. apply lookup_lt_Some in Hj. lia.
Qed.

Lemma rows_replicate n b P :
  (∀ g j, (j < n)%nat → P g j b) → rows n P (replicate (length gids) (replicate n b)).
Proof.
  intros HP. unfold rows. induction gids as [|g gs IH]; simpl; constructor; [|done].
  split; [apply length_replicate|]. intros j x [-> ?]%lookup_replicate_1. by apply HP.
Qed.

Lemma rows_append n P computed cached :
  rows n P computed → Forall2 (λ g b, P g n b) gids cached →
  rows (S n) P (append_each computed cached).
Proof.
  unfold rows. intros Hc. revert cached. induction Hc as [|g c gs cs [Hlen Hc] _ IH];
    intros cached Hb; [constructor|]. inversion Hb as [|? b ? bs Hgb Hbs]; subst. simpl.
  constructor; [|by apply IH]. rewrite length_app. split; [simpl; lia|].
  intros j x [Hj|[Hj Hx]]%lookup_app_Some; [by apply Hc|].
  apply list_lookup_singleton_Some in Hx as [? ->].
  by replace j with (length c) by lia.
Qed.

Lemma rows_set n P (Q : Z → nat → loc → Prop) i computed cached :
  0 ≤ i < Z.of_nat n → rows n P computed → Forall2 (λ g b, Q g (Z.to_nat i) b) gids cached →
  (∀ g j b, j ≠ Z.to_nat i → P g j b → Q g j b) → rows n Q (set_each i computed cached).
Proof.
  unfold rows. intros Hi Hc. revert cached. induction Hc as [|g c gs cs [Hlen Hc] _ IH];
    intros cached Hb HPQ; [constructor|]. inversion Hb as [|? b ? bs Hgb Hbs]; subst. simpl.
  constructor; [|by apply IH]. rewrite py_set_nonneg by lia. rewrite length_insert. split; [done|].
  intros j x [(<- & <- & _)|[Hne Hj]]%list_lookup_insert_Some; [done|]. apply HPQ; [done|by apply Hc].
Qed.

Lemma rows_take n m P computed :
  (m ≤ n)%nat → rows n P computed → rows m P (take m <$> computed).
Proof.
  intros Hm Hc. unfold rows. apply Forall2_fmap_r. eapply Forall2_impl; [exact Hc|].
  intros g c [Hlen Hx]. split; [etransitivity; [apply length_take|lia]|].
  intros j b [Hj _]%lookup_take_Some. by apply Hx.
Qed.

Lemma rows_slice_to n m P computed :
  0 ≤ m ≤ Z.of_nat n → rows n P computed →
  rows (Z.to_nat m) P ((λ c, slice_to c m) <$> computed).
Proof.
  intros Hm Hc. rewrite (list_fmap_ext _ (take (Z.to_nat m))); [apply (rows_take n); [lia|done]|].
  intros i c _. by rewrite slice_to_nonneg by lia.
Qed.

Lemma removelast_take {A} (l : list A) : removelast l = take (pred (length l)) l.
Proof.
  induction l as [|x l IH]; [done|]. destruct l as [|y l]; [done|].
  change (removelast (x :: y :: l)) with (x :: removelast (y :: l)). rewrite IH. done.
Qed.

Lemma pop_each_eq {S} n P computed (s : S) :
  rows (Datatypes.S n) P computed →
  pop_each computed s = (Ok (take n <$> computed), s) ∧ rows n P (take n <$> computed).
Proof.
  intros Hc. split; [|apply (rows_take (Datatypes.S n)); [lia|done]].
  unfold pop_each. apply map_each_pure. intros c Hin.
  apply list_elem_of_lookup in Hin as [k Hk].
  destruct (Forall2_lookup_r _ _ _ _ _ Hc Hk) as (g & _ & Hlen & _).
  destruct c as [|b c]; [done|]. rewrite removelast_take, Hlen. done.
Qed.

Lemma rows_take_all n P computed : rows n P computed → take n <$> computed = computed.
Proof.
  unfold rows. induction 1 as [|g c gs cs [Hlen _] _ IH]; [done|].
  rewrite fmap_cons, IH. f_equal. apply take_ge. lia.
Qed.

Lemma rows_head n P computed :
  gids ≠ [] → rows n P computed → ∃ c cs, computed = c :: cs ∧ length c = n.
Proof.
  intros Hg Hc. unfold rows in Hc. destruct Hc as [|g c gs cs [Hlen _] _]; [done|].
  by exists c, cs.
Qed.
End rows.

(** ** Alignment *)

Definition aligned (bs al n : Z) : Prop := bs = al ∨ (n * bs) mod al = 0.
#[export] Instance aligned_dec bs al n : Decision (aligned bs al n).
Proof. apply _. Defined.

(** [n] is the longest aligned length up to [k]. *)
Definition aligned_below (bs al : Z) (k n : nat) : Prop :=
  (n ≤ k)%nat ∧ aligned bs al (Z.of_nat n) ∧
  ∀ m, (n < m ≤ k)%nat → ¬ aligned bs al (Z.of_nat m).

Lemma aligned_below_same bs al k n : aligned bs al (Z.of_nat k) → aligned_below bs al k n → n = k.
Proof.
  intros Hk (Hn & _ & Hmax). destruct (decide (n = k)); [done|].
  exfalso. apply (Hmax k); [lia|done].
Qed.

Lemma aligned_below_max bs al k n m :
  aligned_below bs al k n → (m ≤ k)%nat → aligned bs al (Z.of_nat m) → (m ≤ n)%nat.
Proof.
  intros (_ & _ & Hmax) Hm Ha. destruct (decide (m ≤ n)%nat); [done|].
  exfalso. apply (Hmax m); [lia|done].
Qed.

Lemma realign_ok {S} gids bs al n P computed (s : S) :
  gids ≠ [] → rows gids n P computed →
  ∃ m, realign bs al computed s = (Ok (take m <$> computed), s) ∧
    rows gids m P (take m <$> computed) ∧ aligned_below bs al n m.
Proof.
  intros Hg Hc. destruct (rows_head _ _ _ _ Hg Hc) as (c & cs & Hcc & Hlen).
  unfold realign. rewrite Hcc. cbn [head default from_option]. change (id c) with c. rewrite Hlen, <-Hcc.
  clear c cs Hcc Hlen. revert computed Hc. induction n as [|n IH]; intros computed Hc.
  - exists 0%nat. pose proof (rows_take_all _ _ _ _ Hc) as Hid.
    rewrite Hid. split_and!; [|done|].
    + cbn [realign_loop]. destruct (Z.eqb_spec bs al); [done|].
      destruct (rows_head _ _ _ _ Hg Hc) as (c & cs & -> & Hlen). cbn [head_len].
      unfold bind, ret. unfold len. rewrite Hlen, Z.mul_0_l, Zmod_0_l. done.
    + split_and!; [lia| |lia]. right. by rewrite Z.mul_0_l, Zmod_0_l.
  - pose proof (rows_take_all _ _ _ _ Hc) as Hid.
    remember (Datatypes.S n) as fuel eqn:Hfuel. cbn [realign_loop].
    destruct (Z.eqb_spec bs al) as [Heq|Hne].
    { exists fuel. rewrite Hid. split_and!; [done|done|]. split_and!; [lia|by left|lia]. }
    destruct (rows_head _ _ _ _ Hg Hc) as (c & cs & Hcc & Hlen).
    assert (head_len computed s = (Ok (Z.of_nat fuel), s)) as Hhl.
    { rewrite Hcc. cbn. unfold ret, len. by rewrite Hlen. }
    erewrite bind_eq by exact Hhl. destruct (Z.eqb_spec ((Z.of_nat fuel * bs) mod al) 0) as [Ha|Ha].
    { exists fuel. rewrite Hid. split_and!; [done|done|]. split_and!; [lia|by right|lia]. }
    subst fuel. destruct (pop_each_eq _ _ _ _ s Hc) as [Hpop Hc'].
    erewrite bind_eq by exact Hpop. destruct (IH _ Hc') as (m & Heq & Hm & Hal).
    assert (take m <$> (take n <$> computed) = take m <$> computed) as Htt.
    { rewrite <-list_fmap_compose. apply list_fmap_ext. intros i x _. simpl.
      rewrite take_take. f_equal. destruct Hal. lia. }
    rewrite Htt in Heq, Hm. exists m. split_and!; [exact Heq|done|].
    destruct Hal as (? & ? & Hmax). split_and!; [lia|done|]. intros k Hk.
    destruct (decide (k = Datatypes.S n)) as [->|]; [by intros [?|?]|]. apply Hmax. lia.
Qed.

(** ** The searches *)

Section search.
Context `{HashEnv} (p : BlockPool) (a : apool) (gids : list Z).
Context (hashes : BlockHashList) (hash_at : Z → bytes) (total : Z).
Hypothesis Hpool : pool_rep p a.
Hypothesis Hgids : ∀ g, g ∈ gids → 0 ≤ g < 2 ^ 32.
Hypothesis Hne : gids ≠ [].
(** The hash list gives the hashes of the first [total] blocks. *)
Hypothesis Hnth : ∀ i, 0 ≤ i < total → hashes_nth hashes i p = (Ok (hash_at i), p).
Hypothesis Hiter : hashes_iter hashes = hash_at <$> range 0 total.

(** Block [b] is cached for group [g] under the hash of position [j]. *)
Definition filed_at (g : Z) (j : nat) (b : loc) : Prop :=
  a_hash a !! b = Some (block_key (hash_at (Z.of_nat j)) g).
(** Every group has a block cached for position [j]. *)
Definition all_filed (j : nat) : Prop := ∀ g, g ∈ gids → ∃ b, filed_at g j b.
(** ... or the null block, at the positions in [N]. *)
Definition filed_or_null (N : nat → Prop) (g : Z) (j : nat) (b : loc) : Prop :=
  filed_at g j b ∨ (b = 0 ∧ N j).

Lemma lookup_hit_eq j :
  ∃ r, lookup_hit (hash_at (Z.of_nat j)) gids p = (Ok r, p) ∧
    match r with
    | Some bs => Forall2 (λ g b, filed_at g j b) gids bs ∧ all_filed j
    | None => ¬ all_filed j
    end.
Proof.
  destruct (get_cached_block_ok p a (hash_at (Z.of_nat j)) gids Hpool Hgids) as (r & Hr & Hm).
  unfold lookup_hit. erewrite bind_eq by exact Hr. eexists. split; [done|].
  destruct r as [bs|].
  - assert (bs ≠ []) as Hbs by (intros ->; by inversion Hm).
    destruct bs as [|b bs]; [done|]. split; [exact Hm|].
    intros g Hg. apply list_elem_of_lookup in Hg as [k Hk].
    destruct (Forall2_lookup_l _ _ _ _ _ Hm Hk) as (x & _ & Hx). by exists x.
  - destruct Hm as (g & Hg & Hno). intros Hall. destruct (Hall g Hg) as [b Hb]. by apply (Hno b).
Qed.

(** *** Full attention *)

(** [k] is the length of the longest cached prefix of the first [mx] blocks. *)
Definition cached_prefix (mx k : nat) : Prop :=
  (k ≤ mx)%nat ∧ (∀ j, (j < k)%nat → all_filed j) ∧ (k = mx ∨ ¬ all_filed k).

Lemma prefix_scan_eq k n computed :
  rows gids n filed_at computed → (∀ j, (j < n)%nat → all_filed j) →
  ∃ m computed', prefix_scan (hash_at <$> range (Z.of_nat n) (Z.of_nat (n + k))) gids computed p
      = (Ok computed', p) ∧
    rows gids m filed_at computed' ∧ cached_prefix (n + k) m.
Proof.
  revert n computed. induction k as [|k IH]; intros n computed Hc Hall.
  { rewrite range_nil by lia. exists n, computed. split_and!; [done..|].
    split_and!; [lia|done|left; lia]. }
  rewrite range_cons by lia. cbn [fmap list_fmap prefix_scan].
  destruct (lookup_hit_eq n) as (r & Hr & Hm). erewrite bind_eq by exact Hr.
  destruct r as [bs|].
  - destruct Hm as [Hbs Hn]. destruct (IH (S n) (append_each computed bs)) as (m & c' & Heq & Hc' & Hpre).
    + by apply rows_append.
    + intros j Hj. destruct (decide (j = n)) as [->|]; [done|]. apply Hall. lia.
    + exists m, c'. replace (n + S k)%nat with (S n + k)%nat by lia.
      replace (Z.of_nat n + 1) with (Z.of_nat (S n)) by lia. done.
  - exists n, computed. split_and!; [done..|]. split_and!; [lia|done|by right].
Qed.

(** The parallel ranks' share of a block. *)
Definition rank_block_size (spec : KVCacheSpec) (dcp pcp : Z) : Z :=
  if 1 <? dcp * pcp then spec_block_size spec * (dcp * pcp) else spec_block_size spec.

Lemma drop_eagle_eq n P computed drop :
  rows gids n P computed →
  let n' := if (drop : bool) then pred n else n in
  drop_eagle drop computed p = (Ok (take n' <$> computed), p) ∧ rows gids n' P (take n' <$> computed).
Proof.
  intros Hc n'. unfold drop_eagle, n'. pose proof (rows_take_all _ _ _ _ Hc) as Hid.
  destruct drop; [|by rewrite Hid].
  destruct (rows_head _ _ _ _ Hne Hc) as (c & cs & Hcc & Hlen).
  assert (head_len computed p = (Ok (Z.of_nat n), p)) as Hhl by (rewrite Hcc; cbn; unfold ret, len; by rewrite Hlen).
  erewrite bind_eq by exact Hhl. destruct n as [|n]; cbn [pred]; [by rewrite Hid|].
  rewrite (proj2 (Z.eqb_neq _ _)) by lia. by apply pop_each_eq.
Qed.

Lemma full_hit_eq spec drop al dcp pcp max_length :
  let bs := rank_block_size spec dcp pcp in
  is_full_attention spec = true → 0 < bs → 0 ≤ max_length → 0 ≤ total →
  ∃ k n computed,
    FullAttention_find_longest_cache_hit hashes max_length gids spec drop al dcp pcp p = (Ok computed, p) ∧
    rows gids n filed_at computed ∧ cached_prefix (Z.to_nat (Z.min (max_length / bs) total)) k ∧
    aligned_below bs al (if drop then pred k else k) n.
Proof.
  intros bs Hspec Hbs Hmax Htot. unfold FullAttention_find_longest_cache_hit. rewrite Hspec. cbn [orb].
  erewrite bind_eq by done. fold (rank_block_size spec dcp pcp). fold bs.
  assert (0 ≤ max_length / bs) as Hm0 by (apply Z.div_pos; lia).
  rewrite (proj2 (Z.ltb_ge _ _)) by lia. set (mx := Z.to_nat (Z.min (max_length / bs) total)).
  assert (slice_to (hashes_iter hashes) (max_length / bs) = hash_at <$> range 0 (Z.of_nat (0 + mx))) as ->.
  { rewrite slice_to_nonneg by lia. rewrite Hiter, <-fmap_take. f_equal.
    rewrite take_range by lia. f_equal. lia. }
  destruct (prefix_scan_eq mx 0 (replicate (length gids) [])) as (k & c1 & Heq & Hc1 & Hpre).
  { apply (rows_replicate gids 0 0). lia. }
  { lia. }
  erewrite bind_eq by exact Heq. destruct (drop_eagle_eq _ _ _ drop Hc1) as [Hd Hc2].
  erewrite bind_eq by exact Hd. cbn zeta in *.
  destruct (realign_ok gids bs al _ _ _ p Hne Hc2) as (n & Hr & Hc3 & Hal).
  exists k, n. eexists. split_and!; [exact Hr|exact Hc3|exact Hpre|exact Hal].
Qed.

(** *** Sliding window *)

Section window.
Context (bs al : Z) (drop : bool) (need : Z) (mx : nat).
Hypothesis Hmx : Z.of_nat mx ≤ total.

(** The length that remains of a run that ends at [e]. *)
Definition post_pop (e : nat) : Z := if drop then Z.of_nat e - 1 else Z.of_nat e.

(** A hit of length [e] without Eagle: aligned, and its window is cached. *)
Definition window_cached (e : nat) : Prop :=
  (e ≤ mx)%nat ∧ aligned bs al (Z.of_nat e) ∧
  ∀ j, (j < e)%nat → Z.of_nat e - need ≤ Z.of_nat j → all_filed j.

(** Before position [k]: the last [c] positions visited are a run of hits, no
    longer hit is possible. *)
Record scan_inv (k c : nat) (computed : list (list loc)) : Prop := {
  sc_rows : rows gids mx (filed_or_null (λ j, ¬ (k ≤ j < k + c)%nat)) computed;
  sc_le : (k + c ≤ mx)%nat;
  sc_run : ∀ j, (k ≤ j < k + c)%nat → all_filed j;
  sc_short : c = 0%nat ∨ Z.of_nat c < need ∧ aligned bs al (post_pop (k + c));
  sc_max : drop = false → 1 ≤ need → ∀ e, window_cached e → (e ≤ k + c)%nat
}.

Record scan_found (c e : nat) (computed : list (list loc)) : Prop := {
  sf_rows : rows gids e (filed_or_null (λ j, (j < e - c)%nat)) computed;
  sf_run : (1 ≤ c ≤ e)%nat ∧ (e ≤ mx)%nat ∧ need ≤ Z.of_nat c;
  sf_aligned : aligned bs al (post_pop e);
  sf_max : drop = false → 1 ≤ need → ∀ e', window_cached e' → (e' ≤ e)%nat
}.

Lemma scan_inv_hit k c computed cached :
  scan_inv (S k) c computed → Forall2 (λ g b, filed_at g k b) gids cached → all_filed k →
  (c = 0%nat → aligned bs al (post_pop (S k))) →
  rows gids mx (filed_or_null (λ j, ¬ (k ≤ j < k + S c)%nat)) (set_each (Z.of_nat k) computed cached) ∧
  aligned bs al (post_pop (k + S c)) ∧
  (∀ j, (k ≤ j < k + S c)%nat → all_filed j) ∧ (k + S c ≤ mx)%nat.
Proof.
  intros [Hrows Hle Hrun Hshort Hmax] Hcached Hk Hal. split_and!.
  - eapply (rows_set gids mx _ _ (Z.of_nat k)); [lia|exact Hrows| |].
    + rewrite Nat2Z.id. eapply Forall2_impl; [exact Hcached|]. by left.
    + intros g j b Hj [?|[-> Hn]]; [by left|]. right. split; [done|]. lia.
  - destruct Hshort as [->|[_ Ha]].
    + replace (k + 1)%nat with (S k) by lia. by apply Hal.
    + by replace (k + S c)%nat with (S k + c)%nat by lia.
  - intros j Hj. destruct (decide (j = k)) as [->|]; [done|]. apply Hrun. lia.
  - lia.
Qed.

(** A miss at [k] rules out every hit that ends after it. *)
Lemma scan_inv_miss k c computed :
  scan_inv (S k) c computed → ¬ all_filed k → scan_inv k 0 computed.
Proof.
  intros [Hrows Hle Hrun Hshort Hmax] Hk. split; [|lia|lia|by left|].
  - eapply rows_mono; [|exact Hrows]. intros g j b _ [?|[-> _]]; [by left|]. right. split; [done|lia].
  - intros Hd Hn e He. pose proof (Hmax Hd Hn e He) as Hle'.
    destruct (decide (e ≤ k)%nat); [lia|]. exfalso. apply Hk.
    destruct He as (_ & _ & Hall). apply Hall; [lia|]. destruct Hshort as [->|[? _]]; lia.
Qed.

(** An unaligned hit at [k] cannot end a run. *)
Lemma scan_inv_skip k computed :
  scan_inv (S k) 0 computed → ¬ aligned bs al (post_pop (S k)) → scan_inv k 0 computed.
Proof.
  intros [Hrows Hle Hrun Hshort Hmax] Hna. split; [|lia|lia|by left|].
  - eapply rows_mono; [|exact Hrows]. intros g j b _ [?|[-> _]]; [by left|]. right. split; [done|lia].
  - intros Hd Hn e He. pose proof (Hmax Hd Hn e He).
    destruct (decide (e = S k)) as [->|]; [|lia]. exfalso. apply Hna.
    unfold post_pop. rewrite Hd. apply He.
Qed.

Lemma window_scan_eq k c computed :
  scan_inv k c computed →
  ∃ computed' c' found,
    window_scan hashes gids bs al drop need (range_down 0 (Z.of_nat k)) computed (Z.of_nat c) p
    = (Ok (computed', Z.of_nat c', found), p) ∧
    if (found : bool) then ∃ e, scan_found c' e computed' else scan_inv 0 c' computed'.
Proof.
  revert c computed. induction k as [|k IH]; intros c computed Hinv.
  { exists computed, c, false. done. }
  rewrite range_down_S. cbn [window_scan].
  erewrite bind_eq by (apply Hnth; destruct Hinv; lia).
  destruct (lookup_hit_eq k) as (r & Hr & Hm). erewrite bind_eq by exact Hr.
  destruct r as [cached|]; [|by apply (IH 0%nat), (scan_inv_miss k c)].
  destruct Hm as [Hcached Hall].
  assert ((if drop then Z.of_nat k else Z.of_nat k + 1) = post_pop (S k)) as ->.
  { unfold post_pop. destruct drop; lia. }
  destruct (decide (c = 0%nat ∧ ¬ aligned bs al (post_pop (S k)))) as [[-> Hna]|Hok].
  - replace ((Z.of_nat 0 =? 0) && negb (bs =? al) && negb ((post_pop (S k) * bs) mod al =? 0)) with true.
    + apply (IH 0%nat). by apply scan_inv_skip.
    + symmetry. assert (bs ≠ al ∧ (post_pop (S k) * bs) mod al ≠ 0) as [H1 H2]
        by (unfold aligned in Hna; tauto).
      by rewrite (proj2 (Z.eqb_neq _ _) H1), (proj2 (Z.eqb_neq _ _) H2).
  - assert (c = 0%nat → aligned bs al (post_pop (S k))) as Hal.
    { intros ->. destruct (decide (aligned bs al (post_pop (S k)))); [done|]. tauto. }
    replace ((Z.of_nat c =? 0) && negb (bs =? al) && negb ((post_pop (S k) * bs) mod al =? 0)) with false.
    2: { symmetry. destruct (Z.eqb_spec (Z.of_nat c) 0); [|done].
         destruct Hal as [->|Ha]; [lia|by rewrite Z.eqb_refl|]. rewrite Ha. by rewrite andb_false_r. }
    destruct (scan_inv_hit k c computed cached Hinv Hcached Hall Hal) as (Hrows & Ha & Hrun & Hle).
    replace (Z.of_nat c + 1) with (Z.of_nat (S c)) by lia.
    destruct (Z.leb_spec need (Z.of_nat (S c))) as [Hneed|Hneed].
    + eexists _, (S c), true. split; [done|]. exists (k + S c)%nat. split; [|lia|done|].
      * replace (Z.of_nat k + Z.of_nat (S c)) with (Z.of_nat (k + S c)) by lia.
        pose proof (rows_slice_to gids mx (Z.of_nat (k + S c)) _ _ ltac:(lia) Hrows) as Hr'.
        rewrite Nat2Z.id in Hr'. eapply rows_mono; [|exact Hr'].
        intros g j b Hj [?|[-> Hn]]; [by left|]. right. split; [done|lia].
      * intros Hd Hn e He. pose proof (sc_max _ _ _ Hinv Hd Hn e He). lia.
    + apply (IH (S c)). split; [done..|right; split; [lia|done]|].
      intros Hd Hn e He. pose proof (sc_max _ _ _ Hinv Hd Hn e He). lia.
Qed.
End window.

Lemma filed_or_null_none g j b : filed_or_null (λ _, False) g j b ↔ filed_at g j b.
Proof. unfold filed_or_null. tauto. Qed.

(** The lists after the scan, before the Eagle drop. *)
Record after_scan (bs al : Z) (drop : bool) (need : Z) (mx n : nat) (computed : list (list loc)) : Prop := {
  as_rows : rows gids n (filed_or_null (λ j, Z.of_nat j < Z.of_nat n - (if drop then need + 1 else need)))
    computed;
  as_le : (n ≤ mx)%nat;
  as_aligned : drop = false → aligned bs al (Z.of_nat n);
  as_drop : drop = true → aligned bs al (Z.of_nat n - 1) ∨ rows gids n filed_at computed;
  as_max : drop = false → 1 ≤ need → ∀ e, window_cached bs al need mx e → (e ≤ n)%nat
}.

Lemma after_scan_eq bs al (drop : bool) need mx c found computed :
  let need' := if drop then need + 1 else need in
  (if (found : bool) then ∃ e, scan_found bs al drop need' mx c e computed
   else scan_inv bs al drop need' mx 0 c computed) →
  ∃ n computed', (if found then ret computed
      else realign bs al ((λ x, slice_to x (Z.of_nat c)) <$> computed)) p = (Ok computed', p) ∧
    after_scan bs al drop need mx n computed'.
Proof.
  intros need'. destruct found.
  - intros (e & [Hrows Hrun Hal Hmaxi]). exists e, computed. split; [done|]. split.
    + eapply rows_mono; [|exact Hrows]. intros g j b _ [?|[-> Hj]]; [by left|].
      right. split; [done|]. fold need'. lia.
    + lia.
    + intros ->. exact Hal.
    + intros ->. by left.
    + intros ->. by apply Hmaxi.
  - intros [Hrows Hle Hrun Hshort Hmaxi].
    assert (rows gids c filed_at ((λ x, slice_to x (Z.of_nat c)) <$> computed)) as Hc.
    { pose proof (rows_slice_to gids mx (Z.of_nat c) _ _ ltac:(lia) Hrows) as Hr. rewrite Nat2Z.id in Hr.
      eapply rows_mono; [|exact Hr]. intros g j b Hj [?|[-> Hn]]; [done|]. lia. }
    destruct (realign_ok gids bs al _ _ _ p Hne Hc) as (n1 & Heq & Hrows1 & Hbelow).
    exists n1. eexists. split; [exact Heq|]. split.
    + eapply rows_mono; [|exact Hrows1]. by left.
    + destruct Hbelow. lia.
    + intros _. apply Hbelow.
    + by right.
    + intros -> Hn e He. pose proof (Hmaxi eq_refl Hn e He).
      eapply aligned_below_max; [exact Hbelow|lia|apply He].
Qed.

(** The result of a window search. *)
Record window_hit (bs al : Z) (drop : bool) (need : Z) (mx n : nat) (computed : list (list loc)) : Prop := {
  wh_rows : rows gids n (filed_or_null (λ j, Z.of_nat j < Z.of_nat n - need)) computed;
  wh_le : (n ≤ mx)%nat;
  wh_drop : drop = true → (n ≤ pred mx)%nat;
  wh_aligned : aligned bs al (Z.of_nat n);
  wh_max : drop = false → 1 ≤ need → ∀ e, window_cached bs al need mx e → (e ≤ n)%nat
}.

Lemma window_drop_eq bs al (drop : bool) need mx n1 c2 :
  after_scan bs al drop need mx n1 c2 →
  ∃ n computed, (if drop then
      let* n := head_len c2 in
      if n =? 0 then ret c2 else let* computed := pop_each c2 in realign bs al computed
    else ret c2) p = (Ok computed, p) ∧ window_hit bs al drop need mx n computed.
Proof.
  intros [Hrows Hn1 Hal Hal' Hmaxi].
  destruct (rows_head _ _ _ _ Hne Hrows) as (x & xs & Hx & Hlen).
  assert (head_len c2 p = (Ok (Z.of_nat n1), p)) as Hhl by (rewrite Hx; cbn; unfold ret, len; by rewrite Hlen).
  destruct drop; [|exists n1, c2; split; [done|]; split; [auto|auto|done|auto|auto]].
  erewrite bind_eq by exact Hhl. destruct n1 as [|n1].
  { exists 0%nat, c2. split; [done|]. split; [|lia|lia| |done].
    - eapply rows_mono; [|exact Hrows]. lia.
    - right. by rewrite Z.mul_0_l, Zmod_0_l. }
  rewrite (proj2 (Z.eqb_neq _ _)) by lia. destruct (pop_each_eq _ _ _ _ p Hrows) as [Hpop Hrows1].
  erewrite bind_eq by exact Hpop.
  destruct (realign_ok gids bs al _ _ _ p Hne Hrows1) as (n & Heq & Hrows2 & Hbelow).
  exists n. eexists. split; [exact Heq|]. split; [|destruct Hbelow; lia|destruct Hbelow; lia|apply Hbelow|done].
  destruct (Hal' eq_refl) as [Ha|Hf].
  - replace (Z.of_nat (S n1) - 1) with (Z.of_nat n1) in Ha by lia.
    rewrite (aligned_below_same _ _ _ _ Ha Hbelow) in Hrows2 |- *.
    eapply rows_mono; [|exact Hrows2]. intros g j b _ [?|[-> Hj]]; [by left|]. right. split; [done|lia].
  - pose proof (rows_take gids (S n1) n _ _ ltac:(destruct Hbelow; lia) Hf) as Hf'.
    assert (take n <$> (take n1 <$> c2) = take n <$> c2) as ->.
    { rewrite <-list_fmap_compose. apply list_fmap_ext. intros i y _. simpl.
      rewrite take_take. f_equal. destruct Hbelow. lia. }
    eapply rows_mono; [|exact Hf']. by left.
Qed.

(** The window before the end of the hit is cached, the rest may be null. *)
Lemma window_hit_eq spec bs w (drop : bool) al max_length :
  let need := contiguous_blocks_for_hit w bs false in
  let mx := Z.to_nat (max_length / bs) in
  fields spec = SlidingWindowSpec bs w ∨ fields spec = SlidingWindowMLASpec bs w →
  0 < bs → 0 ≤ max_length → max_length / bs ≤ total →
  ∃ n computed,
    SlidingWindow_find_longest_cache_hit hashes max_length gids spec drop al 1 1 p = (Ok computed, p) ∧
    window_hit bs al drop need mx n computed.
Proof.
  intros need mx Hspec Hbs Hmax Htot. assert (null_block p = 0) as Hnull by apply Hpool.
  assert (0 ≤ max_length / bs) as Hm0 by (apply Z.div_pos; lia).
  assert (contiguous_blocks_for_hit w bs drop = if drop then need + 1 else need) as Hneed
    by (unfold need, contiguous_blocks_for_hit; by destruct drop).
  destruct (window_scan_eq bs al drop (contiguous_blocks_for_hit w bs drop) mx ltac:(lia) mx 0
    (replicate (length gids) (replicate mx 0))) as (c1 & c & found & Hscan & Hout).
  { split; [|lia|lia|by left|].
    - apply rows_replicate. intros g j Hj. right. split; [done|lia].
    - intros _ _ e (He & _). lia. }
  rewrite Hneed in Hout. apply after_scan_eq in Hout as (n1 & c2 & Hc2 & Has).
  destruct (window_drop_eq _ _ _ _ _ _ _ Has) as (n & computed & Hres & Hhit).
  exists n, computed. split; [|exact Hhit]. unfold SlidingWindow_find_longest_cache_hit.
  replace (range_down 0 (Z.of_nat mx)) with (range_down 0 (max_length / bs)) in Hscan by (f_equal; lia).
  destruct Hspec as [-> | ->].
  all: do 2 erewrite bind_eq by done; erewrite bind_eq by done; rewrite Hnull.
  all: erewrite bind_eq by exact Hscan; cbn beta iota zeta.
  all: erewrite bind_eq by exact Hc2; exact Hres.
Qed.

(** *** Chunked local attention *)

Lemma chunk_scan_eq N k n computed :
  Z.of_nat (n + k) ≤ total → rows gids n (filed_or_null N) computed →
  ∃ m computed', chunk_scan hashes gids (range (Z.of_nat n) (Z.of_nat (n + k))) computed p
      = (Ok computed', p) ∧
    rows gids m (filed_or_null N) computed' ∧ (n ≤ m ≤ n + k)%nat ∧
    (∀ j, (n ≤ j < m)%nat → all_filed j) ∧ (m = (n + k)%nat ∨ ¬ all_filed m).
Proof.
  revert n computed. induction k as [|k IH]; intros n computed Htot Hc.
  { rewrite range_nil by lia. exists n, computed. split_and!; [done..|lia|lia|lia|left; lia]. }
  rewrite range_cons by lia. cbn [chunk_scan]. erewrite bind_eq by (apply Hnth; lia).
  destruct (lookup_hit_eq n) as (r & Hr & Hm). erewrite bind_eq by exact Hr. destruct r as [bs|].
  - destruct Hm as [Hbs Hn].
    destruct (IH (S n) (append_each computed bs)) as (m & c' & Heq & Hc' & Hle & Hall & Hend); [lia| |].
    + apply rows_append; [done|]. eapply Forall2_impl; [exact Hbs|]. by left.
    + exists m, c'. replace (n + S k)%nat with (S n + k)%nat by lia.
      replace (Z.of_nat n + 1) with (Z.of_nat (S n)) by lia. split_and!; [done..|lia|lia| |done].
      intros j Hj. destruct (decide (j = n)) as [->|]; [done|]. apply Hall. lia.
  - exists n, computed. split_and!; [done..|lia|lia|lia|by right].
Qed.

Lemma chunked_hit_eq spec bs chunk max_length :
  let start := Z.to_nat (max_length / chunk * chunk / bs) in
  let mx := Z.to_nat (max_length / bs) in
  fields spec = ChunkedLocalAttentionSpec bs chunk →
  0 < bs → 0 < chunk → 0 ≤ max_length → max_length / bs ≤ total →
  ∃ n computed,
    ChunkedLocal_find_longest_cache_hit hashes max_length gids spec false bs 1 1 p = (Ok computed, p) ∧
    rows gids n (filed_or_null (λ j, (j < start)%nat)) computed ∧ (start ≤ n ≤ mx)%nat ∧
    (∀ j, (start ≤ j < n)%nat → all_filed j) ∧ (n = mx ∨ ¬ all_filed n).
Proof.
  intros start mx Hspec Hbs Hch Hmax Htot. assert (null_block p = 0) as Hnull by apply Hpool.
  assert (0 ≤ max_length / chunk * chunk ≤ max_length) as Hst.
  { pose proof (Z.mul_div_le max_length chunk Hch). pose proof (Z.div_pos max_length chunk Hmax Hch). nia. }
  assert (0 ≤ max_length / chunk * chunk / bs) by (apply Z.div_pos; lia).
  assert (max_length / chunk * chunk / bs ≤ max_length / bs) by (apply Z.div_le_mono; lia).
  destruct (chunk_scan_eq (λ j, (j < start)%nat) (mx - start) start
    (replicate (length gids) (replicate start 0))) as (n & computed & Heq & Hrows & Hle & Hall & Hend);
    [lia| |].
  { apply rows_replicate. intros g j Hj. by right. }
  exists n, computed. split_and!; try done; [|lia|lia|].
  - unfold ChunkedLocal_find_longest_cache_hit. rewrite Hspec. do 3 erewrite bind_eq by done.
    rewrite Z.eqb_refl. erewrite bind_eq by done. erewrite bind_eq by done. rewrite Hnull.
    assert ((if 0 <? max_length then max_length / chunk * chunk else 0) = max_length / chunk * chunk) as ->.
    { destruct (Z.ltb_spec 0 max_length); [done|]. by replace max_length with 0 by lia. }
    rewrite <-Heq. f_equal. f_equal; lia.
  - destruct Hend as [->|?]; [left; lia|by right].
Qed.

(** *** Mamba *)

(** A state is cached at the end of a hit of length [n]. *)
Definition state_cached (bs al : Z) (n : nat) : Prop :=
  (0 < n)%nat ∧ aligned bs al (Z.of_nat n) ∧ all_filed (pred n).

Lemma state_scan_eq bs al k :
  Z.of_nat k ≤ total →
  ∃ n computed, state_scan hashes gids bs al (range_down 0 (Z.of_nat k)) (replicate (length gids) []) p
      = (Ok computed, p) ∧
    rows gids n (filed_or_null (λ j, S j ≠ n)) computed ∧ (n ≤ k)%nat ∧
    (n = 0%nat ∨ state_cached bs al n) ∧ ∀ e, (e ≤ k)%nat → state_cached bs al e → (e ≤ n)%nat.
Proof.
  assert (null_block p = 0) as Hnull by apply Hpool.
  induction k as [|k IH]; intros Htot.
  { exists 0%nat, (replicate (length gids) []). split_and!; [done| |lia|by left|].
    - apply (rows_replicate gids 0 0). lia.
    - intros e He _. lia. }
  rewrite range_down_S. cbn [state_scan]. erewrite bind_eq by (apply Hnth; lia).
  destruct (lookup_hit_eq k) as (r & Hr & Hm). erewrite bind_eq by exact Hr.
  assert (¬ state_cached bs al (S k) → ∃ n computed,
    state_scan hashes gids bs al (range_down 0 (Z.of_nat k)) (replicate (length gids) []) p = (Ok computed, p) ∧
    rows gids n (filed_or_null (λ j, S j ≠ n)) computed ∧ (n ≤ S k)%nat ∧
    (n = 0%nat ∨ state_cached bs al n) ∧ ∀ e, (e ≤ S k)%nat → state_cached bs al e → (e ≤ n)%nat) as Hskip.
  { intros Hno. destruct (IH ltac:(lia)) as (n & c & Heq & Hrows & Hle & Hn & Hmax).
    exists n, c. split_and!; [done..|lia|done|]. intros e He Hs.
    destruct (decide (e = S k)) as [->|]; [done|]. apply Hmax; [lia|done]. }
  destruct r as [cached|]; [|apply Hskip; by intros (_ & _ & ?)].
  destruct Hm as [Hcached Hall].
  replace (Z.of_nat k + 1) with (Z.of_nat (S k)) by lia.
  destruct (decide (aligned bs al (Z.of_nat (S k)))) as [Ha|Hna].
  - replace (negb (bs =? al) && negb ((Z.of_nat (S k) * bs) mod al =? 0)) with false.
    2: { symmetry. destruct Ha as [->| ->]; [by rewrite Z.eqb_refl|]. by rewrite andb_false_r. }
    erewrite bind_eq by done. rewrite Hnull, Nat2Z.id. eexists (S k), _. split_and!; [done| |lia| |].
    + apply rows_append.
      * replace ((λ c : list loc, c ++ replicate k 0) <$> replicate (length gids) [])
          with (replicate (length gids) (replicate k 0)) by (by rewrite fmap_replicate).
        apply rows_replicate. intros g j Hj. right. split; [done|lia].
      * eapply Forall2_impl; [exact Hcached|]. by left.
    + right. by split_and!; [lia|..].
    + intros e He _. lia.
  - replace (negb (bs =? al) && negb ((Z.of_nat (S k) * bs) mod al =? 0)) with true.
    2: { symmetry. assert (bs ≠ al ∧ (Z.of_nat (S k) * bs) mod al ≠ 0) as [H1 H2]
           by (unfold aligned in Hna; tauto).
         by rewrite (proj2 (Z.eqb_neq _ _) H1), (proj2 (Z.eqb_neq _ _) H2). }
    apply Hskip. by intros (_ & ? & _).
Qed.

Lemma mamba_hit_eq spec drop al max_length :
  let bs := spec_block_size spec in
  let mx := Z.to_nat (max_length / bs) in
  is_mamba spec = true → 0 < bs → 0 ≤ max_length → max_length / bs ≤ total →
  ∃ n computed, Mamba_find_longest_cache_hit hashes max_length gids spec drop al 1 1 p = (Ok computed, p) ∧
    rows gids n (filed_or_null (λ j, S j ≠ n)) computed ∧ (n ≤ mx)%nat ∧
    (n = 0%nat ∨ state_cached bs al n) ∧ ∀ e, (e ≤ mx)%nat → state_cached bs al e → (e ≤ n)%nat.
Proof.
  intros bs mx Hspec Hbs Hmax Htot. assert (0 ≤ max_length / bs) as Hm0 by (apply Z.div_pos; lia).
  destruct (state_scan_eq bs al mx ltac:(lia)) as (n & c & Heq & Hrest).
  exists n, c. split; [|exact Hrest]. unfold Mamba_find_longest_cache_hit. rewrite Hspec.
  do 3 erewrite bind_eq by done. rewrite <-Heq. fold bs. do 2 f_equal. lia.
Qed.
End search.
