(* ===== verification/HitSpec.v ===== *)
(** * Cache hits on reachable pools

    The guarantees of [CacheHitProps] for pools that result from legal calls,
    stated with the hashes the blocks carry: which blocks each search returns,
    that the positions the attention still reads are cached, that the length
    is aligned and, where it is, the longest possible. *)

From S2P Require Import Prelude FreeQueue BlockHash Request BlockPool PoolProps KVCacheSpec SingleType CacheHit CacheHitProps.

Section hit_spec.
Context `{HashEnv}.

(** Block [b] carries hash [k] for group [g]. *)
Definition cached_for (p : BlockPool) (g : Z) (k : bytes) (b : loc) : Prop :=
  0 < b < num_gpu_blocks p ∧ hash_of p b = Some (block_key k g).
Definition everywhere (p : BlockPool) (gids : list Z) (k : bytes) : Prop :=
  ∀ g, g ∈ gids → ∃ b, cached_for p g k b.

(** The hash of block [j] of a request, at this group's block size. *)
Definition hash_of_block (p : BlockPool) (hs : list bytes) (bs : Z) (j : nat) : bytes :=
  block_hash_at hs (bs / hash_block_size p) (Z.of_nat j).

(** One list of [n] blocks per group; block [j] carries the request's hash
    [j], or is null when [N j]. *)
Definition hit_lists (p : BlockPool) (gids : list Z) (hs : list bytes) (bs : Z) (n : nat)
    (N : nat → Prop) (computed : list (list loc)) : Prop :=
  Forall2 (λ g c, length c = n ∧ ∀ j b, c !! j = Some b →
    cached_for p g (hash_of_block p hs bs j) b ∨ (b = null_block p ∧ N j)) gids computed.

(** A lookup for groups of one block size on a reachable pool. *)
Record lookup_args (p : BlockPool) (gids : list Z) (hs : list bytes) (bs max_length : Z) : Prop := {
  la_reach : ∃ refs taken, pool_reachable p refs taken;
  la_groups : gids ≠ [] ∧ Forall (λ g, 0 ≤ g < 2 ^ 32) gids;
  la_size : 0 < hash_block_size p ∧ 0 < bs ∧ bs mod hash_block_size p = 0;
  la_length : 0 ≤ max_length ∧ max_length / bs * (bs / hash_block_size p) ≤ len hs
}.

Lemma hash_list_iter hs hbs bs :
  0 < hbs → 0 < bs → bs mod hbs = 0 →
  hashes_iter (hash_list hs hbs bs) = block_hash_at hs (bs / hbs) <$> range 0 (len hs / (bs / hbs)).
Proof.
  intros H1 H2 Hmod. unfold hash_list. destruct (Z.eqb_spec bs hbs) as [->|Hne]; [|done].
  rewrite Z.div_same, Z.div_1_r by lia. simpl. apply list_eq. intros i.
  rewrite list_lookup_fmap. unfold range. rewrite Z.sub_0_r.
  destruct (hs !! i) as [x|] eqn:Hx.
  - rewrite lookup_seqZ_lt by (apply lookup_lt_Some in Hx; unfold len; lia). simpl.
    by rewrite (block_hash_at_1 hs _ x); [|lia|rewrite Z.add_0_l, Nat2Z.id].
  - rewrite lookup_seqZ_ge; [done|]. apply lookup_ge_None_1 in Hx. unfold len. lia.
Qed.

Lemma filed_cached p a g k b :
  pool_rep p a → a_hash a !! b = Some (block_key k g) ↔ cached_for p g k b.
Proof.
  intros Hp. unfold cached_for. split.
  - intros Hb. pose proof (cr_hash_dom _ _ _ (pr_core _ _ Hp) b _ Hb) as Hr.
    split; [lia|]. rewrite (hash_of_rep p a) by (done || lia). done.
  - intros [Hr Hb]. rewrite <-(hash_of_rep p a); [done..|lia].
Qed.

(** The abstract search lemmas at the arguments of a lookup. *)
Lemma search_setup p a gids hs bs max_length :
  pool_rep p a → Forall (λ g, 0 ≤ g < 2 ^ 32) gids →
  0 < hash_block_size p ∧ 0 < bs ∧ bs mod hash_block_size p = 0 →
  0 ≤ max_length ∧ max_length / bs * (bs / hash_block_size p) ≤ len hs →
  let hashes := hash_list hs (hash_block_size p) bs in
  let scale := bs / hash_block_size p in
  let total := len hs / scale in
  (∀ g, g ∈ gids → 0 ≤ g < 2 ^ 32) ∧
    (∀ i, 0 ≤ i < total → hashes_nth hashes i p = (Ok (block_hash_at hs scale i), p)) ∧
    hashes_iter hashes = block_hash_at hs scale <$> range 0 total ∧
    0 ≤ max_length / bs ≤ total ∧ null_block p = 0.
Proof.
  intros Hp Hg (Hh & Hb & Hm) [Hmax Hlen] hashes scale total. rewrite Forall_forall in Hg.
  assert (0 < scale) as Hs.
  { unfold scale. apply Z.div_str_pos. apply Z.mod_divide in Hm; [|lia]. apply Z.divide_pos_le in Hm; lia. }
  split_and!; try done.
  - intros i Hi. apply hash_list_nth; [done..|lia|]. fold scale.
    pose proof (Z.mul_div_le (len hs) scale Hs). unfold total in Hi. nia.
  - by apply hash_list_iter.
  - apply Z.div_pos; lia.
  - apply Z.div_le_lower_bound; [done|]. lia.
  - apply Hp.
Qed.

Lemma lookup_setup p gids hs bs max_length :
  lookup_args p gids hs bs max_length →
  let hashes := hash_list hs (hash_block_size p) bs in
  let scale := bs / hash_block_size p in
  let total := len hs / scale in
  ∃ a, pool_rep p a ∧ (∀ g, g ∈ gids → 0 ≤ g < 2 ^ 32) ∧
    (∀ i, 0 ≤ i < total → hashes_nth hashes i p = (Ok (block_hash_at hs scale i), p)) ∧
    hashes_iter hashes = block_hash_at hs scale <$> range 0 total ∧
    0 ≤ max_length / bs ≤ total ∧ null_block p = 0.
Proof.
  intros [(refs & taken & Hr) [_ Hg] Hs Hl] hashes scale total.
  apply reachable_rep in Hr as (a & _ & Hp & _). exists a. split; [done|].
  by apply (search_setup p a gids hs bs max_length).
Qed.

Lemma rows_hit_lists p a gids hs bs n N computed :
  pool_rep p a → rows gids n (filed_or_null a (block_hash_at hs (bs / hash_block_size p)) N) computed →
  hit_lists p gids hs bs n N computed.
Proof.
  intros Hp Hr. eapply Forall2_impl; [exact Hr|]. intros g c [Hlen Hc]. split; [done|].
  intros j b Hj. destruct (Hc j b Hj) as [Hf|[-> HN]].
  - left. by eapply filed_cached.
  - right. split; [|done]. symmetry. apply Hp.
Qed.

Lemma all_filed_everywhere p a gids hs bs j :
  pool_rep p a →
  all_filed a gids (block_hash_at hs (bs / hash_block_size p)) j ↔
  everywhere p gids (hash_of_block p hs bs j).
Proof.
  intros Hp. unfold all_filed, everywhere.
  split; intros Hall g Hg; destruct (Hall g Hg) as [b Hb]; exists b; by eapply filed_cached.
Qed.

(** C21: A full-attention lookup returns, for every group, the blocks that carry
    the first [n] hashes of the request.  [k] is the number of leading hashes
    cached in all groups (within the length asked for); [n] is [k], less one
    block when Eagle drops the last, cut to the longest aligned length. *)
Theorem full_attention_hit p gids hs spec drop al max_length :
  let bs := spec_block_size spec in
  let mx := Z.to_nat (max_length / bs) in
  is_full_attention spec = true → lookup_args p gids hs bs max_length →
  ∃ k n computed,
    find_longest_cache_hit FullAttentionManager (hash_list hs (hash_block_size p) bs) max_length
      gids spec drop al 1 1 p = (Ok computed, p) ∧
    hit_lists p gids hs bs n (λ _, False) computed ∧
    (k ≤ mx)%nat ∧ (∀ j, (j < k)%nat → everywhere p gids (hash_of_block p hs bs j)) ∧
    (k = mx ∨ ¬ everywhere p gids (hash_of_block p hs bs k)) ∧
    aligned_below bs al (if drop then pred k else k) n.
Proof.
  intros bs mx Hspec Ha. pose proof (lookup_setup _ _ _ _ _ Ha) as (a & Hp & Hg & Hnth & Hiter & Hmx & _).
  pose proof Ha as [_ [Hne _] (Hh & Hb & _) [Hmax _]].
  destruct (full_hit_eq p a gids _ _ _ Hp Hg Hne Hiter spec drop al 1 1 max_length Hspec)
    as (k & n & computed & Heq & Hrows & (Hk & Hall & Hend) & Hal); [done|done|lia|].
  change (rank_block_size spec 1 1) with bs in Hk, Hend, Hal.
  rewrite Z.min_l in Hk, Hend by lia. fold mx in Hk, Hend. exists k, n, computed. split_and!; try done.
  - apply (rows_hit_lists _ a); [done|]. eapply rows_mono; [|exact Hrows]. by left.
  - intros j Hj. eapply all_filed_everywhere; [done|by apply Hall].
  - destruct Hend as [->|Hno]; [by left|right]. intros He. apply Hno. by eapply all_filed_everywhere.
Qed.

(** C22: A sliding-window lookup returns an aligned hit of [n] blocks whose last
    [need] blocks, those the next token attends to, all carry their hashes;
    earlier positions may be null.  Without Eagle and for a window of at least
    two tokens, no aligned length whose window is cached is longer. *)
Theorem sliding_window_hit p gids hs spec w drop al max_length :
  let bs := spec_block_size spec in
  let mx := Z.to_nat (max_length / bs) in
  let need := contiguous_blocks_for_hit w bs false in
  get_kv_cache_spec_sliding_window spec = Some w → lookup_args p gids hs bs max_length →
  ∃ n computed,
    find_longest_cache_hit SlidingWindowManager (hash_list hs (hash_block_size p) bs) max_length
      gids spec drop al 1 1 p = (Ok computed, p) ∧
    hit_lists p gids hs bs n (λ j, Z.of_nat j < Z.of_nat n - need) computed ∧
    (n ≤ mx)%nat ∧ aligned bs al (Z.of_nat n) ∧
    (drop = false → 2 ≤ w → ∀ e, (e ≤ mx)%nat → aligned bs al (Z.of_nat e) →
      (∀ j, (j < e)%nat → Z.of_nat e - need ≤ Z.of_nat j →
         everywhere p gids (hash_of_block p hs bs j)) → (e ≤ n)%nat).
Proof.
  intros bs mx need Hspec Ha. pose proof (lookup_setup _ _ _ _ _ Ha) as (a & Hp & Hg & Hnth & _ & Hmx & _).
  pose proof Ha as [_ [Hne _] (Hh & Hb & _) [Hmax _]].
  assert (fields spec = SlidingWindowSpec bs w ∨ fields spec = SlidingWindowMLASpec bs w) as Hf.
  { unfold get_kv_cache_spec_sliding_window, bs, spec_block_size in *.
    destruct (fields spec); simplify_eq; auto. }
  destruct (window_hit_eq p a gids _ _ _ Hp Hg Hne Hnth spec bs w drop al max_length Hf)
    as (n & computed & Heq & [Hrows Hn _ Hal Hmaxi]); [done|done|lia|].
  exists n, computed. split_and!; try done.
  - by apply (rows_hit_lists _ a).
  - intros Hd Hw e He Hae Hwin. apply Hmaxi; [done| |].
    + change (1 ≤ cdiv (w - 1) bs). destruct (Z.le_gt_cases 1 (cdiv (w - 1) bs)) as [|Hc]; [done|].
      assert (cdiv (w - 1) bs ≤ 0) as Hc0 by lia. apply cdiv_le_iff in Hc0; [lia|done].
    + split_and!; [done..|]. intros j Hj Hje. eapply all_filed_everywhere; [done|by apply Hwin].
Qed.

(** A chunked-local lookup marks the blocks of earlier chunks as computed
    with null blocks and returns the cached prefix of the current chunk. *)
Theorem chunked_local_hit p gids hs spec bs chunk max_length :
  let start := Z.to_nat (max_length / chunk * chunk / bs) in
  let mx := Z.to_nat (max_length / bs) in
  fields spec = ChunkedLocalAttentionSpec bs chunk → 0 < chunk → lookup_args p gids hs bs max_length →
  ∃ n computed,
    find_longest_cache_hit ChunkedLocalAttentionManager (hash_list hs (hash_block_size p) bs) max_length
      gids spec false bs 1 1 p = (Ok computed, p) ∧
    hit_lists p gids hs bs n (λ j, (j < start)%nat) computed ∧ (start ≤ n ≤ mx)%nat ∧
    (∀ j, (start ≤ j < n)%nat → everywhere p gids (hash_of_block p hs bs j)) ∧
    (n = mx ∨ ¬ everywhere p gids (hash_of_block p hs bs n)).
Proof.
  intros start mx Hspec Hch Ha. pose proof (lookup_setup _ _ _ _ _ Ha) as (a & Hp & Hg & Hnth & _ & Hmx & _).
  pose proof Ha as [_ [Hne _] (Hh & Hb & _) [Hmax _]].
  destruct (chunked_hit_eq p a gids _ _ _ Hp Hg Hne Hnth spec bs chunk max_length Hspec)
    as (n & computed & Heq & Hrows & Hn & Hall & Hend); [done|done|done|lia|].
  exists n, computed. split_and!; try done; try lia.
  - by apply (rows_hit_lists _ a).
  - intros j Hj. eapply all_filed_everywhere; [done|by apply Hall].
  - destruct Hend as [->|Hno]; [by left|right]. intros He. apply Hno. by eapply all_filed_everywhere.
Qed.

End hit_spec.

(** ** Concrete lookups *)

Section examples.
Let env : HashEnv := injective_env.
Existing Instance env.

Definition demo_full : KVCacheSpec := MkSpec (FullAttentionSpec 4) 0.
Definition demo_sliding : KVCacheSpec := MkSpec (SlidingWindowSpec 4 5) 0.
Definition demo_chunked : KVCacheSpec := MkSpec (ChunkedLocalAttentionSpec 4 8) 0.

(** Three hashes, the first two cached. *)
Definition demo_hashes : list bytes := [[1; 2]; [3; 4]; [5; 6]].

Lemma demo_lookup_args : lookup_args demo_pool2 [0] demo_hashes 4 11.
Proof.
  split.
  - exists [1; 2; 3], []. exact demo_reachable2.
  - split; [done|]. by repeat constructor.
  - by vm_compute.
  - by vm_compute.
Qed.

Example demo_full_hit :
  find_longest_cache_hit FullAttentionManager (hash_list demo_hashes 4 4) 11 [0] demo_full false 4 1 1
    demo_pool2 = (Ok [[1; 2]], demo_pool2).
Proof. vm_compute. reflexivity. Qed.

Lemma full_attention_hit_witness :
  ∃ k n computed,
    find_longest_cache_hit FullAttentionManager (hash_list demo_hashes 4 4) 11 [0] demo_full true 4 1 1
      demo_pool2 = (Ok computed, demo_pool2) ∧
    hit_lists demo_pool2 [0] demo_hashes 4 n (λ _, False) computed ∧
    (k ≤ 2)%nat ∧ (∀ j, (j < k)%nat → everywhere demo_pool2 [0] (hash_of_block demo_pool2 demo_hashes 4 j)) ∧
    (k = 2%nat ∨ ¬ everywhere demo_pool2 [0] (hash_of_block demo_pool2 demo_hashes 4 k)) ∧
    aligned_below 4 4 (pred k) n.
Proof.
  exact (full_attention_hit demo_pool2 [0] demo_hashes demo_full true 4 11 eq_refl demo_lookup_args).
Defined.

Lemma sliding_window_hit_witness :
  ∃ n computed,
    find_longest_cache_hit SlidingWindowManager (hash_list demo_hashes 4 4) 11 [0] demo_sliding false 4 1 1
      demo_pool2 = (Ok computed, demo_pool2) ∧
    hit_lists demo_pool2 [0] demo_hashes 4 n (λ j, Z.of_nat j < Z.of_nat n - 1) computed ∧
    (n ≤ 2)%nat ∧ aligned 4 4 (Z.of_nat n) ∧
    (false = false → 2 ≤ 5 → ∀ e, (e ≤ 2)%nat → aligned 4 4 (Z.of_nat e) →
      (∀ j, (j < e)%nat → Z.of_nat e - 1 ≤ Z.of_nat j →
         everywhere demo_pool2 [0] (hash_of_block demo_pool2 demo_hashes 4 j)) → (e ≤ n)%nat).
Proof.
  exact (sliding_window_hit demo_pool2 [0] demo_hashes demo_sliding 5 false 4 11 eq_refl demo_lookup_args).
Defined.

Lemma chunked_local_hit_witness :
  ∃ n computed,
    find_longest_cache_hit ChunkedLocalAttentionManager (hash_list demo_hashes 4 4) 11 [0] demo_chunked
      false 4 1 1 demo_pool2 = (Ok computed, demo_pool2) ∧
    hit_lists demo_pool2 [0] demo_hashes 4 n (λ j, (j < 2)%nat) computed ∧ (2 ≤ n ≤ 2)%nat ∧
    (∀ j, (2 ≤ j < n)%nat → everywhere demo_pool2 [0] (hash_of_block demo_pool2 demo_hashes 4 j)) ∧
    (n = 2%nat ∨ ¬ everywhere demo_pool2 [0] (hash_of_block demo_pool2 demo_hashes 4 n)).
Proof.
  exact (chunked_local_hit demo_pool2 [0] demo_hashes demo_chunked 4 8 11 eq_refl eq_refl demo_lookup_args).
Defined.

(** *** Eagle drops two blocks when the block size differs from the alignment

    Three blocks of four tokens are cached; hits must be multiples of eight
    tokens.  One block past the boundary at eight tokens is cached, so the
    two-block hit survives the Eagle drop, and full attention reports it.  The
    sliding-window search re-aligns three blocks to two, then drops one more
    and re-aligns again. *)

Definition three_block_request : Request :=
  MkRequest "r"%string 0 0 None None None None [] (Some (replicate 12 7)) None ∅ 12 []
    (replicate 12 7) [] 0 0 1 WAITING None [[1; 2]; [3; 4]; [5; 6]] (Some 4) false.
Definition three_cached : BlockPool := Eval vm_compute in
  demo_step (OCache three_block_request [1; 2; 3] 0 3 4 0 None) demo_pool1.

(** C24: Not always the longest.  With Eagle and a block size other than the
    alignment, the sliding-window search returns no hit on a pool where the
    first three blocks are cached and the window covers everything, while the
    two-block hit is aligned, fully cached and has its look-ahead block. *)
Theorem sliding_eagle_hit_not_longest :
  (∀ j, (j < 3)%nat → everywhere three_cached [0] (hash_of_block three_cached demo_hashes 4 j)) ∧
  aligned 4 8 2 ∧
  find_longest_cache_hit SlidingWindowManager (hash_list demo_hashes 4 4) 12 [0]
    (MkSpec (SlidingWindowSpec 4 100) 0) true 8 1 1 three_cached = (Ok [[]], three_cached) ∧
  find_longest_cache_hit FullAttentionManager (hash_list demo_hashes 4 4) 12 [0]
    demo_full true 8 1 1 three_cached = (Ok [[1; 2]], three_cached).
Proof.
  split_and!; [|by right|vm_compute; reflexivity|vm_compute; reflexivity].
  intros j Hj g ->%list_elem_of_singleton. exists (Z.of_nat j + 1).
  assert (j = 0%nat ∨ j = 1%nat ∨ j = 2%nat) as [-> | [-> | ->]] by lia; by vm_compute.
Qed.
End examples.
