(* ===== verification/Coordinator.v ===== *)
(** * KV-cache coordinators

    src/vllm/vllm/v1/core/kv_cache_coordinator.py: one manager per KV-cache
    group over one block pool.  The base class loops over the managers; the
    three subclasses differ in how they look up cache hits and in which blocks
    they offer to the cache. *)

From S2P Require Import Prelude FreeQueue BlockHash Request BlockPool KVCacheSpec SingleType CacheHit.

(** ** State *)

(** [SpecGroup]: the groups that share a specification. *)
Record SpecGroup : Type := MkSpecGroup {
  sg_spec : KVCacheSpec;
  sg_group_ids : list Z;
  sg_manager_cls : manager_class;
  sg_use_eagle : bool
}.

(** The subclass with the attributes it adds. *)
Inductive coordinator_kind : Type :=
| NoPrefixCache
| Unitary (block_size dcp_world_size pcp_world_size : Z)
| Hybrid (hash_block_size : Z) (attention_groups : list SpecGroup).

Record KVCacheCoordinator : Type := MkCoordinator {
  kind : coordinator_kind;
  kv_cache_config : KVCacheConfig;
  co_enable_caching : bool;
  co_scheduler_block_size : Z;
  eagle_group_ids : list Z;
  retention_interval : option Z
}.

Record cstate : Type := MkCS {
  cs_pool : BlockPool;
  cs_mgrs : list Manager;
  cs_co : KVCacheCoordinator
}.

(** A manager's method, on manager [i] and the shared pool. *)
Definition on_mgr {A} (i : nat) (m : M mstate A) : M cstate A := λ s,
  match cs_mgrs s !! i with
  | None => (Err IndexError, s)
  | Some mg =>
      let '(r, t) := m (MkMS (cs_pool s) mg) in
      (r, MkCS (ms_pool t) (<[i := ms_mgr t]> (cs_mgrs s)) (cs_co s))
  end.

(** [[f(i, manager) for i, manager in enumerate(self.single_type_managers)]] *)
Definition map_mgrs {A} (f : nat → M mstate A) : M cstate (list A) :=
  let* n := gets (λ s, length (cs_mgrs s)) in
  map_each (λ i, on_mgr i (f i)) (seq 0 n).
Definition for_mgrs (f : nat → M mstate unit) : M cstate unit :=
  let* n := gets (λ s, length (cs_mgrs s)) in
  for_each (seq 0 n) (λ i, on_mgr i (f i)).

Definition on_pool {A} (m : M BlockPool A) : M cstate A :=
  zoom cs_pool (λ p s, MkCS p (cs_mgrs s) (cs_co s)) m.

Definition is_cross (c : manager_class) : bool :=
  match c with CrossAttentionManager => true | _ => false end.

Section coordinator.
Context `{HashEnv}.

(** ** Operations of the base class *)

(** [get_num_blocks_to_allocate] *)
Definition co_get_num_blocks_to_allocate (request_id : string) (num_tokens : Z)
    (new_computed_blocks : list (list loc)) (num_encoder_tokens total_computed_tokens
    num_tokens_main_model : Z) (apply_admission_cap : bool) : M cstate Z :=
  let* ns := map_mgrs (λ i,
    let* c := getm cls in
    if is_cross c then
      get_num_blocks_to_allocate request_id num_encoder_tokens [] 0 num_encoder_tokens
        apply_admission_cap
    else
      let* nb := or_raise IndexError (new_computed_blocks !! i) in
      get_num_blocks_to_allocate request_id num_tokens nb total_computed_tokens
        num_tokens_main_model apply_admission_cap) in
  ret (foldl Z.add 0 ns).

Definition co_allocate_new_computed_blocks (request_id : string)
    (new_computed_blocks : list (list loc))
    (num_local_computed_tokens num_external_computed_tokens : Z) : M cstate unit :=
  for_mgrs (λ i,
    let* nb := or_raise IndexError (new_computed_blocks !! i) in
    allocate_new_computed_blocks request_id nb num_local_computed_tokens
      num_external_computed_tokens).

Definition co_allocate_new_blocks (request_id : string)
    (num_tokens num_tokens_main_model num_encoder_tokens : Z) : M cstate (list (list loc)) :=
  map_mgrs (λ _,
    let* c := getm cls in
    allocate_new_blocks request_id (if is_cross c then num_encoder_tokens else num_tokens)
      num_tokens_main_model).

(** [KVCacheCoordinator.cache_blocks] and the override of the hybrid one. *)
Definition base_co_cache_blocks (request : Request) (num_computed_tokens : Z) : M cstate unit :=
  let* ri := gets (λ s, retention_interval (cs_co s)) in
  for_mgrs (λ _, cache_blocks request num_computed_tokens ri).

Definition Hybrid_cache_blocks (request : Request) (num_computed_tokens : Z) : M cstate unit :=
  let* co := gets cs_co in
  let sbs := co_scheduler_block_size co in
  let aligned_num_computed_tokens := num_computed_tokens / sbs * sbs in
  for_mgrs (λ _,
    let* m := getm (λ m, m) in
    let num_tokens_to_cache :=
      if use_eagle m && (0 <? aligned_num_computed_tokens)
      then Z.min num_computed_tokens (aligned_num_computed_tokens + block_size m)
      else aligned_num_computed_tokens in
    cache_blocks request num_tokens_to_cache (retention_interval co)).

Definition co_cache_blocks (request : Request) (num_computed_tokens : Z) : M cstate unit :=
  let* k := gets (λ s, kind (cs_co s)) in
  match k with
  | Hybrid _ _ => Hybrid_cache_blocks request num_computed_tokens
  | _ => base_co_cache_blocks request num_computed_tokens
  end.

Definition co_free (request_id : string) : M cstate unit := for_mgrs (λ _, free request_id).

Definition co_alias_request_blocks (dst_request_id src_request_id : string)
    (num_prefix_blocks : Z) : M cstate unit :=
  for_mgrs (λ _, alias_request_blocks dst_request_id src_request_id num_prefix_blocks).

Definition co_alias_request_blocks_from_snapshot (dst_request_id : string)
    (src_blocks : list (list loc)) (src_num_cached_blocks : list Z) (num_prefix_blocks : Z)
  : M cstate unit :=
  let* n := gets (λ s, length (cs_mgrs s)) in
  if negb (length src_blocks =? n)%nat then raise ValueError
  else if negb (length src_num_cached_blocks =? n)%nat then raise ValueError
  else
    for_mgrs (λ i,
      let* bs := or_raise IndexError (src_blocks !! i) in
      let* nc := or_raise IndexError (src_num_cached_blocks !! i) in
      alias_request_blocks_from_snapshot dst_request_id bs nc num_prefix_blocks).

Definition co_get_num_cached_blocks (request_id : string) : M cstate (list Z) :=
  map_mgrs (λ _, getm (cached_at request_id)).

Definition co_get_num_common_prefix_blocks (running_request_id : string) : M cstate (list Z) :=
  let* k := gets (λ s, kind (cs_co s)) in
  match k with
  | NoPrefixCache => let* n := gets (λ s, length (cs_mgrs s)) in ret (replicate n 0)
  | _ => map_mgrs (λ _, get_num_common_prefix_blocks running_request_id)
  end.

Definition co_remove_skipped_blocks (request_id : string) (total_computed_tokens : Z)
  : M cstate unit :=
  for_mgrs (λ _, remove_skipped_blocks request_id total_computed_tokens).

(** [req_to_blocks.get(request_id) or []]: reads without creating an entry. *)
Definition co_get_blocks (request_id : string) : M cstate (list (list loc)) :=
  map_mgrs (λ _, getm (blocks_at request_id)).

Definition co_new_step_starts : M cstate unit := for_mgrs (λ _, new_step_starts).

(** ** Cache hits *)

Definition Unitary_find_longest_cache_hit (block_size dcp pcp : Z) (block_hashes : list bytes)
    (max_cache_hit_length : Z) : M cstate (list (list loc) * Z) :=
  let* co := gets cs_co in
  let* c := gets (λ s, cls <$> cs_mgrs s !! 0%nat) in
  let* c := or_raise IndexError c in
  let* g := or_raise IndexError (kv_cache_groups (kv_cache_config co) !! 0%nat) in
  let* hit_blocks := on_pool (find_longest_cache_hit c (PlainHashes block_hashes)
    max_cache_hit_length [0] (group_spec g) (bool_decide (0 ∈ eagle_group_ids co))
    block_size dcp pcp) in
  let* first := or_raise IndexError (hit_blocks !! 0%nat) in
  ret (hit_blocks, len first * block_size).

(** [_get_block_hashes] *)
Definition get_block_hashes {S} (hash_block_size : Z) (block_hashes : list bytes)
    (kv_cache_spec : KVCacheSpec) : M S BlockHashList :=
  if spec_block_size kv_cache_spec =? hash_block_size then ret (PlainHashes block_hashes)
  else
    let* l := bhl_init block_hashes hash_block_size (spec_block_size kv_cache_spec) in
    ret (CoarseHashes l).

(** The variables of the search loop: the current length, the blocks found for
    each group, the groups whose Eagle drop is verified. *)
Abbreviation hit_vars := (Z * list (option (list loc)) * list nat)%type (only parsing).

(** [for group_id, blocks in zip(group_ids, hit_blocks):
    hit_blocks_by_group[group_id] = blocks] *)
Fixpoint put_hits (group_ids : list Z) (hit_blocks : list (list loc))
    (by_group : list (option (list loc))) : list (option (list loc)) :=
  match group_ids, hit_blocks with
  | g :: gs, b :: bs => put_hits gs bs (py_set by_group g (Some b))
  | _, _ => by_group
  end.

(** The body of the loop over the specification groups. *)
Definition hybrid_group_step (block_hashes : list bytes) (hash_block_size scheduler_block_size
    max_cache_hit_length : Z) (v : hit_vars) (ig : nat * SpecGroup) : M BlockPool hit_vars :=
  let '(curr_hit_length, hit_blocks_by_group, eagle_verified) := v in
  let '(idx, MkSpecGroup spec group_ids manager_cls use_eagle) := ig in
  let* gid := or_raise IndexError (group_ids !! 0%nat) in
  let* cached_blocks := or_raise IndexError (py_nth hit_blocks_by_group gid) in
  if is_full_attention spec && bool_decide (cached_blocks ≠ None) then
    ret (curr_hit_length / spec_block_size spec * spec_block_size spec, hit_blocks_by_group,
         eagle_verified)
  else
    let drop_eagle_block := use_eagle && bool_decide (idx ∉ eagle_verified) in
    let max_length :=
      if drop_eagle_block
      then Z.min (curr_hit_length + spec_block_size spec) max_cache_hit_length
      else curr_hit_length in
    let* hashes := get_block_hashes hash_block_size block_hashes spec in
    let* hit_blocks := find_longest_cache_hit manager_cls hashes max_length group_ids spec
      drop_eagle_block scheduler_block_size 1 1 in
    let* first := or_raise IndexError (hit_blocks !! 0%nat) in
    let new_hit_length := len first * spec_block_size spec in
    let eagle_verified :=
      if drop_eagle_block then idx :: eagle_verified
      else if new_hit_length <? curr_hit_length then [] else eagle_verified in
    ret (new_hit_length, put_hits group_ids hit_blocks hit_blocks_by_group, eagle_verified).

(** The [while True] loop; [hit_length] decreases with every repetition. *)
Fixpoint hybrid_loop (fuel : nat) (block_hashes : list bytes) (hash_block_size
    scheduler_block_size max_cache_hit_length : Z) (attention_groups : list SpecGroup)
    (is_simple_hybrid : bool) (hit_length : Z) (hit_blocks_by_group : list (option (list loc)))
    (eagle_verified : list nat) : M BlockPool (Z * list (option (list loc))) :=
  match fuel with
  | O => raise OutOfFuel
  | S fuel =>
      let* v := fold_each (hybrid_group_step block_hashes hash_block_size scheduler_block_size
                  max_cache_hit_length)
        (zip (seq 0 (length attention_groups)) attention_groups)
        (hit_length, hit_blocks_by_group, eagle_verified) in
      let '(curr_hit_length, hit_blocks_by_group, eagle_verified) := v in
      if hit_length <=? curr_hit_length then ret (hit_length, hit_blocks_by_group)
      else if is_simple_hybrid then ret (curr_hit_length, hit_blocks_by_group)
      else hybrid_loop fuel block_hashes hash_block_size scheduler_block_size
             max_cache_hit_length attention_groups is_simple_hybrid curr_hit_length
             hit_blocks_by_group eagle_verified
  end.

(** [del blks[num_blocks:]] for the groups of the first specification. *)
Definition truncate_full (num_blocks : Z) (group_ids : list Z)
    (by_group : list (option (list loc))) : list (option (list loc)) :=
  foldl (λ by_group g,
    match py_nth by_group g with
    | Some (Some blks) => py_set by_group g (Some (slice_to blks num_blocks))
    | _ => by_group
    end) by_group group_ids.

Definition Hybrid_find_longest_cache_hit (num_groups : nat) (hash_block_size scheduler_block_size : Z)
    (attention_groups : list SpecGroup) (block_hashes : list bytes) (max_cache_hit_length : Z)
  : M BlockPool (list (list loc) * Z) :=
  let* first_group := or_raise IndexError (attention_groups !! 0%nat) in
  let is_simple_hybrid :=
    (length attention_groups =? 2)%nat && is_full_attention (sg_spec first_group) in
  let* r := hybrid_loop (S (Z.to_nat max_cache_hit_length)) block_hashes hash_block_size
    scheduler_block_size max_cache_hit_length attention_groups is_simple_hybrid
    max_cache_hit_length (replicate num_groups None) [] in
  let '(hit_length, by_group) := r in
  let by_group :=
    if is_full_attention (sg_spec first_group)
    then truncate_full (hit_length / spec_block_size (sg_spec first_group))
           (sg_group_ids first_group) by_group
    else by_group in
  ret (default [] <$> by_group, hit_length).

Definition co_find_longest_cache_hit (block_hashes : list bytes) (max_cache_hit_length : Z)
  : M cstate (list (list loc) * Z) :=
  let* co := gets cs_co in
  match kind co with
  | NoPrefixCache =>
      let* n := gets (λ s, length (cs_mgrs s)) in ret (replicate n [], 0)
  | Unitary block_size dcp pcp =>
      Unitary_find_longest_cache_hit block_size dcp pcp block_hashes max_cache_hit_length
  | Hybrid hash_block_size attention_groups =>
      on_pool (Hybrid_find_longest_cache_hit (length (kv_cache_groups (kv_cache_config co)))
        hash_block_size (co_scheduler_block_size co) attention_groups block_hashes
        max_cache_hit_length)
  end.

(** ** Construction *)

(** [_validate_prefix_cache_retention_interval] *)
Definition validate_prefix_cache_retention_interval (retention_interval : option Z)
    (scheduler_block_size : Z) (config : KVCacheConfig) : res unit :=
  match retention_interval with
  | None => Ok tt
  | Some r =>
      if negb (existsb (λ g, is_sliding_window (group_spec g)) (kv_cache_groups config))
      then Err ValueError
      else if (r <? 0) || negb (r mod scheduler_block_size =? 0) then Err ValueError
      else Ok tt
  end.

Definition rassert (b : bool) : res unit := if b then Ok tt else Err AssertionError.

(** The managers of the groups, in order. *)
Fixpoint init_managers (groups : list KVCacheGroupSpec) (i : Z)
    (max_num_batched_tokens max_model_len : Z) (null : loc) (enable_caching : bool)
    (scheduler_block_size dcp pcp : Z) : res (list Manager) :=
  match groups with
  | [] => Ok []
  | g :: groups' =>
      rbind (get_manager_for_kv_cache_spec (group_spec g) max_num_batched_tokens max_model_len
               null enable_caching i scheduler_block_size dcp pcp) (λ m,
      rbind (init_managers groups' (i + 1) max_num_batched_tokens max_model_len null
               enable_caching scheduler_block_size dcp pcp) (λ ms,
      Ok (m :: ms)))
  end.

Definition group_indices (config : KVCacheConfig) : list Z :=
  range 0 (len (kv_cache_groups config)).

(** [KVCacheCoordinator.__init__]; [retention] is the environment variable
    VLLM_PREFIX_CACHE_RETENTION_INTERVAL. *)
Definition Coordinator_init (k : coordinator_kind) (config : KVCacheConfig)
    (max_model_len max_num_batched_tokens : Z) (use_eagle enable_caching
    enable_kv_cache_events : bool) (dcp pcp scheduler_block_size hash_block_size : Z)
    (retention : option Z) : res cstate :=
  rbind (rassert ((scheduler_block_size mod hash_block_size =? 0) &&
    forallb (λ g, scheduler_block_size mod spec_block_size (group_spec g) =? 0)
      (kv_cache_groups config))) (λ _,
  rbind (BlockPool_init (num_blocks config) enable_caching hash_block_size
           enable_kv_cache_events) (λ pool,
  let flagged := (λ ig : Z * KVCacheGroupSpec, ig.1) <$>
    filter (λ ig : Z * KVCacheGroupSpec, is_eagle_group ig.2 = true)
      (zip (group_indices config) (kv_cache_groups config)) in
  let eagle_ids := if use_eagle && bool_decide (flagged = []) then group_indices config else flagged in
  rbind (init_managers (kv_cache_groups config) 0 max_num_batched_tokens max_model_len
           (null_block pool) enable_caching scheduler_block_size dcp pcp) (λ mgrs,
  rbind (validate_prefix_cache_retention_interval retention scheduler_block_size config) (λ _,
  Ok (MkCS pool mgrs (MkCoordinator k config enable_caching scheduler_block_size eagle_ids retention)))))).

(** [for idx, group in enumerate(self.attention_groups)] with its [else]. *)
Fixpoint add_to_groups (spec : KVCacheSpec) (i : Z) (c : manager_class) (use_eagle : bool)
    (groups : list SpecGroup) : res (list SpecGroup) :=
  match groups with
  | [] => Ok [MkSpecGroup spec [i] c use_eagle]
  | g :: groups' =>
      if bool_decide (sg_spec g = spec) then
        rbind (rassert (bool_decide (c = sg_manager_cls g))) (λ _,
        Ok (MkSpecGroup (sg_spec g) (sg_group_ids g ++ [i]) (sg_manager_cls g)
              (use_eagle || sg_use_eagle g) :: groups'))
      else rbind (add_to_groups spec i c use_eagle groups') (λ gs, Ok (g :: gs))
  end.

Fixpoint split_groups (items : list (Z * KVCacheGroupSpec)) (mgrs : list Manager)
    (eagle_ids : list Z) (groups : list SpecGroup) : res (list SpecGroup) :=
  match items, mgrs with
  | (i, g) :: items', m :: mgrs' =>
      rbind (add_to_groups (group_spec g) i (cls m) (bool_decide (i ∈ eagle_ids)) groups)
        (split_groups items' mgrs' eagle_ids)
  | [], _ => Ok groups
  | _ :: _, [] => Err IndexError
  end.

(** [list.sort] is stable: full attention first. *)
Definition sort_groups (groups : list SpecGroup) : list SpecGroup :=
  filter (λ g, is_full_attention (sg_spec g) = true) groups ++
  filter (λ g, is_full_attention (sg_spec g) = false) groups.

(** [self.single_type_managers[gid].use_eagle = True] *)
Definition flag_eagle (gids : list Z) (mgrs : list Manager) : list Manager :=
  foldl (λ ms gid, alter (set_use_eagle true) (Z.to_nat gid) ms) mgrs gids.

Definition verify_and_split_kv_cache_groups (s : cstate) : res (list SpecGroup * list Manager) :=
  let co := cs_co s in
  rbind (split_groups (zip (group_indices (kv_cache_config co)) (kv_cache_groups (kv_cache_config co)))
           (cs_mgrs s) (eagle_group_ids co) []) (λ groups,
  rbind (rassert (1 <? len groups)) (λ _,
  let groups := sort_groups groups in
  let mgrs := foldl (λ ms g, if sg_use_eagle g then flag_eagle (sg_group_ids g) ms else ms)
                (cs_mgrs s) groups in
  Ok (groups, mgrs))).

Definition set_kind (k : coordinator_kind) (mgrs : list Manager) (s : cstate) : cstate :=
  let co := cs_co s in
  MkCS (cs_pool s) mgrs (MkCoordinator k (kv_cache_config co) (co_enable_caching co)
    (co_scheduler_block_size co) (eagle_group_ids co) (retention_interval co)).

(** [UnitaryKVCacheCoordinator.__init__] after the base class. *)
Definition Unitary_init (dcp pcp hash_block_size : Z) (s : cstate) : res cstate :=
  let co := cs_co s in
  match kv_cache_groups (kv_cache_config co) with
  | [] => Err IndexError
  | g :: groups =>
      let bs := spec_block_size (group_spec g) in
      let bs := if 1 <? dcp then bs * dcp else bs in
      let bs := if 1 <? pcp then bs * pcp else bs in
      rbind (rassert (negb (co_enable_caching co) || (hash_block_size =? bs))) (λ _,
      rbind (rassert (bool_decide (groups = []))) (λ _,
      match cs_mgrs s with
      | [] => Err IndexError
      | m :: mgrs =>
          Ok (set_kind (Unitary bs dcp pcp)
                (set_use_eagle (bool_decide (0 ∈ eagle_group_ids co)) m :: mgrs) s)
      end))
  end.

(** [HybridKVCacheCoordinator.__init__] after the base class. *)
Definition Hybrid_init (dcp pcp hash_block_size : Z) (s : cstate) : res cstate :=
  rbind (rassert (forallb (λ g, spec_block_size (group_spec g) mod hash_block_size =? 0)
                    (kv_cache_groups (kv_cache_config (cs_co s))))) (λ _,
  rbind (rassert (dcp =? 1)) (λ _,
  rbind (rassert (pcp =? 1)) (λ _,
  rbind (verify_and_split_kv_cache_groups s) (λ gm,
  Ok (set_kind (Hybrid hash_block_size gm.1) gm.2 s))))).

Definition get_kv_cache_coordinator (config : KVCacheConfig) (max_model_len
    max_num_batched_tokens : Z) (use_eagle enable_caching enable_kv_cache_events : bool)
    (dcp pcp scheduler_block_size hash_block_size : Z) (retention : option Z) : res cstate :=
  let base caching := Coordinator_init NoPrefixCache config max_model_len max_num_batched_tokens
    use_eagle caching enable_kv_cache_events dcp pcp scheduler_block_size hash_block_size retention in
  if negb enable_caching then base false
  else if len (kv_cache_groups config) =? 1
  then rbind (base true) (Unitary_init dcp pcp hash_block_size)
  else rbind (base true) (Hybrid_init dcp pcp hash_block_size).
End coordinator.
