(* ===== verification/CacheLookup.v ===== *)
(** * Looking up the cached prefix of a request

    [co_find_longest_cache_hit] of every coordinator returns, for any pool that
    the managers share: the fixed-point search of the hybrid coordinator
    terminates within its fuel, and the lists it returns all cover the hit with
    blocks that carry the request's hashes.  They cover it exactly, but for the
    full-attention groups after the first, which the code does not truncate. *)

From S2P Require Import Prelude FreeQueue BlockHash Request BlockPool PoolProps KVCacheSpec SingleType CacheHit CacheHitProps HitSpec Coordinator.

Section lookup.
Context `{HashEnv} (p : BlockPool) (a : apool).
Hypothesis Hpool : pool_rep p a.
Context (hs : list bytes).

(** Block [j] of group [g] carries the request's hash [j], or is null. *)
Definition found_at (bs : Z) : Z → nat → loc → Prop :=
  filed_or_null a (block_hash_at hs (bs / hash_block_size p)) (λ _, True).

(** Which searches do not raise and give up an Eagle block when asked to: no cross
    attention, Mamba only without Eagle, and chunked local attention only without
    Eagle and at the alignment. *)
Definition searchable (c : manager_class) (spec : KVCacheSpec) (drop : bool) (al : Z) : Prop :=
  match c with
  | FullAttentionManager | SinkFullAttentionManager => is_full_attention spec = true
  | SlidingWindowManager => is_sliding_window spec = true
  | ChunkedLocalAttentionManager =>
      drop = false ∧ al = spec_block_size spec ∧
      match fields spec with ChunkedLocalAttentionSpec _ chunk => 0 < chunk | _ => False end
  | MambaManager => drop = false ∧ is_mamba spec = true
  | CrossAttentionManager => False
  end.

Lemma searchable_no_drop c spec drop al : searchable c spec drop al → searchable c spec false al.
Proof. destruct c; cbn; tauto. Qed.

(** Block sizes and group ids of a search. *)
Record search_config (gids : list Z) (bs : Z) : Prop := {
  sf_groups : gids ≠ [] ∧ Forall (λ g, 0 ≤ g < 2 ^ 32) gids;
  sf_size : 0 < hash_block_size p ∧ 0 < bs ∧ bs mod hash_block_size p = 0
}.

Lemma aligned_mod bs al n : 0 < al → aligned bs al n → (n * bs) mod al = 0.
Proof. intros Hal [->|?]; [|done]. by apply Z.mod_mul, Z.neq_sym, Z.lt_neq. Qed.

Lemma enough_hashes bs max_length :
  0 < hash_block_size p → 0 < bs → bs mod hash_block_size p = 0 → 0 ≤ max_length →
  max_length / hash_block_size p ≤ len hs → max_length / bs * (bs / hash_block_size p) ≤ len hs.
Proof.
  intros Hh Hb Hm Hmax Hlen. etransitivity; [|exact Hlen]. apply Z.mod_divide in Hm as [k ->]; [|lia].
  rewrite Z.div_mul by lia. apply Z.div_le_lower_bound; [done|].
  pose proof (Z.mul_div_le max_length (k * hash_block_size p) Hb). nia.
Qed.

(** Every search class in one statement. *)
Lemma search_ok gids c spec drop al max_length :
  let bs := spec_block_size spec in
  search_config gids bs → searchable c spec drop al → 0 < al → 0 ≤ max_length →
  max_length / hash_block_size p ≤ len hs →
  ∃ n computed,
    find_longest_cache_hit c (hash_list hs (hash_block_size p) bs) max_length gids spec drop al 1 1 p
    = (Ok computed, p) ∧
    rows gids n (found_at bs) computed ∧
    Z.of_nat n ≤ (if drop then Z.max 0 (max_length / bs - 1) else max_length / bs) ∧
    (Z.of_nat n * bs) mod al = 0.
Proof.
  intros bs [[Hne Hg] Hsize] Hs Hal Hmax Hlen. pose proof Hsize as (Hh & Hb & Hm).
  destruct (search_setup p a gids hs bs max_length Hpool Hg Hsize) as (Hg' & Hnth & Hiter & Hmx & _).
  { split; [done|]. by apply enough_hashes. }
  destruct c; cbn [searchable find_longest_cache_hit] in *; try done.
  1, 5: destruct (full_hit_eq p a gids _ _ _ Hpool Hg' Hne Hiter spec drop al 1 1 max_length Hs)
      as (k & n & computed & Heq & Hrows & (Hk & _) & Hbelow); [done|done|lia|];
    change (rank_block_size spec 1 1) with bs in *; exists n, computed; split_and!; [exact Heq| | |];
    [by eapply rows_mono; [|exact Hrows]; left
    |destruct Hbelow as [Hn _]; destruct drop; lia
    |apply aligned_mod; [done|apply Hbelow]].
  - assert (∃ w, fields spec = SlidingWindowSpec bs w ∨ fields spec = SlidingWindowMLASpec bs w) as [w Hf].
    { unfold bs, spec_block_size, is_sliding_window in *. destruct (fields spec); try done; eauto. }
    destruct (window_hit_eq p a gids _ _ _ Hpool Hg' Hne Hnth spec bs w drop al max_length Hf)
      as (n & computed & Heq & [Hrows Hn Hd Hali _]); [done|done|lia|].
    exists n, computed. split_and!; [exact Heq| | |by apply aligned_mod].
    + eapply rows_mono; [|exact Hrows]. intros g j b _ [?|[? _]]; [by left|by right].
    + destruct drop; [specialize (Hd eq_refl)|]; lia.
  - destruct Hs as (-> & -> & Hc).
    assert (∃ chunk, fields spec = ChunkedLocalAttentionSpec bs chunk ∧ 0 < chunk) as (chunk & Hf & Hch).
    { unfold bs, spec_block_size. destruct (fields spec); try done; eauto. }
    destruct (chunked_hit_eq p a gids _ _ _ Hpool Hg' Hne Hnth spec bs chunk max_length Hf)
      as (n & computed & Heq & Hrows & Hn & _ & _); [done|done|done|lia|].
    exists n, computed. split_and!; [exact Heq| |lia|by apply Z.mod_mul; lia].
    eapply rows_mono; [|exact Hrows]. intros g j b _ [?|[? _]]; [by left|by right].
  - destruct Hs as [-> Hs].
    destruct (mamba_hit_eq p a gids _ _ _ Hpool Hg' Hne Hnth spec false al max_length Hs)
      as (n & computed & Heq & Hrows & Hn & Hst & _); [done|done|fold bs; lia|].
    exists n, computed. split_and!; [exact Heq| |unfold bs in *; lia|].
    + eapply rows_mono; [|exact Hrows]. intros g j b _ [?|[? _]]; [by left|by right].
    + destruct Hst as [->|(_ & Ha & _)]; [by rewrite Z.mul_0_l, Zmod_0_l|by apply aligned_mod].
Qed.

(** [_get_block_hashes] finds the hash list of a group. *)
Lemma get_block_hashes_eq {S} spec (s : S) :
  0 < hash_block_size p → spec_block_size spec mod hash_block_size p = 0 →
  get_block_hashes (hash_block_size p) hs spec s
  = (Ok (hash_list hs (hash_block_size p) (spec_block_size spec)), s).
Proof.
  intros Hh Hm. unfold get_block_hashes, hash_list. destruct (Z.eqb_spec (spec_block_size spec) (hash_block_size p)); [done|].
  unfold bhl_init. rewrite Hm. done.
Qed.

(** ** The hybrid search *)

(** Group [g] has a list of [n] blocks. *)
Definition group_found (bs : Z) (n : nat) (by_group : list (option (list loc))) (g : Z) : Prop :=
  ∃ c, by_group !! Z.to_nat g = Some (Some c) ∧ length c = n ∧ ∀ j b, c !! j = Some b → found_at bs g j b.
Definition sg_found (sg : SpecGroup) (n : nat) (by_group : list (option (list loc))) : Prop :=
  ∀ g, g ∈ sg_group_ids sg → group_found (spec_block_size (sg_spec sg)) n by_group g.

Lemma put_hits_other gids computed by_group g :
  (∀ g', g' ∈ gids → 0 ≤ g') → 0 ≤ g → g ∉ gids →
  put_hits gids computed by_group !! Z.to_nat g = by_group !! Z.to_nat g.
Proof.
  revert computed by_group. induction gids as [|g' gids IH]; intros computed by_group Hpos Hg Hn; [done|].
  apply not_elem_of_cons in Hn as [Hne Hn]. destruct computed as [|c computed]; [done|]. cbn [put_hits].
  rewrite IH by (done || (intros; apply Hpos; by right)).
  pose proof (Hpos g' ltac:(by left)). rewrite py_set_nonneg by done. apply list_lookup_insert_ne. lia.
Qed.

Lemma put_hits_length gids computed by_group :
  (∀ g, g ∈ gids → 0 ≤ g) → length (put_hits gids computed by_group) = length by_group.
Proof.
  revert computed by_group. induction gids as [|g gids IH]; intros computed by_group Hpos; [done|].
  destruct computed as [|c computed]; [done|]. cbn [put_hits]. rewrite IH by (intros; apply Hpos; by right).
  rewrite py_set_nonneg by (apply Hpos; by left). apply length_insert.
Qed.

Lemma put_hits_found bs n gids computed by_group :
  NoDup gids → (∀ g, g ∈ gids → 0 ≤ g < len by_group) → rows gids n (found_at bs) computed →
  ∀ g, g ∈ gids → group_found bs n (put_hits gids computed by_group) g.
Proof.
  intros Hnd Hr Hrows. revert by_group Hnd Hr. unfold rows in Hrows.
  induction Hrows as [|g c gids computed [Hlen Hc] _ IH]; intros by_group Hnd Hr g0 Hin; [by apply elem_of_nil in Hin|].
  apply NoDup_cons in Hnd as [Hg Hnd]. cbn [put_hits]. pose proof (Hr g ltac:(by left)) as Hg0.
  rewrite py_set_nonneg by lia.
  assert (∀ g', g' ∈ gids → 0 ≤ g' < len (<[Z.to_nat g:=Some c]> by_group)) as Hr'.
  { intros g' Hg'. unfold len. rewrite length_insert. apply Hr. by right. }
  apply elem_of_cons in Hin as [->|Hin]; [|by apply IH].
  exists c. split_and!; [|done..]. rewrite put_hits_other; [|intros; apply Hr'; done|lia|done].
  apply list_lookup_insert_eq. unfold len in *. lia.
Qed.

(** A group of the search for [ng] managers. *)
Record sg_ok (ng : nat) (al : Z) (sg : SpecGroup) : Prop := {
  sg_search : search_config (sg_group_ids sg) (spec_block_size (sg_spec sg));
  sg_class : searchable (sg_manager_cls sg) (sg_spec sg) (sg_use_eagle sg) al;
  sg_nodup : NoDup (sg_group_ids sg);
  sg_range : ∀ g, g ∈ sg_group_ids sg → 0 ≤ g < Z.of_nat ng;
  sg_align : al mod spec_block_size (sg_spec sg) = 0
}.

Section pass.
Context (ng : nat) (al mx : Z).
Hypothesis Hal : 0 < al.
Hypothesis Hmx : mx / hash_block_size p ≤ len hs.
Abbreviation bs_of sg := (spec_block_size (sg_spec sg)).

(** Full attention keeps the lists of an earlier pass, if long enough. *)
Definition cached_enough (hit : Z) (by_group : list (option (list loc))) (sg : SpecGroup) : Prop :=
  is_full_attention (sg_spec sg) = true → ∀ g, head (sg_group_ids sg) = Some g →
  by_group !! Z.to_nat g = Some None ∨ ∃ n, sg_found sg n by_group ∧ hit ≤ Z.of_nat n * bs_of sg.

(** No lists yet, as in the first pass. *)
Definition unsearched (by_group : list (option (list loc))) (sg : SpecGroup) : Prop :=
  ∀ g, head (sg_group_ids sg) = Some g → by_group !! Z.to_nat g = Some None.

(** What a group's step leaves: [cur] tokens, and lists that cover them; exactly
    those tokens if the lists are [new] or the group is not full attention. *)
Definition sg_done (new : bool) (cur : Z) (by_group : list (option (list loc))) (sg : SpecGroup) (n : nat) : Prop :=
  sg_found sg n by_group ∧ cur ≤ Z.of_nat n * bs_of sg ∧ cur mod bs_of sg = 0 ∧
  (new = true ∨ is_full_attention (sg_spec sg) = false → Z.of_nat n * bs_of sg = cur ∧ cur mod al = 0).

Lemma sg_done_old new cur by_group sg n : sg_done new cur by_group sg n → sg_done false cur by_group sg n.
Proof. intros (? & ? & ? & Hx). split_and!; [done..|]. intros [?|?]; [done|]. apply Hx. by right. Qed.

Abbreviation frame sgs by_group by_group' := (∀ g, 0 ≤ g → g ∉ (sgs : list Z) →
  (by_group' : list (option (list loc))) !! Z.to_nat g = by_group !! Z.to_nat g) (only parsing).

Lemma search_length drop curr ml bs n :
  0 < bs → ml = (if (drop : bool) then Z.min (curr + bs) mx else curr) → 0 ≤ curr →
  Z.of_nat n ≤ (if drop then Z.max 0 (ml / bs - 1) else ml / bs) → Z.of_nat n * bs ≤ curr.
Proof.
  intros Hb -> Hc Hn. pose proof (Z.mul_div_le curr bs Hb). destruct drop; [|nia].
  assert (Z.min (curr + bs) mx / bs ≤ curr / bs + 1).
  { rewrite <-(Z.div_add curr 1 bs) by lia. apply Z.div_le_mono; lia. }
  assert (0 ≤ curr / bs) by (apply Z.div_pos; lia). nia.
Qed.

Lemma group_step_ok new hit curr by_group ver idx sg :
  sg_ok ng al sg → 0 ≤ curr ≤ hit → hit ≤ mx → length by_group = ng → cached_enough hit by_group sg →
  (new = true → unsearched by_group sg) →
  ∃ curr' by_group' ver',
    hybrid_group_step hs (hash_block_size p) al mx (curr, by_group, ver) (idx, sg) p
    = (Ok (curr', by_group', ver'), p) ∧
    0 ≤ curr' ≤ curr ∧ length by_group' = ng ∧ frame (sg_group_ids sg) by_group by_group' ∧
    ∃ n, sg_done new curr' by_group' sg n.
Proof.
  intros [Hcfg Hcls Hnd Hrange Halign] Hcurr Hhit Hlen Hcached Hnew.
  destruct sg as [spec gids c eagle]; cbn [sg_spec sg_group_ids sg_manager_cls sg_use_eagle] in *.
  pose proof Hcfg as [[Hne _] (Hh & Hb & Hm)]. destruct gids as [|g gids]; [done|].
  assert (0 ≤ g < Z.of_nat ng) as Hg by (apply Hrange; by left).
  assert (Z.to_nat g < length by_group)%nat as Hgl by lia.
  destruct (lookup_lt_is_Some_2 by_group _ Hgl) as [old Hold].
  unfold hybrid_group_step. erewrite bind_eq by done. rewrite py_nth_nonneg, Hold by lia. erewrite bind_eq by done.
  destruct (is_full_attention spec && bool_decide (old ≠ None)) eqn:Hkeep.
  { apply andb_true_iff in Hkeep as [Hfull Hsome%bool_decide_eq_true].
    destruct (Hcached Hfull g eq_refl) as [?|(n & Hf & Hn)]; [cbn in *; congruence|].
    eexists _, by_group, ver. split; [done|].
    assert (0 ≤ curr / spec_block_size spec) by (apply Z.div_pos; lia).
    pose proof (Z.mul_div_le curr _ Hb). cbn [sg_spec] in Hn. split_and!; [nia|nia|done|done|].
    exists n. unfold sg_done. cbn [sg_spec]. split_and!; [done|lia|apply Z.mod_mul; lia|].
    intros [Hn'|?]; [|congruence]. specialize (Hnew Hn' g eq_refl). congruence. }
  set (drop := eagle && bool_decide (idx ∉ ver)).
  set (ml := if drop then Z.min (curr + spec_block_size spec) mx else curr).
  rewrite (bind_eq _ _ _ _ _ (get_block_hashes_eq spec p Hh Hm)).
  destruct (search_ok (g :: gids) c spec drop al ml) as (n & computed & Heq & Hrows & Hn & Hmod); [done| |done| | |].
  { unfold drop. destruct eagle; cbn [andb]; [|exact Hcls].
    destruct (bool_decide (idx ∉ ver)); [exact Hcls|exact (searchable_no_drop _ _ _ _ Hcls)]. }
  { unfold ml. destruct drop; lia. }
  { etransitivity; [|exact Hmx]. apply Z.div_le_mono; [lia|]. unfold ml. destruct drop; lia. }
  rewrite (bind_eq _ _ _ _ _ Heq).
  destruct (rows_head _ _ _ _ Hne Hrows) as (x & xs & Hx & Hxl). 
  assert (or_raise IndexError (computed !! 0%nat) p = (Ok x, p)) as Hfirst by (by rewrite Hx).
  rewrite (bind_eq _ _ _ _ _ Hfirst).
  assert (Z.of_nat n * spec_block_size spec ≤ curr) as Hle by (eapply (search_length drop); [done|done|lia|done]).
  eexists _, _, _. split; [reflexivity|]. unfold len. rewrite Hxl. split_and!; [nia|done| | |].
  - rewrite put_hits_length; [done|]. intros g' Hg'. by apply Hrange.
  - intros g' H0 Hnot. apply put_hits_other; [|done..]. intros g'' Hg''. by apply Hrange.
  - exists n. unfold sg_done. cbn [sg_spec]. split_and!; [|done|apply Z.mod_mul; lia|done].
    unfold sg_found. cbn [sg_spec sg_group_ids]. apply put_hits_found; [done| |done].
    intros g' Hg'. unfold len. rewrite Hlen. by apply Hrange.
Qed.

Definition ids_of (sgs : list SpecGroup) : list Z := concat (sg_group_ids <$> sgs).

Lemma sg_found_frame sg n by_group by_group' :
  (∀ g, g ∈ sg_group_ids sg → by_group' !! Z.to_nat g = by_group !! Z.to_nat g) →
  sg_found sg n by_group → sg_found sg n by_group'.
Proof. intros Heq Hf g Hg. destruct (Hf g Hg) as (c & Hc & Hr). exists c. by rewrite Heq. Qed.

(** One pass over the groups. *)
Lemma group_pass_ok new hit todo k curr by_group ver :
  Forall (sg_ok ng al) todo → NoDup (ids_of todo) → 0 ≤ curr ≤ hit → hit ≤ mx → length by_group = ng →
  Forall (cached_enough hit by_group) todo → (new = true → Forall (unsearched by_group) todo) →
  ∃ curr' by_group' ver',
    fold_each (hybrid_group_step hs (hash_block_size p) al mx) (zip (seq k (length todo)) todo)
      (curr, by_group, ver) p = (Ok (curr', by_group', ver'), p) ∧
    0 ≤ curr' ≤ curr ∧ length by_group' = ng ∧ frame (ids_of todo) by_group by_group' ∧
    ∀ i sg, todo !! i = Some sg → ∃ n c, sg_done new c by_group' sg n ∧ curr' ≤ c ≤ curr ∧
      (S i = length todo → c = curr').
Proof.
  intros Hok. revert k curr by_group ver. induction Hok as [|sg todo Hsg Hok IH];
    intros k curr by_group ver Hnd Hcurr Hhit Hlen Hc Hnew.
  { exists curr, by_group, ver. split_and!; [done|lia|done|done|done|]. intros i sg Hi. done. }
  apply Forall_cons in Hc as [Hc1 Hc]. unfold ids_of in Hnd. rewrite fmap_cons in Hnd. cbn [concat] in Hnd.
  apply NoDup_app in Hnd as (Hnd1 & Hdis & Hnd). fold (ids_of todo) in Hnd, Hdis.
  destruct (group_step_ok new hit curr by_group ver k sg Hsg Hcurr Hhit Hlen Hc1 (λ H, Forall_inv (Hnew H)))
    as (curr1 & by1 & ver1 & Hstep & Hcurr1 & Hlen1 & Hfr1 & n1 & Hd1).
  assert (∀ g, g ∈ ids_of todo → 0 ≤ g ∧ g ∉ sg_group_ids sg) as Hother.
  { intros g Hg. split; [|by intros ?; apply (Hdis g)].
    unfold ids_of in Hg. apply list_elem_of_In, in_concat in Hg as (l & Hl & Hg).
    apply list_elem_of_In, list_elem_of_fmap in Hl as (sg' & -> & Hsg'). apply list_elem_of_In in Hg.
    by apply (sg_range _ _ _ (proj1 (Forall_forall _ _) Hok sg' Hsg') g). }
  assert (∀ sg', sg' ∈ todo → ∀ g, g ∈ sg_group_ids sg' → g ∈ ids_of todo) as Hin.
  { intros sg' Hsg' g Hg. apply list_elem_of_In, in_concat. exists (sg_group_ids sg').
    split; apply list_elem_of_In; [by apply list_elem_of_fmap_2|done]. }
  assert (∀ sg', sg' ∈ todo → ∀ g', g' ∈ sg_group_ids sg' → by1 !! Z.to_nat g' = by_group !! Z.to_nat g') as Hsame.
  { intros sg' Hsg' g' Hg'. destruct (Hother g' (Hin sg' Hsg' g' Hg')). by apply Hfr1. }
  destruct (IH (S k) curr1 by1 ver1 Hnd ltac:(lia) Hhit Hlen1) as (curr2 & by2 & ver2 & Hfold & Hcurr2 & Hlen2 & Hfr2 & Hall).
  { apply Forall_forall. intros sg' Hsg' Hfull g Hg. pose proof (proj1 (Forall_forall _ _) Hc sg' Hsg' Hfull g Hg) as Hcase.
    rewrite (Hsame sg' Hsg') by (by apply head_Some_elem_of). pose proof (Hsame sg' Hsg') as Hsame'.
    destruct Hcase as [?|(n & Hf & Hn)]; [by left|right]. exists n. split; [by eapply sg_found_frame|done]. }
  { intros Hn. specialize (Hnew Hn). apply Forall_cons in Hnew as [_ Hnew]. apply Forall_forall. intros sg' Hsg' g Hg.
    rewrite (Hsame sg' Hsg') by (by apply head_Some_elem_of). by apply (proj1 (Forall_forall _ _) Hnew sg'). }
  exists curr2, by2, ver2. split_and!; [|lia|lia|done| |].
  - cbn [length seq zip zip_with fold_each]. by rewrite (bind_eq _ _ _ _ _ Hstep).
  - intros g H0 Hn. unfold ids_of in Hn. rewrite fmap_cons in Hn. cbn [concat] in Hn.
    apply not_elem_of_app in Hn as [Hn1 Hn2]. rewrite Hfr2 by done. by apply Hfr1.
  - intros [|i] sg' Hi; cbn [lookup list_lookup] in Hi.
    + injection Hi as <-. exists n1, curr1. destruct Hd1 as (Hf & Hd1). split_and!; [|lia|lia|].
      * split; [|exact Hd1]. eapply sg_found_frame; [|exact Hf]. intros g Hg. apply Hfr2.
        { by apply (sg_range _ _ _ Hsg). } { intros Hg2. by apply (Hother g Hg2). }
      * intros [= Hl]. destruct todo; [|done]. cbn in Hfold. by injection Hfold.
    + destruct (Hall i sg' Hi) as (n & c & Hd & Hc' & Hlast). exists n, c. split_and!; [done|lia|lia|].
      intros [= Hl]. by apply Hlast.
Qed.

Lemma align_mod sg cur : sg_ok ng al sg → cur mod al = 0 → cur mod bs_of sg = 0.
Proof.
  intros Hsg Hcur. pose proof (sf_size _ _ (sg_search _ _ _ Hsg)) as (_ & Hb & _).
  apply Z.mod_divide in Hcur as [k ->]; [|lia]. pose proof (sg_align _ _ _ Hsg) as Ha.
  apply Z.mod_divide in Ha as [k' ->]; [|lia]. rewrite Z.mul_assoc. by apply Z.mod_mul, Z.neq_sym, Z.lt_neq.
Qed.

(** The search ends within its fuel: every further pass starts from a shorter
    hit.  [simple]: two groups of which the first is full attention; one pass is
    then enough. *)
Lemma loop_ok simple sgs fuel hit by_group ver :
  Forall (sg_ok ng al) sgs → NoDup (ids_of sgs) →
  (simple = true → (∃ sg0 sg1, sgs = [sg0; sg1] ∧ is_full_attention (sg_spec sg0) = true) ∧ Forall (unsearched by_group) sgs) →
  0 ≤ hit ≤ mx → (Z.to_nat hit < fuel)%nat → length by_group = ng → Forall (cached_enough hit by_group) sgs →
  ∃ cur by_group', hybrid_loop fuel hs (hash_block_size p) al mx sgs simple hit by_group ver p
    = (Ok (cur, by_group'), p) ∧ 0 ≤ cur ≤ hit ∧ length by_group' = ng ∧
    ∀ i sg, sgs !! i = Some sg → ∃ n, sg_done (simple && bool_decide (i ≠ 0%nat)) cur by_group' sg n.
Proof.
  intros Hok Hnd. revert hit by_group ver. induction fuel as [|fuel IH]; intros hit by_group ver Hsimple Hhit Hf Hlen Hc; [lia|].
  cbn [hybrid_loop].
  destruct (group_pass_ok simple hit sgs 0 hit by_group ver Hok Hnd ltac:(lia) ltac:(lia) Hlen Hc (λ H, proj2 (Hsimple H)))
    as (cur & by1 & ver1 & Hpass & Hcur & Hlen1 & _ & Hall).
  rewrite (bind_eq _ _ _ _ _ Hpass). destruct (Z.leb_spec hit cur).
  { exists hit, by1. split_and!; [done|lia|lia|done|].
    intros i sg Hi. destruct (Hall i sg Hi) as (n & c & Hd & Hc' & _).
    exists n. assert (c = hit) as -> by lia. destruct (simple && _) eqn:Hs; [|by eapply sg_done_old].
    by apply andb_true_iff in Hs as [-> _]. }
  destruct simple.
  - exists cur, by1. split_and!; [done|lia|lia|done|]. intros i sg Hsg.
    destruct (Hsimple eq_refl) as [(sg0 & sg1 & -> & Hfull) _].
    destruct (Hall 1%nat sg1 eq_refl) as (n1 & c1 & Hd1 & _ & Hlast). rewrite (Hlast eq_refl) in Hd1.
    destruct i as [|[|]]; [|by injection Hsg as <-; exists n1|done]. injection Hsg as <-.
    destruct (Hall 0%nat sg0 eq_refl) as (n0 & c0 & Hd0 & Hc0 & _). exists n0. cbn [andb].
    rewrite bool_decide_eq_false_2 by (intros ?; done). destruct Hd0 as (Hf0 & Hle0 & _).
    destruct Hd1 as (_ & _ & _ & Hd1). destruct (Hd1 (or_introl eq_refl)) as [_ Hmod].
    split_and!; [done|lia| |].
    + apply align_mod; [|done]. by apply (Forall_inv Hok).
    + intros [?|Hnf]; [done|]. congruence.
  - destruct (IH cur by1 ver1) as (cur' & by2 & Hrun & Hcur' & Hdone); [done|lia|lia|done| |exists cur', by2; by split_and!; [|lia..|apply Hdone|apply Hdone]].
    apply Forall_forall. intros sg Hsg Hfull g Hg.
    apply list_elem_of_lookup in Hsg as [i Hi]. destruct (Hall i sg Hi) as (n & c & (Hf' & Hle & _) & Hc' & _).
    right. exists n. split; [done|lia].
Qed.

(** ** The search of a hybrid coordinator *)

(** Full attention comes first, and only one specification has it. *)
Definition one_full (sgs : list SpecGroup) : Prop :=
  ∀ i sg, sgs !! S i = Some sg → is_full_attention (sg_spec sg) = false.

(** [c] covers [cur] tokens of group [g] with blocks of [bs] tokens. *)
Definition covered_by (cur bs g : Z) (c : list loc) : Prop :=
  len c * bs = cur ∧ ∀ j b, c !! j = Some b → found_at bs g j b.

Lemma truncate_other nb gids by_group g :
  (∀ g', g' ∈ gids → 0 ≤ g') → 0 ≤ g → g ∉ gids →
  truncate_full nb gids by_group !! Z.to_nat g = by_group !! Z.to_nat g.
Proof.
  intros Hpos Hg Hn. unfold truncate_full. revert by_group. induction gids as [|g' gids IH]; intros by_group; [done|].
  apply not_elem_of_cons in Hn as [Hne Hn]. cbn [foldl]. rewrite IH by (done || (intros; apply Hpos; by right)).
  pose proof (Hpos g' ltac:(by left)). destruct (py_nth by_group g') as [[c|]|]; [|done..].
  rewrite py_set_nonneg by done. apply list_lookup_insert_ne. lia.
Qed.

Lemma truncate_one nb gids by_group g c :
  (∀ g', g' ∈ gids → 0 ≤ g') → NoDup gids → g ∈ gids → by_group !! Z.to_nat g = Some (Some c) → 0 ≤ nb →
  truncate_full nb gids by_group !! Z.to_nat g = Some (Some (take (Z.to_nat nb) c)).
Proof.
  intros Hpos Hnd Hin Hc Hnb. revert by_group Hc Hnd. induction gids as [|g' gids IH]; intros by_group Hc Hnd; [by apply elem_of_nil in Hin|].
  apply NoDup_cons in Hnd as [Hg' Hnd]. pose proof (Hpos g' ltac:(by left)) as H0.
  destruct (decide (g = g')) as [->|Hne].
  - change (truncate_full nb (g' :: gids) by_group) with
      (truncate_full nb gids (match py_nth by_group g' with
         | Some (Some blks) => py_set by_group g' (Some (slice_to blks nb)) | _ => by_group end)).
    rewrite truncate_other; [|intros; apply Hpos; by right|done|done]. rewrite py_nth_nonneg, Hc by done.
    rewrite py_set_nonneg, slice_to_nonneg by done. apply list_lookup_insert_eq. by apply lookup_lt_Some in Hc.
  - pose proof (Hpos g Hin). apply elem_of_cons in Hin as [?|Hin]; [done|]. cbn [truncate_full foldl]. apply IH; [intros; apply Hpos; by right|done| |done].
    destruct (py_nth by_group g') as [[b|]|]; [|done..]. rewrite py_set_nonneg, list_lookup_insert_ne by lia. done.
Qed.

Lemma truncate_length nb gids by_group :
  (∀ g, g ∈ gids → 0 ≤ g) → length (truncate_full nb gids by_group) = length by_group.
Proof.
  intros Hpos. unfold truncate_full. revert by_group. induction gids as [|g gids IH]; intros by_group; [done|].
  cbn [foldl]. rewrite IH by (intros; apply Hpos; by right). pose proof (Hpos g ltac:(by left)).
  destruct (py_nth by_group g) as [[c|]|]; [|done..]. rewrite py_set_nonneg by done. apply length_insert.
Qed.

(** Two groups of which the first is full attention. *)
Definition is_simple (sgs : list SpecGroup) : bool :=
  match sgs with
  | sg0 :: _ => (length sgs =? 2)%nat && is_full_attention (sg_spec sg0)
  | [] => false
  end.

(** The list of a group is exact, not longer than the hit: always, but for full
    attention behind the first group of a search that is not simple. *)
Definition exact_group (sgs : list SpecGroup) (i : nat) (sg : SpecGroup) : Prop :=
  i = 0%nat ∨ is_full_attention (sg_spec sg) = false ∨ is_simple sgs = true.

(** A group's list in the answer. *)
Lemma answer_ok sg0 sgs cur by_group i sg g :
  Forall (sg_ok ng al) (sg0 :: sgs) → NoDup (ids_of (sg0 :: sgs)) → 0 ≤ cur →
  (∀ i sg, (sg0 :: sgs) !! i = Some sg → ∃ n, sg_done (is_simple (sg0 :: sgs) && bool_decide (i ≠ 0%nat)) cur by_group sg n) →
  (sg0 :: sgs) !! i = Some sg → g ∈ sg_group_ids sg →
  ∃ c, (if is_full_attention (sg_spec sg0)
        then truncate_full (cur / bs_of sg0) (sg_group_ids sg0) by_group else by_group) !! Z.to_nat g
       = Some (Some c) ∧ cur ≤ len c * bs_of sg ∧ (exact_group (sg0 :: sgs) i sg → len c * bs_of sg = cur) ∧
    ∀ j b, c !! j = Some b → found_at (bs_of sg) g j b.
Proof.
  intros Hok Hnd Hcur Hall Hsg Hg.
  pose proof (λ sg Hin, sg_range _ _ _ (proj1 (Forall_forall _ _) Hok sg Hin)) as Hrange.
  destruct (Hall i sg Hsg) as (n & Hf & Hle & Hmod & Hex). destruct (Hf g Hg) as (c & Hc & Hlen & Hat).
  assert (0 ≤ g) as Hg0 by (apply (Hrange sg (list_elem_of_lookup_2 _ _ _ Hsg) g Hg)).
  unfold ids_of in Hnd. rewrite fmap_cons in Hnd. cbn [concat] in Hnd. apply NoDup_app in Hnd as (Hnd0 & Hdis & _).
  assert (∀ g, g ∈ sg_group_ids sg0 → 0 ≤ g) as Hpos by (intros; apply (Hrange sg0); [by left|done]).
  destruct i as [|i].
  - injection Hsg as ->. destruct (is_full_attention (sg_spec sg)) eqn:Hfull.
    2: { destruct (Hex (or_intror eq_refl)) as [Heq _]. exists c. unfold len. rewrite Hlen. split_and!; [done|lia|done|done]. }
    pose proof (sf_size _ _ (sg_search _ _ _ (Forall_inv Hok))) as (_ & Hb & _).
    assert (0 ≤ cur / bs_of sg) as Hq by (by apply Z.div_pos). apply Z.div_exact in Hmod; [|lia].
    assert (cur / bs_of sg ≤ Z.of_nat n) by nia.
    assert (len (take (Z.to_nat (cur / bs_of sg)) c) * bs_of sg = cur) as Hl by (unfold len; rewrite length_take, Hlen; nia).
    eexists. split; [by apply truncate_one|]. rewrite Hl. split_and!; [done|done|].
    intros j b [Hj _]%lookup_take_Some. by apply Hat.
  - cbn in Hsg. exists c. split.
    + destruct (is_full_attention (sg_spec sg0)); [|done]. rewrite truncate_other; [done|done|done|]. intros Hin.
      apply (Hdis g Hin). apply list_elem_of_In, in_concat. exists (sg_group_ids sg).
      split; apply list_elem_of_In; [apply list_elem_of_fmap_2; by eapply list_elem_of_lookup_2|done].
    + unfold len. rewrite Hlen. split_and!; [done| |done]. intros [?|He]; [done|]. apply Hex.
      rewrite andb_true_r. tauto.
Qed.

Lemma Hybrid_search_covers sgs :
  Forall (sg_ok ng al) sgs → NoDup (ids_of sgs) → sgs ≠ [] → 0 ≤ mx →
  ∃ cur computed,
    Hybrid_find_longest_cache_hit ng (hash_block_size p) al sgs hs mx p = (Ok (computed, cur), p) ∧
    0 ≤ cur ≤ mx ∧ length computed = ng ∧
    ∀ i sg g, sgs !! i = Some sg → g ∈ sg_group_ids sg → ∃ c, computed !! Z.to_nat g = Some c ∧
      cur ≤ len c * bs_of sg ∧ (exact_group sgs i sg → len c * bs_of sg = cur) ∧
      ∀ j b, c !! j = Some b → found_at (bs_of sg) g j b.
Proof.
  intros Hok Hnd Hne Hmx0. destruct sgs as [|sg0 sgs]; [done|]. unfold Hybrid_find_longest_cache_hit.
  erewrite bind_eq by done. cbv zeta. fold (is_simple (sg0 :: sgs)).
  assert (Forall (unsearched (replicate ng None)) (sg0 :: sgs)) as Hun.
  { apply Forall_forall. intros sg Hsg g Hg%head_Some_elem_of. apply lookup_replicate_2.
    pose proof (sg_range _ _ _ (proj1 (Forall_forall _ _) Hok sg Hsg) g Hg). lia. }
  edestruct (loop_ok (is_simple (sg0 :: sgs)) (sg0 :: sgs) (S (Z.to_nat mx)) mx (replicate ng None) [])
    as (cur & by1 & Hloop & Hcur & Hlen & Hall); [done|done| |lia|lia|apply length_replicate| |].
  { intros [Hl%Nat.eqb_eq Hf]%andb_true_iff. split; [|done]. destruct sgs as [|sg1 [|]]; [done| |done]. by exists sg0, sg1. }
  { eapply Forall_impl; [exact Hun|]. intros sg Hu _ g Hg. left. by apply Hu. }
  rewrite (bind_eq _ _ _ _ _ Hloop). eexists cur, _. split; [reflexivity|]. split; [done|]. split.
  - rewrite length_fmap. destruct (is_full_attention (sg_spec sg0)); [|done]. rewrite truncate_length; [done|].
    intros g Hg. by apply (sg_range _ _ _ (Forall_inv Hok)).
  - intros i sg g Hsg Hg. rewrite list_lookup_fmap.
    destruct (answer_ok sg0 sgs cur by1 i sg g Hok Hnd ltac:(lia) Hall Hsg Hg) as (c & Hc & Hcov).
    exists c. by rewrite Hc.
Qed.

(** With one full-attention specification every list is exact. *)
Corollary Hybrid_search_ok sgs :
  Forall (sg_ok ng al) sgs → NoDup (ids_of sgs) → one_full sgs → sgs ≠ [] → 0 ≤ mx →
  ∃ cur computed,
    Hybrid_find_longest_cache_hit ng (hash_block_size p) al sgs hs mx p = (Ok (computed, cur), p) ∧
    0 ≤ cur ≤ mx ∧ length computed = ng ∧
    ∀ sg g, sg ∈ sgs → g ∈ sg_group_ids sg → ∃ c, computed !! Z.to_nat g = Some c ∧ covered_by cur (bs_of sg) g c.
Proof.
  intros Hok Hnd Hone Hne Hmx0. destruct (Hybrid_search_covers sgs Hok Hnd Hne Hmx0) as (cur & computed & Heq & Hcur & Hl & Hall).
  exists cur, computed. split_and!; [done|lia|lia|done|]. intros sg g [i Hi]%list_elem_of_lookup Hg.
  destruct (Hall i sg g Hi Hg) as (c & Hc & _ & Hex & Hat). exists c. split; [done|]. split; [|done]. apply Hex.
  destruct i as [|i]; [by left|]. right; left. by apply (Hone i).
Qed.
End pass.
End lookup.

(** ** The property *)

Section hybrid.
Context `{HashEnv}.

(** C11: The fixed-point search of the hybrid coordinator terminates on every
    reachable pool within the fuel of its definition, for any number of groups:
    full attention, sliding windows, chunked local attention at the alignment
    and without Eagle, Mamba without Eagle.  Every further pass starts from a
    strictly shorter hit.  The lists consist of blocks that carry the request's
    hashes or are null, and cover the hit, which is at most what was asked for;
    they are no longer than the hit, but for full attention behind the first
    group of a search that is not simple, whose list the code does not
    truncate. *)
Theorem hybrid_search_terminates p refs taken hs ng al mx sgs :
  pool_reachable p refs taken → Forall (sg_ok p ng al) sgs → NoDup (ids_of sgs) → sgs ≠ [] →
  0 < al → 0 ≤ mx → mx / hash_block_size p ≤ len hs →
  ∃ hit computed,
    Hybrid_find_longest_cache_hit ng (hash_block_size p) al sgs hs mx p = (Ok (computed, hit), p) ∧
    0 ≤ hit ≤ mx ∧ length computed = ng ∧
    ∀ i sg g, sgs !! i = Some sg → g ∈ sg_group_ids sg → ∃ c, computed !! Z.to_nat g = Some c ∧
      hit ≤ len c * spec_block_size (sg_spec sg) ∧
      (exact_group sgs i sg → len c * spec_block_size (sg_spec sg) = hit) ∧
      ∀ j b, c !! j = Some b →
        cached_for p g (hash_of_block p hs (spec_block_size (sg_spec sg)) j) b ∨ b = null_block p.
Proof.
  intros (a & _ & Hp & _)%reachable_rep Hok Hnd Hne Hal Hmx Hlen.
  destruct (Hybrid_search_covers p a Hp hs ng al mx Hal Hlen sgs) as (cur & computed & Heq & Hcur & Hl & Hc); [done..|].
  exists cur, computed. split_and!; [done|lia|lia|done|]. intros i sg g Hsg Hg.
  destruct (Hc i sg g Hsg Hg) as (c & Hci & Hle & Hlc & Hat). exists c. split_and!; [done..|].
  intros j b Hj. destruct (Hat j b Hj) as [Hf|[-> _]]; [left; by eapply filed_cached|right].
  symmetry. apply Hp.
Qed.
End hybrid.

Section example.
Let env : HashEnv := injective_env.
Existing Instance env.

(** Full attention with a cached prefix and a sliding window without one. *)
Definition two_groups : list SpecGroup :=
  [MkSpecGroup demo_full [0] FullAttentionManager false; MkSpecGroup demo_sliding [1] SlidingWindowManager true].

Lemma hybrid_search_terminates_witness :
  ∃ hit computed, Hybrid_find_longest_cache_hit 2 4 4 two_groups demo_hashes 11 demo_pool2 = (Ok (computed, hit), demo_pool2) ∧
    0 ≤ hit ≤ 11 ∧ length computed = 2%nat.
Proof.
  destruct (hybrid_search_terminates demo_pool2 [1; 2; 3] [] demo_hashes 2 4 11 two_groups) as (hit & computed & Heq & Hh & Hl & _);
    [exact demo_reachable2| |by apply (bool_decide_unpack (NoDup [0; 1]))|done|done|done
    |by vm_compute|by exists hit, computed].
  constructor; [|constructor; [|constructor]].
  all: split; [split; [split; [done|by repeat constructor]|by vm_compute]|done|by apply NoDup_singleton| |done].
  all: by intros g ->%list_elem_of_singleton.
Defined.
(** Two full-attention specifications and a sliding window: two blocks of each
    full group are cached, one of the window.  The hit has one block; only the
    first group's list is truncated to it. *)
Definition three_groups : list SpecGroup :=
  [MkSpecGroup demo_full [0] FullAttentionManager false;
   MkSpecGroup (MkSpec (FullAttentionSpec 4) 1) [1] FullAttentionManager false;
   MkSpecGroup demo_sliding [2] SlidingWindowManager false].
Definition three_group_pool : BlockPool := Eval vm_compute in
  demo_step (OCache demo_request [5] 0 1 4 2 None)
    (demo_step (OCache demo_request [3; 4] 0 2 4 1 None)
      (demo_step (OCache demo_request [1; 2] 0 2 4 0 None) (demo_step (OGet 5) demo_pool))).

Example second_full_not_truncated :
  Hybrid_find_longest_cache_hit 3 4 4 three_groups demo_hashes 11 three_group_pool =
    (Ok ([[1]; [3; 4]; [5]], 4), three_group_pool).
Proof. vm_compute. reflexivity. Qed.
End example.
