(* ===== verification/KVCacheManager.v ===== *)
(** * The KV-cache manager

    src/vllm/vllm/v1/core/kv_cache_manager.py: what the scheduler calls.  It
    looks up the cached prefix of a request, allocates the slots of a step or
    refuses, and forwards everything else to the coordinator. *)

From S2P Require Import Prelude FreeQueue BlockHash Request BlockPool KVCacheSpec SingleType CacheHit Coordinator.
From Stdlib Require Import QArith.
Open Scope Z_scope.

(** ** KVCacheBlocks *)

(** [shared_empty] holds of the manager's pre-built object with no blocks,
    which [allocate_slots] recognises by identity. *)
Record KVCacheBlocks : Type := MkBlocks {
  kb_blocks : list (list loc);
  shared_empty : bool
}.

(** [__add__] *)
Definition add_blocks (a b : KVCacheBlocks) : KVCacheBlocks :=
  MkBlocks (zip_with app (kb_blocks a) (kb_blocks b)) false.
(** [new_empty] *)
Definition new_empty (a : KVCacheBlocks) : KVCacheBlocks :=
  MkBlocks (replicate (length (kb_blocks a)) []) false.

Definition read_id (b : loc) : M BlockPool Z := let* blk := onq (read b) in ret (block_id blk).

Definition get_block_ids (allow_none : bool) (a : KVCacheBlocks)
  : M BlockPool (option (list (list Z))) :=
  if allow_none && forallb (λ g : list loc, (length g =? 0)%nat) (kb_blocks a) then ret None
  else let* ids := map_each (map_each read_id) (kb_blocks a) in ret (Some ids).

Definition get_unhashed_block_ids (a : KVCacheBlocks) : M BlockPool (list Z) :=
  assert_ (length (kb_blocks a) =? 1)%nat ;;;
  let* g := or_raise IndexError (kb_blocks a !! 0%nat) in
  let* bs := filter_each is_unhashed g in
  map_each read_id bs.

Definition is_unhashed_real (b : loc) : M BlockPool bool :=
  let* blk := onq (read b) in
  ret (bool_decide (block_hash blk = None) && negb (is_null blk)).
Definition get_unhashed_block_ids_all_groups (a : KVCacheBlocks) : M BlockPool (list (list Z)) :=
  map_each (λ g, let* bs := filter_each is_unhashed_real g in map_each read_id bs) (kb_blocks a).

(** ** State *)

(** [PrefixCacheStats] (src/vllm/vllm/v1/metrics/stats.py) *)
Record PrefixCacheStats : Type := MkStats {
  st_reset : bool;
  st_requests : Z;
  st_queries : Z;
  st_hits : Z;
  preempted_requests : Z;
  preempted_queries : Z;
  preempted_hits : Z
}.
Definition empty_stats : PrefixCacheStats := MkStats false 0 0 0 0 0 0.
Definition record_stats (num_tokens num_hits : Z) (preempted : bool) (s : PrefixCacheStats)
  : PrefixCacheStats :=
  let '(MkStats r rq q h pr pq ph) := s in
  if preempted then MkStats r rq q h (pr + 1) (pq + num_tokens) (ph + num_hits)
  else MkStats r (rq + 1) (q + num_tokens) (h + num_hits) pr pq ph.
Definition set_reset (s : PrefixCacheStats) : PrefixCacheStats :=
  let '(MkStats _ rq q h pr pq ph) := s in MkStats true rq q h pr pq ph.

Record KVCacheManager : Type := MkKV {
  kv_max_model_len : Z;
  kv_enable_caching : bool;
  kv_log_stats : bool;
  prefix_cache_stats : option PrefixCacheStats;
  coordinator : cstate;
  num_kv_cache_groups : nat;
  kv_cache_event_metadata : list (string * option Z)
}.

Definition set_coordinator (c : cstate) (s : KVCacheManager) : KVCacheManager :=
  MkKV (kv_max_model_len s) (kv_enable_caching s) (kv_log_stats s) (prefix_cache_stats s) c
    (num_kv_cache_groups s) (kv_cache_event_metadata s).
Definition set_stats (st : option PrefixCacheStats) (s : KVCacheManager) : KVCacheManager :=
  MkKV (kv_max_model_len s) (kv_enable_caching s) (kv_log_stats s) st (coordinator s)
    (num_kv_cache_groups s) (kv_cache_event_metadata s).

Definition on_co {A} (m : M cstate A) : M KVCacheManager A := zoom coordinator set_coordinator m.
Definition on_kv_pool {A} (m : M BlockPool A) : M KVCacheManager A := on_co (on_pool m).

Section kv_cache_manager.
Context `{HashEnv}.

Definition KVCacheManager_init (config : KVCacheConfig) (max_model_len scheduler_block_size
    hash_block_size : Z) (max_num_batched_tokens : option Z) (enable_caching use_eagle log_stats
    enable_kv_cache_events : bool) (dcp pcp : Z) (retention : option Z) : res KVCacheManager :=
  rbind (get_kv_cache_coordinator config max_model_len (default max_model_len max_num_batched_tokens)
           use_eagle enable_caching enable_kv_cache_events dcp pcp scheduler_block_size
           hash_block_size retention) (λ co,
  Ok (MkKV max_model_len enable_caching log_stats
        (if log_stats then Some empty_stats else None) co (length (kv_cache_groups config))
        ((λ g, (get_kv_cache_spec_kind (group_spec g),
                get_kv_cache_spec_sliding_window (group_spec g))) <$> kv_cache_groups config))).

(** [self.empty_kv_cache_blocks] *)
Definition empty_kv_cache_blocks (s : KVCacheManager) : KVCacheBlocks :=
  MkBlocks (replicate (num_kv_cache_groups s) []) true.

Definition create_kv_cache_blocks (blocks : list (list loc)) : M KVCacheManager KVCacheBlocks :=
  if existsb (λ g : list loc, negb (length g =? 0)%nat) blocks then ret (MkBlocks blocks false)
  else gets empty_kv_cache_blocks.

Definition usage : M KVCacheManager Q := on_kv_pool get_usage.

Definition make_prefix_cache_stats : M KVCacheManager (option PrefixCacheStats) :=
  let* log := gets kv_log_stats in
  if (log : bool) then
    let* stats := gets prefix_cache_stats in
    modify (set_stats (Some empty_stats)) ;;;
    ret stats
  else ret None.

Definition get_computed_blocks (request : Request) : M KVCacheManager (KVCacheBlocks * Z) :=
  let* caching := gets kv_enable_caching in
  if negb caching || skip_reading_prefix_cache request then
    let* e := gets empty_kv_cache_blocks in ret (e, 0)
  else
    let max_cache_hit_length := num_tokens request - 1 in
    let* r := on_co (co_find_longest_cache_hit (Request.block_hashes request) max_cache_hit_length) in
    let '(computed_blocks, num_new_computed_tokens) := r in
    let* log := gets kv_log_stats in
    (if (log : bool) then
       let* stats := gets prefix_cache_stats in
       assert_ (bool_decide (stats ≠ None)) ;;;
       modify (λ s, set_stats (record_stats (num_tokens request) num_new_computed_tokens
                 (0 <? num_preemptions request) <$> prefix_cache_stats s) s)
     else ret tt) ;;;
    let* blocks := create_kv_cache_blocks computed_blocks in
    ret (blocks, num_new_computed_tokens).

(** The admission gate of [allocate_slots]: does the whole sequence fit? *)
Definition full_sequence_fits (request : Request) (new_computed_block_list : list (list loc))
    (num_encoder_tokens total_computed_tokens : Z) : M KVCacheManager bool :=
  let* mml := gets kv_max_model_len in
  let full_num_tokens := Z.min (num_tokens request) mml in
  let* n := on_co (co_get_num_blocks_to_allocate (request_id request) full_num_tokens
    new_computed_block_list num_encoder_tokens total_computed_tokens full_num_tokens true) in
  let* free := on_kv_pool get_num_free_blocks in
  ret (n <=? free).

Definition allocate_slots (request : Request) (num_new_tokens num_new_computed_tokens : Z)
    (new_computed_blocks : option KVCacheBlocks)
    (num_lookahead_tokens num_external_computed_tokens : Z) (delay_cache_blocks : bool)
    (num_encoder_tokens : Z) (full_sequence_must_fit : bool) (reserved_blocks : Z)
  : M KVCacheManager (option KVCacheBlocks) :=
  if (num_new_tokens =? 0) && (num_external_computed_tokens =? 0) then raise ValueError
  else
    let* empty := gets empty_kv_cache_blocks in
    let new_computed := default empty new_computed_blocks in
    let new_computed_block_list := kb_blocks new_computed in
    let* mml := gets kv_max_model_len in
    let num_local_computed_tokens := num_computed_tokens request + num_new_computed_tokens in
    let total_computed_tokens :=
      Z.min (num_local_computed_tokens + num_external_computed_tokens) mml in
    let* fits :=
      if full_sequence_must_fit
      then full_sequence_fits request new_computed_block_list num_encoder_tokens total_computed_tokens
      else ret true in
    if negb fits then ret None
    else
      let num_tokens_main_model := total_computed_tokens + num_new_tokens in
      let num_tokens_need_slot := Z.min (num_tokens_main_model + num_lookahead_tokens) mml in
      on_co (co_remove_skipped_blocks (request_id request) total_computed_tokens) ;;;
      let* num_blocks_to_allocate := on_co (co_get_num_blocks_to_allocate (request_id request)
        num_tokens_need_slot new_computed_block_list num_encoder_tokens
        (num_local_computed_tokens + num_external_computed_tokens) num_tokens_main_model false) in
      let* free := on_kv_pool get_num_free_blocks in
      let available_blocks := free - reserved_blocks in
      if available_blocks <? num_blocks_to_allocate then ret None
      else
        (if negb (shared_empty new_computed) || (0 <? num_external_computed_tokens) then
           on_co (co_allocate_new_computed_blocks (request_id request) new_computed_block_list
             num_local_computed_tokens num_external_computed_tokens)
         else ret tt) ;;;
        let* new_blocks := on_co (co_allocate_new_blocks (request_id request)
          num_tokens_need_slot num_tokens_main_model num_encoder_tokens) in
        let* caching := gets kv_enable_caching in
        (if negb caching || delay_cache_blocks then ret tt
         else
           on_co (co_cache_blocks request
             (Z.min (total_computed_tokens + num_new_tokens) (num_tokens request)))) ;;;
        let* blocks := create_kv_cache_blocks new_blocks in
        ret (Some blocks).

Definition kv_free (request : Request) : M KVCacheManager unit := on_co (co_free (request_id request)).

Definition kv_alias_request_blocks (dst_request_id src_request_id : string) (num_prefix_blocks : Z)
  : M KVCacheManager unit :=
  on_co (co_alias_request_blocks dst_request_id src_request_id num_prefix_blocks).
Definition kv_alias_request_blocks_from_snapshot (dst_request_id : string)
    (src_blocks : KVCacheBlocks) (src_num_cached_blocks : list Z) (num_prefix_blocks : Z)
  : M KVCacheManager unit :=
  on_co (co_alias_request_blocks_from_snapshot dst_request_id (kb_blocks src_blocks)
    src_num_cached_blocks num_prefix_blocks).
Definition kv_get_num_cached_blocks (request_id : string) : M KVCacheManager (list Z) :=
  on_co (co_get_num_cached_blocks request_id).
Definition kv_remove_skipped_blocks (request_id : string) (total_computed_tokens : Z)
  : M KVCacheManager unit :=
  on_co (co_remove_skipped_blocks request_id total_computed_tokens).
Definition kv_evict_blocks (block_ids : list Z) : M KVCacheManager unit :=
  on_kv_pool (evict_blocks block_ids).

Definition kv_reset_prefix_cache : M KVCacheManager bool :=
  let* done := on_kv_pool reset_prefix_cache in
  if negb done then ret false
  else
    let* log := gets kv_log_stats in
    (if (log : bool) then
       let* stats := gets prefix_cache_stats in
       assert_ (bool_decide (stats ≠ None)) ;;;
       modify (λ s, set_stats (set_reset <$> prefix_cache_stats s) s)
     else ret tt) ;;;
    ret true.

Definition kv_get_num_common_prefix_blocks (running_request_id : string)
  : M KVCacheManager (list Z) :=
  on_co (co_get_num_common_prefix_blocks running_request_id).

(** What [take_events] does to one event. *)
Definition annotate_event (metadata : list (string * option Z)) (e : KVCacheEvent) : KVCacheEvent :=
  match e with
  | BlockStored hs parent toks bs lora medium name keys (Some g) kind w =>
      if (g <? 0) || (len metadata <=? g) then e
      else match metadata !! Z.to_nat g with
           | Some (kind, window) =>
               BlockStored hs parent toks bs lora medium name keys (Some g) (Some kind) window
           | None => e
           end
  | _ => e
  end.
Definition kv_take_events : M KVCacheManager (list KVCacheEvent) :=
  let* events := on_kv_pool take_events in
  let* metadata := gets kv_cache_event_metadata in
  ret (annotate_event metadata <$> events).

Definition kv_get_blocks (request_id : string) : M KVCacheManager KVCacheBlocks :=
  let* bs := on_co (co_get_blocks request_id) in create_kv_cache_blocks bs.
Definition kv_get_block_ids (request_id : string) : M KVCacheManager (option (list (list Z))) :=
  let* blocks := kv_get_blocks request_id in on_kv_pool (get_block_ids false blocks).

Definition kv_cache_blocks (request : Request) (num_computed_tokens : Z) : M KVCacheManager unit :=
  let* caching := gets kv_enable_caching in
  if (caching : bool) then on_co (co_cache_blocks request num_computed_tokens) else ret tt.

Definition kv_take_new_block_ids : M KVCacheManager (list Z) :=
  let* ids := on_co (map_mgrs (λ _, take_new_block_ids)) in ret (concat ids).

Definition kv_new_step_starts : M KVCacheManager unit := on_co co_new_step_starts.
End kv_cache_manager.
