(* ===== verification/CoordinatorProps.v ===== *)
(** * Several managers over one pool

    The managers of a coordinator share the pool; each sees the others' blocks
    as references it does not own.  An operation that is safe for one manager
    under every such frame is safe when the coordinator runs it for each of
    them in turn. *)

From S2P Require Import Prelude FreeQueue BlockHash Request BlockPool KVCacheSpec SingleType Ownership SingleTypeProps CachingProps CacheHit Coordinator.

(** ** Owners of all managers *)

Definition all_owners (ms : list Manager) : list owner := concat (mgr_owners <$> ms).
(** ... except manager [i]. *)
Definition other_owners (i : nat) (ms : list Manager) : list owner :=
  all_owners (take i ms ++ drop (S i) ms).

Record coord_rep (s : cstate) (R : list owner) (l : list loc) (h : gmap Z bytes) : Prop := {
  co_own : own_rep (cs_pool s) (all_owners (cs_mgrs s) ++ R) l h;
  co_static : ∀ m, m ∈ cs_mgrs s → mgr_static (cs_pool s) m;
  co_cached : ∀ m rid n, m ∈ cs_mgrs s → num_cached_block m !! rid = Some n → 0 ≤ n
}.

Lemma all_owners_focus ms i m :
  ms !! i = Some m → all_owners ms ≡ₚ mgr_owners m ++ other_owners i ms.
Proof.
  intros Hi. unfold other_owners, all_owners. rewrite <-(take_drop_middle _ _ _ Hi) at 1.
  rewrite !fmap_app, fmap_cons, !concat_app. simpl.
  rewrite !app_assoc. apply Permutation_app; [|done]. apply Permutation_app_comm.
Qed.

Lemma other_owners_insert ms i m : other_owners i (<[i := m]> ms) = other_owners i ms.
Proof. unfold other_owners. by rewrite take_insert_ge, drop_insert_lt by lia. Qed.

Lemma coord_rep_focus s R l h i m :
  coord_rep s R l h → cs_mgrs s !! i = Some m →
  mgr_rep (MkMS (cs_pool s) m) (other_owners i (cs_mgrs s) ++ R) l h.
Proof.
  intros [Ho Hs Hc] Hi. pose proof (list_elem_of_lookup_2 _ _ _ Hi) as Hin.
  split; cbn [ms_pool ms_mgr].
  - eapply own_rep_perm; [|exact Ho]. by rewrite (all_owners_focus _ _ _ Hi), <-app_assoc.
  - by apply Hs.
  - intros rid n. by apply Hc.
Qed.

Lemma coord_rep_unfocus s R l h i m s' l' h' :
  coord_rep s R l h → cs_mgrs s !! i = Some m →
  mgr_rep s' (other_owners i (cs_mgrs s) ++ R) l' h' → same_config (cs_pool s) (ms_pool s') →
  coord_rep (MkCS (ms_pool s') (<[i := ms_mgr s']> (cs_mgrs s)) (cs_co s)) R l' h'.
Proof.
  intros [Ho Hs Hc] Hi [Ho' Hs' Hc'] Hcfg.
  assert (∀ m', m' ∈ <[i := ms_mgr s']> (cs_mgrs s) → m' = ms_mgr s' ∨ m' ∈ cs_mgrs s) as Hin.
  { intros m' [j Hj]%list_elem_of_lookup.
    apply list_lookup_insert_Some in Hj as [(_ & <- & _)|[_ Hj]]; [by left|right].
    by apply (list_elem_of_lookup_2 _ _ _ Hj). }
  split; cbn [cs_pool cs_mgrs].
  - eapply own_rep_perm; [|exact Ho'].
    rewrite (all_owners_focus (<[i := ms_mgr s']> (cs_mgrs s)) i (ms_mgr s')).
    + by rewrite other_owners_insert, <-app_assoc.
    + apply list_lookup_insert_eq. by apply lookup_lt_Some in Hi.
  - intros m' [->|Hm]%Hin; [done|]. eapply mgr_static_keep; [by apply Hs|done|done].
  - intros m' rid n [->|Hm]%Hin; [by apply Hc'|]. by apply Hc.
Qed.

(** ** The frame rule for loops over the managers *)

Section loops.
Context `{HashEnv} {A : Type} (f : nat → M mstate A).
(** [inv i l h]: the free list and the hashes before manager [i] runs;
    [P i m a m']: what the operation does to manager [i]. *)
Context (inv : nat → list loc → gmap Z bytes → Prop) (P : nat → Manager → A → Manager → Prop).

Definition frame_safe (cs : cstate) : Prop :=
  ∀ i m s R l h, cs_mgrs cs !! i = Some m → ms_mgr s = m → same_config (cs_pool cs) (ms_pool s) →
    mgr_rep s R l h → inv i l h →
    ok (f i) s (λ a s', ∃ l' h', mgr_rep s' R l' h' ∧ evolves (ms_pool s) h (ms_pool s') h' ∧
      inv (S i) l' h' ∧ P i m a (ms_mgr s')).

(** After the first [k] managers. *)
Record loop_inv (cs : cstate) (R : list owner) (h : gmap Z bytes) (k : nat) (results : list A)
    (s : cstate) (l' : list loc) (h' : gmap Z bytes) : Prop := {
  li_rep : coord_rep s R l' h';
  li_evolves : evolves (cs_pool cs) h (cs_pool s) h';
  li_inv : inv k l' h';
  li_co : cs_co s = cs_co cs;
  li_len : length (cs_mgrs s) = length (cs_mgrs cs) ∧ length results = k;
  li_done : ∀ i m, cs_mgrs cs !! i = Some m → (i < k)%nat →
    ∃ a m', results !! i = Some a ∧ cs_mgrs s !! i = Some m' ∧ P i m a m';
  li_todo : ∀ i, (k ≤ i)%nat → cs_mgrs s !! i = cs_mgrs cs !! i
}.

Lemma loop_step cs R h k results s l1 h1 :
  frame_safe cs → loop_inv cs R h k results s l1 h1 → (k < length (cs_mgrs cs))%nat →
  ok (on_mgr k (f k)) s (λ a s', ∃ l2 h2, loop_inv cs R h (S k) (results ++ [a]) s' l2 h2).
Proof.
  intros Hsafe [Hrep Hev Hinv Hco [Hlen Hres] Hdone Htodo] Hk.
  destruct (lookup_lt_is_Some_2 (cs_mgrs cs) k Hk) as [m Hm].
  assert (cs_mgrs s !! k = Some m) as Hms by (rewrite Htodo by lia; done).
  unfold on_mgr, ok. rewrite Hms.
  pose proof (coord_rep_focus _ _ _ _ _ _ Hrep Hms) as Hfoc.
  assert (same_config (cs_pool cs) (cs_pool s)) as Hcfg by apply Hev.
  pose proof (Hsafe k m (MkMS (cs_pool s) m) _ l1 h1 Hm eq_refl Hcfg Hfoc Hinv) as Hok.
  unfold ok in Hok. destruct (f k (MkMS (cs_pool s) m)) as [[a|e] t]; [|done].
  destruct Hok as (l2 & h2 & Hrep' & Hev' & Hinv' & HP). cbn [ms_pool] in Hev'.
  exists l2, h2. split; cbn [cs_pool cs_mgrs cs_co].
  - eapply coord_rep_unfocus; [exact Hrep|exact Hms|exact Hrep'|apply Hev'].
  - by eapply evolves_trans.
  - exact Hinv'.
  - exact Hco.
  - rewrite length_insert, length_app. split; [done|simpl; lia].
  - intros i m0 Hi Hik. destruct (decide (i = k)) as [->|Hne].
    + assert (m0 = m) as -> by congruence. exists a, (ms_mgr t). split_and!; [|by apply list_lookup_insert_eq; lia|done].
      rewrite lookup_app_r by lia. by replace (k - length results)%nat with 0%nat by lia.
    + destruct (Hdone i m0 Hi ltac:(lia)) as (a0 & m' & Ha0 & Hm' & HP0). exists a0, m'.
      split_and!; [by apply lookup_app_l_Some|by rewrite list_lookup_insert_ne|done].
  - intros i Hi. rewrite list_lookup_insert_ne by lia. apply Htodo. lia.
Qed.

Lemma loop_start cs R l h :
  coord_rep cs R l h → inv 0 l h → loop_inv cs R h 0 [] cs l h.
Proof. intros Hrep Hinv. split; try done. intros; lia. Qed.

Lemma loop_rest cs R h n k results s l1 h1 :
  frame_safe cs → loop_inv cs R h k results s l1 h1 → (k + n = length (cs_mgrs cs))%nat →
  ok (map_each (λ i, on_mgr i (f i)) (seq k n)) s (λ rest s', ∃ l' h',
    loop_inv cs R h (length (cs_mgrs cs)) (results ++ rest) s' l' h').
Proof.
  intros Hsafe. revert k results s l1 h1. induction n as [|n IH]; intros k results s l1 h1 Hinv Hk.
  { apply ok_ret. exists l1, h1. rewrite app_nil_r. by replace (length (cs_mgrs cs)) with k by lia. }
  cbn [seq map_each]. ok_step.
  eapply ok_mono; [by eapply loop_step; [exact Hsafe|exact Hinv|lia]|].
  intros a s' (l2 & h2 & Hinv'). ok_step. eapply ok_mono; [eapply IH; [exact Hinv'|lia]|].
  intros rest s'' (l3 & h3 & Hinv''). ok_step. exists l3, h3. by rewrite <-app_assoc in Hinv''.
Qed.

(** Everything a loop over all managers establishes. *)
Lemma map_mgrs_ok cs R l h :
  frame_safe cs → coord_rep cs R l h → inv 0 l h →
  ok (map_mgrs f) cs (λ results s, ∃ l' h',
    loop_inv cs R h (length (cs_mgrs cs)) results s l' h').
Proof.
  intros Hsafe Hrep Hinv. unfold map_mgrs. ok_steps.
  eapply ok_mono; [eapply loop_rest; [exact Hsafe|by apply loop_start|done]|].
  intros rest s (l' & h' & Hl). by exists l', h'.
Qed.
End loops.

Lemma for_each_map_each {S A} (g : A → M S unit) l (s : S) (Q : unit → S → Prop) :
  ok (map_each g l) s (λ _ s', Q tt s') → ok (for_each l g) s Q.
Proof.
  revert s. induction l as [|x l IH]; intros s Hok; [exact Hok|].
  cbn [map_each for_each] in *. apply ok_bind_inv in Hok. ok_step.
  eapply ok_mono; [exact Hok|]. intros [] s' Hok'. apply IH.
  apply ok_bind_inv in Hok'. eapply ok_mono; [exact Hok'|]. by intros ys s'' ?.
Qed.

Lemma for_mgrs_ok `{HashEnv} f inv (P : nat → Manager → unit → Manager → Prop) cs R l h :
  frame_safe f inv P cs → coord_rep cs R l h → inv 0%nat l h →
  ok (for_mgrs f) cs (λ _ s, ∃ results l' h',
    loop_inv inv P cs R h (length (cs_mgrs cs)) results s l' h').
Proof.
  intros Hsafe Hrep Hinv. unfold for_mgrs. ok_steps. apply for_each_map_each.
  pose proof (map_mgrs_ok f inv P cs R l h Hsafe Hrep Hinv) as Hok.
  unfold map_mgrs in Hok. apply ok_bind_inv in Hok. cbn [ok gets] in Hok.
  eapply ok_mono; [exact Hok|]. intros results s (l' & h' & Hl). by exists results, l', h'.
Qed.
