(* ===== verification/SlotProps.v ===== *)
(** * One manager's part in allocating slots

    [allocate_slots] predicts the blocks a request needs, compares with the
    free ones, attaches the cache hits and allocates the rest.  For every
    manager but Mamba's: the predictor only reads and its answer splits into
    the free blocks among the hits and the blocks still missing; attaching
    takes the former, growing takes the latter. *)

From S2P Require Import Prelude FreeQueue BlockHash Request BlockPool KVCacheSpec SingleType Ownership SingleTypeProps CachingProps MambaProps CacheHit Coordinator.

(** A request without blocks that was never cached. *)
Definition is_fresh (rid : string) (m : Manager) : bool :=
  bool_decide (num_cached_block m !! rid = None) && bool_decide (blocks_at rid m = []).

Definition skipped_count (m : Manager) (total : Z) : Z := get_num_skipped_tokens m total / block_size m.

(** [attach]: whether [allocate_new_computed_blocks] runs; [nb]: this group's
    cache hits. *)
Definition attaches (attach : bool) (rid : string) (m : Manager) : bool :=
  attach && negb (is_cross (cls m)) && is_fresh rid m.

(** The request is new with cache hits [nb], or has no hits to attach. *)
Definition ready (attach : bool) (p : BlockPool) (h : gmap Z bytes) (rid : string)
    (nb : list loc) (total : Z) (m : Manager) : Prop :=
  cls m ≠ MambaManager ∧ window_ok m ∧ 0 ≤ total ∧
  if attaches attach rid m then lookup_result p h nb ∧ len nb * block_size m ≤ total
  else nb = [] ∧ (is_cross (cls m) = true ∨ num_cached_block m !! rid ≠ None ∨
         attach = false ∧ skipped_count m total ≤ len (blocks_at rid m)).

(** The table after attaching, and the hits that are attached. *)
Definition attached_len (attach : bool) (rid : string) (nb : list loc) (total : Z) (m : Manager) : Z :=
  if attaches attach rid m then Z.max (Z.max 0 (skipped_count m total)) (len nb)
  else len (blocks_at rid m).
Definition attached_hits (attach : bool) (rid : string) (nb : list loc) (total : Z) (m : Manager)
  : list loc :=
  if attaches attach rid m then kept_computed m nb total else [].

(** The tokens this manager needs slots for. *)
Definition slot_tokens (nt enc : Z) (m : Manager) : Z := if is_cross (cls m) then enc else nt.

Definition needed (attach : bool) (rid : string) (nb : list loc) (total nt enc : Z) (m : Manager) : Z :=
  Z.max 0 (cdiv (slot_tokens nt enc m) (block_size m) - attached_len attach rid nb total m).

(** What [get_num_blocks_to_allocate] answers, the admission cap applied or not;
    [predicted] is the answer without it. *)
Definition wanted (cap attach : bool) (rid : string) (nb : list loc) (total nt enc : Z)
    (l : list loc) (m : Manager) : Z :=
  Z.max 0 (required_blocks cap (slot_tokens nt enc m) m - attached_len attach rid nb total m) +
  len (filter (λ b, b ∈ l) (attached_hits attach rid nb total m)).
Definition predicted (attach : bool) (rid : string) (nb : list loc) (total nt enc : Z)
    (l : list loc) (m : Manager) : Z :=
  needed attach rid nb total nt enc m + len (filter (λ b, b ∈ l) (attached_hits attach rid nb total m)).

(** [m'] is [m] with some of [rid]'s blocks nulled. *)
Definition thinned (rid : string) (m m' : Manager) : Prop :=
  only_changes rid m m' ∧ len (blocks_at rid m') = len (blocks_at rid m) ∧
  num_cached_block m' = num_cached_block m.

Lemma thinned_fresh rid m m' : thinned rid m m' → is_fresh rid m' = is_fresh rid m.
Proof.
  intros (_ & Hlen & Hc). unfold is_fresh. rewrite Hc. f_equal. apply bool_decide_ext.
  unfold len in Hlen. split; intros Hn; rewrite Hn in Hlen; simpl in Hlen; apply nil_length_inv; lia.
Qed.

Lemma skipped_static m m' total : same_static m m' → get_num_skipped_tokens m' total = get_num_skipped_tokens m total.
Proof.
  intros (Hc & Hs & _). unfold get_num_skipped_tokens. by rewrite Hc, Hs.
Qed.

Lemma window_ok_static m m' : same_static m m' → window_ok m → window_ok m'.
Proof. intros (_ & Hs & _). unfold window_ok. by rewrite Hs. Qed.

Lemma kept_static m m' nb total : same_static m m' → kept_computed m' nb total = kept_computed m nb total.
Proof.
  intros Hs. unfold kept_computed. rewrite (skipped_static m m') by done.
  by destruct Hs as (_ & _ & _ & -> & _).
Qed.

Lemma thinned_keeps attach rid m m' :
  thinned rid m m' →
  attaches attach rid m' = attaches attach rid m ∧
  (∀ p h nb total, ready attach p h rid nb total m → ready attach p h rid nb total m') ∧
  (∀ nb total, attached_len attach rid nb total m' = attached_len attach rid nb total m) ∧
  (∀ nb total, attached_hits attach rid nb total m' = attached_hits attach rid nb total m).
Proof.
  intros Hth. pose proof (thinned_fresh _ _ _ Hth) as Hfr. destruct Hth as ((_ & _ & Hst) & Hlen & Hc).
  pose proof Hst as (Hcls & Hspec & _ & Hbs & _).
  assert (attaches attach rid m' = attaches attach rid m) as Ha
    by (unfold attaches; by rewrite Hcls, Hfr).
  assert (∀ total, skipped_count m' total = skipped_count m total) as Hsk
    by (intros total; unfold skipped_count; by rewrite (skipped_static m m'), Hbs).
  split_and!; [done|..].
  - intros p h nb total (H1 & H2 & H3 & H4). unfold ready. rewrite Ha, Hcls, Hbs, Hc, Hlen, Hsk.
    split_and!; [done|by eapply window_ok_static|done|done].
  - intros nb total. unfold attached_len. by rewrite Ha, Hlen, Hsk.
  - intros nb total. unfold attached_hits. by rewrite Ha, (kept_static m m').
Qed.

Section slots.
Context `{HashEnv}.

(** *** Prediction *)

(** The arguments [get_num_blocks_to_allocate] receives: none of the hits for
    cross attention. *)
Lemma predict_eq cap attach s R l h rid nt ntm nb total enc :
  let m := ms_mgr s in
  mgr_rep s R l h → ready attach (ms_pool s) h rid nb total m →
  (if is_cross (cls m) then get_num_blocks_to_allocate rid enc [] 0 enc cap
   else get_num_blocks_to_allocate rid nt nb total ntm cap) s
  = (Ok (wanted cap attach rid nb total nt enc l m), s).
Proof.
  intros m Hrep (Hcls & Hw & Ht & Hready). pose proof (st_bs _ _ (mg_static _ _ _ _ Hrep)) as Hbs.
  assert (∀ nt' nb' tot' ntm', get_num_blocks_to_allocate rid nt' nb' tot' ntm' cap s
    = base_get_num_blocks_to_allocate rid nt' nb' tot' cap s) as Hbase.
  { intros. unfold get_num_blocks_to_allocate. rewrite bind_getm_eq. fold m. by destruct (cls m). }
  unfold wanted, attached_len, attached_hits, slot_tokens.
  assert (∀ nt' tot', num_cached_block m !! rid ≠ None ∨ skipped_count m tot' ≤ len (blocks_at rid m) →
    base_get_num_blocks_to_allocate rid nt' [] tot' cap s
    = (Ok (Z.max 0 (required_blocks cap nt' m - len (blocks_at rid m)) + 0), s)) as Hrun.
  { intros nt' tot' Hcase. destruct (num_cached_block m !! rid) as [c|] eqn:Hc.
    - rewrite (base_predict_running s rid nt' [] tot' c cap) by done. fold m. by rewrite Z.max_comm, Z.add_0_r.
    - destruct Hcase as [?|Hsk]; [done|]. unfold base_get_num_blocks_to_allocate.
      rewrite bind_getm_eq. fold m. rewrite Hc. change (len (@nil loc)) with 0.
      fold (skipped_count m tot'). unfold slice_from, slice. rewrite drop_nil, take_nil.
      erewrite bind_eq by done. unfold ret. change (len (@nil loc)) with 0. rewrite Z.add_0_l, !Z.add_0_r.
      assert ({| ms_pool := ms_pool s; ms_mgr := ms_mgr s |} = s) as -> by (by destruct s).
      rewrite (Z.max_r _ _ Hsk), (Z.max_comm _ 0). unfold required_blocks. by destruct (max_admission m). }
  destruct (attaches attach rid m) eqn:Ha.
  - unfold attaches in Ha. apply andb_true_iff in Ha as [Ha1 Hfr]. apply andb_true_iff in Ha1 as [-> Hcr].
    destruct (is_cross (cls m)); [done|]. unfold is_fresh in Hfr. apply andb_true_iff in Hfr as [Hn Hb].
    apply bool_decide_eq_true in Hn, Hb. destruct Hready as [Hlr _].
    rewrite Hbase, (base_predict_new s R l h) by done. fold m. fold (skipped_count m total).
    do 2 f_equal. pose proof (len_nonneg nb). lia.
  - destruct Hready as [-> Hcase]. change (len (filter (λ b, b ∈ l) [])) with 0.
    destruct (is_cross (cls m)) eqn:Hcr.
    + rewrite Hbase. apply Hrun. right. unfold skipped_count, get_num_skipped_tokens.
      destruct (cls m); try done. rewrite Zdiv_0_l. apply len_nonneg.
    + rewrite Hbase. apply Hrun. destruct Hcase as [?|[?|[_ ?]]]; [done|by left|by right].
Qed.

(** *** Attaching the hits *)

Lemma attach_ok s R l h rid nb local :
  let m := ms_mgr s in
  mgr_rep s R l h → ready true (ms_pool s) h rid nb local m →
  ok (allocate_new_computed_blocks rid nb local 0) s (λ _ s',
    mgr_rep s' R (filter (λ b, b ∉ attached_hits true rid nb local m) l) h ∧
    evolves (ms_pool s) h (ms_pool s') h ∧ only_changes rid m (ms_mgr s') ∧
    len (blocks_at rid (ms_mgr s')) = attached_len true rid nb local m ∧
    cached_at rid (ms_mgr s') =
      if attaches true rid m then attached_len true rid nb local m else cached_at rid m).
Proof.
  intros m Hrep (Hcls & Hw & Ht & Hready). pose proof (st_bs _ _ (mg_static _ _ _ _ Hrep)) as Hbs. fold m in Hbs.
  unfold attached_hits, attached_len. unfold allocate_new_computed_blocks. mgr_step. mgr_step. fold m.
  destruct (attaches true rid m) eqn:Ha.
  - unfold attaches in Ha. cbn [andb] in Ha. apply andb_true_iff in Ha as [Hcr Hfr].
    unfold is_fresh in Hfr. apply andb_true_iff in Hfr as [Hn Hb]. apply bool_decide_eq_true in Hn, Hb.
    destruct Hready as [Hlr Hlen].
    assert (kept_external m (local + 0) 0 ≤ 0) as Hke by (unfold kept_external; case_match; lia).
    assert (ok (base_allocate_new_computed_blocks rid nb local 0) s (λ _ s', ∃ new,
      len new = 0 ∧ extends_computed rid s R l h (padding m local) (kept_computed m nb local) new s')) as Hok.
    { pose proof (base_allocate_new_computed_blocks_ok s R l h rid nb local 0) as Hok. fold m in Hok.
      cbv zeta in Hok. rewrite (proj2 (Z.ltb_ge _ _) Hke), Z.add_0_r in Hok.
      apply Hok; try done. split; [done|apply len_nonneg]. }
    assert (ok (base_allocate_new_computed_blocks rid nb local 0) s (λ _ s',
      mgr_rep s' R (filter (λ b, b ∉ kept_computed m nb local) l) h ∧
      evolves (ms_pool s) h (ms_pool s') h ∧ only_changes rid m (ms_mgr s') ∧
      len (blocks_at rid (ms_mgr s')) = Z.max (Z.max 0 (skipped_count m local)) (len nb) ∧
      cached_at rid (ms_mgr s') = Z.max (Z.max 0 (skipped_count m local)) (len nb))) as Hok'.
    { eapply ok_mono; [exact Hok|]. intros [] s' (new & Hnew & [Hr Hn' He Ho Hbl Hca]).
      assert (new = []) as -> by (apply nil_length_inv; unfold len in Hnew; lia).
      fold m in Ho, Hca. pose proof (len_padded_computed m nb local) as Hpad.
      split_and!; try done.
      - rewrite Hbl, app_nil_r. exact Hpad.
      - unfold cached_at. rewrite Hca, lookup_insert_eq. exact Hpad. }
    destruct (cls m); done.
  - destruct Hready as [-> Hcase]. rewrite filter_id by (intros; apply not_elem_of_nil).
    assert (∀ (Q : unit → mstate → Prop), Q tt s → ok (assert_ (len (@nil loc) =? 0)) s Q) as Hassert by done.
    assert (mgr_rep s R l h ∧ evolves (ms_pool s) h (ms_pool s) h ∧ only_changes rid m (ms_mgr s) ∧
      len (blocks_at rid (ms_mgr s)) = len (blocks_at rid m) ∧ cached_at rid (ms_mgr s) = cached_at rid m) as Hsame
      by (split_and!; done).
    destruct (is_cross (cls m)) eqn:Hcr; [destruct (cls m); try done; by apply Hassert|].
    destruct Hcase as [?|[Hc|[? _]]]; [done| |done].
    assert (ok (base_allocate_new_computed_blocks rid [] local 0) s (λ _ s',
      mgr_rep s' R l h ∧ evolves (ms_pool s) h (ms_pool s') h ∧ only_changes rid m (ms_mgr s') ∧
      len (blocks_at rid (ms_mgr s')) = len (blocks_at rid m) ∧ cached_at rid (ms_mgr s') = cached_at rid m)) as Hok.
    { unfold base_allocate_new_computed_blocks. mgr_steps. fold m.
      destruct (num_cached_block m !! rid); [|done]. by apply Hassert. }
    destruct (cls m); done.
Qed.
End slots.

(** ** The coordinator's part *)

Definition sumZ : list Z → Z := foldr Z.add 0.

Lemma foldl_add l z : foldl Z.add z l = z + sumZ l.
Proof. revert z. induction l as [|x l IH]; intros z; simpl; [lia|]. rewrite IH. lia. Qed.
Lemma sumZ_cons x l : sumZ (x :: l) = x + sumZ l.
Proof. done. Qed.
Lemma sumZ_drop (l : list Z) i x : l !! i = Some x → sumZ (drop i l) = x + sumZ (drop (S i) l).
Proof. intros Hi. by rewrite (drop_S _ _ _ Hi). Qed.

Lemma filter_out_concat (hits : list (list loc)) (l : list loc) :
  NoDup l → len l - sumZ ((λ c, len (filter (λ b, b ∈ l) c)) <$> hits)
            ≤ len (filter (λ b, b ∉ concat hits) l).
Proof.
  intros Hl. induction hits as [|c hits IH].
  { simpl. rewrite filter_id by (intros; apply not_elem_of_nil). lia. }
  rewrite fmap_cons, sumZ_cons. cbn [concat].
  assert (∀ l' : list loc, NoDup l' → (∀ b, b ∈ l' → b ∈ l) →
    len (filter (λ b, b ∉ concat hits) l') ≤
    len (filter (λ b, b ∉ c ++ concat hits) l') + len (filter (λ b, b ∈ l) c)) as Hgen.
  { clear IH. intros l' Hl' Hsub. set (g := filter (λ b, b ∉ concat hits) l').
    assert (filter (λ b, b ∉ c ++ concat hits) l' = filter (λ b, b ∉ c) g) as ->.
    { unfold g. rewrite list_filter_filter. apply list_filter_iff. intros b. set_solver. }
    assert (filter (λ b, b ∈ c) g ⊆+ filter (λ b, b ∈ l) c) as Hin.
    { apply NoDup_submseteq; [by repeat apply NoDup_filter|]. unfold g. intros b.
      rewrite !list_elem_of_filter. intros (? & _ & ?). split; [by apply Hsub|done]. }
    apply submseteq_length in Hin.
    assert (length (filter (λ b, b ∉ c) g) + length (filter (λ b, b ∈ c) g) = length g)%nat
      by (rewrite <-length_app; apply Permutation_length, (filter_partition (λ b, b ∈ c) g)).
    unfold len. lia. }
  specialize (Hgen l Hl (λ b Hb, Hb)). lia.
Qed.
