(* ===== verification/SlotPhases.v ===== *)
(** * The phases of [allocate_slots]

    [allocate_slots] runs five loops over the managers of a coordinator:
    recycle, predict, attach the cache hits, grow, file the full blocks.  One
    lemma per loop, for any number of groups whose managers are not Mamba's,
    each from the manager's lemma by the frame rule of [CoordinatorProps]. *)

From S2P Require Import Prelude FreeQueue BlockHash Request BlockPool KVCacheSpec SingleType Ownership SingleTypeProps CachingProps MambaProps CacheHit Coordinator CoordinatorProps SlotProps.

(** Manager by manager, with the configuration kept. *)
Definition mgrs_rel (P : nat → Manager → Manager → Prop) (cs cs' : cstate) : Prop :=
  cs_co cs' = cs_co cs ∧ length (cs_mgrs cs') = length (cs_mgrs cs) ∧
  ∀ i m, cs_mgrs cs !! i = Some m → ∃ m', cs_mgrs cs' !! i = Some m' ∧ P i m m'.

Lemma mgrs_rel_trans (P Q S : nat → Manager → Manager → Prop) cs1 cs2 cs3 :
  mgrs_rel P cs1 cs2 → mgrs_rel Q cs2 cs3 →
  (∀ i m1 m2 m3, cs_mgrs cs1 !! i = Some m1 → P i m1 m2 → Q i m2 m3 → S i m1 m3) → mgrs_rel S cs1 cs3.
Proof.
  intros (A1 & A2 & A3) (B1 & B2 & B3) HS. split_and!; [congruence..|].
  intros i m1 Hm1. destruct (A3 i m1 Hm1) as (m2 & Hm2 & HP).
  destruct (B3 i m2 Hm2) as (m3 & Hm3 & HQ). eauto.
Qed.

Lemma mgrs_rel_weaken (P Q : nat → Manager → Manager → Prop) cs cs' :
  mgrs_rel P cs cs' → (∀ i m m', cs_mgrs cs !! i = Some m → P i m m' → Q i m m') → mgrs_rel Q cs cs'.
Proof.
  intros (A1 & A2 & A3) HQ. split_and!; [done..|]. intros i m Hm.
  destruct (A3 i m Hm) as (m' & ? & ?). eauto.
Qed.

Lemma mgrs_rel_refl (P : nat → Manager → Manager → Prop) cs :
  (∀ i m, cs_mgrs cs !! i = Some m → P i m m) → mgrs_rel P cs cs.
Proof. intros HP. split_and!; [done..|]. eauto. Qed.

Lemma mgrs_rel_backwards P cs cs' i m' :
  mgrs_rel P cs cs' → cs_mgrs cs' !! i = Some m' →
  ∃ m, cs_mgrs cs !! i = Some m ∧ P i m m'.
Proof.
  intros (_ & Hl & HP) Hm'. destruct (lookup_lt_is_Some_2 (cs_mgrs cs) i) as [m Hm].
  { rewrite <-Hl. by apply lookup_lt_Some in Hm'. }
  exists m. split; [done|]. destruct (HP i m Hm) as (m2 & ? & ?). by simplify_eq.
Qed.

Section phases.
Context `{HashEnv}.

Lemma loop_inv_rel {A} inv (P : nat → Manager → A → Manager → Prop) cs R h results s l' h' :
  loop_inv inv P cs R h (length (cs_mgrs cs)) results s l' h' →
  mgrs_rel (λ i m m', ∃ a, results !! i = Some a ∧ P i m a m') cs s.
Proof.
  intros [_ _ _ Hco [Hlen _] Hdone _]. split_and!; [done..|]. intros i m Hm.
  destruct (Hdone i m Hm) as (a & m' & Ha & Hm' & HP); [by apply lookup_lt_Some in Hm|]. eauto.
Qed.

(** A loop that only reads. *)
Lemma map_each_mgrs_pure {A} (f : nat → M mstate A) (g : nat → Manager → A) cs k ms :
  (∀ i m, cs_mgrs cs !! i = Some m → f i (MkMS (cs_pool cs) m) = (Ok (g i m), MkMS (cs_pool cs) m)) →
  drop k (cs_mgrs cs) = ms →
  map_each (λ i, on_mgr i (f i)) (seq k (length ms)) cs = (Ok (imap (λ j, g (k + j)%nat) ms), cs).
Proof.
  intros Hf. revert k. induction ms as [|m ms IH]; intros k Hk; [done|].
  assert (cs_mgrs cs !! k = Some m) as Hm by (rewrite <-(Nat.add_0_r k), <-lookup_drop, Hk; done).
  cbn [length seq map_each]. erewrite bind_eq.
  2: { unfold on_mgr. rewrite Hm, (Hf k m Hm). cbn [ms_pool ms_mgr]. by rewrite list_insert_id. }
  destruct cs as [p mgrs co]. cbn [cs_pool cs_mgrs cs_co] in *. erewrite bind_eq.
  2: { apply IH. rewrite <-(Nat.add_1_r k), <-drop_drop, Hk. done. }
  unfold ret. rewrite imap_cons, Nat.add_0_r. do 3 f_equal. apply imap_ext. intros i x _. simpl. f_equal. lia.
Qed.

Lemma map_mgrs_pure {A} (f : nat → M mstate A) (g : nat → Manager → A) cs :
  (∀ i m, cs_mgrs cs !! i = Some m → f i (MkMS (cs_pool cs) m) = (Ok (g i m), MkMS (cs_pool cs) m)) →
  map_mgrs f cs = (Ok (imap g (cs_mgrs cs)), cs).
Proof.
  intros Hf. unfold map_mgrs, gets. erewrite bind_eq by done.
  by apply (map_each_mgrs_pure f g cs 0).
Qed.

(** *** Recycling *)

Lemma co_thin_ok cs R l h rid total :
  coord_rep cs R l h → (∀ m, m ∈ cs_mgrs cs → cls m ≠ MambaManager) →
  ok (co_remove_skipped_blocks rid total) cs (λ _ cs', ∃ l',
    coord_rep cs' R l' h ∧ evolves (cs_pool cs) h (cs_pool cs') h ∧ l ⊆+ l' ∧
    mgrs_rel (λ _, thinned rid) cs cs').
Proof.
  intros Hrep Hcls. unfold co_remove_skipped_blocks.
  eapply ok_mono; [apply (for_mgrs_ok _ (λ _ l' h', l ⊆+ l' ∧ h' = h)
    (λ _ m _ m', thinned rid m m') cs R l h); [|exact Hrep|done]|].
  - intros i m s R0 l0 h0 Hm <- Hcfg Hs [Hl ->]. unfold remove_skipped_blocks. mgr_step. mgr_step.
    pose proof (Hcls _ (list_elem_of_lookup_2 _ _ _ Hm)) as Hc.
    assert (ok (base_remove_skipped_blocks rid total) s (λ _ s', ∃ l' h', mgr_rep s' R0 l' h' ∧
      evolves (ms_pool s) h (ms_pool s') h' ∧ (l ⊆+ l' ∧ h' = h) ∧ thinned rid (ms_mgr s) (ms_mgr s'))) as Hok.
    { eapply ok_mono; [by apply (base_remove_skipped_blocks_ok s R0 l0 h rid total)|].
      intros [] s' (j & l' & [? ? ? ? Hb ? ?] & _). exists l', h. split_and!; try done; [by etransitivity|].
      unfold thinned, len. by rewrite Hb, length_nulled. }
    by destruct (cls (ms_mgr s)).
  - intros [] cs' (results & l' & h' & Hinv). pose proof Hinv as [Hr He [Hl ->] _ _ _ _].
    exists l'. split_and!; try done. destruct (loop_inv_rel _ _ _ _ _ _ _ _ _ Hinv) as (? & ? & HP).
    split_and!; [done..|]. intros i m Hm. destruct (HP i m Hm) as (m' & ? & _ & _ & ?). eauto.
Qed.

(** *** Prediction *)

Definition hits_of (nbl : list (list loc)) (i : nat) : list loc := default [] (nbl !! i).

(** What all managers need. *)
Definition co_wanted (cap attach : bool) (rid : string) (nbl : list (list loc)) (total nt enc : Z)
    (l : list loc) (ms : list Manager) : Z :=
  sumZ (imap (λ i m, wanted cap attach rid (hits_of nbl i) total nt enc l m) ms).
Definition co_predicted (attach : bool) (rid : string) (nbl : list (list loc)) (total nt enc : Z)
    (l : list loc) (ms : list Manager) : Z :=
  sumZ (imap (λ i m, predicted attach rid (hits_of nbl i) total nt enc l m) ms).

Definition all_ready (attach : bool) (cs : cstate) (h : gmap Z bytes) (rid : string)
    (nbl : list (list loc)) (total : Z) : Prop :=
  length nbl = length (cs_mgrs cs) ∧
  ∀ i m, cs_mgrs cs !! i = Some m → ready attach (cs_pool cs) h rid (hits_of nbl i) total m.

Lemma hits_lookup nbl i n : length nbl = n → (i < n)%nat → nbl !! i = Some (hits_of nbl i).
Proof.
  intros <- Hi. unfold hits_of. by destruct (lookup_lt_is_Some_2 nbl i Hi) as [b ->].
Qed.

Lemma co_wanted_uncapped attach rid nbl total nt enc l ms :
  co_wanted false attach rid nbl total nt enc l ms = co_predicted attach rid nbl total nt enc l ms.
Proof.
  unfold co_wanted, co_predicted. f_equal. apply imap_ext. intros i m _. unfold wanted, predicted, needed.
  by rewrite required_blocks_uncapped.
Qed.

(** The prediction and the admission gate only read. *)
Lemma co_predict_eq cap attach cs R l h rid nt ntm nbl total enc :
  coord_rep cs R l h → all_ready attach cs h rid nbl total →
  co_get_num_blocks_to_allocate rid nt nbl enc total ntm cap cs
  = (Ok (co_wanted cap attach rid nbl total nt enc l (cs_mgrs cs)), cs).
Proof.
  intros Hrep [Hlen Hready]. unfold co_get_num_blocks_to_allocate. erewrite bind_eq.
  2: { apply (map_mgrs_pure _ (λ i m, wanted cap attach rid (hits_of nbl i) total nt enc l m)).
       intros i m Hm. rewrite bind_getm_eq. cbn [ms_mgr].
       pose proof (coord_rep_focus _ _ _ _ _ _ Hrep Hm) as Hfoc.
       pose proof (predict_eq cap attach _ _ _ _ rid nt ntm (hits_of nbl i) total enc Hfoc (Hready i m Hm)) as Heq.
       cbn [ms_mgr] in Heq. destruct (is_cross (cls m)); [exact Heq|].
       rewrite (hits_lookup nbl i _ Hlen) by by apply lookup_lt_Some in Hm. exact Heq. }
  unfold ret. by rewrite foldl_add.
Qed.

(** *** Attaching the cache hits *)

Definition attached (attach : bool) (rid : string) (nb : list loc) (total : Z) (m m' : Manager) : Prop :=
  only_changes rid m m' ∧ len (blocks_at rid m') = attached_len attach rid nb total m ∧
  cached_at rid m' = if attaches attach rid m then attached_len attach rid nb total m else cached_at rid m.

Lemma lookup_result_config p p' h nb : same_config p p' → lookup_result p h nb → lookup_result p' h nb.
Proof. intros (Hn & He & _) [H1 H2 H3 H4]. split; [by rewrite Hn|done|done|by rewrite He]. Qed.
Lemma ready_config attach p p' h rid nb total m :
  same_config p p' → ready attach p h rid nb total m → ready attach p' h rid nb total m.
Proof.
  intros Hc (H1 & H2 & H3 & H4). split_and!; [done..|]. destruct (attaches attach rid m); [|done].
  split; [|apply H4]. by eapply lookup_result_config; [|apply H4].
Qed.

Definition all_hits (attach : bool) (rid : string) (nbl : list (list loc)) (total : Z)
    (ms : list Manager) : list (list loc) :=
  imap (λ i m, attached_hits attach rid (hits_of nbl i) total m) ms.

Lemma co_attach_true_ok cs R l h rid nbl local :
  let hits := all_hits true rid nbl local (cs_mgrs cs) in
  coord_rep cs R l h → all_ready true cs h rid nbl local →
  ok (co_allocate_new_computed_blocks rid nbl local 0) cs (λ _ cs',
    coord_rep cs' R (filter (λ b, b ∉ concat hits) l) h ∧ evolves (cs_pool cs) h (cs_pool cs') h ∧
    mgrs_rel (λ i, attached true rid (hits_of nbl i) local) cs cs').
Proof.
  intros hits Hrep [Hlen Hready]. unfold co_allocate_new_computed_blocks.
  eapply ok_mono; [apply (for_mgrs_ok _
    (λ i l' h', l' = filter (λ b, b ∉ concat (take i hits)) l ∧ h' = h)
    (λ i m _ m', attached true rid (hits_of nbl i) local m m') cs R l h); [|exact Hrep|]|].
  - intros i m s R0 l0 h0 Hm <- Hcfg Hs [-> ->].
    rewrite (hits_lookup nbl i _ Hlen) by by apply lookup_lt_Some in Hm.
    cbn [or_raise]. mgr_step. mgr_step. cbn beta.
    eapply ok_mono; [apply (attach_ok s R0 _ h rid (hits_of nbl i) local Hs)|].
    { eapply ready_config; [exact Hcfg|by apply Hready]. }
    intros [] s' (Hr & He & Ho & Hl & Hc). eexists _, h. split_and!; [exact Hr|done| |done|done..].
    assert (hits !! i = Some (attached_hits true rid (hits_of nbl i) local (ms_mgr s))) as Hi
      by (unfold hits, all_hits; rewrite list_lookup_imap, Hm; done).
    rewrite (take_S_r _ _ _ Hi), concat_app. cbn [concat]. rewrite app_nil_r, list_filter_filter.
    apply list_filter_iff. intros b. rewrite not_elem_of_app. tauto.
  - split; [|done]. by rewrite filter_id by (intros; apply not_elem_of_nil).
  - intros [] cs' (results & l' & h' & Hinv). pose proof Hinv as [Hr He [-> ->] _ _ _ _].
    assert (take (length (cs_mgrs cs)) hits = hits) as Ht
      by (apply take_ge; unfold hits, all_hits; by rewrite length_imap).
    rewrite Ht in Hr. split_and!; try done.
    destruct (loop_inv_rel _ _ _ _ _ _ _ _ _ Hinv) as (? & ? & HP).
    split_and!; [done..|]. intros i m Hm. destruct (HP i m Hm) as (m' & ? & _ & _ & ?). eauto.
Qed.

Definition co_attach (attach : bool) (rid : string) (nbl : list (list loc)) (local : Z) : M cstate unit :=
  if attach then co_allocate_new_computed_blocks rid nbl local 0 else ret tt.

Lemma sumZ_imap_add {A} (f g : nat → A → Z) l :
  sumZ (imap (λ i x, f i x + g i x) l) = sumZ (imap f l) + sumZ (imap g l).
Proof.
  revert f g. induction l as [|x l IH]; intros f g; [done|]. rewrite !imap_cons, !sumZ_cons.
  specialize (IH (f ∘ S) (g ∘ S)).
  assert (imap ((λ i x, f i x + g i x) ∘ S) l = imap (λ i x, (f ∘ S) i x + (g ∘ S) i x) l) as -> by done.
  lia.
Qed.

(** Attaching leaves enough free blocks for what the prediction still counts. *)
Lemma co_attach_ok attach cs R l h rid nbl nt enc local :
  coord_rep cs R l h → all_ready attach cs h rid nbl local →
  ok (co_attach attach rid nbl local) cs (λ _ cs', ∃ l',
    coord_rep cs' R l' h ∧ evolves (cs_pool cs) h (cs_pool cs') h ∧
    mgrs_rel (λ i, attached attach rid (hits_of nbl i) local) cs cs' ∧
    len l - co_predicted attach rid nbl local nt enc l (cs_mgrs cs)
      ≤ len l' - sumZ (imap (λ i m, needed attach rid (hits_of nbl i) local nt enc m) (cs_mgrs cs))).
Proof.
  intros Hrep Hready. unfold co_predicted, predicted. rewrite sumZ_imap_add.
  assert (NoDup l) as Hnd by apply (own_rep_free_list _ _ _ _ (co_own _ _ _ _ Hrep)).
  assert (imap (λ i m, len (filter (λ b, b ∈ l) (attached_hits attach rid (hits_of nbl i) local m))) (cs_mgrs cs)
    = (λ c, len (filter (λ b, b ∈ l) c)) <$> all_hits attach rid nbl local (cs_mgrs cs)) as ->.
  { unfold all_hits. by rewrite fmap_imap. }
  pose proof (filter_out_concat (all_hits attach rid nbl local (cs_mgrs cs)) l Hnd) as Hle.
  destruct attach; cbn [co_attach].
  - eapply ok_mono; [by apply (co_attach_true_ok cs R l h rid nbl local)|].
    intros [] cs' (Hr & He & Hrel). eexists. split_and!; [exact Hr|done|exact Hrel|lia].
  - apply ok_ret. exists l. split_and!; [done|by apply evolves_same| |].
    + apply mgrs_rel_refl. intros i m _. by split_and!.
    + assert (0 ≤ sumZ ((λ c, len (filter (λ b, b ∈ l) c)) <$> all_hits false rid nbl local (cs_mgrs cs))); [|lia].
      clear. generalize (all_hits false rid nbl local (cs_mgrs cs)) as hs.
      induction hs as [|c hs IH]; [done|]. rewrite fmap_cons, sumZ_cons.
      pose proof (len_nonneg (filter (λ b, b ∈ l) c)). lia.
Qed.

(** *** Growing *)

Definition grown (rid : string) (nt enc : Z) (m : Manager) (new : list loc) (m' : Manager) : Prop :=
  only_changes rid m m' ∧ blocks_at rid m' = blocks_at rid m ++ new ∧
  num_cached_block m' = num_cached_block m ∧
  len new = Z.max 0 (cdiv (slot_tokens nt enc m) (block_size m) - len (blocks_at rid m)).

Lemma co_grow_ok cs R l h rid nt ntm enc :
  let need := λ m, Z.max 0 (cdiv (slot_tokens nt enc m) (block_size m) - len (blocks_at rid m)) in
  coord_rep cs R l h → (∀ m, m ∈ cs_mgrs cs → cls m ≠ MambaManager) →
  sumZ (need <$> cs_mgrs cs) ≤ len l →
  ok (co_allocate_new_blocks rid nt ntm enc) cs (λ news cs', ∃ l' h',
    coord_rep cs' R l' h' ∧ evolves (cs_pool cs) h (cs_pool cs') h' ∧
    length news = length (cs_mgrs cs) ∧
    mgrs_rel (λ i m m', ∃ new, news !! i = Some new ∧ grown rid nt enc m new m') cs cs').
Proof.
  intros need Hrep Hcls Hfit. unfold co_allocate_new_blocks.
  eapply ok_mono; [apply (map_mgrs_ok _ (λ i l' _, sumZ (drop i (need <$> cs_mgrs cs)) ≤ len l')
    (λ _ m new m', grown rid nt enc m new m') cs R l h); [|exact Hrep|done]|].
  - intros i m s R0 l0 h0 Hm <- Hcfg Hs Hl. mgr_step. mgr_step.
    pose proof (Hcls _ (list_elem_of_lookup_2 _ _ _ Hm)) as Hc.
    assert ((need <$> cs_mgrs cs) !! i = Some (need (ms_mgr s))) as Hi by (by rewrite list_lookup_fmap, Hm).
    rewrite (sumZ_drop _ _ _ Hi) in Hl.
    assert (0 ≤ sumZ (drop (S i) (need <$> cs_mgrs cs))) as H0.
    { generalize (S i). clear. intros k. rewrite <-fmap_drop. generalize (drop k (cs_mgrs cs)) as ms.
      induction ms as [|m ms IH]; [done|]. rewrite fmap_cons, sumZ_cons. unfold need at 1. lia. }
    fold (slot_tokens nt enc (ms_mgr s)).
    assert (ok (base_allocate_new_blocks rid (slot_tokens nt enc (ms_mgr s))) s (λ new s', ∃ l' h',
      mgr_rep s' R0 l' h' ∧ evolves (ms_pool s) h0 (ms_pool s') h' ∧
      sumZ (drop (S i) (need <$> cs_mgrs cs)) ≤ len l' ∧ grown rid nt enc (ms_mgr s) new (ms_mgr s'))) as Hok.
    { eapply ok_mono; [apply (base_allocate_new_blocks_ok s R0 l0 h0 rid _ Hs)|].
      { unfold need in Hl at 1. lia. }
      intros new s' (Hln & [Hr Hn He Ho Hb Hnc]). eexists _, _. split_and!; [exact Hr|exact He| |by split_and!].
      fold (need (ms_mgr s)) in Hln.
      assert (len new ≤ len l0) by (unfold need in *; lia). unfold len in *. rewrite length_drop. lia. }
    unfold allocate_new_blocks. mgr_step. mgr_step. by destruct (cls (ms_mgr s)).
  - intros news cs' (l' & h' & Hinv). pose proof Hinv as [Hr He _ _ [_ Hnl] _ _].
    exists l', h'. split_and!; try done. by apply (loop_inv_rel _ _ _ _ _ _ _ _ _ Hinv).
Qed.

(** *** Filing the full blocks *)

(** The tokens each manager may file, per coordinator. *)
Definition tokens_to_cache (co : KVCacheCoordinator) (m : Manager) (t : Z) : Z :=
  match kind co with
  | Hybrid _ _ =>
      let a := t / co_scheduler_block_size co * co_scheduler_block_size co in
      if use_eagle m && (0 <? a) then Z.min t (a + block_size m) else a
  | _ => t
  end.

Definition offered (r : Request) (co : KVCacheCoordinator) (t : Z) (m m' : Manager) : Prop :=
  only_changes (request_id r) m m' ∧ blocks_at (request_id r) m' = blocks_at (request_id r) m ∧
  cached_at (request_id r) m' =
    Z.max (cached_at (request_id r) m) (tokens_to_cache co m t / block_size m).

Definition can_offer (r : Request) (cs : cstate) (t : Z) : Prop :=
  enable_caching (cs_pool cs) = true ∧ ∀ i m, cs_mgrs cs !! i = Some m →
    cls m ≠ CrossAttentionManager ∧ mask_config m ∧
    can_cache (MkMS (cs_pool cs) m) r (tokens_to_cache (cs_co cs) m t / block_size m).

Lemma co_offer_ok cs R l h r t :
  coord_rep cs R l h → can_offer r cs t →
  ok (co_cache_blocks r t) cs (λ _ cs', ∃ l' h',
    coord_rep cs' R l' h' ∧ evolves (cs_pool cs) h (cs_pool cs') h' ∧
    mgrs_rel (λ _, offered r (cs_co cs) t) cs cs').
Proof.
  intros Hrep [He Hcan].
  assert (ok (for_mgrs (λ _, let* m := getm (λ m, m) in
    cache_blocks r (tokens_to_cache (cs_co cs) m t) (retention_interval (cs_co cs)))) cs (λ _ cs', ∃ l' h',
    coord_rep cs' R l' h' ∧ evolves (cs_pool cs) h (cs_pool cs') h' ∧
    mgrs_rel (λ _, offered r (cs_co cs) t) cs cs')) as Hok.
  { eapply ok_mono; [apply (for_mgrs_ok _ (λ _ _ _, True)
      (λ _ m _ m', offered r (cs_co cs) t m m') cs R l h); [|exact Hrep|done]|].
    - intros i m s R0 l0 h0 Hm <- Hcfg Hs _. mgr_step. mgr_step.
      destruct (Hcan i _ Hm) as (Hcr & Hmask & Hc).
      eapply ok_mono; [apply (cache_blocks_ok s R0 l0 h0 r _ (retention_interval (cs_co cs)) Hcr Hs Hmask)|].
      { destruct Hcfg as (_ & -> & _). exact He. }
      { destruct Hc as [Hc1 Hc2]. split; [exact Hc1|]. cbn [ms_pool ms_mgr] in Hc2.
        assert (hash_block_size (ms_pool s) = hash_block_size (cs_pool cs)) as -> by (by destruct Hcfg as (_ & _ & -> & _)).
        exact Hc2. }
      intros [] s' (mask & h' & [Hr _ Hev Ho Hb Hca]). eexists _, _. split_and!; [exact Hr|exact Hev|done|].
      by split_and!.
    - intros [] cs' (results & l' & h' & Hinv). pose proof Hinv as [Hr Hev _ _ _ _ _].
      exists l', h'. split_and!; try done.
      destruct (loop_inv_rel _ _ _ _ _ _ _ _ _ Hinv) as (? & ? & HP).
      split_and!; [done..|]. intros i m Hm. destruct (HP i m Hm) as (m' & ? & _ & _ & ?). eauto. }
  unfold co_cache_blocks, base_co_cache_blocks, Hybrid_cache_blocks, tokens_to_cache in *. ok_steps.
  destruct (kind (cs_co cs)); ok_steps; exact Hok.
Qed.
End phases.
