(* ===== verification/KVProps.v ===== *)
(** * [allocate_slots]

    The contract between the scheduler and the KV-cache manager: called with a
    new request and its cache hits, or with a running request, [allocate_slots]
    never raises.  It refuses exactly when the full-sequence gate does, or when
    the free blocks left after recycling, less the reserved ones, do not cover
    the prediction; otherwise every group's table covers the tokens of the
    step. *)

From S2P Require Import Prelude FreeQueue BlockHash Request BlockPool KVCacheSpec SingleType Ownership SingleTypeProps CachingProps MambaProps CacheHit Coordinator KVCacheManager CoordinatorProps SlotProps SlotPhases.

(** ** The contract *)

Definition local_tokens (r : Request) (nc : Z) : Z := num_computed_tokens r + nc.
Definition slots_wanted (kv : KVCacheManager) (r : Request) (nn nc la : Z) : Z :=
  Z.min (local_tokens r nc + nn + la) (kv_max_model_len kv).
Definition tokens_final (r : Request) (nn nc : Z) : Z :=
  Z.min (local_tokens r nc + nn) (num_tokens r).
Definition hits_given (kv : KVCacheManager) (o : option KVCacheBlocks) : KVCacheBlocks :=
  default (empty_kv_cache_blocks kv) o.
Definition attach_flag (kv : KVCacheManager) (o : option KVCacheBlocks) : bool :=
  negb (shared_empty (hits_given kv o)).

(** Every group can file what the request completes. *)
Definition filing_ready (cs : cstate) (r : Request) (t : Z) : Prop :=
  enable_caching (cs_pool cs) = true ∧ 0 ≤ t ∧ 0 < co_scheduler_block_size (cs_co cs) ∧
  t / hash_block_size (cs_pool cs) ≤ len (Request.block_hashes r) ∧
  ∀ m, m ∈ cs_mgrs cs → cls m ≠ CrossAttentionManager ∧ mask_config m.

(** A legal call: [nn] new tokens, [nc] tokens of new cache hits [o], [la]
    lookahead tokens, nothing computed elsewhere. *)
Record slots_callable (kv : KVCacheManager) (l : list loc) (h : gmap Z bytes) (r : Request)
    (nn nc : Z) (o : option KVCacheBlocks) (la : Z) (delay : bool) : Prop := {
  sc_rep : coord_rep (coordinator kv) [] l h;
  sc_groups : num_kv_cache_groups kv = length (cs_mgrs (coordinator kv));
  sc_tokens : 0 < nn ∧ 0 ≤ la ∧ 0 ≤ local_tokens r nc ≤ kv_max_model_len kv ∧
    num_tokens r ≤ kv_max_model_len kv;
  sc_ready : all_ready (attach_flag kv o) (coordinator kv) h (request_id r)
    (kb_blocks (hits_given kv o)) (local_tokens r nc);
  sc_filing : kv_enable_caching kv = true → delay = false →
    filing_ready (coordinator kv) r (tokens_final r nn nc)
}.

(** One group's table afterwards. *)
Definition allocated (attach : bool) (r : Request) (nb : list loc) (local slots enc : Z)
    (m : Manager) (new : list loc) (m' : Manager) : Prop :=
  only_changes (request_id r) m m' ∧ new `suffix_of` blocks_at (request_id r) m' ∧
  len (blocks_at (request_id r) m') =
    Z.max (attached_len attach (request_id r) nb local m) (cdiv (slot_tokens slots enc m) (block_size m)).

(** ** Lifting to the manager's state *)

Lemma ok_on_co {A} (m : M cstate A) kv (Q : A → KVCacheManager → Prop) :
  ok m (coordinator kv) (λ a c, Q a (set_coordinator c kv)) → ok (on_co m) kv Q.
Proof. apply (ok_zoom coordinator set_coordinator). Qed.

Lemma set_coordinator_same kv : set_coordinator (coordinator kv) kv = kv.
Proof. by destruct kv. Qed.
Lemma set_coordinator_twice c c' kv : set_coordinator c (set_coordinator c' kv) = set_coordinator c kv.
Proof. by destruct kv. Qed.

Lemma free_blocks_eq kv R l h :
  coord_rep (coordinator kv) R l h → on_kv_pool get_num_free_blocks kv = (Ok (len l), kv).
Proof.
  intros Hrep. unfold on_kv_pool, on_co, on_pool, zoom.
  rewrite (pool_rep_num_free _ _ (ow_pool _ _ _ _ (co_own _ _ _ _ Hrep))). simpl.
  by destruct kv as [? ? ? ? [] ? ?].
Qed.

Lemma on_co_eq {A} (m : M cstate A) kv a :
  m (coordinator kv) = (Ok a, coordinator kv) → on_co m kv = (Ok a, kv).
Proof. unfold on_co, zoom. intros ->. by rewrite set_coordinator_same. Qed.

(** ** Combining the phases *)

Lemma all_ready_thinned attach cs cs' h rid nbl total :
  mgrs_rel (λ _, thinned rid) cs cs' → same_config (cs_pool cs) (cs_pool cs') →
  all_ready attach cs h rid nbl total → all_ready attach cs' h rid nbl total.
Proof.
  intros Hrel Hcfg [Hlen Hr]. split; [rewrite Hlen; symmetry; apply Hrel|].
  intros i m' Hm'. destruct (mgrs_rel_backwards _ _ _ _ _ Hrel Hm') as (m & Hm & Hth).
  eapply ready_config; [exact Hcfg|]. by apply (thinned_keeps attach rid m m' Hth), Hr.
Qed.

Lemma thinned_needed attach rid m m' nb total nt enc :
  thinned rid m m' → needed attach rid nb total nt enc m' = needed attach rid nb total nt enc m.
Proof.
  intros Hth. unfold needed, slot_tokens.
  destruct (thinned_keeps attach rid m m' Hth) as (_ & _ & -> & _).
  by destruct Hth as ((_ & _ & (-> & _ & _ & -> & _)) & _).
Qed.

(** The prediction does not depend on the recycling except through the free
    list. *)
Lemma co_predicted_thinned attach rid nbl total nt enc l cs cs' :
  mgrs_rel (λ _, thinned rid) cs cs' →
  co_predicted attach rid nbl total nt enc l (cs_mgrs cs')
  = co_predicted attach rid nbl total nt enc l (cs_mgrs cs).
Proof.
  intros Hrel. unfold co_predicted. f_equal. apply list_eq. intros i. rewrite !list_lookup_imap.
  pose proof Hrel as (_ & Hlen & HP). destruct (cs_mgrs cs !! i) as [m|] eqn:Hm.
  - destruct (HP i m Hm) as (m' & -> & Hth). cbn. unfold predicted.
    rewrite (thinned_needed attach rid m m') by done.
    by destruct (thinned_keeps attach rid m m' Hth) as (_ & _ & _ & ->).
  - apply lookup_ge_None in Hm. by rewrite (proj2 (lookup_ge_None _ _)) by lia.
Qed.

(** The blocks still to allocate after attaching. *)
Lemma needs_after_attach attach rid nbl local nt enc cs cs' :
  mgrs_rel (λ i, attached attach rid (hits_of nbl i) local) cs cs' →
  (λ m, Z.max 0 (cdiv (slot_tokens nt enc m) (block_size m) - len (blocks_at rid m))) <$> cs_mgrs cs'
  = imap (λ i m, needed attach rid (hits_of nbl i) local nt enc m) (cs_mgrs cs).
Proof.
  intros (_ & Hlen & HP). apply list_eq. intros i. rewrite list_lookup_fmap, list_lookup_imap.
  destruct (cs_mgrs cs !! i) as [m|] eqn:Hm.
  - destruct (HP i m Hm) as (m' & -> & Hoc & Hl & _). cbn. unfold needed, slot_tokens. rewrite Hl.
    by destruct Hoc as (_ & _ & (-> & _ & _ & -> & _)).
  - apply lookup_ge_None in Hm. by rewrite (proj2 (lookup_ge_None _ _)) by lia.
Qed.

Lemma tokens_to_cache_le co m t :
  0 ≤ t → 0 < co_scheduler_block_size co → tokens_to_cache co m t ≤ t.
Proof.
  intros Ht Hs. unfold tokens_to_cache. pose proof (Z.mul_div_le t _ Hs).
  destruct (kind co); [lia..|]. case_match; lia.
Qed.

(** The grown tables and the hashes suffice to file [t] tokens. *)
Lemma can_offer_filing cs r t R l h :
  coord_rep cs R l h → filing_ready cs r t →
  (∀ m, m ∈ cs_mgrs cs → t ≤ len (blocks_at (request_id r) m) * block_size m) → can_offer r cs t.
Proof.
  intros Hrep (He & Ht & Hsb & Hh & Hm) Hlen. split; [done|]. intros i m Hi.
  pose proof (list_elem_of_lookup_2 _ _ _ Hi) as Hin. destruct (Hm m Hin) as [Hc Hmask].
  destruct (co_static _ _ _ _ Hrep m Hin) as [Hbs _ _ _ Hhash]. destruct (Hhash He) as [Hhbs Hmod].
  pose proof (tokens_to_cache_le (cs_co cs) m t Ht Hsb) as Htc. set (tc := tokens_to_cache _ m t) in *.
  pose proof (Z.mul_div_le tc _ Hbs) as Hnf. specialize (Hlen m Hin).
  split_and!; [done..|]. split; cbn [ms_pool ms_mgr].
  - apply Z.lt_succ_r, Z.div_lt_upper_bound; [done|]. lia.
  - etransitivity; [|exact Hh]. apply Z.div_le_lower_bound; [done|].
    apply Z_div_exact_full_2 in Hmod; [|lia].
    set (q := block_size m / hash_block_size (cs_pool cs)) in *. nia.
Qed.

Section allocate.
Context `{HashEnv}.

(** Filing when caching is on, nothing otherwise: the tables keep their blocks. *)
Lemma filing_phase cs R l h r t (on : bool) :
  coord_rep cs R l h → (on = true → can_offer r cs t) →
  ok (if on then co_cache_blocks r t else ret tt) cs (λ _ cs', ∃ l' h',
    coord_rep cs' R l' h' ∧ evolves (cs_pool cs) h (cs_pool cs') h' ∧
    mgrs_rel (λ _ m m', only_changes (request_id r) m m' ∧
      blocks_at (request_id r) m' = blocks_at (request_id r) m) cs cs').
Proof.
  intros Hrep Hon. destruct on.
  - eapply ok_mono; [by eapply co_offer_ok, Hon|]. intros [] cs' (l' & h' & Hr & He & Hrel).
    exists l', h'. split_and!; [done..|]. destruct Hrel as (? & ? & HP). split_and!; [done..|].
    intros i m Hm. destruct (HP i m Hm) as (m' & ? & ? & ? & _). eauto.
  - apply ok_ret. exists l, h. split_and!; [done|by apply evolves_same|].
    by apply mgrs_rel_refl.
Qed.

(** From a manager before the call to the same manager after it. *)
Lemma allocated_intro attach r nb local slots enc m m1 m2 new m3 m4 :
  let rid := request_id r in
  thinned rid m m1 → attached attach rid nb local m1 m2 → grown rid slots enc m2 new m3 →
  only_changes rid m3 m4 → blocks_at rid m4 = blocks_at rid m3 →
  allocated attach r nb local slots enc m new m4.
Proof.
  intros rid Hth (Ho2 & Hl2 & _) (Ho3 & Hb3 & _ & Hn3) Ho4 Hb4.
  pose proof (thinned_keeps attach rid m m1 Hth) as (_ & _ & Hal & _). destruct Hth as (Ho1 & _).
  split_and!.
  - etransitivity; [exact Ho1|]. etransitivity; [exact Ho2|]. by etransitivity.
  - fold rid. rewrite Hb4, Hb3. by eexists.
  - fold rid. rewrite Hb4, Hb3, len_app, Hn3, Hl2, Hal. unfold slot_tokens.
    destruct Ho1 as (_ & _ & (Hc1 & _ & _ & Hb1 & _)), Ho2 as (_ & _ & (Hc2 & _ & _ & Hb2 & _)).
    rewrite Hc2, Hc1, Hb2, Hb1. lia.
Qed.

Lemma filing_ready_static cs cs' r t :
  mgrs_rel (λ _ m m', same_static m m') cs cs' → same_config (cs_pool cs) (cs_pool cs') →
  filing_ready cs r t → filing_ready cs' r t.
Proof.
  intros Hrel (_ & Hc & Hh & _) (He & Ht & Hsb & Hhs & Hm). pose proof Hrel as (Hco & _ & _).
  split_and!; [by rewrite Hc|done|by rewrite Hco|by rewrite Hh|].
  intros m' [i Hi]%list_elem_of_lookup. destruct (mgrs_rel_backwards _ _ _ _ _ Hrel Hi) as (m & Hi' & Hst).
  destruct (Hm m (list_elem_of_lookup_2 _ _ _ Hi')) as [Hcr Hmask].
  destruct Hst as (Hcls & Hspec & Hsbs & _). unfold mask_config in *. by rewrite Hcls, Hspec, Hsbs.
Qed.

(** The growth covers the tokens. *)
Lemma grown_covers rid slots enc m new m' :
  0 < block_size m → is_cross (cls m) = false → grown rid slots enc m new m' →
  slots ≤ len (blocks_at rid m') * block_size m'.
Proof.
  intros Hbs Hcr ((_ & _ & (_ & _ & _ & -> & _)) & Hb & _ & Hn). rewrite Hb, len_app.
  unfold slot_tokens in Hn. rewrite Hcr in Hn. apply cdiv_le_iff; [done|]. lia.
Qed.

Lemma can_offer_settled cs cs' r t slots R l h :
  filing_ready cs r t → t ≤ slots → coord_rep cs' R l h →
  mgrs_rel (λ _ m m', same_static m m' ∧
    (is_cross (cls m) = false → slots ≤ len (blocks_at (request_id r) m') * block_size m')) cs cs' →
  same_config (cs_pool cs) (cs_pool cs') → can_offer r cs' t.
Proof.
  intros Hf Ht Hrep Hrel Hcfg. apply (can_offer_filing cs' r t R l h Hrep).
  - eapply filing_ready_static; [|exact Hcfg|exact Hf]. eapply mgrs_rel_weaken; [exact Hrel|]. by intros ? ? ? _ [? _].
  - intros m' [i Hi]%list_elem_of_lookup. destruct (mgrs_rel_backwards _ _ _ _ _ Hrel Hi) as (m & Hm & _ & Hl).
    destruct Hf as (_ & _ & _ & _ & Hm'). destruct (Hm' m (list_elem_of_lookup_2 _ _ _ Hm)) as [Hcr _].
    etransitivity; [exact Ht|]. apply Hl. by destruct (cls m).
Qed.

(** *** After the recycling: attach, grow, file *)

Definition settle (attach : bool) (r : Request) (nbl : list (list loc)) (local slots ntm enc : Z)
    (file : bool) (t : Z) : M cstate (list (list loc)) :=
  co_attach attach (request_id r) nbl local ;;;
  let* news := co_allocate_new_blocks (request_id r) slots ntm enc in
  (if file then co_cache_blocks r t else ret tt) ;;;
  ret news.

Lemma settle_ok attach r nbl local slots ntm enc file t cs R l h :
  let rid := request_id r in
  coord_rep cs R l h → all_ready attach cs h rid nbl local →
  co_predicted attach rid nbl local slots enc l (cs_mgrs cs) ≤ len l →
  (file = true → filing_ready cs r t ∧ t ≤ slots) →
  ok (settle attach r nbl local slots ntm enc file t) cs (λ news cs', ∃ l' h',
    coord_rep cs' R l' h' ∧ evolves (cs_pool cs) h (cs_pool cs') h' ∧
    length news = length (cs_mgrs cs) ∧
    mgrs_rel (λ i m m', ∃ new m2 m3, news !! i = Some new ∧
      attached attach rid (hits_of nbl i) local m m2 ∧ grown rid slots enc m2 new m3 ∧
      only_changes rid m3 m' ∧ blocks_at rid m' = blocks_at rid m3) cs cs').
Proof.
  intros rid Hrep Hready Hfit Hfile. unfold settle. ok_step.
  eapply ok_mono; [apply (co_attach_ok attach cs R l h rid nbl slots enc local Hrep Hready)|].
  intros [] cs2 (l2 & Hrep2 & Hev2 & Hrel2 & Hle). ok_step.
  pose proof (needs_after_attach attach rid nbl local slots enc cs cs2 Hrel2) as Hneed.
  eapply ok_mono; [apply (co_grow_ok cs2 R l2 h rid slots ntm enc Hrep2)|].
  { intros m' [i Hi]%list_elem_of_lookup. destruct (mgrs_rel_backwards _ _ _ _ _ Hrel2 Hi) as (m & Hm & Ha).
    destruct (proj2 Hready i m Hm) as [Hc _]. by destruct Ha as ((_ & _ & (-> & _)) & _). }
  { cbv zeta. rewrite Hneed. lia. }
  intros news cs3 (l3 & h3 & Hrep3 & Hev3 & Hnl & Hrel3). ok_step.
  assert (mgrs_rel (λ i m m3, ∃ new m2, news !! i = Some new ∧
    attached attach rid (hits_of nbl i) local m m2 ∧ grown rid slots enc m2 new m3) cs cs3) as Hrel.
  { eapply mgrs_rel_trans; [exact Hrel2|exact Hrel3|]. intros i m1 m2 m3 _ Ha (new & Hn & Hg). by exists new, m2. }
  eapply ok_mono; [apply (filing_phase cs3 R l3 h3 r t file Hrep3)|].
  { intros ->. destruct (Hfile eq_refl) as [Hf Ht]. apply (can_offer_settled cs cs3 r t slots R l3 h3); try done.
    - eapply mgrs_rel_weaken; [exact Hrel|].
      intros i m m3 Hi (new & m2 & _ & ((_ & _ & Hs2) & _) & Hg). pose proof Hg as ((_ & _ & Hs3) & _).
      split; [by etransitivity|]. intros Hcr. eapply grown_covers; [..|exact Hg].
      + destruct Hs2 as (_ & _ & _ & -> & _). apply (st_bs _ _ (co_static _ _ _ _ Hrep m (list_elem_of_lookup_2 _ _ _ Hi))).
      + by destruct Hs2 as (-> & _).
    - etransitivity; [apply Hev2|apply Hev3]. }
  intros [] cs4 (l4 & h4 & Hrep4 & Hev4 & Hrel4). ok_step. exists l4, h4. split_and!.
  - exact Hrep4.
  - eapply evolves_trans; [exact Hev2|]. by eapply evolves_trans.
  - rewrite Hnl. apply Hrel2.
  - eapply mgrs_rel_trans; [exact Hrel|exact Hrel4|].
    intros i m m3 m4 _ (new & m2 & ? & ? & ?) [? ?]. by exists new, m2, m3.
Qed.

(** *** The whole call *)

Lemma on_co_seq {A B C} (m : M cstate A) (k : A → M cstate B) (k2 : B → M KVCacheManager C) kv :
  bind (on_co (bind m k)) k2 kv = bind (on_co m) (λ a, bind (on_co (k a)) k2) kv.
Proof.
  unfold on_co, zoom, bind. destruct (m (coordinator kv)) as [[a|e] c]; [|done].
  destruct kv; cbn. by destruct (k a c).
Qed.
Lemma on_co_caching {A} (m : M cstate A) kv r kv' :
  on_co m kv = (r, kv') → kv_enable_caching kv' = kv_enable_caching kv.
Proof. unfold on_co, zoom. destruct (m _). by intros [= _ <-]. Qed.

(** The last part of [allocate_slots] is [settle] on the coordinator. *)
Lemma settle_code {A} (k : list (list loc) → M KVCacheManager A) attach delay r nbl local slots ntm enc t kv :
  ((if attach || (0 <? 0) then on_co (co_allocate_new_computed_blocks (request_id r) nbl local 0)
    else ret tt) ;;;
   let* news := on_co (co_allocate_new_blocks (request_id r) slots ntm enc) in
   let* caching := gets kv_enable_caching in
   (if negb caching || delay then ret tt else on_co (co_cache_blocks r t)) ;;;
   k news) kv
  = (let* news := on_co (settle attach r nbl local slots ntm enc
       (kv_enable_caching kv && negb delay) t) in k news) kv.
Proof.
  assert (∀ kv, on_co (ret tt) kv = (Ok tt, kv)) as Hret by (intros; by apply on_co_eq).
  unfold settle. rewrite orb_false_r, on_co_seq. apply bind_ext; [by destruct attach|].
  intros [] kv1 E1. rewrite on_co_seq. apply bind_ext; [done|]. intros news kv2 E2.
  rewrite on_co_seq. rewrite (bind_eq (gets kv_enable_caching) _ kv2 _ kv2 eq_refl).
  rewrite (on_co_caching _ _ _ _ E2), (on_co_caching _ _ _ _ E1).
  apply bind_ext; [by destruct (kv_enable_caching kv), delay|]. intros [] kv3 _.
  by rewrite (bind_eq _ _ _ _ _ (on_co_eq (ret news) kv3 news eq_refl)).
Qed.

(** [create_kv_cache_blocks] keeps the lists. *)
Lemma create_blocks_eq blocks kv :
  num_kv_cache_groups kv = length blocks →
  ∃ b, create_kv_cache_blocks blocks kv = (Ok b, kv) ∧ kb_blocks b = blocks ∧
    shared_empty b = forallb (λ g : list loc, (length g =? 0)%nat) blocks.
Proof.
  intros Hlen. unfold create_kv_cache_blocks.
  assert (existsb (λ g : list loc, negb (length g =? 0)%nat) blocks
    = negb (forallb (λ g : list loc, (length g =? 0)%nat) blocks)) as ->.
  { induction blocks as [|g gs IH]; [done|]. simpl. rewrite negb_andb. f_equal.
    clear. induction gs as [|g gs IH]; [done|]. simpl. by rewrite negb_andb, IH. }
  destruct (forallb _ blocks) eqn:Hall; cbn [negb].
  - eexists. split_and!; [done| |done]. simpl. rewrite Hlen. clear Hlen.
    induction blocks as [|g gs IH]; [done|]. simpl in *. apply andb_true_iff in Hall as [Hg Hgs].
    rewrite IH by done. f_equal. destruct g; [done|]. simpl in Hg. discriminate.
  - eexists. by split_and!.
Qed.

(** What the admission gate counts: the blocks of the whole sequence, capped for
    groups that never hold more. *)
Definition admission (attach : bool) (kv : KVCacheManager) (r : Request) (nbl : list (list loc)) (total enc : Z)
    (l : list loc) : Z :=
  co_wanted true attach (request_id r) nbl total (Z.min (num_tokens r) (kv_max_model_len kv)) enc l
    (cs_mgrs (coordinator kv)).

Lemma full_sequence_fits_eq attach kv R l h r nbl enc total :
  coord_rep (coordinator kv) R l h → all_ready attach (coordinator kv) h (request_id r) nbl total →
  full_sequence_fits r nbl enc total kv = (Ok (admission attach kv r nbl total enc l <=? len l), kv).
Proof.
  intros Hrep Hready. unfold full_sequence_fits. rewrite (bind_eq (gets _) _ kv _ kv eq_refl).
  rewrite (bind_eq _ _ _ _ _ (on_co_eq _ kv _ (co_predict_eq true attach _ _ _ _ _ _ _ _ _ _ Hrep Hready))).
  by rewrite (bind_eq _ _ _ _ _ (free_blocks_eq _ _ _ _ Hrep)).
Qed.

(** The tables after a successful call, or the recycled ones after a refusal. *)
Definition slots_result (attach : bool) (r : Request) (nbl : list (list loc)) (local slots enc : Z)
    (kv : KVCacheManager) (res : option KVCacheBlocks) (kv' : KVCacheManager) : Prop :=
  match res with
  | None => mgrs_rel (λ _, thinned (request_id r)) (coordinator kv) (coordinator kv')
  | Some blocks =>
      length (kb_blocks blocks) = length (cs_mgrs (coordinator kv)) ∧
      mgrs_rel (λ i m m', ∃ new, kb_blocks blocks !! i = Some new ∧
        allocated attach r (hits_of nbl i) local slots enc m new m') (coordinator kv) (coordinator kv')
  end.

(** After the gate, for a call whose recycling led to [cs1]. *)
Lemma admitted_ok kv cs1 l l1 h r nn nc o la delay enc reserved :
  let attach := attach_flag kv o in
  let nbl := kb_blocks (hits_given kv o) in
  let local := local_tokens r nc in
  let slots := slots_wanted kv r nn nc la in
  let kv1 := set_coordinator cs1 kv in
  slots_callable kv l h r nn nc o la delay → 0 ≤ reserved →
  coord_rep cs1 [] l1 h → mgrs_rel (λ _, thinned (request_id r)) (coordinator kv) cs1 →
  same_config (cs_pool (coordinator kv)) (cs_pool cs1) →
  co_predicted attach (request_id r) nbl local slots enc l1 (cs_mgrs (coordinator kv)) ≤ len l1 - reserved →
  ok (let* news := on_co (settle attach r nbl local slots (local + nn) enc
        (kv_enable_caching kv && negb delay) (tokens_final r nn nc)) in
      let* blocks := create_kv_cache_blocks news in ret (Some blocks)) kv1 (λ res kv', ∃ l' h',
    res ≠ None ∧ coord_rep (coordinator kv') [] l' h' ∧
    evolves (cs_pool cs1) h (cs_pool (coordinator kv')) h' ∧
    kv' = set_coordinator (coordinator kv') kv ∧ slots_result attach r nbl local slots enc kv res kv').
Proof.
  intros attach nbl local slots kv1 [_ Hgroups (Hnn & Hla & Hlt & Hmml) Hready Hfiling] Hres Hrep Hrel Hcfg Hfit.
  fold local in Hlt. ok_step. apply ok_on_co. cbn [coordinator set_coordinator kv1].
  pose proof (all_ready_thinned _ _ _ _ _ _ _ Hrel Hcfg Hready) as Hready1.
  eapply ok_mono; [apply (settle_ok attach r nbl local slots _ enc _ _ cs1 [] l1 h Hrep Hready1)|].
  - rewrite (co_predicted_thinned _ _ _ _ _ _ _ _ _ Hrel). lia.
  - intros [Hc Hd%negb_true_iff]%andb_true_iff. specialize (Hfiling Hc Hd). split.
    + eapply filing_ready_static; [|exact Hcfg|exact Hfiling].
      eapply mgrs_rel_weaken; [exact Hrel|]. by intros i m m' _ ((_ & _ & ?) & _).
    + unfold tokens_final, slots, slots_wanted. fold local. lia.
  - intros news cs' (l' & h' & Hrep' & Hev' & Hnl & Hrel').
    assert (length news = length (cs_mgrs (coordinator kv))) as Hnl' by (rewrite Hnl; apply Hrel).
    unfold kv1. rewrite set_coordinator_twice.
    destruct (create_blocks_eq news (set_coordinator cs' kv)) as (b & Hb & Hkb & _); [cbn; by rewrite Hgroups|].
    ok_step. eapply ok_eq; [exact Hb|]. ok_step. exists l', h'. split_and!; [done..|]. cbn [slots_result]. split; [by rewrite Hkb|].
    rewrite Hkb. eapply mgrs_rel_trans; [exact Hrel|exact Hrel'|].
    intros i m m1 m4 _ Hth (new & m2 & m3 & Hnew & Ha & Hg & Ho & Hbk). exists new. split; [done|].
    exact (allocated_intro _ _ _ _ _ _ _ _ _ _ _ _ Hth Ha Hg Ho Hbk).
Qed.

(** The state after recycling, which every call admitted by the gate goes through. *)
Definition recycled (r : Request) (local : Z) (kv kv1 : KVCacheManager) (l l1 : list loc) (h : gmap Z bytes) : Prop :=
  on_co (co_remove_skipped_blocks (request_id r) local) kv = (Ok tt, kv1) ∧
  coord_rep (coordinator kv1) [] l1 h ∧ l ⊆+ l1.

Lemma recycle_ok attach kv l h r nbl local :
  coord_rep (coordinator kv) [] l h → all_ready attach (coordinator kv) h (request_id r) nbl local →
  ∃ cs1 l1, recycled r local kv (set_coordinator cs1 kv) l l1 h ∧
    evolves (cs_pool (coordinator kv)) h (cs_pool cs1) h ∧
    mgrs_rel (λ _, thinned (request_id r)) (coordinator kv) cs1.
Proof.
  intros Hrep Hready. destruct (ok_inv _ _ _ (co_thin_ok _ _ _ _ (request_id r) local Hrep
    ltac:(intros m [i Hi]%list_elem_of_lookup; apply (proj2 Hready i m Hi)))) as ([] & cs1 & Hrun & l1 & Hrep1 & Hev & Hsub & Hrel).
  exists cs1, l1. split; [|by split]. split; [|by split]. unfold on_co, zoom. by rewrite Hrun.
Qed.

(** What [allocate_slots] guarantees; the property is restated for reachable
    managers in [KVInvariant]. *)
Lemma allocate_slots_correct kv l h r nn nc o la delay enc (full : bool) reserved :
  let attach := attach_flag kv o in
  let nbl := kb_blocks (hits_given kv o) in
  let local := local_tokens r nc in
  let slots := slots_wanted kv r nn nc la in
  let refused := full && (len l <? admission attach kv r nbl local enc l) in
  slots_callable kv l h r nn nc o la delay → 0 ≤ reserved →
  ok (allocate_slots r nn nc o la 0 delay enc full reserved) kv (λ res kv', ∃ kv1 l1 l' h',
    recycled r local kv kv1 l l1 h ∧ coord_rep (coordinator kv') [] l' h' ∧
    evolves (cs_pool (coordinator kv)) h (cs_pool (coordinator kv')) h' ∧
    kv' = set_coordinator (coordinator kv') kv ∧
    (res = None ↔ refused = true ∨ len l1 - reserved <
       co_predicted attach (request_id r) nbl local slots enc l1 (cs_mgrs (coordinator kv))) ∧
    (res = None → h' = h ∧ kv' = if refused then kv else kv1) ∧
    slots_result attach r nbl local slots enc kv res kv').
Proof.
  intros attach nbl local slots refused Hcall Hres. pose proof Hcall as [Hrep Hgroups (Hnn & Hla & Hlt & Hmml) Hready _].
  fold local in Hlt, Hready. fold nbl attach in Hready. unfold allocate_slots.
  rewrite (proj2 (Z.eqb_neq nn 0)) by lia. cbn [andb]. ok_steps.
  fold (hits_given kv o). fold nbl. rewrite !Z.add_0_r. fold (local_tokens r nc). fold local.
  rewrite (Z.min_l local) by lia.
  destruct (recycle_ok attach kv l h r nbl local Hrep Hready) as (cs1 & l1 & Hrec & Hev1 & Hrel1).
  set (kv1 := set_coordinator cs1 kv) in *. pose proof Hrec as (Hrun1 & Hrep1 & _).
  eapply (ok_mono _ _ (λ b s, s = kv ∧ b = negb refused)).
  { unfold refused. destruct full; [|by apply ok_ret]. eapply ok_eq; [by eapply full_sequence_fits_eq|]. split; [done|].
    cbn [andb]. by rewrite Z.leb_antisym. }
  intros b kv0 [-> ->]. destruct refused eqn:Href; cbn [negb].
  { ok_step. exists kv1, l1, l, h. split; [done|]. split; [done|]. split; [done|]. split; [by rewrite set_coordinator_same|].
    split; [by split; [left|]|]. split; [done|]. apply mgrs_rel_refl. by intros i m _. }
  fold (slots_wanted kv r nn nc la). fold slots. ok_step. eapply ok_eq; [exact Hrun1|].
  pose proof (all_ready_thinned _ _ _ _ _ _ _ Hrel1 (proj1 Hev1) Hready) as Hready1.
  ok_step. eapply ok_eq; [apply on_co_eq; by eapply co_predict_eq|]. rewrite co_wanted_uncapped.
  rewrite (co_predicted_thinned _ _ _ _ _ _ _ _ _ Hrel1). set (n := co_predicted _ _ _ _ _ _ _ _).
  ok_step. eapply ok_eq; [by eapply (free_blocks_eq kv1)|].
  destruct (Z.ltb_spec (len l1 - reserved) n) as [Hlt'|Hge].
  { ok_step. exists kv1, l1, l1, h. split_and!; try done. split; [by right|done]. }
  pose proof (settle_code (λ news, let* blocks := create_kv_cache_blocks news in ret (Some blocks))
    attach delay r nbl local slots (local + nn) enc (tokens_final r nn nc) kv1) as Hcode.
  pose proof (admitted_ok kv cs1 l l1 h r nn nc o la delay enc reserved Hcall Hres Hrep1 Hrel1 (proj1 Hev1)) as Hok.
  apply (ok_cong _ _ _ _ Hcode). cbv zeta in Hok. eapply ok_mono; [exact (Hok Hge)|].
  intros res kv' (l' & h' & Hne & Hrep' & Hev' & Hkv & Hresult). exists kv1, l1, l', h'. split_and!; try done.
  - eapply evolves_trans; [exact Hev1|exact Hev'].
  - split; [done|]. intros [?|Hlt']; [done|]. exfalso. exact (Zlt_not_le _ _ Hlt' Hge).
Qed.
End allocate.
