(* ===== verification/KVReach.v ===== *)
(** * Reachable KV-cache managers

    The states the KV-cache manager reaches from its construction under the
    scheduler's calls, and what holds in all of them: block tables, reference
    counts and the free list account for every block. *)

From S2P Require Import Prelude FreeQueue BlockHash Request BlockPool KVCacheSpec SingleType Ownership SingleTypeProps CachingProps MambaProps CacheHit Coordinator KVCacheManager CoordinatorProps SlotProps SlotPhases KVProps.

(** ** Construction *)

Definition group_block_size (dcp pcp : Z) (g : KVCacheGroupSpec) : Z :=
  let bs := spec_block_size (group_spec g) in
  if 1 <? dcp * pcp then bs * (dcp * pcp) else bs.

(** Positive sizes, and with caching hash blocks that divide the blocks. *)
Record config_ok (config : KVCacheConfig) (caching : bool) (dcp pcp hbs : Z) : Prop := {
  co_groups : len (kv_cache_groups config) ≤ 2 ^ 32;
  co_sizes : ∀ g, g ∈ kv_cache_groups config → 0 < group_block_size dcp pcp g ∧
    (caching = true → 0 < hbs ∧ group_block_size dcp pcp g mod hbs = 0)
}.

(** Managers as constructed: empty tables. *)
Definition new_manager (p : BlockPool) (m : Manager) : Prop :=
  mgr_static p m ∧ req_to_blocks m = ∅ ∧ num_cached_block m = ∅.

Lemma init_managers_ok p groups i mb mm null caching sbs dcp pcp ms :
  init_managers groups i mb mm null caching sbs dcp pcp = Ok ms →
  null = 0 → caching = enable_caching p → 0 ≤ i → i + len groups ≤ 2 ^ 32 →
  (∀ g, g ∈ groups → 0 < group_block_size dcp pcp g ∧
    (caching = true → 0 < hash_block_size p ∧ group_block_size dcp pcp g mod hash_block_size p = 0)) →
  (∀ m, m ∈ ms → new_manager p m) ∧ length ms = length groups.
Proof.
  intros Hinit -> ->. revert i ms Hinit. induction groups as [|g groups IH]; intros i ms Hinit Hi Hn Hg.
  { injection Hinit as <-. split; [by intros m ?%elem_of_nil|done]. }
  cbn [init_managers] in Hinit. rewrite len_cons in Hn. pose proof (len_nonneg groups).
  destruct (get_manager_for_kv_cache_spec _ _ _ _ _ _ _ _ _) as [m|e] eqn:Hm; [|done].
  cbn [rbind] in Hinit. destruct (init_managers groups _ _ _ _ _ _ _ _) as [ms'|e] eqn:Hms; [|done].
  injection Hinit as <-. destruct (IH (i + 1) ms' Hms) as [Hall Hlen]; [lia..|by intros; apply Hg; right|].
  split; [|simpl; by rewrite Hlen]. intros m' [->|Hin]%elem_of_cons; [|by apply Hall].
  unfold get_manager_for_kv_cache_spec in Hm. destruct (Hg g ltac:(left)) as [Hbs Hhash].
  assert (∃ c ma, m = Manager_init c (group_spec g) 0 (enable_caching p) i sbs dcp pcp ma) as (c & ma & ->)
    by (destruct (get_manager_class (group_spec g)) as [[]|]; simplify_eq; eauto).
  split; [|done]. split; try done. cbn. lia.
Qed.

Lemma new_managers_owners p ms : (∀ m, m ∈ ms → new_manager p m) → all_owners ms = [].
Proof.
  unfold all_owners. induction ms as [|m ms IH]; intros Hms; [done|]. rewrite fmap_cons. cbn [concat].
  rewrite IH by (intros; apply Hms; by right). destruct (Hms m ltac:(left)) as (_ & Hb & _).
  unfold mgr_owners. by rewrite Hb, map_to_list_empty.
Qed.

Lemma coord_rep_new cs l h :
  pool_rep (cs_pool cs) (MkAPool l [] h) → (∀ m, m ∈ cs_mgrs cs → new_manager (cs_pool cs) m) →
  coord_rep cs [] l h.
Proof.
  intros Hp Hms. split.
  - rewrite (new_managers_owners _ _ Hms), app_nil_r. split; [done|by intros o ?%elem_of_nil|].
    by intros _ o b ?%elem_of_nil.
  - intros m Hm. apply (Hms m Hm).
  - intros m rid n Hm. destruct (Hms m Hm) as (_ & _ & ->). by rewrite lookup_empty.
Qed.

Lemma new_manager_eagle p m b : new_manager p m → new_manager p (set_use_eagle b m).
Proof. intros ([] & ? & ?). split; [by split|done]. Qed.

Lemma flag_eagle_new p gids ms :
  (∀ m, m ∈ ms → new_manager p m) → ∀ m, m ∈ flag_eagle gids ms → new_manager p m.
Proof.
  revert ms. induction gids as [|g gids IH]; intros ms Hms m; [apply Hms|].
  apply IH. intros m' [i Hi]%list_elem_of_lookup. rewrite list_lookup_alter in Hi.
  case_decide; [subst i|apply Hms, (list_elem_of_lookup_2 _ _ _ Hi)].
  destruct (ms !! Z.to_nat g) as [m0|] eqn:Hm0; [|done]. injection Hi as <-. apply new_manager_eagle, Hms.
  by apply (list_elem_of_lookup_2 _ _ _ Hm0).
Qed.
Lemma flag_eagle_length gids ms : length (flag_eagle gids ms) = length ms.
Proof.
  unfold flag_eagle. revert ms. induction gids as [|g gids IH]; intros ms; [done|].
  cbn [foldl]. rewrite IH. apply length_alter.
Qed.

Section reach.
Context `{HashEnv}.

(** What every constructed coordinator looks like. *)
Record new_coordinator (config : KVCacheConfig) (cs : cstate) : Prop := {
  nc_blocks : 0 < num_blocks config;
  nc_num : num_gpu_blocks (cs_pool cs) = num_blocks config;
  nc_pool : pool_rep (cs_pool cs) (MkAPool (range 1 (num_blocks config)) [] ∅);
  nc_events : events_match (cs_pool cs) [] ∅;
  nc_mgrs : ∀ m, m ∈ cs_mgrs cs → new_manager (cs_pool cs) m;
  nc_len : length (cs_mgrs cs) = length (kv_cache_groups config)
}.

Lemma Coordinator_init_new k config mml mnb eagle caching events dcp pcp sbs hbs ret cs :
  config_ok config caching dcp pcp hbs →
  Coordinator_init k config mml mnb eagle caching events dcp pcp sbs hbs ret = Ok cs →
  new_coordinator config cs ∧ enable_caching (cs_pool cs) = caching ∧ cs_co cs =
    MkCoordinator k config caching sbs (eagle_group_ids (cs_co cs)) ret.
Proof.
  intros [Hlen Hsz] Hinit. unfold Coordinator_init in Hinit.
  destruct (_ && _); [|done]. cbn [rbind rassert] in Hinit.
  destruct (decide (0 < num_blocks config)) as [Hn|Hn].
  2: { unfold BlockPool_init in Hinit. by rewrite (proj2 (Z.ltb_ge 0 _)) in Hinit by lia. }
  destruct (BlockPool_init_ok (num_blocks config) caching hbs events Hn)
    as (p & Hp & Hrep & Hm & Hnum & Hc & Hh & _).
  rewrite Hp in Hinit. cbn [rbind] in Hinit.
  destruct (init_managers _ _ _ _ _ _ _ _ _) as [ms|e] eqn:Hms; [|done]. cbn [rbind] in Hinit.
  destruct (validate_prefix_cache_retention_interval _ _ _); [|done]. injection Hinit as <-.
  split; [|done]. eapply (init_managers_ok p) in Hms as [Hnew Hl]; [| |done|lia|lia|].
  - by split.
  - apply (cr_null _ _ _ (pr_core _ _ Hrep)).
  - intros g Hg. rewrite Hh. by apply Hsz.
Qed.

Lemma new_coordinator_kind config cs k mgrs :
  new_coordinator config cs → (∀ m, m ∈ mgrs → new_manager (cs_pool cs) m) →
  length mgrs = length (cs_mgrs cs) → new_coordinator config (set_kind k mgrs cs).
Proof. intros [? ? ? ? ? Hl] Hm Hlen. split; try done. cbn. by rewrite Hlen. Qed.

Lemma Unitary_init_new config dcp pcp hbs cs cs' :
  new_coordinator config cs → Unitary_init dcp pcp hbs cs = Ok cs' →
  new_coordinator config cs' ∧ cs_pool cs' = cs_pool cs.
Proof.
  intros Hnew Hinit. unfold Unitary_init in Hinit.
  destruct (kv_cache_groups _) as [|g gs]; [done|].
  destruct (_ || _); [|done]. cbn [rbind rassert] in Hinit. destruct (bool_decide (gs = [])); [|done].
  cbn [rbind rassert] in Hinit. destruct (cs_mgrs cs) as [|m ms] eqn:Hms; [done|]. injection Hinit as <-.
  split; [|done]. pose proof (nc_mgrs _ _ Hnew) as Hm. rewrite Hms in Hm.
  apply new_coordinator_kind; [done| |by rewrite Hms].
  intros m' [->|Hin]%elem_of_cons; [apply new_manager_eagle, Hm; left|apply Hm; by right].
Qed.

Lemma Hybrid_init_new config dcp pcp hbs cs cs' :
  new_coordinator config cs → Hybrid_init dcp pcp hbs cs = Ok cs' →
  new_coordinator config cs' ∧ cs_pool cs' = cs_pool cs.
Proof.
  intros Hnew Hinit. unfold Hybrid_init in Hinit.
  destruct (forallb _ _); [|done]. cbn [rbind rassert] in Hinit. destruct (dcp =? 1); [|done].
  cbn [rbind rassert] in Hinit. destruct (pcp =? 1); [|done]. cbn [rbind rassert] in Hinit.
  unfold verify_and_split_kv_cache_groups in Hinit.
  destruct (split_groups _ _ _ _) as [gs|e]; [|done]. cbn [rbind] in Hinit.
  destruct (1 <? len gs); [|done]. injection Hinit as <-. split; [|done].
  set (gs' := sort_groups gs). clearbody gs'.
  assert (∀ ms, (∀ m, m ∈ ms → new_manager (cs_pool cs) m) →
    let ms' := foldl (λ ms g, if sg_use_eagle g then flag_eagle (sg_group_ids g) ms else ms) ms gs' in
    (∀ m, m ∈ ms' → new_manager (cs_pool cs) m) ∧ length ms' = length ms) as Hfold.
  { induction gs' as [|g gs' IH]; intros ms Hms; [done|]. cbn [foldl].
    destruct (sg_use_eagle g); [|by apply IH].
    destruct (IH (flag_eagle (sg_group_ids g) ms)) as [H1 H2]; [by apply flag_eagle_new|].
    split; [exact H1|]. rewrite H2. apply flag_eagle_length. }
  destruct (Hfold _ (nc_mgrs _ _ Hnew)) as [H1 H2]. by apply new_coordinator_kind.
Qed.

Lemma get_kv_cache_coordinator_new config mml mnb eagle caching events dcp pcp sbs hbs ret cs :
  config_ok config caching dcp pcp hbs →
  get_kv_cache_coordinator config mml mnb eagle caching events dcp pcp sbs hbs ret = Ok cs →
  new_coordinator config cs ∧ enable_caching (cs_pool cs) = caching.
Proof.
  intros Hcfg Hget. unfold get_kv_cache_coordinator in Hget. destruct caching; cbn [negb] in Hget.
  2: { by destruct (Coordinator_init_new _ _ _ _ _ _ _ _ _ _ _ _ _ Hcfg Hget) as (? & ? & _). }
  set (base := Coordinator_init _ _ _ _ _ _ _ _ _ _ _ _) in Hget.
  destruct base as [c|e] eqn:Hbase; [|by destruct (_ =? _)]. cbn [rbind] in Hget.
  destruct (Coordinator_init_new _ _ _ _ _ _ _ _ _ _ _ _ _ Hcfg Hbase) as (Hn & He & _).
  destruct (_ =? _).
  - by destruct (Unitary_init_new _ _ _ _ _ _ Hn Hget) as [? ->].
  - by destruct (Hybrid_init_new _ _ _ _ _ _ Hn Hget) as [? ->].
Qed.

(** ** The calls *)

(** The representation of a manager with nothing owned elsewhere. *)
Definition kv_rep (kv : KVCacheManager) (l : list loc) (h : gmap Z bytes) : Prop :=
  coord_rep (coordinator kv) [] l h ∧ num_kv_cache_groups kv = length (cs_mgrs (coordinator kv)) ∧
  (kv_log_stats kv = true → prefix_cache_stats kv ≠ None).

(** *** Freeing a request *)

Lemma co_free_ok cs R l h rid :
  coord_rep cs R l h →
  ok (co_free rid) cs (λ _ cs', ∃ l', coord_rep cs' R l' h ∧ evolves (cs_pool cs) h (cs_pool cs') h ∧
    mgrs_rel (λ _ m m', same_static m m' ∧ req_to_blocks m' = delete rid (req_to_blocks m) ∧
      num_cached_block m' = delete rid (num_cached_block m)) cs cs').
Proof.
  intros Hrep. unfold co_free.
  eapply ok_mono; [apply (for_mgrs_ok _ (λ _ _ h', h' = h)
    (λ _ m _ m', same_static m m' ∧ req_to_blocks m' = delete rid (req_to_blocks m) ∧
      num_cached_block m' = delete rid (num_cached_block m)) cs R l h); [|exact Hrep|done]|].
  - intros i m s R0 l0 h0 Hm <- Hcfg Hs ->.
    eapply ok_mono; [by apply free_ok|]. intros [] s' (l' & [Hr He Ho Hb Hc]).
    exists l', h. split_and!; try done. apply Ho.
  - intros [] cs' (results & l' & h' & Hinv). pose proof Hinv as [Hr He -> _ _ _ _].
    exists l'. split_and!; try done. destruct (loop_inv_rel _ _ _ _ _ _ _ _ _ Hinv) as (? & ? & HP).
    split_and!; [done..|]. intros i m Hm. destruct (HP i m Hm) as (m' & ? & _ & _ & ?). eauto.
Qed.

(** *** Calls on the pool *)

Lemma coord_rep_pool cs R l h p' h' :
  coord_rep cs R l h → pool_rep p' (MkAPool l (refs (all_owners (cs_mgrs cs) ++ R)) h') →
  same_config (cs_pool cs) p' → h' ⊆ h → coord_rep (MkCS p' (cs_mgrs cs) (cs_co cs)) R l h'.
Proof.
  intros [Ho Hs Hc] Hp Hcfg Hsub. split; cbn [cs_pool cs_mgrs].
  - by eapply own_rep_unhash.
  - intros m Hm. eapply mgr_static_keep; [by apply Hs|done|done].
  - exact Hc.
Qed.

(** *** Aliasing a snapshot *)

(** Group [i]'s part of a snapshot can be shared: in range, each real block
    once, and with caching every block offered already and still hashed. *)
Definition snapshot_ok (p : BlockPool) (h : gmap Z bytes) (src : list loc) (nsrc k : Z) : Prop :=
  let aliased := take (Z.to_nat k) src in
  0 ≤ k ≤ len src ∧ 0 ≤ nsrc ∧ (∀ b, b ∈ aliased → 0 ≤ b < num_gpu_blocks p) ∧ NoDup (real aliased) ∧
  (enable_caching p = true → k ≤ nsrc ∧ ∀ b, b ∈ aliased → b ≠ 0 → h !! b ≠ None).

Lemma co_alias_ok cs R l h dst srcs ncs k :
  coord_rep cs R l h → length srcs = length (cs_mgrs cs) → length ncs = length (cs_mgrs cs) →
  (∀ i src nc, srcs !! i = Some src → ncs !! i = Some nc → snapshot_ok (cs_pool cs) h src nc k) →
  ok (co_alias_request_blocks_from_snapshot dst srcs ncs k) cs (λ _ cs', ∃ l',
    coord_rep cs' R l' h ∧ evolves (cs_pool cs) h (cs_pool cs') h ∧
    mgrs_rel (λ i m m', only_changes dst m m' ∧
      ∃ src nc, srcs !! i = Some src ∧ ncs !! i = Some nc ∧
        blocks_at dst m' = take (Z.to_nat k) src ∧ cached_at dst m' = Z.min nc k) cs cs').
Proof.
  intros Hrep Hls Hln Hok. unfold co_alias_request_blocks_from_snapshot. ok_steps.
  rewrite Hls, Hln, Nat.eqb_refl. cbn [negb].
  eapply ok_mono; [apply (for_mgrs_ok _ (λ _ _ h', h' = h)
    (λ i m _ m', only_changes dst m m' ∧ ∃ src nc, srcs !! i = Some src ∧ ncs !! i = Some nc ∧
      blocks_at dst m' = take (Z.to_nat k) src ∧ cached_at dst m' = Z.min nc k) cs R l h); [|exact Hrep|done]|].
  - intros i m s R0 l0 h0 Hm <- Hcfg Hs ->. apply lookup_lt_Some in Hm as Hi.
    destruct (lookup_lt_is_Some_2 srcs i ltac:(lia)) as [src Hsrc].
    destruct (lookup_lt_is_Some_2 ncs i ltac:(lia)) as [nc Hnc]. rewrite Hsrc, Hnc. cbn [or_raise].
    mgr_steps. destruct (Hok i src nc Hsrc Hnc) as (Hk & Hn & Hr & Hnd & Hh).
    destruct Hcfg as (Hnum & Hec & _).
    eapply ok_mono; [apply (alias_from_snapshot_ok s R0 l0 h dst src nc k Hs Hk Hn); [|done|]|].
    + by rewrite Hnum.
    + rewrite Hec. intros He. destruct (Hh He) as [Hkn Hhash]. split; [done|]. intros o b Ho Hb Hbn.
      pose proof (proj1 (owners_focus dst _ _ _ _ _) (mg_own _ _ _ _ Hs)) as Hown.
      destruct (ow_fresh _ _ _ _ Hown ltac:(by rewrite Hec) o b ltac:(by right) Hb) as [Hnone _].
      apply unc_subseteq, elem_of_real in Hb as [Hb0 _]. by apply (Hhash b).
    + intros [] s' (l' & Hr' & He' & Ho & Hb & Hc). exists l', h. split_and!; try done. by exists src, nc.
  - intros [] cs' (results & l' & h' & Hinv). pose proof Hinv as [Hr He -> _ _ _ _].
    exists l'. split_and!; try done. destruct (loop_inv_rel _ _ _ _ _ _ _ _ _ Hinv) as (? & ? & HP).
    split_and!; [done..|]. intros i m Hm. destruct (HP i m Hm) as (m' & ? & _ & _ & ?). eauto.
Qed.

(** *** Loops that leave the tables alone *)

(** [m'] has the tables of [m]. *)
Definition same_tables (m m' : Manager) : Prop :=
  same_static m m' ∧ (∀ rid, blocks_at rid m' = blocks_at rid m) ∧ num_cached_block m' = num_cached_block m.

Lemma co_quiet_ok {A} (f : nat → M mstate A) cs R l h :
  (∀ i s R l h, mgr_rep s R l h → ok (f i) s (λ _ s', mgr_rep s' R l h ∧ ms_pool s' = ms_pool s ∧
     same_tables (ms_mgr s) (ms_mgr s'))) →
  coord_rep cs R l h →
  ok (map_mgrs f) cs (λ _ cs', coord_rep cs' R l h ∧ evolves (cs_pool cs) h (cs_pool cs') h ∧
    mgrs_rel (λ _, same_tables) cs cs').
Proof.
  intros Hf Hrep.
  eapply ok_mono; [apply (map_mgrs_ok _ (λ _ l' h', l' = l ∧ h' = h)
    (λ _ m _ m', same_tables m m') cs R l h); [|exact Hrep|done]|].
  - intros i m s R0 l0 h0 Hm <- Hcfg Hs [-> ->].
    eapply ok_mono; [by apply (Hf i s R0 l h)|]. intros a s' (Hr & Hp & Hb). exists l, h.
    split_and!; try done; [rewrite Hp; by apply evolves_same|apply Hb..].
  - intros res cs' (l' & h' & Hinv). pose proof Hinv as [Hr He [-> ->] _ _ _ _]. split_and!; try done.
    destruct (loop_inv_rel _ _ _ _ _ _ _ _ _ Hinv) as (? & ? & HP).
    split_and!; [done..|]. intros i m Hm. destruct (HP i m Hm) as (m' & ? & _ & _ & ?). eauto.
Qed.

Lemma take_ids_quiet (i : nat) s R l h :
  mgr_rep s R l h → ok take_new_block_ids s (λ _ s', mgr_rep s' R l h ∧ ms_pool s' = ms_pool s ∧
    same_tables (ms_mgr s) (ms_mgr s')).
Proof.
  intros [Ho [] Hc]. unfold take_new_block_ids. mgr_steps. split_and!; [|done..]. split; [exact Ho|by split|exact Hc].
Qed.
Lemma step_starts_quiet (i : nat) s R l h :
  mgr_rep s R l h → ok new_step_starts s (λ _ s', mgr_rep s' R l h ∧ ms_pool s' = ms_pool s ∧
    same_tables (ms_mgr s) (ms_mgr s')).
Proof.
  intros Hrep. unfold new_step_starts. mgr_steps. destruct (cls (ms_mgr s)); mgr_steps; try done.
  split_and!; [|done..]. by apply mgr_rep_mamba.
Qed.
End reach.
