(* ===== verification/KVInvariant.v ===== *)
(** * Safety of the KV-cache manager

    The calls the scheduler makes on the KV-cache manager, when they are legal,
    and what holds after any sequence of them. *)

From S2P Require Import Prelude FreeQueue BlockHash Request BlockPool PoolProps KVCacheSpec SingleType Ownership SingleTypeProps CachingProps MambaProps CacheHit Coordinator KVCacheManager CoordinatorProps SlotProps SlotPhases KVProps KVReach.

Section invariant.
Context `{HashEnv}.

Inductive kv_op : Type :=
| KAllocate (r : Request) (nn nc : Z) (o : option KVCacheBlocks) (la : Z) (delay : bool) (enc : Z)
    (full : bool) (reserved : Z)
| KFree (r : Request)
| KFile (r : Request) (t : Z)
| KAlias (dst : string) (src : KVCacheBlocks) (cached : list Z) (k : Z)
| KSkip (rid : string) (total : Z)
| KEvict (ids : list Z)
| KReset
| KTakeEvents
| KTakeIds
| KStep.

Definition discard {S A} (m : M S A) : M S unit := let* _ := m in ret tt.
Definition run_kv_op (o : kv_op) : M KVCacheManager unit :=
  match o with
  | KAllocate r nn nc hits la delay enc full reserved =>
      discard (allocate_slots r nn nc hits la 0 delay enc full reserved)
  | KFree r => kv_free r
  | KFile r t => kv_cache_blocks r t
  | KAlias dst src cached k => kv_alias_request_blocks_from_snapshot dst src cached k
  | KSkip rid total => kv_remove_skipped_blocks rid total
  | KEvict ids => kv_evict_blocks ids
  | KReset => discard kv_reset_prefix_cache
  | KTakeEvents => discard kv_take_events
  | KTakeIds => discard kv_take_new_block_ids
  | KStep => kv_new_step_starts
  end.

(** When a call is legal in a manager with free list [l] and hashes [h]. *)
Definition kv_legal (kv : KVCacheManager) (l : list loc) (h : gmap Z bytes) (o : kv_op) : Prop :=
  let cs := coordinator kv in
  match o with
  | KAllocate r nn nc hits la delay enc full reserved =>
      slots_callable kv l h r nn nc hits la delay ∧ 0 ≤ reserved
  | KFile r t => kv_enable_caching kv = true → can_offer r cs t
  | KAlias dst src cached k =>
      length (kb_blocks src) = length (cs_mgrs cs) ∧ length cached = length (cs_mgrs cs) ∧
      ∀ i bs n, kb_blocks src !! i = Some bs → cached !! i = Some n → snapshot_ok (cs_pool cs) h bs n k
  | KSkip rid total => ∀ m, m ∈ cs_mgrs cs → cls m ≠ MambaManager
  | KEvict ids => ∀ b, b ∈ ids → 0 ≤ b < num_gpu_blocks (cs_pool cs)
  | _ => True
  end.

Inductive kv_reachable : KVCacheManager → Prop :=
| kv_new config mml sbs hbs mnb caching eagle log events dcp pcp retention kv :
    config_ok config caching dcp pcp hbs →
    KVCacheManager_init config mml sbs hbs mnb caching eagle log events dcp pcp retention = Ok kv →
    kv_reachable kv
| kv_call kv l h o kv' :
    kv_reachable kv → kv_rep kv l h → kv_legal kv l h o → run_kv_op o kv = (Ok tt, kv') →
    kv_reachable kv'.

(** ** Every legal call returns and keeps the representation *)

Definition kept (kv kv' : KVCacheManager) : Prop := ∃ l' h', kv_rep kv' l' h'.

Lemma kept_co {A} (m : M cstate A) kv R :
  num_kv_cache_groups kv = length (cs_mgrs (coordinator kv)) →
  (kv_log_stats kv = true → prefix_cache_stats kv ≠ None) →
  ok m (coordinator kv) (λ _ cs', ∃ l' h', coord_rep cs' [] l' h' ∧ mgrs_rel R (coordinator kv) cs') →
  ok (on_co m) kv (λ _ kv', kept kv kv').
Proof.
  intros Hg Hst Hok. apply ok_on_co. eapply ok_mono; [exact Hok|].
  intros a cs' (l' & h' & Hr & (_ & Hl & _)). exists l', h'. split_and!; [done| |done].
  cbn. by rewrite Hl.
Qed.

Lemma kept_pool {A} (m : M BlockPool A) kv l h (Q : A → BlockPool → Prop) :
  kv_rep kv l h →
  ok m (cs_pool (coordinator kv)) (λ a p', ∃ h',
    pool_rep p' (MkAPool l (refs (all_owners (cs_mgrs (coordinator kv)) ++ [])) h') ∧
    same_config (cs_pool (coordinator kv)) p' ∧ h' ⊆ h) →
  ok (on_kv_pool m) kv (λ _ kv', kept kv kv' ∧ kv_log_stats kv' = kv_log_stats kv ∧
    prefix_cache_stats kv' = prefix_cache_stats kv).
Proof.
  intros (Hr & Hg & Hst) Hok. apply ok_on_co. unfold on_pool. apply ok_zoom.
  eapply ok_mono; [exact Hok|]. intros a p' (h' & Hp & Hc & Hs). split; [|done]. exists l, h'.
  split_and!; [by eapply coord_rep_pool|done|done].
Qed.

Lemma kv_alloc_step kv l h r nn nc hits la delay enc full reserved :
  kv_rep kv l h → slots_callable kv l h r nn nc hits la delay → 0 ≤ reserved →
  ok (discard (allocate_slots r nn nc hits la 0 delay enc full reserved)) kv (λ _ kv', kept kv kv').
Proof.
  intros (_ & Hg & Hst) Hc Hres. unfold discard. ok_step.
  eapply ok_mono; [by apply (allocate_slots_correct kv l h r nn nc hits la delay enc full reserved)|].
  intros res kv' (kv1 & l1 & l' & h' & _ & Hr & _ & Hkv & _ & _ & Hres'). ok_step. exists l', h'.
  rewrite Hkv. split_and!; [done| |done]. cbn. rewrite Hg. symmetry.
  destruct res; apply Hres'.
Qed.

Lemma kv_reset_step kv l h :
  kv_rep kv l h → ok (discard kv_reset_prefix_cache) kv (λ _ kv', kept kv kv').
Proof.
  intros Hrep. pose proof Hrep as (Hr & Hg & Hst). unfold discard, kv_reset_prefix_cache. ok_steps.
  eapply ok_mono; [apply (kept_pool _ kv l h (λ _ _, True) Hrep)|].
  - eapply ok_mono; [apply (reset_prefix_cache_ok _ _ (ow_pool _ _ _ _ (co_own _ _ _ _ Hr)))|].
    intros b p' (_ & Hp & Hev). eexists. split_and!; [exact Hp|apply Hev|]. cbn.
    destruct b; [apply map_empty_subseteq|done].
  - intros b kv' ((l' & h' & Hrep') & Hlog & Hps). destruct b; cbn [negb]; ok_steps.
    2: { by exists l', h'. }
    destruct (kv_log_stats kv') eqn:Hl; ok_steps.
    + apply ok_assert; [apply bool_decide_eq_true; apply Hrep'; exact Hl|].
      ok_steps. exists l', h'. destruct Hrep' as (H1 & H2 & H3). split_and!; [done|done|].
      intros _. cbn. specialize (H3 Hl). by destruct (prefix_cache_stats kv').
    + by exists l', h'.
Qed.

Lemma kv_rep_parts kv l h : kv_rep kv l h →
  coord_rep (coordinator kv) [] l h ∧ num_kv_cache_groups kv = length (cs_mgrs (coordinator kv)) ∧
  (kv_log_stats kv = true → prefix_cache_stats kv ≠ None).
Proof. done. Qed.

Lemma kv_take_events_step kv l h :
  kv_rep kv l h → ok (discard kv_take_events) kv (λ _ kv', kept kv kv').
Proof.
  intros Hrep. pose proof Hrep as (Hr & _). unfold discard, kv_take_events. ok_steps.
  eapply ok_mono; [apply (kept_pool _ kv l h (λ _ _, True) Hrep)|].
  - unfold take_events. ok_steps. pose proof (ow_pool _ _ _ _ (co_own _ _ _ _ Hr)) as Hp.
    destruct (enable_kv_cache_events _); cbn [negb]; ok_steps; exists h;
      (split_and!; [|done|done]); [by apply pool_rep_set_events|done].
  - intros evs kv' (Hk & _). by ok_steps.
Qed.

Lemma legal_kv_step kv l h o :
  kv_rep kv l h → kv_legal kv l h o → ok (run_kv_op o) kv (λ _ kv', kept kv kv').
Proof.
  intros Hrep Hl. pose proof Hrep as (Hr & Hg & Hst). destruct o; cbn [run_kv_op kv_legal] in *.
  - destruct Hl as [Hc Hres]. by apply (kv_alloc_step kv l h).
  - eapply kept_co; [done..|]. eapply ok_mono; [by apply (co_free_ok _ [] l h)|].
    intros _ cs' (l' & Hr' & _ & Hrel). exists l', h. split; [exact Hr'|exact Hrel].
  - unfold kv_cache_blocks. ok_steps. destruct (kv_enable_caching kv); [|by apply ok_ret; exists l, h].
    eapply kept_co; [done..|]. eapply ok_mono; [by apply (co_offer_ok _ [] l h), Hl|].
    intros _ cs' (l' & h' & Hr' & _ & Hrel). exists l', h'. split; [exact Hr'|exact Hrel].
  - destruct Hl as (H1 & H2 & H3). eapply kept_co; [done..|].
    eapply ok_mono; [by apply (co_alias_ok _ [] l h)|].
    intros _ cs' (l' & Hr' & _ & Hrel). exists l', h. split; [exact Hr'|exact Hrel].
  - eapply kept_co; [done..|]. eapply ok_mono; [by apply (co_thin_ok _ [] l h)|].
    intros _ cs' (l' & Hr' & _ & _ & Hrel). exists l', h. split; [exact Hr'|exact Hrel].
  - eapply ok_mono; [apply (kept_pool _ kv l h (λ _ _, True) Hrep)|].
    + eapply ok_mono; [apply (evict_blocks_ok _ _ _ (ow_pool _ _ _ _ (co_own _ _ _ _ Hr)) Hl)|].
      intros _ p' (Hp & Hev). eexists. split_and!; [exact Hp|apply Hev|apply unhash_subseteq].
    + by intros _ kv' (Hk & _).
  - by apply (kv_reset_step kv l h).
  - by apply (kv_take_events_step kv l h).
  - unfold discard, kv_take_new_block_ids. ok_steps.
    eapply ok_mono; [eapply kept_co; [done..|]|].
    { eapply ok_mono; [by apply (co_quiet_ok _ _ [] l h (λ i, take_ids_quiet i))|].
      intros _ cs' (Hr' & _ & Hrel). exists l, h. split; [exact Hr'|exact Hrel]. }
    intros ids kv' Hk. by ok_steps.
  - eapply kept_co; [done..|]. unfold co_new_step_starts, for_mgrs. ok_steps. apply for_each_map_each.
    pose proof (co_quiet_ok _ _ [] l h (λ i, step_starts_quiet i) Hr) as Hok.
    unfold map_mgrs in Hok. apply ok_bind_inv in Hok. cbn [ok gets] in Hok.
    eapply ok_mono; [exact Hok|]. intros _ cs' (Hr' & _ & Hrel). exists l, h. split; [exact Hr'|exact Hrel].
Qed.

Lemma init_rep config mml sbs hbs mnb caching eagle log events dcp pcp retention kv :
  config_ok config caching dcp pcp hbs →
  KVCacheManager_init config mml sbs hbs mnb caching eagle log events dcp pcp retention = Ok kv →
  kv_rep kv (range 1 (num_blocks config)) ∅.
Proof.
  intros Hcfg Hinit. unfold KVCacheManager_init in Hinit.
  destruct (get_kv_cache_coordinator _ _ _ _ _ _ _ _ _ _ _) as [cs|e] eqn:Hcs; [|done].
  injection Hinit as <-. destruct (get_kv_cache_coordinator_new _ _ _ _ _ _ _ _ _ _ _ _ Hcfg Hcs) as [[] _].
  split_and!; [by eapply coord_rep_new|done|]. cbn. by intros ->.
Qed.

Lemma kv_reachable_rep kv : kv_reachable kv → ∃ l h, kv_rep kv l h.
Proof.
  induction 1 as [config mml sbs hbs mnb caching eagle log events dcp pcp retention kv Hcfg Hinit
                 |kv l h o kv' _ _ Hrep Hl Hrun].
  - eexists _, ∅. by eapply init_rep.
  - pose proof (legal_kv_step kv l h o Hrep Hl) as Hok. unfold ok in Hok. by rewrite Hrun in Hok.
Qed.

(** ** What holds in every reachable state *)

(** All entries of all block tables. *)
Definition table_entries (cs : cstate) : list loc :=
  concat ((λ m, concat (map_to_list (req_to_blocks m)).*2) <$> cs_mgrs cs).

Lemma table_entries_refs cs : table_entries cs = refs (all_owners (cs_mgrs cs)).
Proof.
  unfold table_entries, refs, all_owners. induction (cs_mgrs cs) as [|m ms IH]; [done|].
  rewrite !fmap_cons. cbn [concat]. rewrite fmap_app, concat_app, IH. f_equal.
  unfold mgr_owners. rewrite <-list_fmap_compose. done.
Qed.

Lemma owner_of cs m rid bs :
  m ∈ cs_mgrs cs → req_to_blocks m !! rid = Some bs →
  (bs, cached_at rid m) ∈ all_owners (cs_mgrs cs).
Proof.
  intros Hm Hb. unfold all_owners. apply list_elem_of_In, in_concat. exists (mgr_owners m).
  split; apply list_elem_of_In; [by apply list_elem_of_fmap_2|].
  unfold mgr_owners. apply list_elem_of_fmap. exists (rid, bs). split; [done|].
  by apply elem_of_map_to_list.
Qed.

(** C4: In every state the KV-cache manager reaches from its construction under
    legal calls: the free queue lists, without repetition, exactly the non-null
    blocks in no block table; every block's reference count is the number of
    its occurrences in the tables of all requests and groups; no table lists a
    block twice; and with caching on, a block its request has not offered to the
    cache carries no hash and is shared with nobody. *)
Theorem kv_invariant kv :
  kv_reachable kv →
  let cs := coordinator kv in
  let p := cs_pool cs in
  ∃ l, get_all_free_blocks (free_block_queue p) = (Ok l, free_block_queue p) ∧ NoDup l ∧
    (∀ b, b ∈ l ↔ 0 < b < num_gpu_blocks p ∧ b ∉ table_entries cs) ∧
    (∀ b, 0 < b < num_gpu_blocks p → ref_cnt_of p b = Some (occ b (table_entries cs))) ∧
    (∀ m rid bs, m ∈ cs_mgrs cs → req_to_blocks m !! rid = Some bs →
       NoDup (real bs) ∧ (∀ b, b ∈ bs → 0 ≤ b < num_gpu_blocks p) ∧
       (enable_caching p = true → ∀ i b, cached_at rid m ≤ Z.of_nat i → bs !! i = Some b → b ≠ 0 →
          hash_of p b = None ∧ occ b (table_entries cs) = 1)).
Proof.
  intros (l & h & Hr & _)%kv_reachable_rep cs p. pose proof (co_own _ _ _ _ Hr) as Hown.
  rewrite app_nil_r in Hown. fold cs p in Hown. pose proof Hown as [Hp Hnd Hfr].
  rewrite table_entries_refs. exists l. split_and!.
  - apply get_all_free_blocks_ok, (pr_queue _ _ Hp).
  - by apply (pool_free_NoDup _ _ Hp).
  - apply (pr_free _ _ Hp).
  - intros b Hb. destruct (cr_block _ _ _ (pr_core _ _ Hp) b ltac:(lia)) as (blk & Hblk & _ & _ & _ & Hc).
    unfold ref_cnt_of. rewrite Hblk. simpl. by rewrite Hc by lia.
  - intros m rid bs Hm Hbs. pose proof (owner_of cs m rid bs Hm Hbs) as Ho. split_and!.
    + apply (Hnd _ Ho).
    + intros b Hb. by eapply own_rep_range.
    + intros He i b Hi Hb Hb0. assert (b ∈ unc (bs, cached_at rid m)) as Hu.
      { apply elem_of_unc. split; [done|]. exists i. split; [lia|done]. }
      destruct (Hfr He _ b Ho Hu) as [Hh Hle].
      assert (b ∈ bs) as Hin by apply (list_elem_of_lookup_2 _ _ _ Hb).
      split; [rewrite (hash_of_rep p _ _ Hp); [done|by eapply own_rep_range]|].
      assert (0 < occ b (refs (all_owners (cs_mgrs cs)))); [|lia].
      apply occ_pos, elem_of_refs. eauto.
Qed.

(** C7: From every reachable state every legal call returns, into a reachable
    state: no assertion, index, key or value error of the KV-cache manager, its
    coordinator, its managers or the block pool can be reached. *)
Theorem kv_calls_return kv l h o :
  kv_reachable kv → kv_rep kv l h → kv_legal kv l h o →
  ∃ kv', run_kv_op o kv = (Ok tt, kv') ∧ kv_reachable kv'.
Proof.
  intros Hreach Hrep Hl. destruct (ok_inv _ _ _ (legal_kv_step kv l h o Hrep Hl)) as ([] & kv' & Hrun & _).
  exists kv'. split; [done|]. by eapply kv_call.
Qed.

(** C8: [allocate_slots], called with a new request and its cache hits or with
    a running request, for any number of groups without Mamba layers: it never
    raises.  [kv1] is the manager after recycling the request's skipped blocks,
    with the free blocks [l1].  The answer is [None] exactly when the admission
    gate is asked and the free blocks [l] do not cover the whole sequence, or when
    [l1], less the reserved blocks, does not cover the prediction; the manager is
    then unchanged, respectively [kv1].  Otherwise every group's table is exactly
    as long as the tokens and the cache hits need, and the blocks it returns are
    the new ends of the tables. *)
Theorem allocate_slots_spec kv l h r nn nc o la delay enc (full : bool) reserved :
  let attach := attach_flag kv o in
  let nbl := kb_blocks (hits_given kv o) in
  let local := local_tokens r nc in
  let slots := slots_wanted kv r nn nc la in
  let refused := full && (len l <? admission attach kv r nbl local enc l) in
  slots_callable kv l h r nn nc o la delay → 0 ≤ reserved →
  ok (allocate_slots r nn nc o la 0 delay enc full reserved) kv (λ res kv', ∃ kv1 l1 l' h',
    on_co (co_remove_skipped_blocks (request_id r) local) kv = (Ok tt, kv1) ∧
    coord_rep (coordinator kv1) [] l1 h ∧ l ⊆+ l1 ∧
    coord_rep (coordinator kv') [] l' h' ∧
    evolves (cs_pool (coordinator kv)) h (cs_pool (coordinator kv')) h' ∧
    kv' = set_coordinator (coordinator kv') kv ∧
    (res = None ↔ refused = true ∨ len l1 - reserved <
       co_predicted attach (request_id r) nbl local slots enc l1 (cs_mgrs (coordinator kv))) ∧
    (res = None → h' = h ∧ kv' = if refused then kv else kv1) ∧ slots_result attach r nbl local slots enc kv res kv').
Proof.
  intros attach nbl local slots refused Hcall Hres.
  eapply ok_mono; [exact (allocate_slots_correct kv l h r nn nc o la delay enc full reserved Hcall Hres)|].
  intros res kv' (kv1 & l1 & l' & h' & (H1 & H2 & H3) & Hrest). by exists kv1, l1, l', h'.
Qed.
End invariant.

(** ** A concrete manager: full attention and a sliding window *)

Section demo.
Let env : HashEnv := injective_env.
Existing Instance env.

Definition demo_config : KVCacheConfig :=
  MkConfig 12 [MkGroup (MkSpec (FullAttentionSpec 4) 0) false; MkGroup (MkSpec (SlidingWindowSpec 4 6) 0) false].
Definition demo_init : res KVCacheManager :=
  KVCacheManager_init demo_config 64 4 4 (Some 32) true false true false 1 1 None.
Definition no_kv : KVCacheManager :=
  MkKV 0 false false None (MkCS demo_pool [] (MkCoordinator NoPrefixCache demo_config false 1 [] None)) 0 [].
Definition demo_kv : KVCacheManager :=
  Eval vm_compute in match demo_init with Ok kv => kv | Err _ => no_kv end.

Lemma demo_config_ok : config_ok demo_config true 1 1 4.
Proof.
  split; [by vm_compute|]. intros g Hg. unfold demo_config in Hg. cbn in Hg.
  apply elem_of_cons in Hg as [->|Hg]; [|apply list_elem_of_singleton in Hg as ->]; by vm_compute.
Qed.
Lemma demo_kv_rep : kv_rep demo_kv (range 1 12) ∅.
Proof. by apply (init_rep demo_config 64 4 4 (Some 32) true false true false 1 1 None _ demo_config_ok). Qed.
Lemma demo_kv_reachable : kv_reachable demo_kv.
Proof. by apply (kv_new demo_config 64 4 4 (Some 32) true false true false 1 1 None _ demo_config_ok). Qed.

(** A request with ten prompt tokens, nothing computed. *)
Definition ten_tokens : Request :=
  MkRequest "r"%string 0 0 None None None None [] (Some (replicate 10 7)) None ∅ 10 []
    (replicate 10 7) [] 0 0 1 WAITING None [[1; 2]; [3; 4]] (Some 4) false.

Lemma demo_callable : slots_callable demo_kv (range 1 12) ∅ ten_tokens 10 0 None 0 false.
Proof.
  split; [apply demo_kv_rep|done|by vm_compute| |].
  - split; [done|]. intros i m Hi.
    destruct i as [|[|i]]; [| |done]; injection Hi as <-;
      (split; [done|]; split; [done|]; split; [done|]; split; [done|]; right; right; by vm_compute).
  - intros _ _. split; [done|]. split; [by vm_compute|]. split; [done|]. split; [by vm_compute|].
    intros m Hm. apply elem_of_cons in Hm as [->|Hm]; [|apply list_elem_of_singleton in Hm as ->];
      (split; [done|by vm_compute]).
Qed.

Lemma kv_invariant_witness :
  let cs := coordinator demo_kv in
  let p := cs_pool cs in
  ∃ l, get_all_free_blocks (free_block_queue p) = (Ok l, free_block_queue p) ∧ NoDup l ∧
    (∀ b, b ∈ l ↔ 0 < b < num_gpu_blocks p ∧ b ∉ table_entries cs) ∧
    (∀ b, 0 < b < num_gpu_blocks p → ref_cnt_of p b = Some (occ b (table_entries cs))) ∧
    (∀ m rid bs, m ∈ cs_mgrs cs → req_to_blocks m !! rid = Some bs →
       NoDup (real bs) ∧ (∀ b, b ∈ bs → 0 ≤ b < num_gpu_blocks p) ∧
       (enable_caching p = true → ∀ i b, cached_at rid m ≤ Z.of_nat i → bs !! i = Some b → b ≠ 0 →
          hash_of p b = None ∧ occ b (table_entries cs) = 1)).
Proof. exact (kv_invariant demo_kv demo_kv_reachable). Defined.

Definition demo_call : kv_op := KAllocate ten_tokens 10 0 None 0 false 0 false 0.

Lemma kv_calls_return_witness :
  ∃ kv', run_kv_op demo_call demo_kv = (Ok tt, kv') ∧ kv_reachable kv'.
Proof.
  apply (kv_calls_return demo_kv (range 1 12) ∅ demo_call demo_kv_reachable demo_kv_rep).
  split; [exact demo_callable|done].
Defined.

Lemma allocate_slots_spec_witness :
  let nbl := [[]; []] in
  let refused := true && (len (range 1 12) <? admission false demo_kv ten_tokens nbl 0 0 (range 1 12)) in
  ok (allocate_slots ten_tokens 10 0 None 0 0 false 0 true 2) demo_kv (λ res kv', ∃ kv1 l1 l' h',
    on_co (co_remove_skipped_blocks "r"%string 0) demo_kv = (Ok tt, kv1) ∧
    coord_rep (coordinator kv1) [] l1 ∅ ∧ range 1 12 ⊆+ l1 ∧ coord_rep (coordinator kv') [] l' h' ∧
    evolves (cs_pool (coordinator demo_kv)) ∅ (cs_pool (coordinator kv')) h' ∧
    kv' = set_coordinator (coordinator kv') demo_kv ∧
    (res = None ↔ refused = true ∨ len l1 - 2 <
       co_predicted false "r"%string nbl 0 10 0 l1 (cs_mgrs (coordinator demo_kv))) ∧
    (res = None → h' = ∅ ∧ kv' = if refused then demo_kv else kv1) ∧ slots_result false ten_tokens nbl 0 10 0 demo_kv res kv') ∧
  (∃ kv', allocate_slots ten_tokens 10 0 None 0 0 false 0 true 2 demo_kv
    = (Ok (Some (MkBlocks [[1; 2; 3]; [4; 5; 6]] false)), kv')) ∧
  ∃ kv', allocate_slots ten_tokens 10 0 None 0 0 false 0 true 6 demo_kv = (Ok None, kv').
Proof.
  split; [|split; eexists; vm_compute; reflexivity].
  exact (allocate_slots_spec demo_kv (range 1 12) ∅ ten_tokens 10 0 None 0 false 0 true 2 demo_callable
    ltac:(done)).
Defined.
End demo.
