(* ===== verification/Arith.v ===== *)
(** * Arithmetic of the particle weights

    Power-SMC computes with Python floats.  Its code is translated once, over
    an interface of the operations it uses.  [binary64] is what Python runs:
    IEEE double precision, with the C library's [exp] as a parameter.
    [exact_reals] is what the algorithm means: the same operations without
    rounding, against which its statistical guarantees are stated. *)

From S2P Require Import Prelude.
From Stdlib Require Import SpecFloat Reals Lra.
Open Scope Z_scope.

Class Arith : Type := {
  num : Type;
  of_Z : Z → num;
  nadd : num → num → num;
  nsub : num → num → num;
  nmul : num → num → num;
  ndiv : num → num → num;
  nltb : num → num → bool;
  nleb : num → num → bool;
  neqb : num → num → bool;
  (** [math.exp], [math.fsum], [math.isfinite] and [int(x)].  Where [fsum] adds
      numbers of [0, 1] (the exponentials [exp(w - max)] and the squares of
      weights, or NaN) it raises nothing and is [nfsum]. *)
  nexp : num → num;
  nfsum_any : list num → res num;
  nfsum : list num → num;
  nfinite : num → bool;
  ntrunc : num → res Z
}.

Declare Scope num_scope.
Delimit Scope num_scope with num.
Notation "x + y" := (nadd x y) : num_scope.
Notation "x - y" := (nsub x y) : num_scope.
Notation "x * y" := (nmul x y) : num_scope.
Notation "x / y" := (ndiv x y) : num_scope.
Notation "x <? y" := (nltb x y) : num_scope.
Notation "x <=? y" := (nleb x y) : num_scope.
Notation "x =? y" := (neqb x y) : num_scope.

(** ** IEEE double precision *)

Definition f64_of_Z (z : Z) : spec_float := binary_normalize 53 1024 z 0 false.

(** A finite float is [m * 2 ^ e]. *)
Definition f64_parts (x : spec_float) : option (Z * Z) :=
  match x with
  | S754_zero _ => Some (0, 0)
  | S754_finite s m e => Some (if s then Z.neg m else Z.pos m, e)
  | _ => None
  end.
Definition f64_finite (x : spec_float) : bool := bool_decide (f64_parts x ≠ None).

Definition f64_add : spec_float → spec_float → spec_float := SFadd 53 1024.
Definition f64_sub : spec_float → spec_float → spec_float := SFsub 53 1024.
Definition f64_zero : spec_float := S754_zero false.
(** [x != 0.0], true of NaN *)
Definition f64_nonzero (x : spec_float) : bool := negb (SFeqb x f64_zero).
Definition f64_is_inf (x : spec_float) : bool := match x with S754_infinity _ => true | _ => false end.
Definition f64_is_nan (x : spec_float) : bool := match x with S754_nan => true | _ => false end.

(** [math.fsum] as CPython computes it: a list of partial sums that do not
    overlap, from the smallest to the largest, whose exact sum is that of the
    finite numbers read so far.  Adding one number to them: *)
Fixpoint fsum_partials (p : list spec_float) (x : spec_float) : list spec_float * spec_float :=
  match p with
  | [] => ([], x)
  | y :: p' =>
      let '(x, y) := if SFltb (SFabs x) (SFabs y) then (y, x) else (x, y) in
      let hi := f64_add x y in
      let lo := f64_sub y (f64_sub hi x) in
      let '(q, x) := fsum_partials p' hi in
      (if f64_nonzero lo then lo :: q else q, x)
  end.

(** The partial sums, and the sums of the infinities and NaNs and of the
    infinities alone. *)
Definition fsum_step (st : list spec_float * spec_float * spec_float) (xsave : spec_float)
  : res (list spec_float * spec_float * spec_float) :=
  let '(p, special_sum, inf_sum) := st in
  let '(p, x) := fsum_partials p xsave in
  if negb (f64_nonzero x) then Ok (p, special_sum, inf_sum)
  else if f64_finite x then Ok (p ++ [x], special_sum, inf_sum)
  else if f64_finite xsave then Err OverflowError
  else Ok ([], f64_add special_sum xsave, if f64_is_inf xsave then f64_add inf_sum xsave else inf_sum).

(** The partial sums are added from the largest, [hi], until a rounding error
    [lo] appears; a tie is then rounded by the sign of the next one. *)
Fixpoint fsum_round (hi : spec_float) (p : list spec_float) : spec_float :=
  match p with
  | [] => hi
  | y :: p' =>
      let x := hi in
      let hi := f64_add x y in
      let lo := f64_sub y (f64_sub hi x) in
      if f64_nonzero lo then
        match p' with
        | z :: _ =>
            if (SFltb lo f64_zero && SFltb z f64_zero) || (SFltb f64_zero lo && SFltb f64_zero z) then
              let y := SFmul 53 1024 lo (f64_of_Z 2) in
              let x := f64_add hi y in
              if SFeqb y (f64_sub x hi) then x else hi
            else hi
        | [] => hi
        end
      else fsum_round hi p'
  end.

Definition f64_fsum (l : list spec_float) : res spec_float :=
  rbind (foldl (λ st x, rbind st (λ st, fsum_step st x)) (Ok ([], f64_zero, f64_zero)) l) (λ st,
  let '(p, special_sum, inf_sum) := st in
  if f64_nonzero special_sum then if f64_is_nan inf_sum then Err ValueError else Ok special_sum
  else Ok (match rev p with [] => f64_zero | hi :: p' => fsum_round hi p' end)).

(** [int(x)] truncates; it raises on infinities and NaN. *)
Definition f64_trunc (x : spec_float) : res Z :=
  match x with
  | S754_zero _ => Ok 0
  | S754_finite s m e =>
      let a := Z.shiftl (Z.pos m) e in Ok (if s then - a else a)
  | S754_infinity _ => Err OverflowError
  | S754_nan => Err ValueError
  end.

Definition binary64 (libm_exp : spec_float → spec_float) : Arith := {|
  num := spec_float;
  of_Z := f64_of_Z;
  nadd := SFadd 53 1024;
  nsub := SFsub 53 1024;
  nmul := SFmul 53 1024;
  ndiv := SFdiv 53 1024;
  nltb := SFltb;
  nleb := SFleb;
  neqb := SFeqb;
  nexp := libm_exp;
  nfsum_any := f64_fsum;
  nfsum := λ l, match f64_fsum l with Ok x => x | Err _ => S754_nan end;
  nfinite := f64_finite;
  ntrunc := f64_trunc
|}.

(** One tenth added three times, and its exact sum rounded once. *)
Example f64_fsum_tenths :
  let t := SFdiv 53 1024 (f64_of_Z 1) (f64_of_Z 10) in
  f64_fsum [t; t; t; t; t; t; t; t; t; t] = Ok (f64_of_Z 1) ∧
  foldl (SFadd 53 1024) (f64_of_Z 0) [t; t; t; t; t; t; t; t; t; t] ≠ f64_of_Z 1.
Proof. split; vm_compute; [reflexivity|discriminate]. Qed.

(** Its exceptions: opposite infinities, and a partial sum that overflows
    although the whole sum would not. *)
Example f64_fsum_raises :
  let inf := S754_infinity in let big := f64_of_Z (2 ^ 1023) in
  f64_fsum [inf false; f64_of_Z 1; inf true] = Err ValueError ∧
  f64_fsum [big; big; SFopp big] = Err OverflowError ∧
  f64_fsum [inf false; big; inf false] = Ok (inf false) ∧ f64_fsum [S754_nan; inf true] = Ok S754_nan.
Proof. vm_compute. done. Qed.

(** A tie between two floats is broken by the third number. *)
Example f64_fsum_tie :
  f64_fsum [f64_of_Z (2 ^ 53); f64_of_Z 1; SFdiv 53 1024 (f64_of_Z 1) (f64_of_Z 4)] = Ok (f64_of_Z (2 ^ 53 + 2)) ∧
  f64_fsum [f64_of_Z (2 ^ 53); f64_of_Z 1] = Ok (f64_of_Z (2 ^ 53)).
Proof. vm_compute. done. Qed.

(** ** Exact real arithmetic *)

Definition Rltb (x y : R) : bool := if Rlt_dec x y then true else false.
Definition Rleb (x y : R) : bool := if Rle_dec x y then true else false.
Definition Reqb (x y : R) : bool := if Req_dec_T x y then true else false.
Definition Rsum (l : list R) : R := foldr Rplus 0%R l.

Definition exact_reals : Arith := {|
  num := R;
  of_Z := IZR;
  nadd := Rplus;
  nsub := Rminus;
  nmul := Rmult;
  ndiv := Rdiv;
  nltb := Rltb;
  nleb := Rleb;
  neqb := Reqb;
  nexp := exp;
  nfsum_any := λ l, Ok (Rsum l);
  nfsum := Rsum;
  nfinite := λ _, true;
  ntrunc := λ x, Ok (if Rle_dec 0 x then Int_part x else - Int_part (- x))
|}.

Lemma Rltb_true x y : Rltb x y = true ↔ (x < y)%R.
Proof. unfold Rltb. destruct (Rlt_dec x y); split; congruence || done. Qed.
Lemma Rltb_false x y : Rltb x y = false ↔ (y <= x)%R.
Proof. unfold Rltb. destruct (Rlt_dec x y); split; congruence || lra || done. Qed.
Lemma Rleb_true x y : Rleb x y = true ↔ (x <= y)%R.
Proof. unfold Rleb. destruct (Rle_dec x y); split; congruence || done. Qed.
Lemma Rleb_false x y : Rleb x y = false ↔ (y < x)%R.
Proof. unfold Rleb. destruct (Rle_dec x y); split; congruence || lra || done. Qed.
Lemma Reqb_true x y : Reqb x y = true ↔ x = y.
Proof. unfold Reqb. destruct (Req_dec_T x y); split; congruence || done. Qed.

Lemma Rsum_nil : Rsum [] = 0%R.
Proof. done. Qed.
Lemma Rsum_cons x l : Rsum (x :: l) = (x + Rsum l)%R.
Proof. done. Qed.
Lemma Rsum_app l1 l2 : Rsum (l1 ++ l2) = (Rsum l1 + Rsum l2)%R.
Proof. induction l1 as [|x l1 IH]; [rewrite app_nil_l, Rsum_nil; lra|]. rewrite <-app_comm_cons, !Rsum_cons, IH. lra. Qed.
Lemma Rsum_nonneg l : (∀ x, x ∈ l → 0 <= x)%R → (0 <= Rsum l)%R.
Proof.
  induction l as [|x l IH]; intros Hl; [rewrite Rsum_nil; lra|]. rewrite Rsum_cons.
  pose proof (Hl x ltac:(left)). pose proof (IH (λ y Hy, Hl y ltac:(by right))). lra.
Qed.
Lemma Rsum_scale c l : Rsum (Rmult c <$> l) = (c * Rsum l)%R.
Proof. induction l as [|x l IH]; [rewrite fmap_nil, Rsum_nil; lra|]. rewrite fmap_cons, !Rsum_cons, IH. lra. Qed.
