(* ===== verification/PowerSMC.v ===== *)
(** * Power-SMC

    src/vllm/vllm/v1/power_smc.py: particles of one request are sampled from
    the power-temperature proposal, weighted towards [p ** alpha], and
    resampled at block boundaries when the effective sample size is low.  The
    definitions run over any [Arith]; random draws come from the stream the
    generator's seed determines. *)

From S2P Require Import Prelude Arith.
From Stdlib Require Import Ascii DecimalString.
Open Scope Z_scope.

(** ** Strings *)

(** [str(i)] and [int(s)] on decimal digits *)
Definition str_of_Z (z : Z) : string := NilZero.string_of_int (Z.to_int z).

Definition is_digit (c : Ascii.ascii) : bool :=
  (48 <=? Z.of_N (Ascii.N_of_ascii c)) && (Z.of_N (Ascii.N_of_ascii c) <=? 57).
(** The longest prefix of digits, and the rest. *)
Fixpoint span_digits (s : string) : string * string :=
  match s with
  | EmptyString => (EmptyString, EmptyString)
  | String c s' =>
      if is_digit c then let '(d, rest) := span_digits s' in (String c d, rest)
      else (EmptyString, s)
  end.

Section power_smc.
Context {A : Arith}.
Open Scope num_scope.

(** ** Dynamic values *)

(** Values of a request's [extra_args["power_smc"]] and of diagnostics. *)
Inductive pyval : Type :=
| PNone
| PBool (b : bool)
| PInt (z : Z)
| PFloat (x : num)
| PStr (s : string).
Inductive pyarg : Type :=
| PMapping (m : gmap string pyval)
| PValue (v : pyval).

(** [float(s)] and [int(s)] of a string, by the interpreter *)
Record PyParse : Type := MkParse {
  float_of_str : string → option num;
  int_of_str : string → option Z
}.

Definition of_bool (b : bool) : Z := if b then 1%Z else 0%Z.
Definition py_bool (v : pyval) : bool :=
  match v with
  | PNone => false
  | PBool b => b
  | PInt z => negb (z =? 0)%Z
  | PFloat x => negb (x =? of_Z 0)
  | PStr s => negb (String.eqb s "")
  end.
(** [float(z)], also where an integer meets a float: it raises when [z] rounds to
    no finite float. *)
Definition float_of_int (z : Z) : res num := let x := of_Z z in if nfinite x then Ok x else Err OverflowError.
Definition py_float (ps : PyParse) (v : pyval) : res num :=
  match v with
  | PNone => Err TypeError
  | PBool b => Ok (of_Z (of_bool b))
  | PInt z => float_of_int z
  | PFloat x => Ok x
  | PStr s => match float_of_str ps s with Some x => Ok x | None => Err ValueError end
  end.
Definition py_int (ps : PyParse) (v : pyval) : res Z :=
  match v with
  | PNone => Err TypeError
  | PBool b => Ok (of_bool b)
  | PInt z => Ok z
  | PFloat x => ntrunc x
  | PStr s => match int_of_str ps s with Some z => Ok z | None => Err ValueError end
  end.

(** ** Configuration *)

Record PowerSMCConfig : Type := MkSMC {
  enabled : bool;
  alpha : num;
  particles_n : Z;
  smc_block_size : Z;
  ess_threshold : num;
  alpha_ramp_tokens : Z;
  proposal : pyval;
  return_diagnostics : bool;
  kv_cow : bool;
  kv_pool_diagnostics : bool
}.

(** The fields of [SamplingParams] the validation reads; [logit_bias],
    [bad_words] and [structured_outputs] by their truth values. *)
Record SamplingParams : Type := MkSP {
  sp_n : Z;
  temperature : num;
  top_p : num;
  top_k : Z;
  min_p : num;
  repetition_penalty : num;
  frequency_penalty : num;
  presence_penalty : num;
  sp_seed : option Z;
  structured_outputs : bool;
  allowed_token_ids : option (list Z);
  bad_words : list string;
  logit_bias : gmap Z num;
  extra_args : option (gmap string pyarg)
}.

Definition rcheck (ok : bool) : res unit := if ok then Ok tt else Err VLLMValidationError.

Definition validate_self (c : PowerSMCConfig) : res unit :=
  rbind (rcheck (negb (alpha c <? of_Z 1))) (λ _,
  rbind (rcheck (negb (particles_n c <? 1)%Z)) (λ _,
  rbind (rcheck (negb (smc_block_size c <? 1)%Z)) (λ _,
  rbind (rcheck ((of_Z 0 <? ess_threshold c) && (ess_threshold c <=? of_Z 1))) (λ _,
  rbind (rcheck (negb (alpha_ramp_tokens c <? 1)%Z)) (λ _,
  rcheck (match proposal c with PStr s => String.eqb s "power_temperature" | _ => false end)))))).

(** The sampling features Power-SMC rejects. *)
Definition unsupported_params (sp : SamplingParams) : list string :=
  (if (sp_n sp =? 1)%Z then [] else ["n > 1"%string]) ++
  (if temperature sp =? of_Z 1 then [] else ["temperature != 1"%string]) ++
  (if top_p sp =? of_Z 1 then [] else ["top_p != 1"%string]) ++
  (if (top_k sp =? 0)%Z || (top_k sp =? -1)%Z then [] else ["top_k enabled"%string]) ++
  (if min_p sp =? of_Z 0 then [] else ["min_p enabled"%string]) ++
  (if repetition_penalty sp =? of_Z 1 then [] else ["repetition_penalty"%string]) ++
  (if frequency_penalty sp =? of_Z 0 then [] else ["frequency_penalty"%string]) ++
  (if presence_penalty sp =? of_Z 0 then [] else ["presence_penalty"%string]) ++
  (if structured_outputs sp then ["structured_outputs"%string] else []) ++
  (if bool_decide (allowed_token_ids sp = None) then [] else ["allowed_token_ids"%string]) ++
  (if (length (bad_words sp) =? 0)%nat then [] else ["bad_words"%string]) ++
  (if (size (logit_bias sp) =? 0)%nat then [] else ["logit_bias"%string]).

Definition validate_sampling_params (c : PowerSMCConfig) (sp : SamplingParams) : res unit :=
  rbind (validate_self c) (λ _, rcheck (bool_decide (unsupported_params sp = []))).

(** [n_half] is the default threshold 0.5. *)
Definition from_sampling_params (ps : PyParse) (sampling_params : option SamplingParams)
  : res (option PowerSMCConfig) :=
  match sampling_params ≫= (λ sp, extra_args sp ≫= (λ m, m !! "power_smc"%string ≫= (λ v, Some (sp, v)))) with
  | None => Ok None
  | Some (_, PValue PNone) => Ok None
  | Some (_, PValue _) => Err VLLMValidationError
  | Some (sp, PMapping raw) =>
      let get key d := default d (raw !! key) in
      if negb (py_bool (get "enabled"%string (PBool false))) then Ok None
      else
        rbind (py_float ps (get "alpha"%string (PInt 4))) (λ alpha,
        rbind (py_int ps (get "particles"%string (PInt 32))) (λ particles,
        rbind (py_int ps (get "block_size"%string (PInt 64))) (λ block_size,
        rbind (py_float ps (get "ess_threshold"%string (PFloat (of_Z 1 / of_Z 2)))) (λ ess_threshold,
        rbind (py_int ps (get "alpha_ramp_tokens"%string (PInt 400))) (λ ramp,
        let c := MkSMC true alpha particles block_size ess_threshold ramp
          (get "proposal"%string (PStr "power_temperature"%string))
          (py_bool (get "return_diagnostics"%string (PBool false)))
          (py_bool (get "kv_cow"%string (PBool true)))
          (py_bool (get "kv_pool_diagnostics"%string (PBool false))) in
        rbind (validate_sampling_params c sp) (λ _, Ok (Some c)))))))
  end.

(** [validate_power_smc_engine_features]; the features by their presence. *)
Definition validate_power_smc_engine_features (config : option PowerSMCConfig)
    (stream_input has_lora is_encoder_decoder has_speculative : bool) (kv_block_size : option Z)
  : res unit :=
  match config with
  | None => Ok tt
  | Some c =>
      let misaligned :=
        match kv_block_size with
        | None => Ok false
        | Some k => if (k =? 0)%Z then Err ZeroDivisionError
                    else Ok (negb (smc_block_size c mod k =? 0)%Z)
        end in
      rbind misaligned (λ misaligned,
      rcheck (negb (stream_input || has_lora || is_encoder_decoder || has_speculative || misaligned)))
  end.

(** ** Child request ids *)

Record PowerSMCChildRequestInfo : Type := MkChild {
  parent_id : string;
  particle_idx : Z
}.

Definition make_power_smc_child_request_id (parent_id : string) (particle_idx : Z) : string :=
  ("psmc" ++ str_of_Z particle_idx ++ "_" ++ parent_id)%string.

(** [(.+)$]: at least one character, none a newline, except that the end of the
    string may be preceded by one newline. *)
Definition newline : Ascii.ascii := Ascii.ascii_of_nat 10.
Fixpoint match_rest (s : string) : option string :=
  match s with
  | EmptyString => None
  | String c s' =>
      if Ascii.eqb c newline then None
      else if String.eqb s' "" || String.eqb s' (String newline "") then Some (String c "")
      else match match_rest s' with Some r => Some (String c r) | None => None end
  end.

(** The regular expression [^psmc(\d+)_(.+)$] on ASCII ids *)
Definition parse_power_smc_child_request_id (request_id : string)
  : option PowerSMCChildRequestInfo :=
  match request_id with
  | String "p"%char (String "s"%char (String "m"%char (String "c"%char s))) =>
      let '(digits, rest) := span_digits s in
      match NilEmpty.uint_of_string digits, rest with
      | Some d, String "_"%char rest' =>
          if String.eqb digits "" then None
          else match match_rest rest' with
               | Some p => Some (MkChild p (Z.of_uint d))
               | None => None
               end
      | _, _ => None
      end
  | _ => None
  end.

(** ** Weights *)

Definition alpha_ramp (step : Z) (alpha_final : num) (ramp_tokens : Z) : res num :=
  if (ramp_tokens <=? 1)%Z then Ok alpha_final
  else if (step <? ramp_tokens)%Z then
    rbind (float_of_int (step + 1)) (λ n,
    rbind (float_of_int ramp_tokens) (λ d,
    let frac := n / d in
    Ok (of_Z 1 + (alpha_final - of_Z 1) * frac)))
  else Ok alpha_final.

Definition proposal_temperature (alpha_t : num) : res num :=
  if alpha_t <=? of_Z 0 then Err ValueError else Ok (of_Z 1 / alpha_t).

(** Maximum, count and whether all are equal, in one pass. *)
Definition max_step (first : num) (st : num * Z * bool) (weight : num) : num * Z * bool :=
  let '(m, count, all_equal) := st in
  (if m <? weight then weight else m, (count + 1)%Z, all_equal && (weight =? first)).
Definition max_log_weight_and_uniform (log_weights : list num) : res (num * Z * bool) :=
  match log_weights with
  | [] => Err ValueError
  | first :: rest => Ok (foldl (max_step first) (first, 1%Z, true) rest)
  end.

Definition uniform_weights (count : Z) : list num :=
  replicate (Z.to_nat count) (of_Z 1 / of_Z count).

Definition unnormalized (log_weights : list num) (max_log_weight : num) : list num :=
  (λ w, nexp (w - max_log_weight)) <$> log_weights.

Definition normalize_log_weights (log_weights : list num) : res (list num) :=
  rbind (max_log_weight_and_uniform log_weights) (λ mcu,
  let '(max_log_weight, count, all_equal) := mcu in
  if (all_equal : bool) then Ok (uniform_weights count)
  else
    let un := unnormalized log_weights max_log_weight in
    let total := nfsum un in
    if (total =? of_Z 0) || negb (nfinite total) then Ok (uniform_weights count)
    else Ok ((λ w, w / total) <$> un)).

Definition effective_sample_size (weights : list num) : num :=
  let denom := nfsum ((λ w, w * w) <$> weights) in
  if denom <=? of_Z 0 then of_Z 0 else of_Z 1 / denom.

Definition normalize_log_weights_and_ess_from_max (log_weights : list num)
    (max_log_weight : num) (count : Z) : list num * num :=
  let un := unnormalized log_weights max_log_weight in
  let total := nfsum un in
  if (total =? of_Z 0) || negb (nfinite total) then (uniform_weights count, of_Z count)
  else
    let weights := (λ w, w / total) <$> un in
    let denom := foldl (λ d w, d + w * w) (of_Z 0) weights in
    (weights, if denom <=? of_Z 0 then of_Z 0 else of_Z 1 / denom).

Definition normalize_log_weights_and_ess (log_weights : list num) : res (list num * num) :=
  rbind (max_log_weight_and_uniform log_weights) (λ mcu,
  let '(max_log_weight, count, all_equal) := mcu in
  if (all_equal : bool) then Ok (uniform_weights count, of_Z count)
  else Ok (normalize_log_weights_and_ess_from_max log_weights max_log_weight count)).

(** The triple is (log_weight, cum_logp, alpha). *)
Abbreviation smc_state := (num * num * num)%type (only parsing).

Definition update_log_weight (log_weight cum_logp prev_alpha alpha_t base_logp proposal_logq : num)
  : smc_state :=
  let log_weight :=
    if negb (alpha_t =? prev_alpha) then log_weight + (alpha_t - prev_alpha) * cum_logp
    else log_weight in
  let log_weight := log_weight + (alpha_t * base_logp - proposal_logq) in
  (log_weight, cum_logp + base_logp, alpha_t).

(** ** Random draws *)

(** [random.Random]: the stream its seed determines and the position in it. *)
Record Rng : Type := MkRng {
  draws : nat → num;
  pos : nat
}.
Definition rng_random (r : Rng) : num * Rng := (draws r (pos r), MkRng (draws r) (S (pos r))).

(** The [while] loop of the systematic resampling: [rest] are the weights from
    [idx] on; the last particle is never passed. *)
Fixpoint advance (rest : list num) (idx : Z) (cumulative position : num) : list num * Z * num :=
  match rest with
  | w :: ((_ :: _) as rest') =>
      if (cumulative + w <? position) then advance rest' (idx + 1)%Z (cumulative + w) position
      else (rest, idx, cumulative)
  | _ => (rest, idx, cumulative)
  end.
Fixpoint resample_loop (steps : list Z) (start inv_n : num) (rest : list num) (idx : Z)
    (cumulative : num) : list Z :=
  match steps with
  | [] => []
  | i :: steps' =>
      let '(rest, idx, cumulative) := advance rest idx cumulative (start + of_Z i * inv_n) in
      idx :: resample_loop steps' start inv_n rest idx cumulative
  end.

Definition systematic_resample (weights : list num) (r : Rng) : res (list Z * Rng) :=
  let n := len weights in
  if (n =? 0)%Z then Err ZeroDivisionError
  else
    let inv_n := of_Z 1 / of_Z n in
    let '(u, r) := rng_random r in
    Ok (resample_loop (range 0 n) (u * inv_n) inv_n weights 0%Z (of_Z 0), r).

Fixpoint sample_loop (weights : list num) (idx : Z) (cumulative draw : num) : option Z :=
  match weights with
  | [] => None
  | w :: ws =>
      let cumulative := cumulative + w in
      if draw <=? cumulative then Some idx else sample_loop ws (idx + 1)%Z cumulative draw
  end.
Definition sample_index (weights : list num) (r : Rng) : Z * Rng :=
  let '(draw, r) := rng_random r in
  (default (len weights - 1)%Z (sample_loop weights 0%Z (of_Z 0) draw), r).

(** ** Particles *)

Inductive stop_val : Type := StopInt (z : Z) | StopStr (s : string).

Record PowerSMCParticleState : Type := MkParticle {
  token_ids : list Z;
  log_weight : num;
  cum_logp : num;
  prev_alpha : num;
  done : bool;
  finish_reason : option string;
  stop_reason : option stop_val;
  history_start_length : Z;
  history_start_state : smc_state;
  boundary_state_history : list (Z * smc_state)
}.
Definition new_particle : PowerSMCParticleState :=
  MkParticle [] (of_Z 0) (of_Z 0) (of_Z 1) false None None 0%Z (of_Z 0, of_Z 0, of_Z 1) [].

(** [for length, state in reversed(history): if length == output_length] *)
Definition history_lookup (history : list (Z * smc_state)) (output_length : Z) : option smc_state :=
  snd <$> find (λ ls, (ls.1 =? output_length)%Z) (rev history).

Definition state_at (p : PowerSMCParticleState) (output_length : Z) : res smc_state :=
  if (output_length =? len (token_ids p))%Z then Ok (log_weight p, cum_logp p, prev_alpha p)
  else if (output_length <=? 0)%Z then Ok (of_Z 0, of_Z 0, of_Z 1)
  else if (output_length =? history_start_length p)%Z then Ok (history_start_state p)
  else if (output_length <? history_start_length p)%Z then Err ValueError
  else match history_lookup (boundary_state_history p) output_length with
       | Some st => Ok st
       | None => Err ValueError
       end.

(** ** The particle group *)

Record PowerSMCResamplePlan : Type := MkPlan {
  ancestors : list Z;
  particle_token_ids : list (list Z)
}.

(** What [__init__] derives from the configuration, once its integers have been
    converted to floats. *)
Record GroupConstants : Type := MkConst {
  config : PowerSMCConfig;
  particle_count : Z;
  gm_block_size : Z;
  resample_ess_threshold : num;
  alpha_final : num;
  ramp_tokens : Z;
  alpha_is_constant : bool;
  alpha_slope : num
}.
(** Counters and histories for the diagnostics. *)
Record GroupStats : Type := MkGStats {
  resample_count : Z;
  ess_history : list num;
  unique_ancestors_per_resample : list Z;
  ancestor_history : list (list Z);
  kv_resample_events : list (gmap string pyval);
  maybe_resample_calls : Z;
  block_boundary_checks : Z;
  resample_skip_reasons : gmap string Z
}.
Record PowerSMCGroupManager : Type := MkGroup {
  constants : GroupConstants;
  rng : Rng;
  particles : list PowerSMCParticleState;
  stats : GroupStats;
  last_boundary_check_length : Z;
  last_resample_plan : option PowerSMCResamplePlan;
  chosen_particle : option Z;
  chosen_final_ess : option num
}.

Definition group_constants (c : PowerSMCConfig) : GroupConstants :=
  let constant := (alpha_ramp_tokens c <=? 1)%Z in
  MkConst c (particles_n c) (smc_block_size c) (ess_threshold c * of_Z (particles_n c)) (alpha c)
    (alpha_ramp_tokens c) constant
    (if constant then of_Z 0 else (alpha c - of_Z 1) / of_Z (alpha_ramp_tokens c)).

Definition PowerSMCGroupManager_init (c : PowerSMCConfig) (r : Rng) : res PowerSMCGroupManager :=
  rbind (validate_self c) (λ _,
  rbind (float_of_int (particles_n c)) (λ _,
  rbind (if (alpha_ramp_tokens c <=? 1)%Z then Ok (of_Z 0) else float_of_int (alpha_ramp_tokens c)) (λ _,
  Ok (MkGroup (group_constants c) r (replicate (Z.to_nat (particles_n c)) new_particle)
        (MkGStats 0%Z [] [] [] [] 0%Z 0%Z ∅) 0%Z None None None)))).

Definition set_rng r (g : PowerSMCGroupManager) : PowerSMCGroupManager :=
  MkGroup (constants g) r (particles g) (stats g) (last_boundary_check_length g)
    (last_resample_plan g) (chosen_particle g) (chosen_final_ess g).
Definition set_particles ps (g : PowerSMCGroupManager) : PowerSMCGroupManager :=
  MkGroup (constants g) (rng g) ps (stats g) (last_boundary_check_length g)
    (last_resample_plan g) (chosen_particle g) (chosen_final_ess g).
Definition set_gstats st (g : PowerSMCGroupManager) : PowerSMCGroupManager :=
  MkGroup (constants g) (rng g) (particles g) st (last_boundary_check_length g)
    (last_resample_plan g) (chosen_particle g) (chosen_final_ess g).
Definition set_last_check n (g : PowerSMCGroupManager) : PowerSMCGroupManager :=
  MkGroup (constants g) (rng g) (particles g) (stats g) n
    (last_resample_plan g) (chosen_particle g) (chosen_final_ess g).
Definition set_plan pl (g : PowerSMCGroupManager) : PowerSMCGroupManager :=
  MkGroup (constants g) (rng g) (particles g) (stats g) (last_boundary_check_length g)
    pl (chosen_particle g) (chosen_final_ess g).
Definition set_chosen c e (g : PowerSMCGroupManager) : PowerSMCGroupManager :=
  MkGroup (constants g) (rng g) (particles g) (stats g) (last_boundary_check_length g)
    (last_resample_plan g) c e.

Definition count_call (st : GroupStats) : GroupStats :=
  MkGStats (resample_count st) (ess_history st) (unique_ancestors_per_resample st)
    (ancestor_history st) (kv_resample_events st) (maybe_resample_calls st + 1)%Z
    (block_boundary_checks st) (resample_skip_reasons st).
Definition count_skip (reason : string) (st : GroupStats) : GroupStats :=
  MkGStats (resample_count st) (ess_history st) (unique_ancestors_per_resample st)
    (ancestor_history st) (kv_resample_events st) (maybe_resample_calls st)
    (block_boundary_checks st)
    (<[reason := (default 0 (resample_skip_reasons st !! reason) + 1)%Z]> (resample_skip_reasons st)).
Definition count_check (st : GroupStats) : GroupStats :=
  MkGStats (resample_count st) (ess_history st) (unique_ancestors_per_resample st)
    (ancestor_history st) (kv_resample_events st) (maybe_resample_calls st)
    (block_boundary_checks st + 1)%Z (resample_skip_reasons st).
Definition note_ess (ess : num) (st : GroupStats) : GroupStats :=
  MkGStats (resample_count st) (ess_history st ++ [ess]) (unique_ancestors_per_resample st)
    (ancestor_history st) (kv_resample_events st) (maybe_resample_calls st)
    (block_boundary_checks st) (resample_skip_reasons st).
Definition note_resample (anc : list Z) (st : GroupStats) : GroupStats :=
  MkGStats (resample_count st + 1)%Z (ess_history st)
    (unique_ancestors_per_resample st ++ [len (remove_dups anc)])
    (ancestor_history st ++ [anc]) (kv_resample_events st) (maybe_resample_calls st)
    (block_boundary_checks st) (resample_skip_reasons st).
Definition note_kv_event (e : gmap string pyval) (st : GroupStats) : GroupStats :=
  MkGStats (resample_count st) (ess_history st) (unique_ancestors_per_resample st)
    (ancestor_history st) (kv_resample_events st ++ [e]) (maybe_resample_calls st)
    (block_boundary_checks st) (resample_skip_reasons st).

(** *** One token *)

(** The alpha of a step; also inlined in [update_after_token]. *)
Definition alpha_at_step (k : GroupConstants) (step : Z) : num :=
  if alpha_is_constant k || (ramp_tokens k <=? step)%Z then alpha_final k
  else of_Z 1 + alpha_slope k * of_Z (step + 1).

Definition observe_token (k : GroupConstants) (token_id : Z) (base_logp proposal_logq : num)
    (is_done : bool) (finish : option string) (stop : option stop_val) (p : PowerSMCParticleState)
  : PowerSMCParticleState :=
  let step := len (token_ids p) in
  let alpha_t := alpha_at_step k step in
  let '(lw, cl, al) := update_log_weight (log_weight p) (cum_logp p) (prev_alpha p) alpha_t
                         base_logp proposal_logq in
  let output_length := (step + 1)%Z in
  MkParticle (token_ids p ++ [token_id]) lw cl al is_done
    (if is_done then finish else None) (if is_done then stop else None)
    (history_start_length p) (history_start_state p)
    (if (output_length mod gm_block_size k =? 0)%Z
     then boundary_state_history p ++ [(output_length, (lw, cl, al))] else boundary_state_history p).

Definition update_after_token (particle_idx token_id : Z) (base_logp proposal_logq : num)
    (is_done : bool) (finish : option string) (stop : option stop_val)
  : M PowerSMCGroupManager bool :=
  let* ps := gets particles in
  let* particle := or_raise IndexError (py_nth ps particle_idx) in
  if done particle then raise ValueError
  else
    let* k := gets constants in
    modify (λ g, set_chosen (chosen_particle g) None
      (set_particles (py_set (particles g) particle_idx
         (observe_token k token_id base_logp proposal_logq is_done finish stop particle)) g)) ;;;
    ret ((len (token_ids particle) + 1) mod gm_block_size k =? 0)%Z.

(** *** Resampling *)

(** [_eligible_resample_boundary]; the flag is whether a particle is done. *)
Fixpoint min_length (ps : list PowerSMCParticleState) (acc : option Z) : option (option Z) :=
  match ps with
  | [] => Some acc
  | p :: ps' =>
      if done p then None
      else
        let length := len (token_ids p) in
        if (length =? 0)%Z then min_length ps' (Some 0%Z)
        else min_length ps' (match acc with
                             | None => Some length
                             | Some m => if (length <? m)%Z then Some length else acc
                             end)
  end.
Definition eligible_resample_boundary (g : PowerSMCGroupManager) : option Z * bool :=
  match min_length (particles g) None with
  | None => (None, true)
  | Some None => (None, false)
  | Some (Some m) =>
      let boundary := (m / gm_block_size (constants g) * gm_block_size (constants g))%Z in
      if (boundary =? 0)%Z then (None, false) else (Some boundary, false)
  end.

Definition record_resample_skip (reason : string) : M PowerSMCGroupManager unit :=
  modify (λ g, set_gstats (count_skip reason (stats g)) g).

(** Maximum and equality of the log weights, as the loop computes them. *)
Definition weight_summary (lws : list num) : res (num * bool) :=
  match lws with
  | [] => Err ValueError
  | first :: rest => Ok (foldl (λ st w, (if st.1 <? w then w else st.1, st.2 && (w =? first)))
                           (first, true) rest)
  end.

(** The particle that continues [ancestor]'s prefix. *)
Definition resampled_particle (ps : list PowerSMCParticleState) (states : list smc_state)
    (boundary_length ancestor : Z) : res PowerSMCParticleState :=
  match py_nth ps ancestor, py_nth states ancestor with
  | Some p, Some (_, cl, al) =>
      let toks := slice_to (token_ids p) boundary_length in
      Ok (MkParticle toks (of_Z 0) cl al false None None (len toks) (of_Z 0, cl, al) [])
  | _, _ => Err IndexError
  end.

(** From the ancestors to the new group. *)
Definition apply_ancestors (boundary_length : Z) (states : list smc_state) (anc : list Z)
  : M PowerSMCGroupManager unit :=
  let* ps := gets particles in
  let* resampled := map_each (λ a, of_res (resampled_particle ps states boundary_length a)) anc in
  modify (λ g, set_chosen (chosen_particle g) None (set_particles resampled g)) ;;;
  modify (set_plan (Some (MkPlan anc (token_ids <$> resampled)))) ;;;
  modify (λ g, set_gstats (note_resample anc (stats g)) g).

(** The effective sample size at a boundary; the weights stay unset when all
    log weights are equal. *)
Definition weigh (k : GroupConstants) (log_weights : list num) : res (option (list num) * num) :=
  rbind (weight_summary log_weights) (λ me,
  let '(max_log_weight, all_equal) := me in
  if (all_equal : bool) then Ok (None, of_Z (particle_count k))
  else
    let '(weights, ess) := normalize_log_weights_and_ess_from_max log_weights max_log_weight
                             (particle_count k) in
    Ok (Some weights, ess)).

Definition resample_at (boundary_length : Z) : M PowerSMCGroupManager bool :=
  let* k := gets constants in
  modify (λ g, set_gstats (count_check (stats g)) g) ;;;
  let* ps := gets particles in
  let* states := map_each (λ p, of_res (state_at p boundary_length)) ps in
  let* we := of_res (weigh k ((λ st : smc_state, st.1.1) <$> states)) in
  let '(weights, ess) := we in
  modify (λ g, set_last_check boundary_length (set_gstats (note_ess ess (stats g)) g)) ;;;
  if resample_ess_threshold k <=? ess then
    record_resample_skip "ess_above_threshold" ;;; ret false
  else
    let* weights := or_raise AssertionError weights in
    let* r := gets rng in
    let* ar := of_res (systematic_resample weights r) in
    let '(anc, r) := ar in
    modify (set_rng r) ;;;
    apply_ancestors boundary_length states anc ;;;
    ret true.

Definition maybe_resample : M PowerSMCGroupManager bool :=
  modify (λ g, set_plan None (set_gstats (count_call (stats g)) g)) ;;;
  let* g := gets (λ g, g) in
  if (particle_count (constants g) =? 1)%Z then record_resample_skip "particles_one" ;;; ret false
  else
    let '(boundary_length, has_done_particle) := eligible_resample_boundary g in
    if has_done_particle : bool then record_resample_skip "done_particle" ;;; ret false
    else
      match boundary_length with
      | None => record_resample_skip "not_block_boundary" ;;; ret false
      | Some b =>
          if (b <=? last_boundary_check_length g)%Z
          then record_resample_skip "stale_block_boundary" ;;; ret false
          else resample_at b
      end.

(** *** The end *)

Definition normalized_weights : M PowerSMCGroupManager (list num) :=
  let* ps := gets particles in of_res (normalize_log_weights (log_weight <$> ps)).

Definition record_kv_resample_event (event : gmap string pyval) : M PowerSMCGroupManager unit :=
  modify (λ g, set_gstats (note_kv_event event (stats g)) g).

Definition final_select : M PowerSMCGroupManager Z :=
  let* ps := gets particles in
  let* we := of_res (normalize_log_weights_and_ess (log_weight <$> ps)) in
  let '(weights, final_ess) := we in
  modify (λ g, set_chosen (chosen_particle g) (Some final_ess) g) ;;;
  let* r := gets rng in
  let '(chosen, r) := sample_index weights r in
  modify (set_rng r) ;;;
  modify (λ g, set_chosen (Some chosen) (chosen_final_ess g) g) ;;;
  ret chosen.

(** *** Diagnostics *)

(** [int(event.get(key, 0))] *)
Definition event_int (ps : PyParse) (e : gmap string pyval) (key : string) : res Z :=
  py_int ps (default (PInt 0) (e !! key)).

(** [counts[key] = counts.get(key, 0) + 1] over the keys that are there *)
Definition count_keys (keys : list (option string)) : gmap string Z :=
  foldl (λ m k, match k with None => m | Some k => <[k := (default 0 (m !! k) + 1)%Z]> m end) ∅ keys.
Definition stop_key (s : stop_val) : string :=
  match s with StopInt z => str_of_Z z | StopStr s => s end.

Record Diagnostics : Type := MkDiag {
  dg_final_ess : num;
  dg_mean_ess : num;
  dg_stats : GroupStats;
  dg_chosen : option Z;
  dg_last_boundary_check_length : Z;
  dg_particle_lengths : list Z;
  dg_min_particle_length : Z;
  dg_max_particle_length : Z;
  dg_done_count : Z;
  dg_finish_reason_counts : gmap string Z;
  dg_stop_reason_counts : gmap string Z;
  dg_avg_log_weight : num;
  dg_kv_totals : list (string * Z)
}.

Definition kv_total_keys : list string :=
  ["alias_success_count"; "fallback_count"; "aliased_blocks"; "aliased_tokens";
   "cow_physical_blocks"; "cow_saved_blocks"; "cow_saved_tokens"]%string.

(** The totals over the events, key by key; they are added up event by event. *)
Fixpoint event_ints (ps : PyParse) (e : gmap string pyval) (keys : list string) : res (list Z) :=
  match keys with
  | [] => Ok []
  | key :: keys' => rbind (event_int ps e key) (λ n, rbind (event_ints ps e keys') (λ ns, Ok (n :: ns)))
  end.
Fixpoint event_totals (ps : PyParse) (events : list (gmap string pyval)) (totals : list Z) : res (list Z) :=
  match events with
  | [] => Ok totals
  | e :: events' => rbind (event_ints ps e kv_total_keys) (λ ns, event_totals ps events' (zip_with Z.add totals ns))
  end.

Definition diagnostics (ps : PyParse) : M PowerSMCGroupManager Diagnostics :=
  let* g := gets (λ g, g) in
  let particles := particles g in
  let lengths := (λ p, len (token_ids p)) <$> particles in
  let lws := log_weight <$> particles in
  let* final_ess :=
    match chosen_final_ess g with
    | Some e => ret e
    | None => let* we := of_res (normalize_log_weights_and_ess lws) in ret we.2
    end in
  let* totals := of_res (event_totals ps (kv_resample_events (stats g)) ((λ _, 0%Z) <$> kv_total_keys)) in
  let history := ess_history (stats g) in
  let* mean_ess :=
    match history with
    | [] => ret final_ess
    | _ => let* total := of_res (nfsum_any history) in ret (total / of_Z (len history))
    end in
  let* total := of_res (nfsum_any lws) in
  ret (MkDiag final_ess mean_ess (stats g) (chosen_particle g) (last_boundary_check_length g) lengths
    (match lengths with [] => 0%Z | l :: ls => foldl Z.min l ls end)
    (foldl Z.max 0%Z lengths)
    (len (filter (λ p, done p = true) particles))
    (count_keys (finish_reason <$> particles))
    (count_keys ((λ p, stop_key <$> stop_reason p) <$> particles))
    (total / of_Z (particle_count (constants g)))
    (zip kv_total_keys totals)).
End power_smc.
