(* ===== verification/PowerSMCProps.v ===== *)
(** * Power-SMC: the particle group

    Resampling for any arithmetic: the shape of the ancestors, the invariant of
    a group, what a resample does to it, and that its operations return. *)

From Stdlib Require Import Sorted.
From S2P Require Import Prelude Arith PowerSMC.
Open Scope Z_scope.

Section generic.
Context {A : Arith}.

(** ** Systematic resampling *)

(** [advance] only moves right and stops inside the weights. *)
Lemma advance_spec rest idx cum p rest' idx' cum' ws :
  rest ≠ [] → 0 ≤ idx → rest = drop (Z.to_nat idx) ws →
  advance rest idx cum p = (rest', idx', cum') →
  rest' ≠ [] ∧ idx ≤ idx' < len ws ∧ rest' = drop (Z.to_nat idx') ws.
Proof.
  revert idx cum. induction rest as [|w rest IH]; intros idx cum Hne Hi Hr Hadv; [done|].
  assert (idx < len ws) as Hlt.
  { destruct (decide (idx < len ws)); [done|]. rewrite drop_ge in Hr; [done|]. unfold len in *. lia. }
  destruct rest as [|w2 rest2].
  - injection Hadv as <- <- <-. split_and!; [done|lia|lia|done].
  - cbn [advance] in Hadv. destruct (nltb _ _).
    + assert (w2 :: rest2 = drop (Z.to_nat (idx + 1)) ws) as Hr'.
      { replace (Z.to_nat (idx + 1)) with (Z.to_nat idx + 1)%nat by lia. by rewrite <-drop_drop, <-Hr. }
      destruct (IH (idx + 1) (nadd cum w) ltac:(done) ltac:(lia) Hr' Hadv) as (? & ? & ?).
      split_and!; [done|lia|lia|done].
    + injection Hadv as <- <- <-. split_and!; [done|lia|lia|done].
Qed.

Lemma resample_loop_spec steps start inv_n rest idx cum ws :
  rest ≠ [] → 0 ≤ idx → rest = drop (Z.to_nat idx) ws →
  let anc := resample_loop steps start inv_n rest idx cum in
  length anc = length steps ∧ (∀ a, a ∈ anc → idx ≤ a < len ws) ∧ Sorted Z.le anc.
Proof.
  revert rest idx cum. induction steps as [|i steps IH]; intros rest idx cum Hne Hi Hr.
  { split_and!; [done|by intros a ?%elem_of_nil|constructor]. }
  cbn [resample_loop]. destruct (advance _ _ _ _) as [[rest' idx'] cum'] eqn:Hadv.
  destruct (advance_spec _ _ _ _ _ _ _ ws Hne Hi Hr Hadv) as (Hne' & Hi' & Hr').
  destruct (IH rest' idx' cum' Hne' ltac:(lia) Hr') as (Hlen & Hin & Hsort). cbn. split_and!.
  - by rewrite Hlen.
  - intros a [->|Ha]%elem_of_cons; [lia|]. apply Hin in Ha. lia.
  - constructor; [done|]. destruct (resample_loop _ _ _ rest' _ _) as [|a anc]; constructor.
    apply Hin. left.
Qed.

Lemma systematic_resample_shape ws r :
  ws ≠ [] → ∃ anc, systematic_resample ws r = Ok (anc, MkRng (draws r) (S (pos r))) ∧
    length anc = length ws ∧ (∀ a, a ∈ anc → 0 ≤ a < len ws) ∧ Sorted Z.le anc.
Proof.
  intros Hne. unfold systematic_resample.
  assert (len ws ≠ 0) as Hn by (unfold len; destruct ws; [done|simpl; lia]).
  rewrite (proj2 (Z.eqb_neq _ _) Hn). eexists. split; [done|].
  destruct (resample_loop_spec (range 0 (len ws)) (nmul (draws r (pos r)) (ndiv (of_Z 1) (of_Z (len ws))))
    (ndiv (of_Z 1) (of_Z (len ws))) ws 0 (of_Z 0) ws Hne ltac:(lia) eq_refl) as (Hl & Hin & Hs).
  split_and!; [|done|done]. rewrite Hl, length_range. unfold len. lia.
Qed.

(** ** The invariant *)

(** The states a resample may ask for are there. *)
Record particle_ok (bs last : Z) (p : PowerSMCParticleState) : Prop := {
  po_start : 0 ≤ history_start_length p ≤ len (token_ids p) ∧ history_start_length p ≤ last;
  po_history : ∀ n, history_start_length p < n ≤ len (token_ids p) → n mod bs = 0 →
    ∃ st, history_lookup (boundary_state_history p) n = Some st
}.

(** The threshold, at most one, times the number of particles is at most that
    number; so it is without rounding ([threshold_scales_exact]), and rounding
    to nearest is monotone. *)
Definition threshold_scales (c : PowerSMCConfig) : bool :=
  (ess_threshold c * of_Z (particles_n c) <=? of_Z (particles_n c))%num.

Record group_ok (g : PowerSMCGroupManager) : Prop := {
  go_const : constants g = group_constants (config (constants g));
  go_valid : validate_self (config (constants g)) = Ok tt;
  go_scales : threshold_scales (config (constants g)) = true;
  go_count : len (particles g) = particle_count (constants g);
  go_last : 0 ≤ last_boundary_check_length g;
  go_particles : ∀ p, p ∈ particles g →
    particle_ok (gm_block_size (constants g)) (last_boundary_check_length g) p
}.

Lemma valid_facts c : validate_self c = Ok tt →
  1 ≤ particles_n c ∧ 1 ≤ smc_block_size c ∧ 1 ≤ alpha_ramp_tokens c ∧
  nltb (alpha c) (of_Z 1) = false ∧ nltb (of_Z 0) (ess_threshold c) = true ∧
  nleb (ess_threshold c) (of_Z 1) = true ∧ proposal c = PStr "power_temperature"%string.
Proof.
  unfold validate_self, rcheck. intros Hv.
  destruct (nltb (alpha c) _); [done|]. destruct (particles_n c <? 1) eqn:H1; [done|].
  destruct (smc_block_size c <? 1) eqn:H2; [done|]. destruct (nltb _ (ess_threshold c)); [|done].
  destruct (nleb (ess_threshold c) _); [|done]. destruct (alpha_ramp_tokens c <? 1) eqn:H3; [done|].
  cbn in Hv. destruct (proposal c) as [| | | |s]; try done. destruct (String.eqb s _) eqn:Hs; [|done].
  apply String.eqb_eq in Hs as ->. apply Z.ltb_ge in H1, H2, H3. split_and!; done || lia.
Qed.

Lemma history_lookup_app h n st m :
  history_lookup (h ++ [(n, st)]) m = if n =? m then Some st else history_lookup h m.
Proof. unfold history_lookup. rewrite rev_app_distr. simpl. by destruct (n =? m). Qed.

Lemma observe_token_ok k tok b q d f s p last :
  0 < gm_block_size k → particle_ok (gm_block_size k) last p →
  particle_ok (gm_block_size k) last (observe_token k tok b q d f s p).
Proof.
  intros Hbs [Hst Hh]. unfold observe_token. destruct (update_log_weight _ _ _ _ _ _) as [[lw cl] al].
  split; cbn [history_start_length token_ids boundary_state_history]; rewrite len_app.
  - change (len [tok]) with 1. lia.
  - change (len [tok]) with 1. intros n Hn Hmod.
    destruct (decide (n = len (token_ids p) + 1)) as [->|Hne].
    + rewrite Hmod, Z.eqb_refl, history_lookup_app, Z.eqb_refl. by eexists.
    + destruct (Hh n ltac:(lia) Hmod) as [st Hst']. destruct (_ =? 0)%Z; [|by exists st].
      rewrite history_lookup_app. destruct (_ =? n)%Z; by eexists.
Qed.

Lemma state_at_ok bs last p n :
  particle_ok bs last p → n mod bs = 0 → last ≤ n ≤ len (token_ids p) → ∃ st, state_at p n = Ok st.
Proof.
  intros [Hst Hh] Hmod Hn. unfold state_at.
  destruct (Z.eqb_spec n (len (token_ids p))); [by eexists|].
  destruct (Z.leb_spec n 0); [by eexists|].
  destruct (Z.eqb_spec n (history_start_length p)); [by eexists|].
  destruct (Z.ltb_spec n (history_start_length p)); [lia|].
  destruct (Hh n ltac:(lia) Hmod) as [st ->]. by eexists.
Qed.

(** The boundary every particle has reached. *)
Lemma min_length_spec ps acc m :
  (∀ a, acc = Some a → 0 ≤ a) → min_length ps acc = Some (Some m) →
  0 ≤ m ∧ (∀ p, p ∈ ps → m ≤ len (token_ids p) ∧ done p = false) ∧ (∀ a, acc = Some a → m ≤ a).
Proof.
  revert acc. induction ps as [|p ps IH]; intros acc Hacc Hm.
  { injection Hm as ->. split_and!; [by apply Hacc|by intros p ?%elem_of_nil|by intros a [= ->]]. }
  cbn [min_length] in Hm. destruct (done p) eqn:Hd; [done|].
  pose proof (len_nonneg (token_ids p)) as Hl.
  destruct (Z.eqb_spec (len (token_ids p)) 0) as [H0|H0].
  - destruct (IH (Some 0) ltac:(by intros a [= <-]) Hm) as (Hm0 & Hin & Hle).
    pose proof (Hle 0 eq_refl). split_and!; [done| |].
    + intros q [->|Hq]%elem_of_cons; [split; [lia|done]|by apply Hin].
    + intros a Ha. pose proof (Hacc a Ha). lia.
  - set (acc' := match acc with None => _ | Some a => _ end) in Hm.
    assert (∃ a', acc' = Some a' ∧ 0 ≤ a' ≤ len (token_ids p) ∧ ∀ a, acc = Some a → a' ≤ a) as (a' & Ha' & Hb & Hc).
    { unfold acc'. destruct acc as [a|]; [|by exists (len (token_ids p)); split_and!; [|lia|lia|]].
      pose proof (Hacc a eq_refl). destruct (Z.ltb_spec (len (token_ids p)) a).
      - eexists. split_and!; [done|lia|lia|]. intros ? [= <-]. lia.
      - eexists. split_and!; [done|lia|lia|]. intros ? [= <-]. lia. }
    destruct (IH acc' ltac:(rewrite Ha'; intros a [= <-]; lia) Hm) as (Hm0 & Hin & Hle).
    pose proof (Hle a' Ha'). split_and!; [done| |].
    + intros q [->|Hq]%elem_of_cons; [split; [lia|done]|by apply Hin].
    + intros a Ha. pose proof (Hc a Ha). lia.
Qed.

Lemma min_length_attained ps acc m : min_length ps acc = Some (Some m) →
  acc = Some m ∨ ∃ p, p ∈ ps ∧ len (token_ids p) = m.
Proof.
  revert acc. induction ps as [|p ps IH]; intros acc; cbn [min_length]; [intros [= ->]; by left|].
  assert (∀ acc', min_length ps acc' = Some (Some m) → (acc' = acc ∨ acc' = Some (len (token_ids p))) →
    acc = Some m ∨ ∃ q, q ∈ p :: ps ∧ len (token_ids q) = m) as Hstep.
  { intros acc' Hm Hacc. destruct (IH acc' Hm) as [->|(q & Hq & ?)]; [|right; exists q; by split; [right|]].
    destruct Hacc as [<-|[= ->]]; [by left|]. right. exists p. by split; [left|]. }
  destruct (done p); [done|]. destruct (Z.eqb_spec (len (token_ids p)) 0) as [H0|]; [intros Hm; apply (Hstep _ Hm); right; by rewrite H0|].
  destruct acc as [a|]; [destruct (_ <? _)|]; intros Hm; apply (Hstep _ Hm); auto.
Qed.

Lemma min_length_some ps m : min_length ps (Some m) ≠ Some None.
Proof.
  revert m. induction ps as [|p ps IH]; intros m; [done|]. cbn [min_length].
  destruct (done p); [done|]. destruct (_ =? 0); [apply IH|]. destruct (_ <? m); apply IH.
Qed.

Lemma min_length_none ps acc : min_length ps acc = None → ∃ p, p ∈ ps ∧ done p = true.
Proof.
  revert acc. induction ps as [|p ps IH]; intros acc; [done|]. cbn [min_length].
  destruct (done p) eqn:Hd; [intros _; exists p; by split; [left|]|].
  destruct (_ =? 0); intros (q & ? & ?)%IH; exists q; (split; [by right|done]).
Qed.

Lemma eligible_boundary g b :
  0 < gm_block_size (constants g) → eligible_resample_boundary g = (Some b, false) →
  0 < b ∧ b mod gm_block_size (constants g) = 0 ∧
  ∀ p, p ∈ particles g → b ≤ len (token_ids p) ∧ done p = false.
Proof.
  intros Hbs. unfold eligible_resample_boundary. destruct (min_length _ _) as [[m|]|] eqn:Hm; [|done|done].
  destruct (min_length_spec _ None m ltac:(done) Hm) as (Hm0 & Hin & _).
  pose proof (Z.mul_div_le m _ Hbs) as Hle. pose proof (Z.div_pos m _ Hm0 Hbs).
  destruct (Z.eqb_spec (m / gm_block_size (constants g) * gm_block_size (constants g)) 0); [done|].
  intros [= <-]. split_and!; [nia|apply Z_mod_mult|]. intros p Hp. destruct (Hin p Hp). split; [lia|done].
Qed.

(** ** Resampling a group *)

(** What continues [p]'s first [b] tokens: weight reset, the rest kept. *)
Definition continuation (p : PowerSMCParticleState) (b : Z) (st : num * num * num)
  : PowerSMCParticleState :=
  MkParticle (take (Z.to_nat b) (token_ids p)) (of_Z 0) st.1.2 st.2 false None None b
    (of_Z 0, st.1.2, st.2) [].

Definition resampled (g : PowerSMCGroupManager) (b : Z) (anc : list Z) (g' : PowerSMCGroupManager) : Prop :=
  length anc = length (particles g) ∧ Sorted Z.le anc ∧
  last_resample_plan g' = Some (MkPlan anc (token_ids <$> particles g')) ∧
  length (particles g') = length (particles g) ∧
  ∀ i a, anc !! i = Some a → ∃ p st, 0 ≤ a ∧ particles g !! Z.to_nat a = Some p ∧
    state_at p b = Ok st ∧ particles g' !! i = Some (continuation p b st).

(** The particles' states at a boundary they all reached. *)
Definition states_at (ps : list PowerSMCParticleState) (b : Z) (sts : list (num * num * num)) : Prop :=
  Forall2 (λ p st, state_at p b = Ok st) ps sts.

Lemma map_states {S} ps b sts (s : S) :
  states_at ps b sts → map_each (λ p, of_res (state_at p b)) ps s = (Ok sts, s).
Proof.
  induction 1 as [|p st ps sts Hp _ IH]; [done|]. cbn [map_each]. unfold bind, of_res in *.
  rewrite Hp. by rewrite IH.
Qed.

Lemma states_exist bs last ps b :
  (∀ p, p ∈ ps → particle_ok bs last p ∧ b ≤ len (token_ids p)) → b mod bs = 0 → last ≤ b →
  ∃ sts, states_at ps b sts.
Proof.
  intros Hps Hmod Hl. induction ps as [|p ps IH]; [by exists []; constructor|].
  destruct (Hps p ltac:(left)) as [Hp Hb]. destruct (state_at_ok bs last p b Hp Hmod ltac:(lia)) as [st Hst].
  destruct IH as [sts Hsts]; [by intros; apply Hps; right|]. exists (st :: sts). by constructor.
Qed.

(** The normalised weights are as many as the particles. *)
Lemma weigh_ok k lws :
  lws ≠ [] → len lws = particle_count k →
  ∃ ows ess, weigh k lws = Ok (ows, ess) ∧
    (ows = None → ess = of_Z (particle_count k)) ∧ (∀ ws, ows = Some ws → length ws = length lws).
Proof.
  intros Hne Hlen. unfold weigh, weight_summary. destruct lws as [|lw lws]; [done|]. cbn [rbind].
  destruct (foldl _ _ lws) as [m all_equal]. destruct all_equal; [by do 2 eexists|].
  unfold normalize_log_weights_and_ess_from_max.
  destruct (_ || _); (do 2 eexists; split; [done|]); (split; [done|]); intros ws Hws; apply (inj Some) in Hws as <-.
  - unfold uniform_weights. rewrite length_replicate, <-Hlen. unfold len. lia.
  - unfold unnormalized. by rewrite !length_fmap.
Qed.

Lemma map_continuations {S} ps b sts anc (s : S) :
  0 ≤ b → states_at ps b sts → (∀ p, p ∈ ps → b ≤ len (token_ids p)) →
  (∀ a, a ∈ anc → 0 ≤ a < len ps) →
  ∃ ps', map_each (λ a, of_res (resampled_particle ps sts b a)) anc s = (Ok ps', s) ∧
    length ps' = length anc ∧ ∀ i a, anc !! i = Some a → ∃ p st, 0 ≤ a ∧ ps !! Z.to_nat a = Some p ∧
      state_at p b = Ok st ∧ ps' !! i = Some (continuation p b st).
Proof.
  intros Hb Hst Hlen. induction anc as [|a anc IH]; intros Hin; [by exists []|].
  destruct IH as (ps' & Hps' & Hl & Hspec); [by intros; apply Hin; right|].
  pose proof (Hin a ltac:(left)) as Ha.
  destruct (lookup_lt_is_Some_2 ps (Z.to_nat a)) as [p Hp]; [unfold len in Ha; lia|].
  destruct (Forall2_lookup_l _ _ _ _ _ Hst Hp) as ([[lw cl] al] & Hs & Hpst).
  exists (continuation p b (lw, cl, al) :: ps'). split_and!; [|by cbn; rewrite Hl|].
  - assert (resampled_particle ps sts b a = Ok (continuation p b (lw, cl, al))) as Hra.
    { unfold resampled_particle, continuation. rewrite !py_nth_nonneg, Hp, Hs, slice_to_nonneg by lia.
      assert (len (take (Z.to_nat b) (token_ids p)) = b) as ->; [|done].
      pose proof (Hlen p (list_elem_of_lookup_2 _ _ _ Hp)). unfold len in *. rewrite length_take. lia. }
    cbn [map_each]. erewrite bind_eq by (unfold of_res; by rewrite Hra). by erewrite bind_eq by exact Hps'.
  - intros [|i] a' Hi; [injection Hi as <-|by apply Hspec]. exists p, (lw, cl, al). split_and!; [lia|done..].
Qed.

(** The outcome of a check at boundary [b]. *)
Definition checked (g : PowerSMCGroupManager) (b : Z) (r : bool) (g' : PowerSMCGroupManager) : Prop :=
  ∃ sts ows ess, states_at (particles g) b sts ∧
    weigh (constants g) ((λ st : num * num * num, st.1.1) <$> sts) = Ok (ows, ess) ∧
    r = negb (nleb (resample_ess_threshold (constants g)) ess) ∧
    if r then ∃ ws anc, ows = Some ws ∧ systematic_resample ws (rng g) = Ok (anc, rng g') ∧
                resampled g b anc g'
    else particles g' = particles g ∧ rng g' = rng g ∧ last_resample_plan g' = last_resample_plan g.

Lemma resample_at_ok g b :
  group_ok g → 0 < b → b mod gm_block_size (constants g) = 0 → last_boundary_check_length g < b →
  (∀ p, p ∈ particles g → b ≤ len (token_ids p)) →
  ok (resample_at b) g (λ r g', checked g b r g' ∧ constants g' = constants g ∧
    last_boundary_check_length g' = b).
Proof.
  intros [Hk Hv Hbelow Hn Hl Hps] Hb Hmod Hlast Hlen. pose proof (valid_facts _ Hv) as (Hp1 & _).
  destruct (states_exist (gm_block_size (constants g)) (last_boundary_check_length g) (particles g) b (λ p Hp, conj (Hps p Hp) (Hlen p Hp)) Hmod ltac:(lia)) as [sts Hsts].
  pose proof (Forall2_length _ _ _ Hsts) as Hlsts.
  assert (len ((λ st : num * num * num, st.1.1) <$> sts) = particle_count (constants g)) as Hlw.
  { unfold len in *. rewrite length_fmap, <-Hlsts. done. }
  assert (particle_count (constants g) = particles_n (config (constants g))) as Hcn by by rewrite Hk.
  assert (0 < particle_count (constants g)) as Hpc by lia.
  assert ((λ st : num * num * num, st.1.1) <$> sts ≠ []) as Hne
    by (intros Hnil; rewrite Hnil, len_nil in Hlw; lia).
  destruct (weigh_ok (constants g) _ Hne Hlw)
    as (ows & ess & Hw & Hnone & Hsome).
  unfold resample_at. ok_steps. eapply ok_eq; [by apply map_states|]. ok_steps.
  eapply ok_eq; [unfold of_res; by rewrite Hw|]. ok_steps. cbv beta iota. ok_steps.
  destruct (nleb (resample_ess_threshold (constants g)) ess) eqn:Hle.
  - ok_steps. unfold record_resample_skip. ok_steps. split; [|done]. exists sts, ows, ess. by rewrite Hle.
  - destruct ows as [ws|].
    2: { exfalso. rewrite (Hnone eq_refl), Hcn, Hk in Hle. unfold threshold_scales in Hbelow.
         unfold group_constants in Hle. cbn [resample_ess_threshold config] in Hle. congruence. }
    cbn [or_raise]. ok_steps.
    assert (length ws = length (particles g)) as Hlws by (rewrite (Hsome ws eq_refl), length_fmap; done).
    destruct (systematic_resample_shape ws (rng g)) as (anc & Hsys & Hla & Hin & Hsort).
    { intros ->. unfold len in Hn. cbn in Hlws. lia. }
    eapply ok_eq; [unfold of_res; cbn [rng set_last_check set_gstats]; by rewrite Hsys|]. ok_steps.
    unfold apply_ancestors. ok_steps. cbn [particles set_rng set_last_check set_gstats].
    destruct (map_continuations (S := PowerSMCGroupManager) (particles g) b sts anc
      (set_rng (MkRng (draws (rng g)) (S (pos (rng g)))) (set_last_check b (set_gstats (note_ess ess
        (count_check (stats g))) g))) ltac:(lia) Hsts Hlen) as (ps' & Hmap & Hlps & Hspec).
    { intros a Ha. apply Hin in Ha. unfold len in *. by rewrite <-Hlws. }
    eapply ok_eq; [exact Hmap|]. ok_steps. split; [|done]. exists sts, (Some ws), ess.
    rewrite Hle. split_and!; [done..|]. exists ws, anc. split_and!; [done|exact Hsys|].
    split_and!; [by rewrite Hla|done|done|cbn; by rewrite Hlps, Hla|exact Hspec].
Qed.

(** The boundary [maybe_resample] checks, if there is one. *)
Definition due (g : PowerSMCGroupManager) : option Z :=
  if particle_count (constants g) =? 1 then None
  else match eligible_resample_boundary g with
       | (Some b, false) => if b <=? last_boundary_check_length g then None else Some b
       | _ => None
       end.

(** [b] is a boundary that every particle has just reached, none of them done:
    the last one before the end of the shortest particle, not checked before. *)
Definition newly_reached (g : PowerSMCGroupManager) (b : Z) : Prop :=
  let bs := gm_block_size (constants g) in
  particle_count (constants g) ≠ 1 ∧ last_boundary_check_length g < b ∧ 0 < b ∧ b mod bs = 0 ∧
  (∀ p, p ∈ particles g → done p = false ∧ b ≤ len (token_ids p)) ∧
  ∃ p, p ∈ particles g ∧ len (token_ids p) < b + bs.

Lemma due_newly_reached g b : 0 < gm_block_size (constants g) → due g = Some b ↔ newly_reached g b.
Proof.
  intros Hbs. unfold due, newly_reached. split.
  - destruct (Z.eqb_spec (particle_count (constants g)) 1); [done|].
    destruct (eligible_resample_boundary g) as [[b'|] []] eqn:He; try done.
    destruct (Z.leb_spec b' (last_boundary_check_length g)); [done|]. intros [= ->].
    destruct (eligible_boundary g b Hbs He) as (H0 & Hm & Hp). split_and!; try done.
    + intros p Hin. split; by apply Hp.
    + unfold eligible_resample_boundary in He. destruct (min_length _ _) as [[m|]|] eqn:Hmin; [|done|done].
      destruct (min_length_attained _ _ _ Hmin) as [?|(p & Hin & Hl)]; [done|]. exists p. split; [done|].
      destruct (_ =? 0); [done|]. injection He as <-. pose proof (Z.mod_pos_bound m _ Hbs).
      pose proof (Z_div_mod_eq_full m (gm_block_size (constants g))). nia.
  - intros (Hn & Hlast & H0 & Hmod & Hall & p & Hin & Hp). rewrite (proj2 (Z.eqb_neq _ _) Hn).
    destruct (min_length (particles g) None) as [[m|]|] eqn:Hmin.
    + assert (m / gm_block_size (constants g) * gm_block_size (constants g) = b) as Hb.
      { destruct (min_length_attained _ _ _ Hmin) as [?|(q & Hq & <-)]; [done|].
        destruct (min_length_spec _ None _ ltac:(done) Hmin) as (_ & Hle & _).
        pose proof (proj1 (Hle p Hin)). pose proof (proj2 (Hall q Hq)).
        apply Z.mod_divide in Hmod as [c ->]; [|lia]. f_equal.
        symmetry. apply (Z.div_unique_pos _ _ _ (len (token_ids q) - c * gm_block_size (constants g))); nia. }
      unfold eligible_resample_boundary. rewrite Hmin, Hb, (proj2 (Z.eqb_neq b 0)), (proj2 (Z.leb_gt _ _)) by lia. done.
    + destruct (particles g) as [|q ps]; [by apply elem_of_nil in Hin|]. cbn [min_length] in Hmin.
      destruct (done q); [done|]. exfalso. revert Hmin. destruct (_ =? 0); apply min_length_some.
    + exfalso. destruct (min_length_none _ _ Hmin) as (q & Hq & Hd). destruct (Hall q Hq). congruence.
Qed.

(** What stays when nothing is due. *)
Definition untouched (g g' : PowerSMCGroupManager) : Prop :=
  particles g' = particles g ∧ rng g' = rng g ∧ last_resample_plan g' = None ∧
  last_boundary_check_length g' = last_boundary_check_length g.

Definition check_outcome (g : PowerSMCGroupManager) (r : bool) (g' : PowerSMCGroupManager) : Prop :=
  constants g' = constants g ∧
  match due g with
  | Some b => checked (set_plan None g) b r g' ∧ last_boundary_check_length g' = b
  | None => r = false ∧ untouched g g'
  end.

Lemma group_ok_same g g' :
  constants g' = constants g → particles g' = particles g →
  last_boundary_check_length g' = last_boundary_check_length g → group_ok g → group_ok g'.
Proof. intros Hc Hp Hl [? ? ? ? ? ?]. constructor; by rewrite ?Hc, ?Hp, ?Hl. Qed.

Lemma group_block_size g : group_ok g → 0 < gm_block_size (constants g).
Proof. intros [Hk Hv _ _ _ _]. pose proof (valid_facts _ Hv) as (_ & ? & _). rewrite Hk. cbn. lia. Qed.

Lemma due_facts g b :
  group_ok g → due g = Some b →
  0 < b ∧ b mod gm_block_size (constants g) = 0 ∧ last_boundary_check_length g < b ∧
  ∀ p, p ∈ particles g → b ≤ len (token_ids p).
Proof.
  intros [Hk Hv _ _ _ _]. pose proof (valid_facts _ Hv) as (_ & Hbs & _).
  assert (0 < gm_block_size (constants g)) as Hgb by (rewrite Hk; cbn; lia).
  unfold due. destruct (_ =? 1); [done|]. destruct (eligible_resample_boundary g) as [[b'|] []] eqn:He; try done.
  destruct (Z.leb_spec b' (last_boundary_check_length g)); [done|]. intros [= <-].
  destruct (eligible_boundary g b' Hgb He) as (H0 & Hm & Hp). split_and!; [done..|].
  intros p Hin. by apply Hp.
Qed.

Lemma eligible_no_done g b : eligible_resample_boundary g = (Some b, true) → False.
Proof.
  unfold eligible_resample_boundary. destruct (min_length _ _) as [[m|]|]; try done. by destruct (_ =? 0).
Qed.

Lemma maybe_resample_ok g :
  group_ok g → ok maybe_resample g (check_outcome g).
Proof.
  intros Hok. unfold maybe_resample, check_outcome, record_resample_skip.
  ok_steps. cbn [constants set_plan set_gstats last_boundary_check_length].
  change (eligible_resample_boundary _) with (eligible_resample_boundary g).
  destruct (due g) as [b|] eqn:Hdue.
  - pose proof (due_facts g b Hok Hdue) as (Hb & Hm & Hl & Hp). unfold due in Hdue.
    destruct (_ =? 1); [done|]. destruct (eligible_resample_boundary g) as [[b'|] []]; try done.
    destruct (b' <=? _) eqn:Hle; [done|]. injection Hdue as ->.
    eapply ok_mono; [apply (resample_at_ok _ b)|]; [by eapply group_ok_same, Hok|done..|].
    intros r g' (Hc & Hk & Hlast). split; [done|]. split; [exact Hc|done].
  - unfold due in Hdue. destruct (_ =? 1); [by ok_steps|].
    destruct (eligible_resample_boundary g) as [[b'|] []]; [by ok_steps| |by ok_steps|by ok_steps].
    destruct (b' <=? _); [by ok_steps|done].
Qed.

(** ** The other operations *)

Lemma checked_particles g b r g' p :
  checked g b r g' → p ∈ particles g' → p ∈ particles g ∨
    r = true ∧ ∃ q st, q ∈ particles g ∧ state_at q b = Ok st ∧ p = continuation q b st.
Proof.
  intros (sts & ows & ess & _ & _ & _ & Hr) Hp. destruct r; [right|left; by destruct Hr as (<- & _)].
  split; [done|]. destruct Hr as (ws & anc & _ & _ & Hlen & _ & _ & Hl & Hspec).
  apply list_elem_of_lookup in Hp as [i Hi].
  destruct (lookup_lt_is_Some_2 anc i) as [a Ha]; [rewrite Hlen, <-Hl; by eapply lookup_lt_Some|].
  destruct (Hspec i a Ha) as (q & st & _ & Hq & Hst & Hc). rewrite Hi in Hc. injection Hc as ->.
  exists q, st. split_and!; [by eapply list_elem_of_lookup_2|done..].
Qed.

Lemma continuation_ok bs p b st :
  0 ≤ b ≤ len (token_ids p) → particle_ok bs b (continuation p b st).
Proof.
  intros Hb. assert (len (take (Z.to_nat b) (token_ids p)) = b) as Hl
    by (unfold len in *; rewrite length_take; lia).
  split; cbn; rewrite Hl; [lia|]. intros n Hn. lia.
Qed.

Lemma particle_ok_later bs last last' p : last ≤ last' → particle_ok bs last p → particle_ok bs last' p.
Proof. intros Hl [? ?]. split; [lia|done]. Qed.

Lemma check_outcome_ok g r g' : group_ok g → check_outcome g r g' → group_ok g'.
Proof.
  intros Hok (Hk & Hd). destruct (due g) as [b|] eqn:Hdue.
  - destruct Hd as (Hc & Hl). pose proof (due_facts g b Hok Hdue) as (Hb & _ & Hlast & Hp).
    destruct Hok as [? ? ? Hn ? Hps]. constructor; rewrite ?Hk; [done..| |lia|].
    + destruct Hc as (sts & ows & ess & _ & _ & _ & Hr). rewrite <-Hn. unfold len. f_equal.
      destruct r; [|by destruct Hr as (-> & _)]. by destruct Hr as (ws & anc & _ & _ & _ & _ & _ & -> & _).
    + intros p Hin. rewrite Hl. destruct (checked_particles _ _ _ _ _ Hc Hin) as [Hq|(_ & q & st & Hq & _ & ->)].
      * eapply particle_ok_later; [|by apply Hps]. lia.
      * apply continuation_ok. pose proof (Hp q Hq). lia.
  - destruct Hd as (_ & Hp & _ & _ & Hl). by eapply group_ok_same.
Qed.

Lemma update_after_token_ok g i p tok b q d f s :
  group_ok g → 0 ≤ i → particles g !! Z.to_nat i = Some p → done p = false →
  ok (update_after_token i tok b q d f s) g (λ r g', group_ok g' ∧ constants g' = constants g ∧
    rng g' = rng g ∧ last_resample_plan g' = last_resample_plan g ∧
    particles g' = <[Z.to_nat i := observe_token (constants g) tok b q d f s p]> (particles g) ∧
    r = ((len (token_ids p) + 1) mod gm_block_size (constants g) =? 0)).
Proof.
  intros [Hk Hv Hsc Hn Hl Hps] Hi Hp Hd. pose proof (valid_facts _ Hv) as (_ & Hbs & _).
  unfold update_after_token. ok_steps. rewrite py_nth_nonneg, Hp by done. cbn [or_raise]. ok_steps.
  rewrite Hd. ok_steps. cbn. rewrite py_set_nonneg by done. split_and!; [|done..].
  constructor; cbn; [done|done|done|by unfold len; rewrite length_insert|done|].
  intros p' Hp'. apply list_elem_of_lookup in Hp' as [j Hj].
  destruct (decide (j = Z.to_nat i)) as [->|Hne].
  - rewrite list_lookup_insert_eq in Hj by (by eapply lookup_lt_Some). injection Hj as <-.
    apply observe_token_ok; [rewrite Hk; cbn; lia|]. by eapply Hps, list_elem_of_lookup_2.
  - rewrite list_lookup_insert_ne in Hj by done. by eapply Hps, list_elem_of_lookup_2.
Qed.

Lemma max_summary_count lw lws st : (foldl (max_step lw) st lws).1.2 = st.1.2 + len lws.
Proof.
  revert st. induction lws as [|x l IH]; intros [[m c] e]; [cbn; rewrite len_nil; lia|].
  cbn [foldl]. rewrite IH, len_cons. cbn. lia.
Qed.

Lemma max_summary lws : lws ≠ [] →
  ∃ m eq, max_log_weight_and_uniform lws = Ok (m, len lws, eq).
Proof.
  destruct lws as [|lw lws]; [done|]. intros _. unfold max_log_weight_and_uniform.
  pose proof (max_summary_count lw lws (lw, 1, true)) as Hc.
  destruct (foldl _ _ lws) as [[m c] eq]. cbn in Hc. rewrite Hc, len_cons. by do 2 eexists.
Qed.

Lemma len_uniform (lws : list num) : len (uniform_weights (len lws)) = len lws.
Proof. unfold uniform_weights, len at 1. rewrite length_replicate. unfold len. lia. Qed.

Lemma normalize_ok lws : lws ≠ [] →
  ∃ ws ess, normalize_log_weights_and_ess lws = Ok (ws, ess) ∧ len ws = len lws.
Proof.
  intros Hne. destruct (max_summary lws Hne) as (m & eq & Hm). unfold normalize_log_weights_and_ess.
  rewrite Hm. cbn [rbind]. pose proof (len_uniform lws) as Hu. destruct eq; [by do 2 eexists|].
  unfold normalize_log_weights_and_ess_from_max.
  destruct (_ || _); do 2 eexists; (split; [done|]); [done|]. unfold unnormalized, len.
  by rewrite !length_fmap.
Qed.

Lemma normalize_log_weights_ok lws : lws ≠ [] → ∃ ws, normalize_log_weights lws = Ok ws.
Proof.
  intros Hne. destruct (max_summary lws Hne) as (m & eq & Hm). unfold normalize_log_weights.
  rewrite Hm. cbn [rbind]. destruct eq; [by eexists|]. destruct (_ || _); by eexists.
Qed.

Lemma sample_loop_range ws idx c d j : sample_loop ws idx c d = Some j → idx ≤ j < idx + len ws.
Proof.
  revert idx c. induction ws as [|w ws IH]; intros idx c; [done|]. cbn [sample_loop]. rewrite len_cons.
  pose proof (len_nonneg ws). destruct (nleb _ _); [intros [= <-]; lia|]. intros Hs%IH. lia.
Qed.

Lemma sample_index_range ws r : ws ≠ [] →
  ∃ j, sample_index ws r = (j, MkRng (draws r) (S (pos r))) ∧ 0 ≤ j < len ws.
Proof.
  intros Hne. assert (0 < len ws) by (unfold len; destruct ws; [done|simpl; lia]).
  unfold sample_index, rng_random. eexists. split; [done|].
  destruct (sample_loop _ _ _ _) as [j|] eqn:Hs; cbn; [|lia]. apply sample_loop_range in Hs. lia.
Qed.

Lemma group_nonempty g : group_ok g → log_weight <$> particles g ≠ [].
Proof.
  intros [Hk Hv _ Hn _ _] He. apply fmap_nil_inv in He. pose proof (valid_facts _ Hv) as (Hp & _).
  rewrite He, len_nil, Hk in Hn. cbn [group_constants particle_count] in Hn. lia.
Qed.

Lemma final_select_ok g :
  group_ok g → ok final_select g (λ c g', group_ok g' ∧ particles g' = particles g ∧
    constants g' = constants g ∧ 0 ≤ c < len (particles g) ∧ chosen_particle g' = Some c ∧
    ∃ ws ess, normalize_log_weights_and_ess (log_weight <$> particles g) = Ok (ws, ess) ∧
      sample_index ws (rng g) = (c, rng g') ∧ chosen_final_ess g' = Some ess).
Proof.
  intros Hok. destruct (normalize_ok _ (group_nonempty g Hok)) as (ws & ess & Hws & Hlen).
  unfold final_select. ok_steps. eapply ok_eq; [unfold of_res; by rewrite Hws|].
  destruct (sample_index_range ws (rng g)) as (j & Hj & Hr).
  { intros ->. apply (group_nonempty g Hok), length_zero_iff_nil. rewrite len_nil in Hlen. unfold len in Hlen. lia. }
  ok_steps. cbn [rng set_chosen]. rewrite Hj. ok_steps. unfold len in *. rewrite length_fmap in Hlen. split_and!; [|done|done|lia|lia|done|].
  { by eapply group_ok_same, Hok. }
  by exists ws, ess.
Qed.

(** What [diagnostics] may raise: the exceptions of [int] on a value of a
    recorded event, and those of [math.fsum]. *)
Definition diagnostics_raises (ps : PyParse) (g : PowerSMCGroupManager) (e : exn) : Prop :=
  (∃ ev key, ev ∈ kv_resample_events (stats g) ∧ key ∈ kv_total_keys ∧ event_int ps ev key = Err e) ∨
  nfsum_any (ess_history (stats g)) = Err e ∨ nfsum_any (log_weight <$> particles g) = Err e.

Lemma event_ints_err ps ev keys e : event_ints ps ev keys = Err e → ∃ key, key ∈ keys ∧ event_int ps ev key = Err e.
Proof.
  induction keys as [|key keys IH]; [done|]. cbn. destruct (event_int ps ev key) as [n|e'] eqn:Hk; cbn.
  - destruct (event_ints ps ev keys) as [|e']; [done|]. cbn. intros [= ->]. destruct (IH eq_refl) as (k & ? & ?). exists k. split; [by right|done].
  - intros [= ->]. exists key. split; [by left|done].
Qed.

Lemma event_totals_err ps events totals e : event_totals ps events totals = Err e →
  ∃ ev key, ev ∈ events ∧ key ∈ kv_total_keys ∧ event_int ps ev key = Err e.
Proof.
  revert totals. induction events as [|ev events IH]; [done|]. intros totals. cbn [event_totals].
  destruct (event_ints ps ev kv_total_keys) as [ns|e'] eqn:He; cbn [rbind].
  - intros (ev' & key & ? & ?)%IH. exists ev', key. split; [by right|done].
  - intros [= ->]. destruct (event_ints_err _ _ _ _ He) as (key & ? & ?). exists ev, key. split; [by left|done].
Qed.

Lemma ends_of_res {S B} (r : res B) (s : S) (Q : B → S → Prop) (E : exn → S → Prop) :
  (∀ b, r = Ok b → Q b s) → (∀ e, r = Err e → E e s) → ends (of_res r) s Q E.
Proof. unfold ends, of_res. destruct r; auto. Qed.

Lemma diagnostics_ends ps g : group_ok g →
  ends (diagnostics ps) g (λ _ g', g' = g) (λ e g', g' = g ∧ diagnostics_raises ps g e).
Proof.
  intros Hok. unfold diagnostics. apply ends_bind, ok_ends, ok_gets, ends_bind, ok_ends.
  eapply ok_mono with (P := λ _ g', g' = g).
  { destruct (chosen_final_ess g); [by ok_steps|]. destruct (normalize_ok _ (group_nonempty g Hok)) as (ws & ess & Hws & _).
    ok_steps. eapply ok_eq; [unfold of_res; by rewrite Hws|]. by ok_steps. }
  intros final_ess g' ->. apply ends_bind, ends_of_res; [intros totals _|by intros e (ev & key & ?)%event_totals_err; split; [|left; exists ev, key]].
  apply ends_bind. eapply ends_mono with (P := λ _ g', g' = g).
  { destruct (ess_history (stats g)) as [|x l] eqn:Hh; [done|].
    apply ends_bind, ends_of_res; [done|]. intros e He. split; [done|]. right; left. by rewrite Hh. }
  intros mean_ess g' ->. apply ends_bind, ends_of_res; [done|]. intros e He. split; [done|]. by right; right.
Qed.

(** ** A new group *)

Lemma group_init_inv c r g : PowerSMCGroupManager_init c r = Ok g →
  validate_self c = Ok tt ∧ (∀ r', PowerSMCGroupManager_init c r' = Ok (set_rng r' g)) ∧
  g = MkGroup (group_constants c) r (replicate (Z.to_nat (particles_n c)) new_particle)
        (MkGStats 0 [] [] [] [] 0 0 ∅) 0 None None None.
Proof.
  unfold PowerSMCGroupManager_init. destruct (validate_self c) as [[]|]; [|done]. cbn [rbind].
  destruct (float_of_int (particles_n c)); [|done]. cbn [rbind].
  destruct (if _ <=? _ then _ else _); [|done]. cbn [rbind]. intros [= <-]. done.
Qed.

(** ** A particle's tokens *)

(** Tokens, each with its base and proposal log probability. *)
Definition observe_all (k : GroupConstants) (toks : list (Z * num * num)) (p : PowerSMCParticleState)
  : PowerSMCParticleState :=
  foldl (λ p t, observe_token k t.1.1 t.1.2 t.2 false None None p) p toks.

Lemma observe_all_snoc k toks t p :
  observe_all k (toks ++ [t]) p = observe_token k t.1.1 t.1.2 t.2 false None None (observe_all k toks p).
Proof. unfold observe_all. by rewrite foldl_app. Qed.

Lemma observe_token_token_ids k tok b q d f s p :
  token_ids (observe_token k tok b q d f s p) = token_ids p ++ [tok].
Proof. unfold observe_token. by destruct (update_log_weight _ _ _ _ _ _) as [[lw cl] al]. Qed.

Lemma observe_all_token_ids k toks p : token_ids (observe_all k toks p) = token_ids p ++ ((λ t, t.1.1) <$> toks).
Proof.
  induction toks as [|t toks IH] using rev_ind; [by rewrite app_nil_r|].
  by rewrite observe_all_snoc, observe_token_token_ids, IH, fmap_app, <-app_assoc.
Qed.

Lemma len_observe_all k toks p : len (token_ids (observe_all k toks p)) = len (token_ids p) + len toks.
Proof. rewrite observe_all_token_ids, len_app. unfold len. by rewrite length_fmap. Qed.

Definition weights_of (p : PowerSMCParticleState) : num * num * num := (log_weight p, cum_logp p, prev_alpha p).

(** [p] was just created, or continues an ancestor. *)
Record starts (p : PowerSMCParticleState) : Prop := {
  st_length : history_start_length p = len (token_ids p);
  st_state : history_start_state p = weights_of p;
  st_history : boundary_state_history p = [];
  st_origin : token_ids p = [] → weights_of p = (of_Z 0, of_Z 0, of_Z 1)
}.

Lemma new_particle_starts : starts new_particle.
Proof. by constructor. Qed.

Lemma continuation_starts p b st : 0 < b ≤ len (token_ids p) → starts (continuation p b st).
Proof.
  intros Hb. assert (len (take (Z.to_nat b) (token_ids p)) = b) as Hl
    by (unfold len in *; rewrite length_take; lia).
  constructor; cbn; [by rewrite Hl|done|done|]. intros Hnil. rewrite Hnil, len_nil in Hl. lia.
Qed.

Lemma observe_token_fields k tok b q d f s p :
  let p' := observe_token k tok b q d f s p in
  history_start_length p' = history_start_length p ∧ history_start_state p' = history_start_state p ∧
  boundary_state_history p' =
    if (len (token_ids p) + 1) mod gm_block_size k =? 0
    then boundary_state_history p ++ [(len (token_ids p) + 1, weights_of p')] else boundary_state_history p.
Proof. unfold observe_token, weights_of. by destruct (update_log_weight _ _ _ _ _ _) as [[lw cl] al]. Qed.

(** One more token leaves the recorded states as they were. *)
Lemma state_at_snoc k tok b q p n st :
  0 < gm_block_size k → 0 < n ≤ len (token_ids p) → n mod gm_block_size k = 0 ∨ n = history_start_length p →
  (n = len (token_ids p) → history_start_length p = n ∧ history_start_state p = weights_of p ∨
    history_start_length p < n ∧ history_lookup (boundary_state_history p) n = Some (weights_of p)) →
  state_at p n = Ok st → state_at (observe_token k tok b q false None None p) n = Ok st.
Proof.
  intros Hbs Hn Hm Hcur. pose proof (observe_token_fields k tok b q false None None p) as (Hl & Hs & Hh).
  unfold state_at. rewrite observe_token_token_ids, len_app, Hl, Hs, Hh. change (len [tok]) with 1.
  rewrite (proj2 (Z.eqb_neq n (len (token_ids p) + 1))) by lia.
  assert (∀ h, history_lookup (if (len (token_ids p) + 1) mod gm_block_size k =? 0
    then h ++ [(len (token_ids p) + 1, weights_of (observe_token k tok b q false None None p))] else h) n
    = history_lookup h n) as Hlook.
  { intros h. destruct (_ =? 0); [|done]. rewrite history_lookup_app.
    by rewrite (proj2 (Z.eqb_neq (len (token_ids p) + 1) n)) by lia. }
  rewrite Hlook, (proj2 (Z.leb_gt n 0)) by lia.
  destruct (Z.eqb_spec n (len (token_ids p))) as [He|He]; [|done].
  intros [= <-]. destruct (Hcur He) as [(-> & Hst)|(Hlt & Hst)].
  - by rewrite Z.eqb_refl, Hst.
  - rewrite (proj2 (Z.eqb_neq n (history_start_length p))), (proj2 (Z.ltb_ge n (history_start_length p))) by lia.
    by rewrite Hst.
Qed.

Lemma history_start_observe k toks p :
  history_start_length (observe_all k toks p) = history_start_length p ∧
  history_start_state (observe_all k toks p) = history_start_state p.
Proof.
  induction toks as [|t toks [IH1 IH2]] using rev_ind; [done|]. rewrite observe_all_snoc.
  pose proof (observe_token_fields k t.1.1 t.1.2 t.2 false None None (observe_all k toks p)) as (-> & -> & _). done.
Qed.

(** The state at the current length is recorded, at a boundary. *)
Lemma observe_all_current k toks p :
  starts p → (len (token_ids p) + len toks) mod gm_block_size k = 0 ∨ toks = [] →
  let p' := observe_all k toks p in
  history_start_length p' = len (token_ids p) ∧ history_start_state p' = weights_of p ∧
  (toks ≠ [] → history_lookup (boundary_state_history p') (len (token_ids p')) = Some (weights_of p')).
Proof.
  intros [Hl Hs _ _]. destruct (history_start_observe k toks p) as [H1 H2]. rewrite Hl in H1. rewrite Hs in H2.
  intros Hm. cbv zeta. split_and!; [done..|]. intros Hne.
  destruct toks as [|t toks _] using rev_ind; [done|]. destruct Hm as [Hm|Hm]; [|by destruct toks].
  rewrite len_app in Hm. change (len [t]) with 1 in Hm. rewrite observe_all_snoc.
  pose proof (observe_token_fields k t.1.1 t.1.2 t.2 false None None (observe_all k toks p)) as (_ & _ & ->).
  rewrite observe_token_token_ids, len_app. change (len [t.1.1]) with 1. rewrite len_observe_all.
  replace (len (token_ids p) + len toks + 1) with (len (token_ids p) + (len toks + 1)) by lia.
  rewrite Hm, Z.eqb_refl, history_lookup_app, Z.eqb_refl. done.
Qed.
End generic.
