(* ===== verification/PowerSMCGroup.v ===== *)
(** * Power-SMC: histories of a particle group

    The calls made on a [PowerSMCGroupManager], what holds after any sequence of
    them, and what one resampling check does. *)

From Stdlib Require Import Sorted SpecFloat.
From S2P Require Import Prelude Arith PowerSMC PowerSMCProps.
Open Scope Z_scope.

Section machine.
Context {A : Arith}.

Inductive smc_op : Type :=
| SToken (i tok : Z) (base_logp proposal_logq : num) (is_done : bool) (finish : option string)
    (stop : option stop_val)
| SResample
| SSelect
| SWeights
| SDiagnostics (ps : PyParse)
| SKvEvent (e : gmap string pyval).

Definition run_smc_op (o : smc_op) : M PowerSMCGroupManager unit :=
  match o with
  | SToken i tok b q d f s => let* _ := update_after_token i tok b q d f s in ret tt
  | SResample => let* _ := maybe_resample in ret tt
  | SSelect => let* _ := final_select in ret tt
  | SWeights => let* _ := normalized_weights in ret tt
  | SDiagnostics ps => let* _ := diagnostics ps in ret tt
  | SKvEvent e => record_kv_resample_event e
  end.

(** A token goes to a particle of the group that is not done. *)
Definition smc_legal (g : PowerSMCGroupManager) (o : smc_op) : Prop :=
  match o with
  | SToken i _ _ _ _ _ _ => 0 ≤ i ∧ ∃ p, particles g !! Z.to_nat i = Some p ∧ done p = false
  | _ => True
  end.

Inductive group_reachable : PowerSMCGroupManager → Prop :=
| group_new c r g :
    threshold_scales c = true → PowerSMCGroupManager_init c r = Ok g → group_reachable g
| group_call g o g' :
    group_reachable g → smc_legal g o → run_smc_op o g = (Ok tt, g') → group_reachable g'.

Lemma init_ok c r g :
  threshold_scales c = true → PowerSMCGroupManager_init c r = Ok g → group_ok g.
Proof.
  intros Ht (Hv & _ & ->)%group_init_inv. pose proof (valid_facts c Hv) as (Hp & _).
  constructor; cbn; [done|done|done| |lia|].
  - unfold len. rewrite length_replicate. lia.
  - intros p (-> & _)%elem_of_replicate. split; [by cbn|]. intros n [Hn1 Hn2]. change (n ≤ 0) in Hn2. change (0 < n) in Hn1. lia.
Qed.

(** The exceptions a call may end in. *)
Definition smc_raises (g : PowerSMCGroupManager) (o : smc_op) (e : exn) : Prop :=
  match o with SDiagnostics ps => diagnostics_raises ps g e | _ => False end.

Lemma run_smc_op_ends g o : group_ok g → smc_legal g o →
  ends (run_smc_op o) g (λ _ g', group_ok g' ∧ constants g' = constants g) (λ e g', g' = g ∧ smc_raises g o e).
Proof.
  intros Hg Hl. destruct o; cbn [run_smc_op]; [apply ok_ends..| |apply ok_ends].
  - destruct Hl as (Hi & p & Hp & Hd). ok_step.
    eapply ok_mono; [by apply (update_after_token_ok g i p)|]. intros r g' (Hok & Hc & _). by ok_step.
  - ok_step. eapply ok_mono; [by apply maybe_resample_ok|]. intros r g' Hc. ok_step.
    split; [by eapply check_outcome_ok|apply Hc].
  - ok_step. eapply ok_mono; [by apply final_select_ok|]. intros c g' (Hok & _ & Hc & _). by ok_step.
  - destruct (normalize_log_weights_ok _ (group_nonempty g Hg)) as (ws & Hws).
    unfold normalized_weights. ok_steps. eapply ok_eq; [unfold of_res; by rewrite Hws|]. by ok_step.
  - apply ends_bind. eapply ends_mono; [by apply diagnostics_ends|]. by intros d g' ->.
  - unfold record_kv_resample_event. ok_step. split; [by eapply group_ok_same, Hg|done].
Qed.

Lemma reachable_ok g : group_reachable g → group_ok g.
Proof.
  induction 1 as [c r g Ht Hi|g o g' _ IH Hl Hrun]; [by eapply init_ok|].
  pose proof (run_smc_op_ends g o IH Hl) as Hok. unfold ends in Hok. rewrite Hrun in Hok. apply Hok.
Qed.
End machine.

(** ** A group of two particles with one-token blocks, in double precision *)

Section demo.
Definition half : spec_float := SFdiv 53 1024 (f64_of_Z 1) (f64_of_Z 2).
(** An exponential that gives the two particles below weights 2/3 and 1/3. *)
Definition demo_exp (x : spec_float) : spec_float := if SFeqb x (f64_of_Z 0) then f64_of_Z 1 else half.
Definition demo_arith : Arith := binary64 demo_exp.
#[local] Existing Instance demo_arith.

Definition tenths (n : Z) : spec_float := SFdiv 53 1024 (f64_of_Z n) (f64_of_Z 10).
Definition demo_config : PowerSMCConfig :=
  MkSMC true (f64_of_Z 4) 2 1 (f64_of_Z 1) 1 (PStr "power_temperature") false true false.
Definition demo_rng : Rng := MkRng (λ _, tenths 1) 0.
(** Particle 0 draws a token of log probability -1, particle 1 one of -3. *)
Definition demo_tokens : list smc_op :=
  [SToken 0 7 (f64_of_Z (-1)) (f64_of_Z (-2)) false None None;
   SToken 1 9 (f64_of_Z (-3)) (f64_of_Z (-2)) false None None].
Fixpoint demo_run (ops : list smc_op) (g : PowerSMCGroupManager) : res PowerSMCGroupManager :=
  match ops with
  | [] => Ok g
  | o :: ops' => match run_smc_op o g with (Ok _, g') => demo_run ops' g' | (Err e, _) => Err e end
  end.
Definition demo_group (ops : list smc_op) : res PowerSMCGroupManager :=
  rbind (PowerSMCGroupManager_init demo_config demo_rng) (λ g,
demo_run ops g).
End demo.

Section properties.
Context {A : Arith}.

(** C5: a group keeps its number of particles, can give every particle's state
    at each block boundary that is still to be checked, and every legal call on
    it returns: no assertion, no missing boundary state, no empty weight list.
    [diagnostics] alone may raise, and only in two ways, both of which leave the
    group as it was: [int] fails on a value of a recorded event, or [math.fsum]
    fails on the log weights or on the recorded sample sizes (opposite
    infinities, an overflow). *)
Theorem group_invariant g :
  group_reachable g →
  len (particles g) = particles_n (config (constants g)) ∧
  (∀ p n, p ∈ particles g → last_boundary_check_length g < n ≤ len (token_ids p) →
    n mod smc_block_size (config (constants g)) = 0 → ∃ st, state_at p n = Ok st) ∧
  ∀ o, smc_legal g o → match run_smc_op o g with
    | (Ok _, g') => constants g' = constants g ∧ group_reachable g'
    | (Err e, g') => g' = g ∧ ∃ ps, o = SDiagnostics ps ∧
        ((∃ ev key, ev ∈ kv_resample_events (stats g) ∧ key ∈ kv_total_keys ∧ event_int ps ev key = Err e) ∨
         nfsum_any (ess_history (stats g)) = Err e ∨ nfsum_any (log_weight <$> particles g) = Err e)
    end.
Proof.
  intros Hr. pose proof (reachable_ok g Hr) as Hg. pose proof Hg as [Hk Hv _ Hn _ Hps]. split_and!.
  - rewrite Hn. by rewrite Hk at 1.
  - intros p n Hp Hl Hm. apply (state_at_ok (gm_block_size (constants g)) (last_boundary_check_length g)).
    + by apply Hps.
    + by rewrite Hk.
    + lia.
  - intros o Hl. pose proof (run_smc_op_ends g o Hg Hl) as He. unfold ends in He.
    destruct (run_smc_op o g) as [[[]|e] g'] eqn:Hrun; [split; [apply He|exact (group_call g o g' Hr Hl Hrun)]|].
    destruct He as [-> He]. split; [done|]. destruct o; try done. by eexists.
Qed.

(** C9: [maybe_resample] returns on every group. When there are several
    particles, no particle is done and every particle has reached a block boundary
    that was not checked before, it resamples exactly when the effective sample
    size of the weights at that boundary is below the threshold: the ancestors
    come from systematic resampling, in order, and particle [i] continues the
    boundary prefix of its ancestor with a zero log weight. Otherwise (one
    particle, a particle that is done, or no new boundary) the particles and the
    generator are unchanged and there is no plan. *)
Theorem maybe_resample_spec g :
  group_reachable g → ∃ r g', maybe_resample g = (Ok r, g') ∧ constants g' = constants g ∧
    (∀ b, newly_reached g b → checked (set_plan None g) b r g' ∧ last_boundary_check_length g' = b) ∧
    ((∀ b, ¬ newly_reached g b) → r = false ∧ untouched g g').
Proof.
  intros Hr%reachable_ok. destruct (ok_inv _ _ _ (maybe_resample_ok g Hr)) as (r & g' & Hrun & Hc & Hd).
  pose proof (λ b, due_newly_reached g b (group_block_size g Hr)) as Hdue.
  exists r, g'. split; [done|]. split; [done|]. split.
  - intros b Hb. apply Hdue in Hb. by rewrite Hb in Hd.
  - intros Hno. destruct (due g) as [b|] eqn:Hb; [|done]. destruct (Hno b). by apply Hdue.
Qed.

(** The state a particle reports for a block boundary is the one it had
    when it was that long, however many tokens it has observed since; the same
    holds at the length it was created or resampled with. *)
Theorem boundary_state_recorded k toks toks' p :
  0 < gm_block_size k → starts p →
  let n := len (token_ids p) + len toks in
  n mod gm_block_size k = 0 ∨ toks = [] →
  state_at (observe_all k (toks ++ toks') p) n = Ok (weights_of (observe_all k toks p)).
Proof.
  intros Hbs Hp n Hm. destruct (observe_all_current k toks p Hp Hm) as (Hl & Hs & Hh).
  pose proof (len_nonneg toks). pose proof (len_nonneg (token_ids p)).
  assert (len (token_ids (observe_all k toks p)) = n) as Hn by apply len_observe_all.
  destruct (decide (n = 0)) as [Hn0|Hn0].
  - assert (toks = []) as -> by (apply length_zero_iff_nil; unfold len in *; lia).
    assert (token_ids p = []) as Ht by (apply length_zero_iff_nil; unfold len in *; lia).
    rewrite Hn0. unfold state_at. rewrite len_observe_all, Ht. destruct toks' as [|t toks']; [done|].
    rewrite (proj2 (Z.eqb_neq _ _)) by (unfold len; cbn [length app]; lia).
    cbn. f_equal. symmetry. by apply st_origin.
  - induction toks' as [|t toks' IH] using rev_ind.
    { rewrite app_nil_r. unfold state_at. by rewrite Hn, Z.eqb_refl. }
    rewrite app_assoc, observe_all_snoc. pose proof (len_nonneg toks').
    apply state_at_snoc; [done|rewrite len_observe_all, len_app; lia| | |exact IH].
    + destruct Hm as [Hm| ->]; [by left|right].
      rewrite (proj1 (history_start_observe k _ p)). unfold n. rewrite len_nil, (st_length p Hp). lia.
    + intros He. rewrite len_observe_all, len_app in He.
      assert (len toks' = 0) as H2 by (unfold n in He; lia).
      assert (toks' = []) as -> by (apply length_zero_iff_nil; unfold len in H2; lia). rewrite app_nil_r, Hl, Hs.
      destruct toks as [|t0 toks]; [left|right].
      * unfold n. rewrite len_nil. split; [lia|]. done.
      * split; [unfold n; rewrite len_cons; pose proof (len_nonneg toks); lia|]. rewrite <-Hn. by apply Hh.
Qed.
End properties.

Section witnesses.
#[local] Existing Instance demo_arith.

(** Before the second token the group waits; after it, resampling is due. *)
Example demo_due :
  match demo_group (take 1 demo_tokens), demo_group demo_tokens with
  | Ok g1, Ok g2 => due g1 = None ∧ due g2 = Some 1
  | _, _ => False
  end.
Proof. vm_compute. done. Qed.

Definition demo_g : PowerSMCGroupManager :=
  match demo_group demo_tokens with Ok g => g | Err _ => MkGroup (group_constants demo_config) demo_rng [] (MkGStats 0 [] [] [] [] 0 0 ∅) 0 None None None end.

Lemma demo_reachable : group_reachable demo_g.
Proof.
  assert (∃ g0, PowerSMCGroupManager_init demo_config demo_rng = Ok g0) as [g0 H0] by (by eexists).
  pose proof (group_new demo_config demo_rng g0 eq_refl H0) as Hr0.
  assert (∃ g1, run_smc_op (SToken 0 7 (f64_of_Z (-1)) (f64_of_Z (-2)) false None None) g0 = (Ok tt, g1))
    as [g1 H1] by (injection H0 as <-; by eexists).
  assert (group_reachable g1) as Hr1.
  { eapply group_call; [exact Hr0| |exact H1]. injection H0 as <-. split; [done|]. by eexists. }
  eapply group_call; [exact Hr1| |].
  2: { instantiate (1 := SToken 1 9 (f64_of_Z (-3)) (f64_of_Z (-2)) false None None).
       injection H0 as <-. injection H1 as <-. reflexivity. }
  injection H0 as <-. injection H1 as <-. split; [done|]. by eexists.
Qed.

Lemma group_invariant_witness :
  ∃ p st, p ∈ particles demo_g ∧ state_at p 1 = Ok st ∧ len (particles demo_g) = 2.
Proof.
  destruct (group_invariant demo_g demo_reachable) as (Hn & Hs & _).
  assert (∃ p, particles demo_g !! 0%nat = Some p) as [p Hp] by (by eexists).
  assert (p ∈ particles demo_g) as Hin by (by eapply list_elem_of_lookup_2).
  destruct (Hs p 1 Hin) as [st Hst]; [injection Hp as <-; vm_compute; done|done|].
  exists p, st. split_and!; [done|done|exact Hn].
Defined.

(** Resampling takes place: both particles continue particle 0's token. *)
Lemma maybe_resample_spec_witness :
  ∃ g', maybe_resample demo_g = (Ok true, g') ∧ token_ids <$> particles g' = [[7]; [7]] ∧
    checked (set_plan None demo_g) 1 true g'.
Proof.
  destruct (maybe_resample_spec demo_g demo_reachable) as (r & g' & Hrun & _ & Hc & _).
  assert ((maybe_resample demo_g).1 = Ok true) as Hr by (vm_compute; reflexivity).
  assert (token_ids <$> particles (maybe_resample demo_g).2 = [[7]; [7]]) as Ht by (vm_compute; reflexivity).
  rewrite Hrun in Hr, Ht. injection Hr as ->.
  exists g'. split; [exact Hrun|split; [exact Ht|]]. apply (Hc 1).
  apply due_newly_reached; [reflexivity|]. vm_compute. reflexivity.
Defined.

Lemma boundary_state_recorded_witness :
  let t b := (7, f64_of_Z b, f64_of_Z (-2)) in
  state_at (observe_all (group_constants demo_config) [t (-1); t (-3); t (-5)] new_particle) 1 =
  Ok (weights_of (observe_all (group_constants demo_config) [t (-1)] new_particle)).
Proof.
  intros t. exact (boundary_state_recorded (group_constants demo_config) [t (-1)] [t (-3); t (-5)] new_particle
    eq_refl new_particle_starts (or_introl eq_refl)).
Defined.
End witnesses.
