(* ===== verification/PowerSMCStats.v ===== *)
(** * Power-SMC: what the weights and the resampling compute

    In exact arithmetic the normalised weights are the softmax of the log
    weights, the effective sample size lies between one and the number of
    particles, systematic resampling copies every particle as often as its
    weight asks for, up to one, and a log weight is the logarithm of the target
    [p ** alpha] over the proposal. *)

From Stdlib Require Import Sorted Reals Lra.
From S2P Require Import Prelude Arith PowerSMC PowerSMCProps.
Open Scope Z_scope.

#[local] Existing Instance exact_reals.

Lemma threshold_scales_exact (c : PowerSMCConfig) :
  validate_self c = Ok tt → threshold_scales c = true.
Proof.
  intros Hv. destruct (valid_facts c Hv) as (Hp & _ & _ & _ & _ & Ht & _).
  cbn in Ht. apply Rleb_true in Ht. unfold threshold_scales. cbn. apply Rleb_true.
  assert (0 <= IZR (particles_n c))%R by (apply IZR_le; lia). nra.
Qed.

Section weights.
Local Open Scope R_scope.

Definition softmax (lws : list R) : list R := (λ w, exp w / Rsum (exp <$> lws)) <$> lws.
Definition ess_of (ws : list R) : R := 1 / Rsum ((λ w, w * w) <$> ws).

Lemma Rsum_fmap_ext {B} (f g : B → R) l : (∀ x, x ∈ l → f x = g x) → Rsum (f <$> l) = Rsum (g <$> l).
Proof.
  induction l as [|x l IH]; intros Hfg; [done|]. rewrite !fmap_cons, !Rsum_cons.
  rewrite (Hfg x) by left. rewrite IH; [done|]. intros y Hy. apply Hfg. by right.
Qed.

Lemma Rsum_div c l : Rsum ((λ x, x / c) <$> l) = Rsum l / c.
Proof. induction l as [|x l IH]; [cbn; unfold Rdiv; ring|]. rewrite fmap_cons, !Rsum_cons, IH. unfold Rdiv. ring. Qed.

Lemma Rsum_const {B} c (l : list B) : Rsum ((λ _, c) <$> l) = IZR (len l) * c.
Proof.
  induction l as [|x l IH]; [change (0 = 0 * c); ring|]. rewrite fmap_cons, Rsum_cons, IH, len_cons, plus_IZR. ring.
Qed.

Lemma Rsum_pos l : l ≠ [] → (∀ x, x ∈ l → 0 < x) → 0 < Rsum l.
Proof.
  destruct l as [|x l]; [done|]. intros _ Hl. rewrite Rsum_cons. pose proof (Hl x ltac:(left)).
  assert (0 <= Rsum l); [|lra]. apply Rsum_nonneg. intros y Hy. apply Rlt_le, Hl. by right.
Qed.

Lemma exp_sum_pos lws : lws ≠ [] → 0 < Rsum (exp <$> lws).
Proof.
  intros Hne. apply Rsum_pos; [by intros ?%fmap_nil_inv|]. intros x (w & -> & _)%list_elem_of_fmap. apply exp_pos.
Qed.

Lemma softmax_pos lws w : w ∈ softmax lws → 0 < w.
Proof.
  intros (lw & -> & Hin)%list_elem_of_fmap. apply Rdiv_lt_0_compat; [apply exp_pos|].
  apply exp_sum_pos. by intros ->; apply elem_of_nil in Hin.
Qed.

Lemma softmax_sum lws : lws ≠ [] → Rsum (softmax lws) = 1.
Proof.
  intros Hne. assert (softmax lws = (λ x, x / Rsum (exp <$> lws)) <$> (exp <$> lws)) as ->
    by (by rewrite <-list_fmap_compose). rewrite Rsum_div.
  pose proof (exp_sum_pos lws Hne). unfold Rdiv. apply Rinv_r. lra.
Qed.

(** Shifting all log weights leaves the softmax unchanged. *)
Lemma shift_softmax lws m :
  lws ≠ [] → (λ w, w / Rsum (unnormalized lws m)) <$> unnormalized lws m = softmax lws.
Proof.
  intros Hne. pose proof (exp_sum_pos lws Hne) as Hs. unfold softmax, unnormalized. cbn [nexp nsub num exact_reals].
  rewrite <-list_fmap_compose. apply list_fmap_ext. intros _ w _. unfold compose.
  rewrite (Rsum_fmap_ext (λ w, exp (w - m)) (λ w, exp w * exp (- m))).
  2: { intros x _. by rewrite <-exp_plus. }
  assert (Rsum ((λ w, exp w * exp (- m)) <$> lws) = exp (- m) * Rsum (exp <$> lws)) as ->.
  { rewrite <-Rsum_scale, <-list_fmap_compose. apply Rsum_fmap_ext. intros x _. unfold compose. ring. }
  unfold Rminus. rewrite exp_plus. pose proof (exp_pos (- m)). field. split; lra.
Qed.

Lemma unnormalized_pos lws m : lws ≠ [] → 0 < Rsum (unnormalized lws m).
Proof.
  intros Hne. apply Rsum_pos; [by intros ?%fmap_nil_inv|]. intros x (w & -> & _)%list_elem_of_fmap. apply exp_pos.
Qed.

Lemma all_equal_eq (lw : R) lws st :
  (foldl (max_step lw) st lws).2 = true → ∀ w, w ∈ lws → w = lw.
Proof.
  revert st. induction lws as [|x lws IH]; intros [[m c] e] He w Hw; [by apply elem_of_nil in Hw|].
  cbn [foldl] in He. apply elem_of_cons in Hw as [->|Hw]; [|by eapply IH]. clear IH.
  assert (∀ l st, (foldl (max_step lw) st l).2 = true → st.2 = true) as Hmono.
  { clear. induction l as [|y l IH]; intros [[m c] e]; [done|]. cbn [foldl]. intros [H1 _]%IH%andb_true_iff. done. }
  apply Hmono in He. cbn in He. apply andb_true_iff in He as [_ He]. by apply Reqb_true.
Qed.

Lemma max_all_equal lws : lws ≠ [] →
  ∃ m eq, max_log_weight_and_uniform lws = Ok (m, len lws, eq) ∧
    (eq = true → ∃ lw, ∀ w, w ∈ lws → w = lw).
Proof.
  intros Hne. destruct (max_summary lws Hne) as (m & eq & Hm). exists m, eq. split; [done|]. intros ->.
  destruct lws as [|lw lws]; [done|]. exists lw. unfold max_log_weight_and_uniform in Hm.
  pose proof (all_equal_eq lw lws (lw, 1%Z, true)) as Hall. destruct (foldl _ _ lws) as [[m' c] e].
  injection Hm as -> _ ->. intros w [->|Hw]%elem_of_cons; [done|]. by apply Hall.
Qed.

Lemma weigh_cases k lws : lws ≠ [] → ∃ m,
  (weigh k lws = Ok (None, IZR (particle_count k)) ∧ ∃ lw, ∀ w, w ∈ lws → w = lw) ∨
  weigh k lws = (let '(ws, ess) := normalize_log_weights_and_ess_from_max lws m (particle_count k) in
                 Ok (Some ws, ess)).
Proof.
  destruct lws as [|lw lws]; [done|]. intros _. unfold weigh, weight_summary. cbn [rbind].
  destruct (foldl _ _ lws) as [m e] eqn:Hf. exists m. destruct e; [|by right]. left. split; [done|].
  exists lw. intros w [->|Hw]%elem_of_cons; [done|].
  assert (∀ l st st', foldl (λ (st : R * bool) w, (if Rltb st.1 w then w else st.1, st.2 && Reqb w lw)) st l = st' →
    st'.2 = true → st.2 = true ∧ ∀ w, w ∈ l → w = lw) as Hg.
  { clear. induction l as [|x l IH]; intros st st' Hst Htrue.
    - cbn in Hst. subst. split; [done|]. by intros w ?%elem_of_nil.
    - cbn [foldl] in Hst. destruct (IH _ _ Hst Htrue) as [[Hs Hx%Reqb_true]%andb_true_iff Hl].
      split; [done|]. by intros w [->|Hw]%elem_of_cons; [|apply Hl]. }
  by apply (Hg lws _ _ Hf eq_refl).
Qed.

Lemma uniform_softmax lw lws :
  lws ≠ [] → (∀ w, w ∈ lws → w = lw) → uniform_weights (len lws) = softmax lws.
Proof.
  intros Hne Heq. unfold uniform_weights, softmax. cbn [ndiv of_Z num exact_reals].
  rewrite (Rsum_fmap_ext exp (λ _, exp lw)), Rsum_const by (intros x Hx; by rewrite (Heq x Hx)).
  assert (IZR (len lws) ≠ 0). { apply not_0_IZR. unfold len. destruct lws; [done|simpl; lia]. }
  unfold len at 1. rewrite Nat2Z.id.
  assert (∀ l, (∀ w, w ∈ l → w = lw) →
    replicate (length l) (1 / IZR (len lws)) = (λ w, exp w / (IZR (len lws) * exp lw)) <$> l) as Hg; [|by apply Hg].
  induction l as [|x l IH]; intros Hl; [done|]. rewrite fmap_cons. cbn [length replicate].
  rewrite IH by (intros; apply Hl; by right). f_equal. rewrite (Hl x) by left.
  pose proof (exp_pos lw). field. split; lra.
Qed.

Lemma Rsum_foldl l d : foldl (λ d w, d + w * w) d l = d + Rsum ((λ w, w * w) <$> l).
Proof.
  revert d. induction l as [|x l IH]; intros d; [cbn; ring|]. cbn [foldl]. rewrite IH, fmap_cons, Rsum_cons. ring.
Qed.

Lemma square_sum_bounds ws :
  (∀ w, w ∈ ws → 0 < w) → Rsum ws = 1 →
  1 / IZR (len ws) <= Rsum ((λ w, w * w) <$> ws) <= 1 ∧ 0 < IZR (len ws).
Proof.
  intros Hpos Hsum. assert (ws ≠ []) as Hne by (intros ->; rewrite Rsum_nil in Hsum; lra).
  assert (0 < IZR (len ws)) as Hn. { apply IZR_lt. unfold len. destruct ws; [done|simpl; lia]. }
  split; [|done]. set (n := IZR (len ws)) in *. split.
  - assert (0 <= Rsum ((λ w, (w - 1 / n) * (w - 1 / n)) <$> ws)) as Hsq.
    { apply Rsum_nonneg. intros x (w & -> & _)%list_elem_of_fmap. apply Rle_0_sqr. }
    assert (∀ l, Rsum ((λ w, (w - 1 / n) * (w - 1 / n)) <$> l) =
      Rsum ((λ w, w * w) <$> l) - 2 / n * Rsum l + IZR (len l) * (1 / n * (1 / n))) as Hexp.
    { induction l as [|x l IH]; [change (0 = 0 - 2 / n * 0 + 0 * (1 / n * (1 / n))); ring|]. rewrite !fmap_cons, !Rsum_cons, IH, len_cons, plus_IZR. field. lra. }
    rewrite Hexp, Hsum in Hsq. fold n in Hsq.
    replace (n * (1 / n * (1 / n))) with (1 / n) in Hsq by (field; lra). lra.
  - rewrite <-Hsum. assert (∀ w, w ∈ ws → w <= 1) as Hle.
    { intros w (l1 & l2 & ->)%list_elem_of_split. rewrite Rsum_app, Rsum_cons in Hsum.
      assert (0 <= Rsum l1) by (apply Rsum_nonneg; intros; apply Rlt_le, Hpos; set_solver).
      assert (0 <= Rsum l2) by (apply Rsum_nonneg; intros; apply Rlt_le, Hpos; set_solver). lra. }
    clear Hsum Hne Hn n. induction ws as [|x l IH]; [cbn; lra|]. rewrite fmap_cons, !Rsum_cons.
    pose proof (Hpos x ltac:(left)). pose proof (Hle x ltac:(left)).
    assert (Rsum ((λ w, w * w) <$> l) <= Rsum l); [|nra].
    apply IH; intros w Hw; [apply Hpos|apply Hle]; by right.
Qed.

Lemma ess_bounds lws : lws ≠ [] →
  1 <= ess_of (softmax lws) <= IZR (len lws) ∧ 0 < Rsum ((λ w, w * w) <$> softmax lws).
Proof.
  intros Hne. destruct (square_sum_bounds (softmax lws)) as [[Hlo Hhi] Hn].
  { intros w Hw. by eapply softmax_pos. } { by apply softmax_sum. }
  assert (len (softmax lws) = len lws) as Hlen by (unfold softmax, len; by rewrite length_fmap).
  rewrite Hlen in *. unfold ess_of. set (d := Rsum _) in *.
  assert (0 < d) as Hd. { eapply Rlt_le_trans; [|exact Hlo]. by apply Rdiv_lt_0_compat; [lra|]. }
  split; [|done]. assert (d * (1 / d) = 1) by (field; lra). assert (0 < 1 / d) by (apply Rdiv_lt_0_compat; lra).
  split; [nra|]. assert (IZR (len lws) * (1 / IZR (len lws)) = 1) by (field; lra). nra.
Qed.

Lemma effective_sample_size_eq lws : lws ≠ [] → effective_sample_size (softmax lws) = ess_of (softmax lws).
Proof.
  intros Hne. destruct (ess_bounds lws Hne) as [_ Hd]. unfold effective_sample_size. cbn.
  by rewrite (proj2 (Rleb_false _ _)).
Qed.

Lemma from_max_eq lws m c : lws ≠ [] →
  normalize_log_weights_and_ess_from_max lws m c = (softmax lws, ess_of (softmax lws)).
Proof.
  intros Hne. unfold normalize_log_weights_and_ess_from_max.
  pose proof (unnormalized_pos lws m Hne) as Hu. destruct (ess_bounds lws Hne) as [_ Hd].
  cbn [neqb nfinite nfsum of_Z ndiv exact_reals nleb nadd nmul num].
  assert (Reqb (Rsum (unnormalized lws m)) 0 = false) as ->.
  { destruct (Reqb _ _) eqn:He; [|done]. apply Reqb_true in He. lra. }
  cbn [orb negb]. f_equal; [by apply shift_softmax|].
  rewrite shift_softmax by done. rewrite Rsum_foldl, Rplus_0_l.
  by rewrite (proj2 (Rleb_false _ _)).
Qed.

Lemma ess_uniform lw lws :
  lws ≠ [] → (∀ w, w ∈ lws → w = lw) → ess_of (softmax lws) = IZR (len lws).
Proof.
  intros Hne Heq. assert (0 < IZR (len lws)). { apply IZR_lt. unfold len. destruct lws; [done|simpl; lia]. }
  unfold ess_of, softmax. rewrite <-list_fmap_compose.
  rewrite (Rsum_fmap_ext exp (λ _, exp lw)), Rsum_const by (intros x Hx; by rewrite (Heq x Hx)).
  pose proof (exp_pos lw).
  rewrite (Rsum_fmap_ext _ (λ _, 1 / IZR (len lws) * (1 / IZR (len lws)))).
  - rewrite Rsum_const. field. lra.
  - intros x Hx. unfold compose. rewrite (Heq x Hx). field. split; lra.
Qed.

(** C25: the weights the code computes are the softmax of the log weights, by
    every route (with or without the effective sample size, equal weights
    short-circuited or not); they add up to one, and the effective sample size
    is [1 / sum (w ** 2)], between one and the number of particles. *)
Theorem weights_are_softmax lws :
  lws ≠ [] →
  normalize_log_weights lws = Ok (softmax lws) ∧
  normalize_log_weights_and_ess lws = Ok (softmax lws, ess_of (softmax lws)) ∧
  effective_sample_size (softmax lws) = ess_of (softmax lws) ∧
  (∀ k, particle_count k = len lws → ∃ ows, weigh k lws = Ok (ows, ess_of (softmax lws)) ∧
    (ows = None ∨ ows = Some (softmax lws))) ∧
  Rsum (softmax lws) = 1 ∧ (∀ w, w ∈ softmax lws → 0 < w) ∧
  1 <= ess_of (softmax lws) <= IZR (len lws).
Proof.
  intros Hne. pose proof (max_all_equal lws Hne) as (m & eq & Hm & Heq).
  pose proof (unnormalized_pos lws m Hne) as Hu. split_and!.
  - unfold normalize_log_weights. rewrite Hm. cbn [rbind]. destruct eq.
    + destruct (Heq eq_refl) as [lw Hlw]. by rewrite (uniform_softmax lw).
    + cbn [neqb nfinite nfsum of_Z exact_reals num].
      assert (Reqb (Rsum (unnormalized lws m)) 0 = false) as ->.
      { destruct (Reqb _ _) eqn:He; [|done]. apply Reqb_true in He. lra. }
      cbn [orb negb]. f_equal. by apply shift_softmax.
  - unfold normalize_log_weights_and_ess. rewrite Hm. cbn [rbind]. destruct eq.
    + destruct (Heq eq_refl) as [lw Hlw]. rewrite (uniform_softmax lw), (ess_uniform lw) by done. done.
    + by rewrite from_max_eq.
  - by apply effective_sample_size_eq.
  - intros k Hk. destruct (weigh_cases k lws Hne) as (m' & [(Hw & lw & Hlw)|Hw]); rewrite Hw.
    + exists None. rewrite (ess_uniform lw), Hk by done. split; [done|by left].
    + rewrite from_max_eq by done. eexists. split; [done|by right].
  - by apply softmax_sum.
  - apply softmax_pos.
  - apply ess_bounds, Hne.
  - apply ess_bounds, Hne.
Qed.

Lemma weights_are_softmax_witness :
  Rsum (softmax [0; 1]) = 1 ∧ normalize_log_weights [0; 1] = Ok (softmax [0; 1]).
Proof.
  destruct (weights_are_softmax [0; 1] ltac:(done)) as (H & _ & _ & _ & Hs & _).
  split; [exact Hs|exact H].
Defined.
End weights.

(** ** The tempering schedule and the log weights *)

Section tempering.
Local Open Scope R_scope.

(** [ring] where the type is the interface's [num]. *)
Ltac num_atom t := let x := fresh "x" in pose (x := t : R); progress change t with x; clearbody x.
Ltac num_ring :=
  repeat match goal with
    | |- context [@log_weight ?a ?p] => num_atom (@log_weight a p)
    | |- context [@cum_logp ?a ?p] => num_atom (@cum_logp a p)
    | |- context [@prev_alpha ?a ?p] => num_atom (@prev_alpha a p)
    | |- context [@alpha_at_step ?a ?k ?s] => num_atom (@alpha_at_step a k s)
    | t : Z * R * R |- _ => match goal with |- context [snd t] => num_atom (t.2) end
    | t : Z * R * R |- _ => match goal with |- context [snd (fst t)] => num_atom (t.1.2) end
    | t : num * num * num |- _ => match goal with |- context [snd t] => num_atom (t.2) end
    | t : num * num * num |- _ => match goal with |- context [snd (fst t)] => num_atom (t.1.2) end
  end;
  match goal with |- @eq _ ?a ?b => change (@eq R a b) end; ring.
Implicit Types c : PowerSMCConfig.

Lemma alpha_at_step_eq c step : alpha_ramp step (alpha c) (alpha_ramp_tokens c) = Ok (alpha_at_step (group_constants c) step).
Proof.
  unfold alpha_at_step, alpha_ramp, group_constants. cbn [alpha_is_constant ramp_tokens alpha_slope alpha_final].
  destruct (Z.leb_spec (alpha_ramp_tokens c) 1) as [H1|H1]; [done|]. cbn [orb].
  destruct (Z.leb_spec (alpha_ramp_tokens c) step) as [H2|H2].
  - by rewrite (proj2 (Z.ltb_ge _ _)) by lia.
  - rewrite (proj2 (Z.ltb_lt _ _)) by lia. unfold float_of_int. cbn [nadd nsub nmul ndiv of_Z num exact_reals nfinite rbind].
    assert (IZR (alpha_ramp_tokens c) ≠ 0) by (apply not_0_IZR; lia). f_equal. unfold Rdiv. ring.
Qed.

(** C26: in exact arithmetic, for a valid configuration, the schedule inlined in
    the group manager is [alpha_ramp]: it never decreases, stays between one and
    the final alpha, and reaches it after [alpha_ramp_tokens - 1] tokens for good;
    the proposal's temperature [1 / alpha] is then defined and at most one.  With
    floats the two schedules round differently, and the inlined one can exceed the
    final alpha ([alpha_schedule_rounds]). *)
Theorem alpha_schedule c step :
  validate_self c = Ok tt → (0 ≤ step)%Z →
  let a := alpha_at_step (group_constants c) in
  alpha_ramp step (alpha c) (alpha_ramp_tokens c) = Ok (a step) ∧
  1 <= a step <= alpha c ∧ a step <= a (step + 1)%Z ∧
  ((alpha_ramp_tokens c - 1 ≤ step)%Z → a step = alpha c) ∧
  ∃ t, proposal_temperature (a step) = Ok t ∧ 0 < t <= 1.
Proof.
  intros Hv Hs. destruct (valid_facts c Hv) as (_ & _ & Hr & Ha%Rltb_false & _). cbn in Ha.
  cbv zeta. split; [apply alpha_at_step_eq|]. set (f := alpha_at_step (group_constants c)).
  assert (∀ s, alpha_ramp s (alpha c) (alpha_ramp_tokens c) = Ok (f s)) as Hf by apply alpha_at_step_eq. clearbody f.
  set (r := alpha_ramp_tokens c) in *. set (al := alpha c) in *.
  assert (∀ s, (0 ≤ s)%Z → f s = if (s <? r - 1)%Z then 1 + (al - 1) * (IZR (s + 1) / IZR r) else al) as Heq.
  { intros s Hs'. specialize (Hf s). unfold alpha_ramp, float_of_int in Hf.
    cbn [nadd nsub nmul ndiv of_Z num exact_reals nfinite rbind] in Hf. revert Hf.
    destruct (Z.leb_spec r 1); [rewrite (proj2 (Z.ltb_ge _ _)) by lia; by intros [= <-]|].
    destruct (Z.ltb_spec s r), (Z.ltb_spec s (r - 1)); intros [= <-]; try done; try lia.
    replace (s + 1)%Z with r by lia. assert (IZR r ≠ 0) by (apply not_0_IZR; lia).
    match goal with |- @eq _ ?a ?b => change (@eq R a b) end. field. done. }
  assert (0 < IZR r) as Hr0 by (apply IZR_lt; lia).
  assert (∀ s, (0 ≤ s < r - 1)%Z → 0 <= IZR (s + 1) / IZR r <= 1) as Hfrac.
  { intros s Hs'. assert (0 <= IZR (s + 1) <= IZR r) as [H1 H2] by (split; apply IZR_le; lia).
    assert (IZR (s + 1) / IZR r * IZR r = IZR (s + 1)) by (field; lra). split; nra. }
  assert (∀ s, (0 ≤ s)%Z → 1 <= f s <= al) as Hb.
  { intros s Hs'. rewrite Heq by done. destruct (Z.ltb_spec s (r - 1)); [|lra].
    pose proof (Hfrac s ltac:(lia)). nra. }
  split_and!; [by apply Hb|by apply Hb| | |].
  - rewrite (Heq (step + 1)%Z) by lia. destruct (Z.ltb_spec (step + 1) (r - 1)); [|by apply Hb].
    rewrite Heq, (proj2 (Z.ltb_lt _ _)) by lia.
    assert (IZR (step + 1) / IZR r <= IZR (step + 1 + 1) / IZR r); [|nra].
    apply Rmult_le_compat_r; [by apply Rlt_le, Rinv_0_lt_compat|]. apply IZR_le. lia.
  - intros Hle. rewrite Heq, (proj2 (Z.ltb_ge _ _)) by lia. done.
  - pose proof (Hb step Hs) as [H1 _]. set (x := f step) in *. unfold proposal_temperature.
    cbn [nleb ndiv of_Z num exact_reals]. rewrite (proj2 (Rleb_false x 0)) by lra.
    eexists. split; [done|]. assert (1 / x * x = 1) by (field; lra). split; [apply Rdiv_lt_0_compat; lra|nra].
Qed.

Lemma observe_token_eq k tok b q p :
  let p' := observe_token k tok b q false None None p in
  let a := alpha_at_step k (len (token_ids p)) in
  token_ids p' = token_ids p ++ [tok] ∧ prev_alpha p' = a ∧ cum_logp p' = cum_logp p + b ∧
  log_weight p' = log_weight p + (a * (cum_logp p + b) - prev_alpha p * cum_logp p) - q.
Proof.
  unfold observe_token, update_log_weight. cbn [neqb nadd nsub nmul num exact_reals].
  destruct (Reqb _ (prev_alpha p)) eqn:He; cbn [negb]; (split_and!; [done..|]); cbn.
  - apply Reqb_true in He. rewrite He. num_ring.
  - num_ring.
Qed.

(** [observe_all_snoc] at the type of real triples. *)
Lemma observe_all_step k (toks : list (Z * R * R)) t p :
  observe_all k (toks ++ [t]) p = observe_token k t.1.1 t.1.2 t.2 false None None (observe_all k toks p).
Proof. exact (observe_all_snoc k toks t p). Qed.

Lemma weights_of_tokens k (toks : list (Z * R * R)) p :
  cum_logp (observe_all k toks p) = cum_logp p + Rsum ((λ t, t.1.2) <$> toks) ∧
  log_weight (observe_all k toks p) =
    log_weight p + (prev_alpha (observe_all k toks p) * cum_logp (observe_all k toks p) - prev_alpha p * cum_logp p)
    - Rsum ((λ t, t.2) <$> toks).
Proof.
  induction toks as [|t toks [IHc IHw]] using rev_ind.
  { cbn. split; num_ring. }
  rewrite observe_all_step, !fmap_app, !Rsum_app.
  destruct (observe_token_eq k t.1.1 t.1.2 t.2 (observe_all k toks p)) as (_ & Ha & Hc & Hw).
  rewrite Hw, Ha, Hc, IHw, IHc. change (Rsum ((λ t0 : Z * R * R, t0.1.2) <$> [t])) with (t.1.2 + 0).
  change (Rsum ((λ t0 : Z * R * R, t0.2) <$> [t])) with (t.2 + 0). split; num_ring.
Qed.

(** C27: a particle's log weight is the logarithm of the tempered target over
    the proposal: after tokens with base log probabilities [b] and proposal log
    probabilities [q], starting from a new particle, it is
    [alpha_t * sum b - sum q] with [alpha_t] the schedule's current exponent,
    though the code updates it step by step and re-tempers the past whenever
    alpha changes; after a resample it is the same quotient relative to the
    boundary, where the weight was reset. *)
Theorem log_weight_is_target_over_proposal c toks :
  toks ≠ ([] : list (Z * R * R)) →
  let k := group_constants c in
  (∃ a, alpha_ramp (len toks - 1) (alpha c) (alpha_ramp_tokens c) = Ok a ∧
    log_weight (observe_all k toks new_particle) =
      a * Rsum ((λ t, t.1.2) <$> toks) - Rsum ((λ t, t.2) <$> toks)) ∧
  ∀ p b st, let p0 := continuation p b st in
    ∃ a', alpha_ramp (len (token_ids p0) + len toks - 1) (alpha c) (alpha_ramp_tokens c) = Ok a' ∧ log_weight (observe_all k toks p0) =
      (a' * (st.1.2 + Rsum ((λ t, t.1.2) <$> toks)) - st.2 * st.1.2) - Rsum ((λ t, t.2) <$> toks).
Proof.
  intros Hne k. assert (∀ p0, prev_alpha (observe_all k toks p0) =
    alpha_at_step k (len (token_ids p0) + len toks - 1)) as Ha.
  { intros p0. destruct toks as [|t toks _] using rev_ind; [done|].
    rewrite observe_all_step. destruct (observe_token_eq k t.1.1 t.1.2 t.2 (observe_all k toks p0)) as (_ & -> & _).
    rewrite (len_observe_all k toks p0).
    change (@len (Z * @num exact_reals * @num exact_reals) toks) with (@len (Z * R * R) toks).
    f_equal. rewrite len_app. change (len [t]) with 1%Z. lia. }
  split.
  - eexists. split; [apply alpha_at_step_eq|]. fold k.
    destruct (weights_of_tokens k toks new_particle) as [Hc Hw]. rewrite Hw, Hc, Ha. cbn [log_weight cum_logp prev_alpha token_ids new_particle of_Z num exact_reals].
    replace (len [] + len toks - 1)%Z with (len toks - 1)%Z by (rewrite len_nil; lia). num_ring.
  - intros p b st. cbv zeta. eexists. split; [apply alpha_at_step_eq|]. fold k. destruct (weights_of_tokens k toks (continuation p b st)) as [Hc Hw]. rewrite Hw, Hc, Ha.
    cbn [log_weight cum_logp prev_alpha continuation of_Z num exact_reals]. num_ring.
Qed.

Definition demo_tempered : PowerSMCConfig :=
  MkSMC true (4 : num) 2 1 (1 / 2 : num) 4 (PStr "power_temperature") false true false.

Lemma demo_tempered_valid : validate_self demo_tempered = Ok tt.
Proof.
  unfold validate_self, rcheck. cbn. rewrite (proj2 (Rltb_false _ _)) by lra. cbn.
  rewrite (proj2 (Rltb_true _ _)), (proj2 (Rleb_true _ _)) by lra. done.
Qed.

Lemma alpha_schedule_witness :
  alpha_at_step (group_constants demo_tempered) 3 = 4 ∧ 1 <= alpha_at_step (group_constants demo_tempered) 0 <= 4.
Proof.
  destruct (alpha_schedule demo_tempered 3 demo_tempered_valid ltac:(done)) as (_ & _ & _ & H & _).
  destruct (alpha_schedule demo_tempered 0 demo_tempered_valid ltac:(done)) as (_ & Hb & _).
  split; [by apply H|exact Hb].
Defined.

Lemma log_weight_is_target_over_proposal_witness :
  log_weight (observe_all (group_constants demo_tempered) [(7%Z, -1, -2); (8%Z, -3, -1)] new_particle) =
    (1 + (4 - 1) * (2 / 4)) * (-1 + (-3 + 0)) - (-2 + (-1 + 0)).
Proof.
  destruct (log_weight_is_target_over_proposal demo_tempered [(7%Z, -1, -2); (8%Z, -3, -1)] ltac:(done)) as ((a & Ha & Hw) & _).
  injection Ha as <-. exact Hw.
Defined.
End tempering.

(** The schedules in double precision: at alpha 4 and a ramp of 400 they differ
    in the last bits, and at alpha 100 and a ramp of 37 the inlined one ends above
    alpha. *)
Lemma alpha_schedule_rounds (libm_exp : SpecFloat.spec_float → SpecFloat.spec_float) :
  let ar := binary64 libm_exp in
  let c a r := MkSMC (A := ar) true (f64_of_Z a) 2 1 (f64_of_Z 1) r (PStr "power_temperature") false true false in
  let inlined a r step := alpha_at_step (group_constants (c a r)) step in
  (∃ step, alpha_ramp (A := ar) step (f64_of_Z 4) 400 ≠ Ok (inlined 4%Z 400%Z step)) ∧
  nltb (f64_of_Z 100) (inlined 100%Z 37%Z 36%Z) = true.
Proof. split; [|vm_compute; reflexivity]. exists 22%Z. vm_compute. discriminate. Qed.
