(* ===== verification/PowerSMCResample.v ===== *)
(** * Power-SMC: the guarantees of the random choices

    In exact arithmetic systematic resampling copies particle [j] as often as
    [n * w_j], up to one, and the final choice inverts the cumulative weights. *)

From Stdlib Require Import Sorted Reals Lra.
From S2P Require Import Prelude Arith PowerSMC PowerSMCProps PowerSMCStats.
Open Scope Z_scope.

#[local] Existing Instance exact_reals.

Section cumulative.
Local Open Scope R_scope.
Context (ws : list R).
Hypothesis ws_nonneg : ∀ w, w ∈ ws → 0 <= w.

(** The cumulative weight of the first [j] particles. *)
Definition cumw (j : Z) : R := Rsum (take (Z.to_nat j) ws).

Lemma cumw_0 : cumw 0 = 0.
Proof. done. Qed.

Lemma cumw_full : cumw (len ws) = Rsum ws.
Proof. unfold cumw. by rewrite take_ge by (unfold len; lia). Qed.

Lemma cumw_step j w : (0 ≤ j)%Z → ws !! Z.to_nat j = Some w → cumw (j + 1) = cumw j + w.
Proof.
  intros Hj Hw. unfold cumw. replace (Z.to_nat (j + 1)) with (S (Z.to_nat j)) by lia.
  rewrite (take_S_r _ _ _ Hw), Rsum_app, Rsum_cons, Rsum_nil. ring.
Qed.

Lemma cumw_mono i j : (i ≤ j)%Z → cumw i <= cumw j.
Proof.
  intros Hij. unfold cumw.
  rewrite <-(take_drop (Z.to_nat i) (take (Z.to_nat j) ws)), Rsum_app, take_take, Nat.min_l by lia.
  assert (0 <= Rsum (drop (Z.to_nat i) (take (Z.to_nat j) ws))); [|lra].
  apply Rsum_nonneg. intros x Hx. apply ws_nonneg.
  eapply elem_of_submseteq; [exact Hx|]. apply sublist_submseteq.
  etrans; [apply sublist_drop|apply sublist_take].
Qed.

(** [p] falls into particle [j]'s share of the unit interval, the lower end
    open except for the first particle. *)
Definition falls (p : R) (j : Z) : Prop :=
  (0 ≤ j < len ws)%Z ∧ (j = 0%Z ∨ cumw j < p) ∧ p <= cumw (j + 1).

Lemma falls_below p j k : falls p j → (0 ≤ k)%Z → (j ≤ k)%Z ↔ p <= cumw (k + 1).
Proof.
  intros (Hj & Hlo & Hhi) Hk. split; intros H.
  - etrans; [exact Hhi|]. apply cumw_mono. lia.
  - destruct (decide (j ≤ k)%Z); [done|]. destruct Hlo as [->|Hlo]; [lia|].
    pose proof (cumw_mono (k + 1) j ltac:(lia)). lra.
Qed.

Lemma advance_falls rest idx p rest' idx' cum' :
  rest ≠ [] → (0 ≤ idx)%Z → rest = drop (Z.to_nat idx) ws → p <= Rsum ws →
  idx = 0%Z ∨ cumw idx < p →
  advance rest idx (cumw idx) p = (rest', idx', cum') → cum' = cumw idx' ∧ falls p idx'.
Proof.
  revert idx. induction rest as [|w rest IH]; intros idx Hne Hi Hr Hp Hlo Hadv; [done|].
  assert (ws !! Z.to_nat idx = Some w) as Hw.
  { rewrite <-(Nat.add_0_r (Z.to_nat idx)), <-lookup_drop, <-Hr. done. }
  assert (idx < len ws)%Z as Hlt by (apply lookup_lt_Some in Hw; unfold len; lia).
  assert (drop (Z.to_nat (idx + 1)) ws = rest) as Hr'.
  { replace (Z.to_nat (idx + 1)) with (Z.to_nat idx + 1)%nat by lia. by rewrite <-drop_drop, <-Hr. }
  destruct rest as [|w2 rest2].
  - injection Hadv as <- <- <-. split; [done|]. split_and!; [lia|lia|done|].
    assert (idx + 1 = len ws)%Z as ->; [|by rewrite cumw_full].
    apply (f_equal length) in Hr'. rewrite length_drop in Hr'. unfold len in *. simpl in Hr'. lia.
  - cbn [advance] in Hadv. cbn [nltb nadd num exact_reals] in Hadv. rewrite <-(cumw_step idx w Hi Hw) in Hadv.
    destruct (Rltb _ _) eqn:Hb.
    + apply Rltb_true in Hb. apply (IH (idx + 1)%Z); [done|lia|done|done|by right|done].
    + apply Rltb_false in Hb. injection Hadv as <- <- <-. split; [done|]. split_and!; [lia|lia|done|done].
Qed.

(** Every ancestor's share holds its position. *)
Lemma loop_falls a n u inv_n rest idx :
  0 <= inv_n → rest ≠ [] → (0 ≤ idx)%Z → rest = drop (Z.to_nat idx) ws →
  (∀ i, (a ≤ i < a + Z.of_nat n)%Z → u + IZR i * inv_n <= Rsum ws) →
  (idx = 0%Z ∨ cumw idx < u + IZR a * inv_n) →
  Forall2 (λ i j, falls (u + IZR i * inv_n) j) (seqZ a (Z.of_nat n))
    (resample_loop (seqZ a (Z.of_nat n)) u inv_n rest idx (cumw idx)).
Proof.
  intros Hinv. revert a rest idx. induction n as [|n IH]; intros a rest idx Hne Hi Hr Hp Hlo; [constructor|].
  rewrite seqZ_cons by lia. replace (Z.pred (Z.of_nat (S n))) with (Z.of_nat n) by lia.
  cbn [resample_loop]. cbn [nadd nmul of_Z num exact_reals].
  destruct (advance _ _ _ _) as [[rest' idx'] cum'] eqn:Hadv.
  destruct (advance_spec (A := exact_reals) _ _ _ _ _ _ _ ws Hne Hi Hr Hadv) as (Hne' & Hi' & Hr').
  destruct (advance_falls _ _ _ _ _ _ Hne Hi Hr (Hp a ltac:(lia)) Hlo Hadv) as (-> & Hf).
  constructor; [done|]. apply IH; [done|lia|done|intros i Hia; apply Hp; lia|].
  destruct Hf as (_ & [->|Hlo'] & _); [by left|right]. rewrite succ_IZR. lra.
Qed.
End cumulative.

(** ** Counting the copies *)

#[local] Instance Rle_decision (x y : R) : Decision (x <= y)%R.
Proof. destruct (Rle_dec x y); [by left|by right]. Defined.

Section counting.
Local Open Scope R_scope.

Definition count (P : Z → Prop) `{∀ x, Decision (P x)} (l : list Z) : Z := len (filter P l).

Lemma count_ext (P Q : Z → Prop) `{∀ x, Decision (P x), ∀ x, Decision (Q x)} l1 l2 :
  Forall2 (λ i j, Q i ↔ P j) l1 l2 → count P l2 = count Q l1.
Proof.
  unfold count. induction 1 as [|i j l1 l2 Hij _ IH]; [done|]. rewrite !filter_cons.
  destruct (decide (P j)), (decide (Q i)); rewrite ?len_cons, ?IH; tauto || done.
Qed.

Lemma count_split (j : Z) l :
  count (λ a, a = j) l = (count (λ a, a ≤ j)%Z l - count (λ a, a ≤ j - 1)%Z l)%Z.
Proof.
  unfold count. induction l as [|a l IH]; [done|]. rewrite !filter_cons.
  destruct (decide (a = j)), (decide (a ≤ j)%Z), (decide (a ≤ j - 1)%Z); rewrite ?len_cons; lia.
Qed.

Lemma count_none (P : Z → Prop) `{∀ x, Decision (P x)} l : (∀ a, a ∈ l → ¬ P a) → count P l = 0%Z.
Proof.
  intros Hn. unfold count. destruct (filter P l) as [|a l'] eqn:Hf; [done|]. exfalso.
  assert (a ∈ filter P l) as [Hp Hin]%list_elem_of_filter by (rewrite Hf; left). by eapply Hn.
Qed.

(** How many of [0 .. n - 1] lie at or below [y - u]. *)
Lemma count_below (u y : R) n :
  0 <= u < 1 → 0 <= y <= IZR (Z.of_nat n) →
  let c := count (λ i, u + IZR i <= y) (seqZ 0 (Z.of_nat n)) in
  y - u <= IZR c <= y - u + 1 ∧ (0 < u → y - u < IZR c).
Proof.
  intros Hu [Hy0 Hyn].
  assert (∀ m, let c := count (λ i, u + IZR i <= y) (seqZ 0 (Z.of_nat m)) in
    (0 ≤ c ≤ Z.of_nat m)%Z ∧ (c = 0%Z ∨ u + IZR (c - 1) <= y) ∧ (c = Z.of_nat m ∨ y < u + IZR c)) as Hc.
  { induction m as [|m IH]; [split_and!; [done|done|by left|by left]|]. cbv zeta in *.
    replace (Z.of_nat (S m)) with (Z.of_nat m + 1)%Z by lia. rewrite seqZ_app by lia.
    unfold count in *. rewrite filter_app, len_app. set (c := len (filter _ (seqZ 0 (Z.of_nat m)))) in *.
    destruct IH as (Hr & Hlo & Hhi). rewrite seqZ_cons by done. replace (seqZ _ (Z.pred 1)) with ([] : list Z) by done.
    rewrite filter_cons, filter_nil, Z.add_0_l. destruct (decide (u + IZR (Z.of_nat m) <= y)) as [Hle|Hgt].
    - change (len [Z.of_nat m]) with 1%Z. destruct Hhi as [Hhi|Hhi].
      + rewrite Hhi. split_and!; [lia|lia|right; by rewrite Z.add_simpl_r|by left].
      + exfalso. assert (IZR c <= IZR (Z.of_nat m)) by (apply IZR_le; lia). lra.
    - change (len []) with 0%Z. rewrite Z.add_0_r. split_and!; [lia|lia|done|].
      destruct Hhi as [Hhi|Hhi]; [|by right]. right. rewrite Hhi. lra. }
  destruct (Hc n) as (Hr & Hlo & Hhi). cbv zeta. set (c := count _ _) in *.
  assert (y - u <= IZR c ∧ (0 < u → y - u < IZR c)) as [H1 H2].
  { destruct Hhi as [->|Hhi]; [split; lra|split; lra]. }
  split; [|done]. split; [done|]. destruct Hlo as [->|Hlo]; [lra|]. rewrite minus_IZR in Hlo. lra.
Qed.
End counting.

(** ** The guarantees *)

Section guarantees.
Local Open Scope R_scope.

Lemma systematic_falls ws r :
  (∀ w, w ∈ ws → 0 <= w) → Rsum ws = 1 → 0 <= draws r (pos r) < 1 →
  ∃ anc, systematic_resample ws r = Ok (anc, MkRng (draws r) (S (pos r))) ∧ 0 < IZR (len ws) ∧
    Forall2 (λ i j, falls ws ((draws r (pos r) + IZR i) / IZR (len ws)) j) (seqZ 0 (len ws)) anc.
Proof.
  intros Hw Hs Hu. assert (ws ≠ []) as Hne by (intros ->; rewrite Rsum_nil in Hs; lra).
  assert (0 < len ws)%Z as Hn by (unfold len; destruct ws; [done|simpl; lia]).
  assert (0 < IZR (len ws)) as HnR by (by apply IZR_lt).
  unfold systematic_resample, rng_random. change (@len (@num exact_reals) ws) with (@len R ws).
  rewrite (proj2 (Z.eqb_neq (len ws) 0)) by lia.
  eexists. split; [reflexivity|]. split; [done|]. unfold range. rewrite Z.sub_0_r. unfold len at 1 2.
  cbn [nmul ndiv of_Z num exact_reals]. set (u := draws r (pos r)) in *. set (n := IZR (len ws)) in *.
  assert (∀ i, (u + IZR i) / n = u * (1 / n) + IZR i * (1 / n)) as Hpos by (intros i; unfold Rdiv; ring).
  eapply Forall2_impl; [apply (loop_falls ws)|].
  - apply Rlt_le, Rdiv_lt_0_compat; lra.
  - done.
  - done.
  - done.
  - intros i Hi. rewrite <-Hpos, Hs. assert (IZR i + 1 <= n).
    { rewrite <-plus_IZR. apply IZR_le. unfold len. lia. }
    assert ((u + IZR i) / n * n = u + IZR i) by (field; lra).
    apply (Rmult_le_reg_r n); lra.
  - by left.
  - intros i j. by rewrite Hpos.
Qed.

Lemma falls_scaled ws x j (n : R) : 0 < n → x / n <= cumw ws j ↔ x <= n * cumw ws j.
Proof. intros Hn. assert (x / n * n = x) by (field; lra). split; nra. Qed.

(** C28: systematic resampling returns one ancestor per particle, and for every
    uniform draw in [0, 1) the number of copies of particle [j] differs from
    [n * w_j] by at most one, and by less than one when the draw is not zero. *)
Theorem resample_counts ws r :
  (∀ w, w ∈ ws → 0 <= w) → Rsum ws = 1 → 0 <= draws r (pos r) < 1 →
  ∃ anc, systematic_resample ws r = Ok (anc, MkRng (draws r) (S (pos r))) ∧ length anc = length ws ∧
    ∀ j w, (0 ≤ j)%Z → ws !! Z.to_nat j = Some w →
      let d := Rabs (IZR (count (λ a, a = j) anc) - IZR (len ws) * w) in
      d <= 1 ∧ (0 < draws r (pos r) → d < 1).
Proof.
  intros Hw Hs Hu. destruct (systematic_falls ws r Hw Hs Hu) as (anc & Hrun & Hn & Hf).
  exists anc. split; [done|]. split.
  { apply Forall2_length in Hf. rewrite <-Hf, length_seqZ. unfold len. lia. }
  set (u := draws r (pos r)) in *. set (n := IZR (len ws)) in *.
  assert (∀ k, (0 ≤ k ≤ len ws)%Z → let c := count (λ a, a ≤ k - 1)%Z anc in
    n * cumw ws k - u <= IZR c <= n * cumw ws k - u + 1 ∧ (0 < u → n * cumw ws k - u < IZR c)) as Hc.
  { intros k Hk. destruct (decide (k = 0)%Z) as [->|Hk0].
    - rewrite count_none, cumw_0; [lra|]. intros a Ha Hle. apply list_elem_of_lookup in Ha as [i Hi].
      destruct (Forall2_lookup_r _ _ _ _ _ Hf Hi) as (x & _ & Hx & _). lia.
    - rewrite (count_ext _ (λ i, u + IZR i <= n * cumw ws k) (seqZ 0 (len ws)) anc).
      + apply (count_below u _ (length ws) Hu). pose proof (cumw_mono ws Hw 0 k ltac:(lia)) as H0.
        pose proof (cumw_mono ws Hw k (len ws) ltac:(lia)) as H1. rewrite cumw_0 in H0. rewrite cumw_full, Hs in H1.
        fold (len ws). fold n. nra.
      + eapply Forall2_impl; [exact Hf|]. intros i j Hij. rewrite <-(falls_scaled ws _ k n Hn).
        rewrite (falls_below ws Hw _ j (k - 1) Hij) by lia. by rewrite Z.sub_simpl_r. }
  intros j w Hj Hwj. cbv zeta. rewrite count_split, minus_IZR.
  assert (j < len ws)%Z as Hlt by (apply lookup_lt_Some in Hwj; unfold len; lia).
  destruct (Hc (j + 1)%Z ltac:(lia)) as [H1 H1']. destruct (Hc j ltac:(lia)) as [H0 H0'].
  rewrite Z.add_simpl_r in H1, H1'. rewrite (cumw_step ws j w Hj Hwj), Rmult_plus_distr_l in H1, H1'.
  set (x := IZR _) in *. set (y := IZR _) in *. fold n. set (nc := n * cumw ws j) in *.
  set (nw := n * w) in *. split; [apply Rabs_le; lra|]. intros Hpos. apply Rabs_def1; lra.
Qed.

Lemma sample_falls ws rest idx d :
  (0 ≤ idx)%Z → rest = drop (Z.to_nat idx) ws → d <= Rsum ws → idx = 0%Z ∨ cumw ws idx < d →
  rest ≠ [] → ∃ j, sample_loop rest idx (cumw ws idx) d = Some j ∧ falls ws d j.
Proof.
  revert idx. induction rest as [|w rest IH]; intros idx Hi Hr Hd Hlo Hne; [done|].
  assert (ws !! Z.to_nat idx = Some w) as Hw.
  { rewrite <-(Nat.add_0_r (Z.to_nat idx)), <-lookup_drop, <-Hr. done. }
  assert (idx < len ws)%Z as Hlt by (apply lookup_lt_Some in Hw; unfold len; lia).
  assert (drop (Z.to_nat (idx + 1)) ws = rest) as Hr'.
  { replace (Z.to_nat (idx + 1)) with (Z.to_nat idx + 1)%nat by lia. by rewrite <-drop_drop, <-Hr. }
  cbn [sample_loop]. cbn [nleb nadd num exact_reals]. rewrite <-(cumw_step ws idx w Hi Hw).
  destruct (Rleb _ _) eqn:Hb.
  - apply Rleb_true in Hb. exists idx. split; [done|]. split_and!; [lia|lia|done|done].
  - apply Rleb_false in Hb. destruct rest as [|w2 rest].
    + exfalso. assert (idx + 1 = len ws)%Z as Hend.
      { apply (f_equal length) in Hr'. rewrite length_drop in Hr'. unfold len in *. simpl in Hr'. lia. }
      rewrite Hend, cumw_full in Hb. lra.
    + apply (IH (idx + 1)%Z); [lia|done|done|by right|done].
Qed.

(** The final choice inverts the cumulative weights: for a uniform draw in
    [0, 1) the chosen particle is the one whose share of the unit interval holds
    the draw, so that it is chosen with probability its weight, and a particle
    of weight zero is never chosen unless the draw is exactly zero. *)
Theorem sample_index_inverts ws r :
  (∀ w, w ∈ ws → 0 <= w) → Rsum ws = 1 → 0 <= draws r (pos r) < 1 →
  ∃ j, sample_index ws r = (j, MkRng (draws r) (S (pos r))) ∧ falls ws (draws r (pos r)) j ∧
    (0 < draws r (pos r) → ∃ w, ws !! Z.to_nat j = Some w ∧ 0 < w).
Proof.
  intros Hw Hs Hu. assert (ws ≠ []) as Hne by (intros ->; rewrite Rsum_nil in Hs; lra).
  set (u := draws r (pos r)) in *.
  destruct (sample_falls ws ws 0 u ltac:(done) eq_refl ltac:(rewrite Hs; lra) ltac:(by left) Hne) as (j & Hj & Hf).
  exists j. split.
  { unfold sample_index, rng_random. fold u. rewrite cumw_0 in Hj. cbn [of_Z num exact_reals]. by rewrite Hj. }
  split; [done|]. intros Hpos. destruct Hf as (Hr & Hlo & Hhi).
  destruct (lookup_lt_is_Some_2 ws (Z.to_nat j)) as [w Hwj]; [unfold len in Hr; lia|].
  exists w. split; [done|]. rewrite (cumw_step ws j w) in Hhi by (done || lia).
  destruct Hlo as [->|Hlo]; [rewrite cumw_0 in Hhi|]; lra.
Qed.
End guarantees.

Section witnesses.
Local Open Scope R_scope.

Definition demo_weights : list R := [3 / 4; 1 / 4].
Definition demo_draws : Rng := MkRng (λ _, 1 / 2 : num) 0.

Lemma demo_weights_ok :
  (∀ w, w ∈ demo_weights → 0 <= w) ∧ Rsum demo_weights = 1 ∧ 0 <= draws demo_draws (pos demo_draws) < 1.
Proof.
  split_and!; cbn; [|lra..]. intros w [->|[->|[]%elem_of_nil]%elem_of_cons]%elem_of_cons; lra.
Qed.

(** Particle 0, of weight 3/4, is copied once or twice. *)
Lemma resample_counts_witness :
  ∃ anc, length anc = 2%nat ∧ Rabs (IZR (count (λ a, a = 0%Z) anc) - 2 * (3 / 4)) < 1.
Proof.
  destruct demo_weights_ok as (Hw & Hs & Hu).
  destruct (resample_counts demo_weights demo_draws Hw Hs Hu) as (anc & _ & Hl & Hc).
  exists anc. split; [exact Hl|]. apply (Hc 0%Z (3 / 4)); [done|done|]. cbn. lra.
Defined.

Lemma sample_index_inverts_witness : ∃ j, (sample_index demo_weights demo_draws).1 = j ∧ falls demo_weights (1 / 2) j.
Proof.
  destruct demo_weights_ok as (Hw & Hs & Hu).
  destruct (sample_index_inverts demo_weights demo_draws Hw Hs Hu) as (j & Hj & Hf & _).
  exists j. split; [by rewrite Hj|exact Hf].
Defined.
End witnesses.
