(* ===== verification/PowerSMCRequests.v ===== *)
(** * Power-SMC: requests

    Child request ids and the configuration taken from a request. *)

From Stdlib Require Import Ascii DecimalString DecimalZ DecimalPos SpecFloat.
From S2P Require Import Prelude Arith PowerSMC PowerSMCProps.
Open Scope Z_scope.

(** ** Child request ids *)

Fixpoint all_chars (P : Ascii.ascii → bool) (s : string) : bool :=
  match s with EmptyString => true | String c s' => P c && all_chars P s' end.

Lemma span_digits_app d s :
  all_chars is_digit d = true → span_digits s = (EmptyString, s) →
  span_digits (d ++ s)%string = (d, s).
Proof.
  intros Hd Hs. induction d as [|c d IH]; [done|]. cbn in Hd. apply andb_true_iff in Hd as [Hc Hd].
  change (String c d +:+ s) with (String c (d +:+ s)). cbn [span_digits]. by rewrite Hc, (IH Hd).
Qed.

Lemma digits_of_uint d : all_chars is_digit (NilEmpty.string_of_uint d) = true.
Proof. by induction d. Qed.

Lemma str_of_Z_digits i : 0 ≤ i → ∃ d,
  str_of_Z i = NilEmpty.string_of_uint d ∧ d ≠ Decimal.Nil ∧ Z.of_uint d = i.
Proof.
  intros Hi. assert (Z.of_int (Z.to_int i) = i) as Hof by apply DecimalZ.of_to.
  destruct i as [|p|p]; [by exists (Decimal.D0 Decimal.Nil)| |lia].
  exists (Pos.to_uint p). pose proof (Unsigned.to_uint_nonnil p) as Hn. split_and!; [|done|exact Hof].
  unfold str_of_Z, Z.to_int. cbn. by destruct (Pos.to_uint p).
Qed.

Lemma match_rest_ok s : s ≠ EmptyString → all_chars (λ c, negb (Ascii.eqb c newline)) s = true →
  match_rest s = Some s.
Proof.
  induction s as [|c s IH]; [done|]. intros _ Hs. cbn [all_chars] in Hs. apply andb_true_iff in Hs as [Hc Hs].
  cbn [match_rest]. apply negb_true_iff in Hc. rewrite Hc.
  destruct s as [|c' s]; [done|]. assert (String.eqb (String c' s) (String newline "") = false) as ->.
  { apply String.eqb_neq. intros [= -> ->]. cbn in Hs. done. }
  cbn [String.eqb orb]. by rewrite (IH ltac:(done) Hs).
Qed.

(** C29: parsing the id made for particle [i] of a request gives back the
    request and the particle, when the request's id is not empty and has no
    newline; so different particles and requests have different child ids. *)
Theorem child_request_id_roundtrip parent i :
  0 ≤ i → parent ≠ EmptyString → all_chars (λ c, negb (Ascii.eqb c newline)) parent = true →
  parse_power_smc_child_request_id (make_power_smc_child_request_id parent i) = Some (MkChild parent i).
Proof.
  intros Hi Hp Hn. destruct (str_of_Z_digits i Hi) as (d & Hd & Hnn & Hz).
  unfold make_power_smc_child_request_id, parse_power_smc_child_request_id. rewrite Hd.
  change ("psmc" +:+ ?x) with (String "p" (String "s" (String "m" (String "c" x)))).
  change ("_" +:+ parent) with (String "_" parent). cbv iota beta. rewrite span_digits_app by (done || apply digits_of_uint).
  rewrite NilEmpty.usu. assert (String.eqb (NilEmpty.string_of_uint d) "" = false) as -> by (by destruct d).
  rewrite match_rest_ok by done. by rewrite Hz.
Qed.

Lemma child_request_id_roundtrip_witness :
  parse_power_smc_child_request_id (make_power_smc_child_request_id "cmpl-7" 31) = Some (MkChild "cmpl-7" 31) ∧
  make_power_smc_child_request_id "cmpl-7" 31 = "psmc31_cmpl-7"%string.
Proof. split; [by apply (child_request_id_roundtrip "cmpl-7" 31)|reflexivity]. Defined.

(** ** The configuration of a request *)

Section config.
Context {A : Arith}.

Lemma rbind_ok {B C} (r : res B) (k : B → res C) c :
  rbind r k = Ok c → ∃ b, r = Ok b ∧ k b = Ok c.
Proof. destruct r as [b|]; [|done]. by exists b. Qed.

Lemma rbind_err {B C} (r : res B) (k : B → res C) e :
  rbind r k = Err e → r = Err e ∨ ∃ b, r = Ok b ∧ k b = Err e.
Proof. destruct r as [b|]; [right; by exists b|intros [= ->]; by left]. Qed.

Lemma validate_self_err c e : validate_self c = Err e → e = VLLMValidationError.
Proof.
  unfold validate_self, rcheck. repeat case_match; cbn; intros He; try done; by injection He as <-.
Qed.

Lemma validate_sampling_params_err c sp e : validate_sampling_params c sp = Err e → e = VLLMValidationError.
Proof.
  unfold validate_sampling_params. intros [He|(_ & _ & He)]%rbind_err; [by eapply validate_self_err|].
  unfold rcheck in He. case_match; [done|]. by injection He as <-.
Qed.

(** The exceptions of [float(v)] and [int(v)]. *)
Definition conversion_error (e : exn) : Prop :=
  e = TypeError ∨ e = ValueError ∨ e = OverflowError ∨ ∃ x : num, ntrunc x = Err e.

Lemma float_of_int_err z e : float_of_int z = Err e → e = OverflowError ∧ nfinite (of_Z z) = false.
Proof. unfold float_of_int. destruct (nfinite (of_Z z)); [done|]. by intros [= <-]. Qed.

Lemma py_float_err ps v e : py_float ps v = Err e → conversion_error e.
Proof.
  unfold conversion_error. destruct v as [|b|z|x|s]; cbn; try done; [intros [= <-]; tauto| |].
  - intros [-> _]%float_of_int_err. tauto.
  - destruct (float_of_str ps s); [done|]. intros [= <-]; tauto.
Qed.

Lemma py_int_err ps v e : py_int ps v = Err e → conversion_error e.
Proof.
  unfold conversion_error. destruct v as [|b|z|x|s]; cbn; try done; [intros [= <-]; tauto| |].
  - intros He. right; right; right. by exists x.
  - destruct (int_of_str ps s); [done|]. intros [= <-]; tauto.
Qed.

Lemma init_result c r : validate_self c = Ok tt →
  match PowerSMCGroupManager_init c r with
  | Ok g => len (particles g) = particles_n c
  | Err e => e = OverflowError ∧
      (nfinite (of_Z (particles_n c)) = false ∨ 1 < alpha_ramp_tokens c ∧ nfinite (of_Z (alpha_ramp_tokens c)) = false)
  end.
Proof.
  intros Hv. pose proof (valid_facts c Hv) as (Hp & _). unfold PowerSMCGroupManager_init. rewrite Hv. cbn [rbind].
  destruct (float_of_int (particles_n c)) eqn:Hn; cbn [rbind]; [|apply float_of_int_err in Hn as [-> ?]; by split; [|left]].
  destruct (Z.leb_spec (alpha_ramp_tokens c) 1); cbn [rbind particles]; [unfold len; rewrite length_replicate; lia|].
  destruct (float_of_int (alpha_ramp_tokens c)) eqn:Hr; cbn [rbind particles];
    [unfold len; rewrite length_replicate; lia|apply float_of_int_err in Hr as [-> ?]; by split; [|right]].
Qed.

(** C30: a configuration taken from a request is well formed: every range the
    particle group relies on holds, the request uses none of the sampling
    features Power-SMC does not support, and a group can be created from it,
    unless its number of particles or of ramp tokens is too large for a float,
    which the validation does not check: then creating the group raises an
    OverflowError.  A request without an enabled [power_smc] entry has no
    configuration; every other request is rejected with a validation error, or
    with the error of converting one of its values to a number (an OverflowError
    for an integer too large for a float). *)
Theorem from_sampling_params_spec ps osp :
  match from_sampling_params ps osp with
  | Ok (Some c) => ∃ sp raw, osp = Some sp ∧ extra_args sp ≫= (λ m, m !! "power_smc"%string) = Some (PMapping raw) ∧
      enabled c = true ∧ unsupported_params sp = [] ∧
      1 ≤ particles_n c ∧ 1 ≤ smc_block_size c ∧ 1 ≤ alpha_ramp_tokens c ∧
      nltb (alpha c) (of_Z 1) = false ∧ nltb (of_Z 0) (ess_threshold c) = true ∧
      nleb (ess_threshold c) (of_Z 1) = true ∧ proposal c = PStr "power_temperature"%string ∧
      ∀ r, match PowerSMCGroupManager_init c r with
           | Ok g => len (particles g) = particles_n c
           | Err e => e = OverflowError ∧
               (nfinite (of_Z (particles_n c)) = false ∨
                1 < alpha_ramp_tokens c ∧ nfinite (of_Z (alpha_ramp_tokens c)) = false)
           end
  | Ok None => ∀ sp raw, osp = Some sp → extra_args sp ≫= (λ m, m !! "power_smc"%string) = Some (PMapping raw) →
      py_bool (default (PBool false) (raw !! "enabled"%string)) = false
  | Err e => e = VLLMValidationError ∨ conversion_error e
  end.
Proof.
  unfold from_sampling_params.
  destruct osp as [sp|]; [|by intros]. cbn [mbind option_bind].
  destruct (extra_args sp) as [m|] eqn:Hm; cbn [mbind option_bind]; [|intros ? ? [= <-]; by rewrite Hm].
  destruct (m !! "power_smc"%string) as [v|] eqn:Hv; cbn [mbind option_bind];
    [|intros ? ? [= <-]; rewrite Hm; cbn [mbind option_bind]; by rewrite Hv].
  destruct v as [raw|[]];
    [|intros ? ? [= <-]; rewrite Hm; cbn [mbind option_bind]; by rewrite Hv|by left..].
  destruct (py_bool _) eqn:Hen; cbn [negb];
    [|intros ? ? [= <-]; rewrite Hm; cbn [mbind option_bind]; rewrite Hv; by intros [= <-]].
  destruct (rbind _ _) as [[c|]|e] eqn:Hr.
  - repeat (apply rbind_ok in Hr as (? & ? & Hr)). injection Hr as <-.
    match goal with H : validate_sampling_params _ _ = Ok _ |- _ => rename H into Hval end.
    unfold validate_sampling_params in Hval. apply rbind_ok in Hval as ([] & Hself & Hun).
    pose proof (valid_facts _ Hself) as (? & ? & ? & ? & ? & ? & ?).
    exists sp, raw. split_and!; [done|by rewrite Hm; exact Hv|done| |done..|].
    + unfold rcheck in Hun. case_bool_decide; done.
    + intros r. by apply init_result.
  - exfalso. repeat (apply rbind_ok in Hr as (? & _ & Hr)). done.
  - repeat (apply rbind_err in Hr as [Hr|(? & _ & Hr)];
      [first [right; by eapply py_float_err|right; by eapply py_int_err|left; by eapply validate_sampling_params_err]|]).
    done.
Qed.
End config.

(** ** A draw of exactly zero *)

(** [random.Random.random] returns values of [0, 1), zero included; for zero
    both selections take particle 0 even when its weight is zero. *)
Lemma zero_draw_takes_zero_weight (libm_exp : spec_float → spec_float) :
  let ar := binary64 libm_exp in
  let r := MkRng (A := ar) (λ _, f64_of_Z 0) 0 in
  (sample_index (A := ar) [f64_of_Z 0; f64_of_Z 1] r).1 = 0 ∧
  ∃ r', systematic_resample (A := ar) [f64_of_Z 0; f64_of_Z 1] r = Ok ([0; 1], r').
Proof. split; [reflexivity|by eexists]. Qed.

(** ** A configuration that is not a number *)

(** The check [alpha < 1.0] lets NaN through, and every log weight is NaN from
    the first token on. *)
Lemma nan_alpha_accepted (libm_exp : spec_float → spec_float) :
  let ar := binary64 libm_exp in
  let c := MkSMC (A := ar) true S754_nan 2 1 (f64_of_Z 1) 1 (PStr "power_temperature") false true false in
  validate_self c = Ok tt ∧
  log_weight (observe_token (group_constants c) 7 (f64_of_Z (-1)) (f64_of_Z (-2)) false None None new_particle)
    = S754_nan.
Proof. split; reflexivity. Qed.

(** ** Integers too large for a float *)

(** [float(10 ** 400)] raises: such an [alpha] is refused with an OverflowError,
    while such an [alpha_ramp_tokens] passes the validation and no group can be
    created. *)
Lemma huge_integers (libm_exp : spec_float → spec_float) ps :
  let ar := binary64 libm_exp in
  let c := MkSMC (A := ar) true (f64_of_Z 4) 2 1 (f64_of_Z 1) (10 ^ 400) (PStr "power_temperature") false true false in
  py_float (A := ar) ps (PInt (10 ^ 400)) = Err OverflowError ∧ validate_self c = Ok tt ∧
  PowerSMCGroupManager_init c (MkRng (A := ar) (λ _, f64_of_Z 0) 0) = Err OverflowError.
Proof. split_and!; reflexivity. Qed.
