(* ===== verification/EncoderCache.v ===== *)
(** * The encoder cache

    src/vllm/vllm/v1/core/encoder_cache_manager.py: which multi-modal encoder
    outputs are kept, who refers to them, and which may be evicted. *)

From stdpp Require Import gmap sets.
From S2P Require Import Prelude Request.
Open Scope Z_scope.

(** ** OrderedDict *)

Section ordered_dict.
Context {V : Type}.
Implicit Types d : list (string * V).

Fixpoint od_lookup (k : string) d : option V :=
  match d with
  | [] => None
  | (k', v) :: d' => if decide (k = k') then Some v else od_lookup k d'
  end.
Definition od_delete (k : string) d : list (string * V) := filter (λ kv, kv.1 ≠ k) d.
(** Assignment keeps the place of a key that is there. *)
Definition od_set (k : string) (v : V) d : list (string * V) :=
  match od_lookup k d with
  | Some _ => (λ kv, if decide (kv.1 = k) then (k, v) else kv) <$> d
  | None => d ++ [(k, v)]
  end.
End ordered_dict.

(** ** State *)

Record EncoderCacheManager : Type := MkEnc {
  cache_size : Z;
  num_free_slots : Z;
  num_freeable_slots : Z;
  cached : gmap string (gset string);
  request_cached_ids : gmap string (gset Z);
  freeable : list (string * Z);
  freed : list string
}.

Definition EncoderCacheManager_init (size : Z) : EncoderCacheManager :=
  MkEnc size size size ∅ ∅ [] [].

Definition set_slots free freeable_slots (c : EncoderCacheManager) : EncoderCacheManager :=
  MkEnc (cache_size c) free freeable_slots (cached c) (request_cached_ids c) (freeable c) (freed c).
Definition set_cached m (c : EncoderCacheManager) : EncoderCacheManager :=
  MkEnc (cache_size c) (num_free_slots c) (num_freeable_slots c) m (request_cached_ids c) (freeable c) (freed c).
Definition set_request_ids m (c : EncoderCacheManager) : EncoderCacheManager :=
  MkEnc (cache_size c) (num_free_slots c) (num_freeable_slots c) (cached c) m (freeable c) (freed c).
Definition set_freeable l (c : EncoderCacheManager) : EncoderCacheManager :=
  MkEnc (cache_size c) (num_free_slots c) (num_freeable_slots c) (cached c) (request_cached_ids c) l (freed c).
Definition set_freed l (c : EncoderCacheManager) : EncoderCacheManager :=
  MkEnc (cache_size c) (num_free_slots c) (num_freeable_slots c) (cached c) (request_cached_ids c) (freeable c) l.

(** [request.mm_features[input_id].identifier] and [get_num_encoder_embeds] *)
Definition input_hash (r : Request) (input_id : Z) : M EncoderCacheManager string :=
  let* f := or_raise IndexError (py_nth (mm_features r) input_id) in ret (identifier f).
Definition input_embeds (r : Request) (input_id : Z) : M EncoderCacheManager Z :=
  of_res (get_num_encoder_embeds r input_id tt).1.

(** ** Operations *)

Section encoder_cache.
(** The order in which Python iterates over a set of input ids. *)
Context (set_order : gset Z → list Z).

Definition enc_reset : M EncoderCacheManager unit :=
  modify (λ c, EncoderCacheManager_init (cache_size c)).

(** [cached[h].add(r); request_cached_ids.setdefault(r, set()).add(i)] *)
Definition add_reference (h rid : string) (input_id : Z) : M EncoderCacheManager unit :=
  let* m := gets cached in
  let* refs := or_raise KeyError (m !! h) in
  modify (λ c, set_cached (<[h := refs ∪ {[rid]}]> (cached c)) c) ;;;
  modify (λ c, set_request_ids
    (<[rid := default ∅ (request_cached_ids c !! rid) ∪ {[input_id]}]> (request_cached_ids c)) c).

Definition check_and_update_cache (request : Request) (input_id : Z) : M EncoderCacheManager bool :=
  let* mm_hash := input_hash request input_id in
  let* m := gets cached in
  match m !! mm_hash with
  | None => ret false
  | Some refs =>
      (if decide (refs = ∅) then
         let* d := gets freeable in
         let* n := or_raise KeyError (od_lookup mm_hash d) in
         modify (set_freeable (od_delete mm_hash d)) ;;;
         modify (λ c, set_slots (num_free_slots c) (num_freeable_slots c - n) c)
       else ret tt) ;;;
      add_reference mm_hash (request_id request) input_id ;;;
      ret true
  end.

(** The eviction loop of [can_allocate]. *)
Fixpoint evict_until (fuel : nat) (num_embeds : Z) : M EncoderCacheManager unit :=
  let* free := gets num_free_slots in
  if free <? num_embeds then
    match fuel with
    | O => raise OutOfFuel
    | S fuel =>
        let* d := gets freeable in
        match d with
        | [] => raise KeyError
        | (mm_hash, n) :: d' =>
            modify (set_freeable d') ;;;
            let* m := gets cached in
            let* _ := or_raise KeyError (m !! mm_hash) in
            modify (set_cached (delete mm_hash m)) ;;;
            modify (λ c, set_freed (freed c ++ [mm_hash]) c) ;;;
            modify (λ c, set_slots (num_free_slots c + n) (num_freeable_slots c) c) ;;;
            evict_until fuel num_embeds
        end
    end
  else ret tt.

Definition can_allocate (request : Request) (input_id encoder_compute_budget num_embeds_to_schedule : Z)
  : M EncoderCacheManager bool :=
  let* num_embeds := input_embeds request input_id in
  if encoder_compute_budget <? num_embeds then ret false
  else
    let num_embeds := num_embeds + num_embeds_to_schedule in
    let* free := gets num_free_slots in
    if num_embeds <=? free then ret true
    else
      let* free_able := gets num_freeable_slots in
      if free_able <? num_embeds then ret false
      else
        let* d := gets freeable in
        evict_until (length d) num_embeds ;;;
        ret true.

Definition allocate (request : Request) (input_id : Z) : M EncoderCacheManager unit :=
  let* mm_hash := input_hash request input_id in
  modify (λ c, match cached c !! mm_hash with
               | None => set_cached (<[mm_hash := ∅]> (cached c)) c
               | Some _ => c
               end) ;;;
  let* n := input_embeds request input_id in
  let* free := gets num_free_slots in
  assert_ (n <=? free) ;;;
  let* free_able := gets num_freeable_slots in
  assert_ (n <=? free_able) ;;;
  add_reference mm_hash (request_id request) input_id ;;;
  modify (λ c, set_slots (num_free_slots c - n) (num_freeable_slots c - n) c).

Definition get_cached_input_ids (request : Request) (c : EncoderCacheManager) : gset Z :=
  default ∅ (request_cached_ids c !! request_id request).

Definition free_encoder_input (request : Request) (input_id : Z) : M EncoderCacheManager unit :=
  let req_id := request_id request in
  let* mm_hash := input_hash request input_id in
  modify (λ c,
    match request_cached_ids c !! req_id with
    | None => c
    | Some ids =>
        let ids := ids ∖ {[input_id]} in
        set_request_ids (if decide (ids = ∅) then delete req_id (request_cached_ids c)
                         else <[req_id := ids]> (request_cached_ids c)) c
    end) ;;;
  let* m := gets cached in
  match m !! mm_hash with
  | None => ret tt
  | Some refs =>
      if decide (refs = ∅) then ret tt
      else
        let refs := refs ∖ {[req_id]} in
        modify (set_cached (<[mm_hash := refs]> m)) ;;;
        if decide (refs = ∅) then
          let* n := input_embeds request input_id in
          modify (λ c, set_freeable (od_set mm_hash n (freeable c)) c) ;;;
          modify (λ c, set_slots (num_free_slots c) (num_freeable_slots c + n) c)
        else ret tt
  end.

Definition enc_free (request : Request) : M EncoderCacheManager unit :=
  let* ids := gets (get_cached_input_ids request) in
  for_each (set_order ids) (free_encoder_input request).

Definition get_freed_mm_hashes : M EncoderCacheManager (list string) :=
  let* l := gets freed in modify (set_freed []) ;;; ret l.
End encoder_cache.

(** ** The budget *)

Record EncoderBudgetConfig : Type := MkBudget {
  disable_chunked_mm_input : bool;
  max_num_batched_tokens : Z;
  max_num_encoder_input_tokens : Z;
  encoder_cache_size : Z
}.

Definition compute_mm_encoder_budget (cfg : EncoderBudgetConfig) (mm_max_toks_per_item : list (string * Z))
  : res (Z * Z) :=
  match snd <$> mm_max_toks_per_item with
  | [] => Ok (0, 0)
  | n :: ns =>
      let max_tokens_per_mm_item := foldl Z.max n ns in
      if disable_chunked_mm_input cfg && (max_num_batched_tokens cfg <? max_tokens_per_mm_item)
      then Err ValueError
      else Ok (Z.max (max_num_encoder_input_tokens cfg) max_tokens_per_mm_item,
               Z.max (encoder_cache_size cfg) max_tokens_per_mm_item)
  end.

(** ** Encoder-decoder models *)

Record EncoderDecoderCacheManager : Type := MkEncDec {
  ed_cache_size : Z;
  ed_num_free_slots : Z;
  allocated : list string;
  to_free : list string
}.

Definition EncoderDecoderCacheManager_init (size : Z) : EncoderDecoderCacheManager :=
  MkEncDec size size [] [].
Definition ed_reset (c : EncoderDecoderCacheManager) : EncoderDecoderCacheManager :=
  MkEncDec (ed_cache_size c) (ed_cache_size c) [] [].
Definition ed_check_and_update_cache (request : Request) (input_id : Z)
  : M EncoderDecoderCacheManager bool := ret false.
Definition ed_input_embeds (r : Request) (input_id : Z) : M EncoderDecoderCacheManager Z :=
  of_res (get_num_encoder_embeds r input_id tt).1.
Definition ed_can_allocate (request : Request) (input_id encoder_compute_budget num_embeds_to_schedule : Z)
  : M EncoderDecoderCacheManager bool :=
  let* n := ed_input_embeds request input_id in
  if encoder_compute_budget <? n then ret false
  else let* free := gets ed_num_free_slots in ret (n + num_embeds_to_schedule <=? free).
Definition ed_allocate (request : Request) (input_id : Z) : M EncoderDecoderCacheManager unit :=
  let* n := ed_input_embeds request input_id in
  modify (λ c, MkEncDec (ed_cache_size c) (ed_num_free_slots c - n) (allocated c) (to_free c)) ;;;
  let* f := or_raise IndexError (py_nth (mm_features request) input_id) in
  modify (λ c, MkEncDec (ed_cache_size c) (ed_num_free_slots c) (allocated c ++ [identifier f]) (to_free c)).
Definition ed_free_encoder_input (request : Request) (input_id : Z) : M EncoderDecoderCacheManager unit :=
  let* n := ed_input_embeds request input_id in
  modify (λ c, MkEncDec (ed_cache_size c) (ed_num_free_slots c + n) (allocated c) (to_free c)).
Definition ed_free (request : Request) : M EncoderDecoderCacheManager unit :=
  for_each (range 0 (len (mm_features request))) (ed_free_encoder_input request).
Definition ed_get_cached_input_ids (request : Request) : list Z := range 0 (len (mm_features request)).
Definition ed_get_freed_mm_hashes : M EncoderDecoderCacheManager (list string) :=
  let* c := gets (λ c, c) in
  modify (λ c, MkEncDec (ed_cache_size c) (ed_num_free_slots c) [] (allocated c)) ;;;
  ret (to_free c).
