(* ===== verification/EncoderProps.v ===== *)
(** * The encoder cache: accounting

    The slots of the encoder cache are accounted for exactly, no legal call
    raises, and eviction takes the oldest unreferenced entries, as few as
    needed. *)

From stdpp Require Import gmap sets.
From S2P Require Import Prelude Request EncoderCache.
Open Scope Z_scope.

(** ** OrderedDict *)

Section ordered_dict.
Context {V : Type}.
Implicit Types d : list (string * V).

Lemma od_lookup_elem k v d : NoDup d.*1 → od_lookup k d = Some v ↔ (k, v) ∈ d.
Proof.
  induction d as [|[k' v'] d IH]; cbn [fmap list_fmap fst]; intros Hnd.
  { split; [done|]. by intros ?%elem_of_nil. }
  apply NoDup_cons in Hnd as [Hk Hnd]. cbn [od_lookup]. rewrite elem_of_cons. destruct (decide (k = k')) as [->|Hne].
  - split; [intros [= ->]; by left|]. intros [[= ->]|Hin]; [done|]. exfalso. apply Hk.
    apply list_elem_of_fmap. by exists (k', v).
  - rewrite (IH Hnd). split; [by right|]. by intros [[= -> ->]|?].
Qed.

Lemma od_delete_elem k k' v d : (k', v) ∈ od_delete k d ↔ k' ≠ k ∧ (k', v) ∈ d.
Proof. unfold od_delete. by rewrite list_elem_of_filter. Qed.

Lemma od_delete_nodup k d : NoDup d.*1 → NoDup (od_delete k d).*1.
Proof.
  unfold od_delete. induction d as [|[k' v'] d IH]; [done|]. cbn [fmap list_fmap fst]. intros [Hk Hnd]%NoDup_cons.
  rewrite filter_cons. destruct (decide _); [|by apply IH]. cbn [fmap list_fmap fst]. apply NoDup_cons.
  split; [|by apply IH]. intros ([? ?] & -> & [_ Hin]%list_elem_of_filter)%list_elem_of_fmap. apply Hk.
  apply list_elem_of_fmap. by eexists.
Qed.

Lemma od_lookup_none k d : k ∉ d.*1 → od_lookup k d = None.
Proof.
  induction d as [|[k' v'] d IH]; [done|]. cbn [fmap list_fmap fst od_lookup].
  intros [Hne Hn]%not_elem_of_cons. rewrite decide_False by done. by apply IH.
Qed.

Lemma od_set_new k v d : k ∉ d.*1 → od_set k v d = d ++ [(k, v)].
Proof. intros Hk. unfold od_set. by rewrite od_lookup_none. Qed.
End ordered_dict.

(** The slots the entries of a list take. *)
Definition total (d : list (string * Z)) : Z := foldr (λ kv n, kv.2 + n) 0 d.

#[local] Arguments total : simpl never.

Lemma total_cons k n d : total ((k, n) :: d) = n + total d.
Proof. done. Qed.

Lemma total_app d1 d2 : total (d1 ++ d2) = total d1 + total d2.
Proof. induction d1 as [|[k n] d1 IH]; [done|]. rewrite <-app_comm_cons, !total_cons, IH. lia. Qed.

Lemma total_perm d1 d2 : d1 ≡ₚ d2 → total d1 = total d2.
Proof. induction 1 as [|[] ???|[] []|]; rewrite ?total_cons; lia. Qed.

Lemma od_delete_none {V} k (d : list (string * V)) : k ∉ d.*1 → od_delete k d = d.
Proof.
  unfold od_delete. induction d as [|[k' v'] d IH]; [done|]. cbn [fmap list_fmap fst].
  intros [Hne Hn]%not_elem_of_cons. rewrite filter_cons_True by (cbn; congruence). by rewrite IH.
Qed.

Lemma total_delete k n d : NoDup d.*1 → (k, n) ∈ d → total d = n + total (od_delete k d).
Proof.
  induction d as [|[k' v'] d IH]; [by intros _ ?%elem_of_nil|]. cbn [fmap list_fmap fst].
  intros [Hk Hnd]%NoDup_cons Hin. rewrite total_cons. apply elem_of_cons in Hin as [[= -> ->]|Hin].
  - unfold od_delete. rewrite filter_cons_False by (cbn; tauto). fold (od_delete k' d). by rewrite od_delete_none.
  - unfold od_delete. rewrite filter_cons_True.
    2: { cbn. intros ->. apply Hk, list_elem_of_fmap. by exists (k, n). }
    rewrite total_cons, (IH Hnd Hin). unfold od_delete. lia.
Qed.

(** ** Accounting *)

Section accounting.
(** The embeddings of the data a hash stands for, and the inputs of a request. *)
Context (sz : string → Z) (num_inputs : string → Z).
Hypothesis sz_nonneg : ∀ h, 0 ≤ sz h.

Definition sizes (m : gmap string (gset string)) : Z :=
  total ((λ kv : string * gset string, (kv.1, sz kv.1)) <$> map_to_list m).

Lemma sizes_empty : sizes ∅ = 0.
Proof. unfold sizes. by rewrite map_to_list_empty. Qed.

Lemma sizes_insert m h refs : m !! h = None → sizes (<[h := refs]> m) = sz h + sizes m.
Proof. intros Hm. unfold sizes. rewrite (total_perm _ _ (fmap_Permutation _ _ _ (map_to_list_insert _ _ _ Hm))). done. Qed.

Lemma sizes_delete m h refs : m !! h = Some refs → sizes m = sz h + sizes (delete h m).
Proof.
  intros Hm. rewrite <-(insert_delete_id m h refs Hm) at 1. apply sizes_insert. apply lookup_delete_eq.
Qed.

Lemma sizes_update m h refs refs' : m !! h = Some refs → sizes (<[h := refs']> m) = sizes m.
Proof.
  intros Hm. rewrite (sizes_delete m h refs Hm), <-insert_delete_eq, sizes_insert; [done|apply lookup_delete_eq].
Qed.

Lemma sizes_nonneg m : 0 ≤ sizes m.
Proof.
  induction m as [|h refs m Hm IH] using map_ind; [by rewrite sizes_empty|].
  rewrite sizes_insert by done. pose proof (sz_nonneg h). lia.
Qed.

(** Slots of the entries some request refers to. *)
Definition referenced (m : gmap string (gset string)) : Z := sizes (filter (λ kv, kv.2 ≠ ∅) m).

Record enc_inv (c : EncoderCacheManager) : Prop := {
  ei_free : num_free_slots c = cache_size c - sizes (cached c);
  ei_bound : 0 ≤ num_free_slots c;
  ei_freeable : num_freeable_slots c = num_free_slots c + total (freeable c);
  ei_nodup : NoDup (freeable c).*1;
  ei_entries : ∀ h n, (h, n) ∈ freeable c ↔ cached c !! h = Some ∅ ∧ n = sz h;
  ei_ids : ∀ rid ids i, request_cached_ids c !! rid = Some ids → i ∈ ids → 0 ≤ i < num_inputs rid
}.

(** A request whose inputs have the sizes of their data. *)
Definition fitting (r : Request) : Prop :=
  len (mm_features r) = num_inputs (request_id r) ∧
  ∀ f, f ∈ mm_features r → get_num_embeds (mm_position f) = sz (identifier f).

Lemma freeable_keys c h : enc_inv c → h ∈ (freeable c).*1 ↔ cached c !! h = Some ∅.
Proof.
  intros Hc. rewrite list_elem_of_fmap. split.
  - intros ([h' n] & -> & Hin). by apply (ei_entries c Hc) in Hin as [??].
  - intros Hh. exists (h, sz h). split; [done|]. by apply (ei_entries c Hc).
Qed.

Lemma total_nonneg d : (∀ h n, (h, n) ∈ d → n = sz h) → 0 ≤ total d.
Proof.
  induction d as [|[h n] d IH]; intros Hd; [done|]. rewrite total_cons.
  rewrite (Hd h n) by left. pose proof (sz_nonneg h). pose proof (IH (λ h n Hin, Hd h n ltac:(by right))). lia.
Qed.

Lemma freeable_total_nonneg c : enc_inv c → 0 ≤ total (freeable c).
Proof. intros Hc. apply total_nonneg. intros h n Hin. by apply (ei_entries c Hc) in Hin as [_ ?]. Qed.

(** [num_freeable_slots] counts everything but the referenced entries. *)
Lemma freeable_slots_eq c : enc_inv c → num_freeable_slots c = cache_size c - referenced (cached c).
Proof.
  intros Hc. rewrite (ei_freeable c Hc), (ei_free c Hc).
  assert (total (freeable c) = sizes (filter (λ kv, kv.2 = ∅) (cached c))) as ->.
  { apply total_perm. apply NoDup_Permutation.
    - eapply NoDup_fmap_1, (ei_nodup c Hc).
    - apply (NoDup_fmap_1 fst). rewrite <-list_fmap_compose. unfold compose. cbn. apply NoDup_fst_map_to_list.
    - intros [h n]. rewrite (ei_entries c Hc), list_elem_of_fmap. split.
      + intros [Hh ->]. exists (h, ∅). split; [done|]. apply elem_of_map_to_list, map_lookup_filter_Some. done.
      + intros ([h' refs] & [= -> ->] & [Hh He]%elem_of_map_to_list%map_lookup_filter_Some). cbn in He. by subst. }
  assert (∀ m, sizes m = sizes (filter (λ kv, kv.2 = ∅) m) + sizes (filter (λ kv, kv.2 ≠ ∅) m)) as Hsplit.
  { clear. induction m as [|h refs m Hm IH] using map_ind; [by rewrite !map_filter_empty, !sizes_empty|].
    rewrite sizes_insert by done. destruct (decide (refs = ∅)) as [->|Hne].
    - rewrite map_filter_insert_True, map_filter_insert_not' by (done || (intros; cbn; congruence) || (cbn; tauto)).
      rewrite sizes_insert by (apply map_lookup_filter_None; by left). lia.
    - rewrite (map_filter_insert_True (λ kv : string * gset string, kv.2 ≠ ∅)), map_filter_insert_not' by (done || (intros; cbn; congruence)).
      rewrite sizes_insert by (apply map_lookup_filter_None; by left). lia. }
  rewrite (Hsplit (cached c)). unfold referenced. lia.
Qed.

(** ** Operations *)

Definition hash_of (r : Request) (i : Z) : string :=
  match py_nth (mm_features r) i with Some f => identifier f | None => EmptyString end.

(** A well-formed input of a well-formed request. *)
Definition good_input (r : Request) (i : Z) : Prop := fitting r ∧ 0 ≤ i < len (mm_features r).

Lemma input_eq r i c : good_input r i →
  input_hash r i c = (Ok (hash_of r i), c) ∧ input_embeds r i c = (Ok (sz (hash_of r i)), c).
Proof.
  intros [[Hl Hs] Hi]. unfold input_hash, input_embeds, get_num_encoder_embeds, hash_of, of_res.
  rewrite (proj2 (Z.ltb_lt _ _)) by lia. rewrite py_nth_nonneg by lia.
  destruct (lookup_lt_is_Some_2 (mm_features r) (Z.to_nat i)) as [f Hf]; [unfold len in Hi; lia|].
  rewrite Hf. split; [done|]. cbn. by rewrite (Hs f) by (by eapply list_elem_of_lookup_2).
Qed.

Lemma ids_insert c rid i (P : string → gset Z → Prop) :
  (∀ rid' ids j, request_cached_ids c !! rid' = Some ids → j ∈ ids → 0 ≤ j < num_inputs rid') →
  0 ≤ i < num_inputs rid →
  ∀ rid' ids j, <[rid := default ∅ (request_cached_ids c !! rid) ∪ {[i]}]> (request_cached_ids c) !! rid' = Some ids →
    j ∈ ids → 0 ≤ j < num_inputs rid'.
Proof.
  intros Hc Hi rid' ids j Hl Hj. destruct (decide (rid = rid')) as [<-|Hne].
  - rewrite lookup_insert_eq in Hl. injection Hl as <-. apply elem_of_union in Hj as [Hj|Hj%elem_of_singleton].
    + destruct (request_cached_ids c !! rid) as [ids|] eqn:Hr; [by eapply Hc|by apply elem_of_empty in Hj].
    + by subst.
  - rewrite lookup_insert_ne in Hl by done. by eapply Hc.
Qed.

(** What [add_reference] does, once the hash is known not to be freeable. *)
Lemma add_reference_ok c h rid i refs (Q : unit → EncoderCacheManager → Prop) :
  cached c !! h = Some refs →
  Q tt (set_request_ids (<[rid := default ∅ (request_cached_ids c !! rid) ∪ {[i]}]> (request_cached_ids c))
    (set_cached (<[h := refs ∪ {[rid]}]> (cached c)) c)) →
  ok (add_reference h rid i) c Q.
Proof. intros Hh HQ. unfold add_reference. ok_steps. rewrite Hh. cbn [or_raise]. by ok_steps. Qed.

Lemma insert_refs_entries (m : gmap string (gset string)) d h refs rid :
  (∀ h' n, (h', n) ∈ d ↔ m !! h' = Some ∅ ∧ n = sz h') → m !! h = Some refs → refs ≠ ∅ ∨ h ∉ d.*1 →
  (refs = ∅ → h ∉ d.*1) → ∀ h' n, (h', n) ∈ d ↔ <[h := refs ∪ {[rid]}]> m !! h' = Some ∅ ∧ n = sz h'.
Proof.
  intros Hd Hh _ Hr h' n. rewrite Hd. destruct (decide (h = h')) as [<-|Hne].
  - rewrite lookup_insert_eq, Hh. split; [|intros [He%(inj Some) _]; set_solver].
    intros [[= ->] ->]. exfalso. apply Hr; [done|]. apply list_elem_of_fmap. exists (h, sz h). split; [done|].
    by apply Hd.
  - by rewrite lookup_insert_ne.
Qed.

Lemma check_ok c r i : enc_inv c → good_input r i →
  ok (check_and_update_cache r i) c (λ b c', enc_inv c' ∧ freed c' = freed c ∧
    num_free_slots c' = num_free_slots c ∧ match cached c !! hash_of r i with
    | None => b = false ∧ c' = c
    | Some refs => b = true ∧ cached c' = <[hash_of r i := refs ∪ {[request_id r]}]> (cached c)
    end).
Proof.
  intros Hc Hi. destruct (input_eq r i c Hi) as [Hh _]. destruct Hi as [[Hl _] Hi]. rewrite Hl in Hi.
  set (h := hash_of r i) in *. unfold check_and_update_cache. ok_step. eapply ok_eq; [exact Hh|]. ok_steps.
  destruct (cached c !! h) as [refs|] eqn:Hm; [|by ok_steps].
  destruct Hc as [Hf Hb Hfa Hnd He Hids]. ok_step. case_decide as Hr.
  - subst refs. assert ((h, sz h) ∈ freeable c) as Hin by by apply He. ok_steps.
    rewrite (proj2 (od_lookup_elem h (sz h) _ Hnd) Hin). cbn [or_raise]. ok_steps. eapply add_reference_ok; [exact Hm|]. ok_steps. split_and!; [|done|done|done|done]. constructor; cbn.
    + by rewrite (sizes_update _ _ ∅).
    + done.
    + rewrite Hfa, (total_delete h (sz h) (freeable c) Hnd Hin). lia.
    + by apply od_delete_nodup.
    + intros h' n. rewrite od_delete_elem, He. destruct (decide (h = h')) as [<-|Hne].
      * rewrite lookup_insert_eq. split; [by intros [? _]|]. intros [Hu%(inj Some) _]. set_solver.
      * rewrite lookup_insert_ne by done. split; [by intros [_ ?]|by intros ?].
    + by apply (ids_insert c _ _ (λ _ _, True)).
  - ok_steps. eapply add_reference_ok; [exact Hm|]. ok_steps. split_and!; [|done|done|done|done]. constructor; cbn.
    + by rewrite (sizes_update _ _ refs).
    + done.
    + done.
    + done.
    + apply (insert_refs_entries _ _ h refs); [done|done|by left|done].
    + by apply (ids_insert c _ _ (λ _ _, True)).
Qed.

(** Eviction takes a prefix of the freeable entries. *)
Definition evicted (c c' : EncoderCacheManager) (k : nat) : Prop :=
  freeable c' = drop k (freeable c) ∧
  freed c' = freed c ++ (take k (freeable c)).*1 ∧
  cached c' = filter (λ kv, kv.1 ∉ (take k (freeable c)).*1) (cached c) ∧
  num_free_slots c' = num_free_slots c + total (take k (freeable c)) ∧
  num_freeable_slots c' = num_freeable_slots c ∧ cache_size c' = cache_size c ∧
  request_cached_ids c' = request_cached_ids c.

Lemma evicted_refl c : evicted c c 0.
Proof.
  unfold evicted. change (total (take 0 (freeable c))) with 0. cbn [drop take fmap list_fmap].
  split_and!; [done|by rewrite app_nil_r| |lia|done..].
  apply map_eq. intros h. symmetry. destruct (cached c !! h) as [refs|] eqn:Hh.
  - apply map_lookup_filter_Some. split; [done|]. apply not_elem_of_nil.
  - apply map_lookup_filter_None. by left.
Qed.

Lemma evict_one_inv c h n d : enc_inv c → freeable c = (h, n) :: d →
  cached c !! h = Some ∅ ∧ n = sz h ∧ h ∉ d.*1 ∧
  enc_inv (set_slots (num_free_slots c + n) (num_freeable_slots c)
    (set_freed (freed c ++ [h]) (set_cached (delete h (cached c)) (set_freeable d c)))).
Proof.
  intros [Hf Hb Hfa Hnd He Hids] Hd. rewrite Hd in *. cbn [fmap list_fmap fst] in Hnd.
  apply NoDup_cons in Hnd as [Hh Hnd]. destruct (proj1 (He h n) ltac:(left)) as [Hm ->].
  split_and!; [done..|]. rewrite total_cons in Hfa. constructor; cbn.
  - rewrite (sizes_delete _ h ∅ Hm) in Hf. lia.
  - pose proof (sz_nonneg h). lia.
  - lia.
  - done.
  - intros h' n. destruct (decide (h = h')) as [<-|Hne].
    + rewrite lookup_delete_eq. split; [|by intros [? _]]. intros Hin. exfalso. apply Hh, list_elem_of_fmap. by exists (h, n).
    + rewrite lookup_delete_ne by done. rewrite <-He, elem_of_cons. split; [by right|]. by intros [[= -> ->]|?].
  - done.
Qed.

Lemma evict_until_ok fuel c need : enc_inv c → (length (freeable c) ≤ fuel)%nat → need ≤ num_freeable_slots c →
  ok (evict_until fuel need) c (λ _ c', enc_inv c' ∧ need ≤ num_free_slots c' ∧ ∃ k, evicted c c' k ∧
    (k ≤ length (freeable c))%nat ∧
    ∀ j, (j < k)%nat → num_free_slots c + total (take j (freeable c)) < need).
Proof.
  revert c. induction fuel as [|fuel IH]; intros c Hc Hlen Hneed; cbn [evict_until]; ok_steps.
  - destruct (Z.ltb_spec (num_free_slots c) need) as [Hlt|Hge].
    + exfalso. rewrite (ei_freeable c Hc) in Hneed. destruct (freeable c); [|simpl in Hlen; lia]. change (total []) with 0 in Hneed. lia.
    + ok_steps. split_and!; [done|done|]. exists 0%nat. split_and!; [apply evicted_refl|lia|lia].
  - destruct (Z.ltb_spec (num_free_slots c) need) as [Hlt|Hge].
    2: { ok_steps. split_and!; [done|done|]. exists 0%nat. split_and!; [apply evicted_refl|lia|lia]. }
    ok_steps. destruct (freeable c) as [|[h n] d] eqn:Hd.
    { exfalso. rewrite (ei_freeable c Hc), Hd in Hneed. change (total []) with 0 in Hneed. lia. }
    destruct (evict_one_inv c h n d Hc Hd) as (Hm & -> & Hh & Hc'). ok_steps. cbn [cached set_freeable]. rewrite Hm. cbn [or_raise].
    ok_steps. eapply ok_mono; [apply IH; [exact Hc'|simpl in *; lia|done]|].
    cbn [freeable freed cached num_free_slots num_freeable_slots cache_size request_cached_ids set_slots set_freed set_cached set_freeable].
    intros [] c' (Hi & Hn & k & (H1 & H2 & H3 & H4 & H5 & H6 & H7) & Hk & Hmin). split_and!; [done|done|].
    cbn in H1, H2, H3, H4, H5, H6, H7. exists (S k). unfold evicted. rewrite Hd. cbn [take drop fmap list_fmap fst].
    split_and!; [done|by rewrite H2, <-app_assoc| |rewrite H4, total_cons; lia|done..|simpl; lia|].
    + rewrite H3. apply map_eq. intros h'. apply option_eq. intros refs. rewrite !map_lookup_filter_Some, lookup_delete_Some.
      cbn. rewrite not_elem_of_cons. naive_solver.
    + intros [|j] Hj; [change (total (take 0 ((h, sz h) :: d))) with 0; lia|]. cbn [take]. rewrite total_cons. specialize (Hmin j ltac:(lia)). lia.
Qed.

Lemma can_allocate_ok c r i budget sched : enc_inv c → good_input r i →
  ok (can_allocate r i budget sched) c (λ b c', enc_inv c' ∧
    b = bool_decide (sz (hash_of r i) ≤ budget ∧ sz (hash_of r i) + sched ≤ num_freeable_slots c) ∧
    (b = true → sz (hash_of r i) + sched ≤ num_free_slots c') ∧
    ∃ k, evicted c c' k ∧ (k ≤ length (freeable c))%nat ∧ (b = false → k = 0%nat) ∧
      ∀ j, (j < k)%nat → num_free_slots c + total (take j (freeable c)) < sz (hash_of r i) + sched).
Proof.
  intros Hc Hi. destruct (input_eq r i c Hi) as [_ He]. set (n := sz (hash_of r i)) in *.
  unfold can_allocate. ok_step. eapply ok_eq; [exact He|].
  assert (num_free_slots c ≤ num_freeable_slots c) as Hle.
  { rewrite (ei_freeable c Hc). pose proof (freeable_total_nonneg c Hc). lia. }
  assert (∃ k, evicted c c k ∧ (k ≤ length (freeable c))%nat ∧ (∀ P : Prop, P → k = 0%nat) ∧
    ∀ j, (j < k)%nat → num_free_slots c + total (take j (freeable c)) < n + sched) as (k0 & Hk0 & Hk1 & Hk2 & Hk3).
  { exists 0%nat. split_and!; [apply evicted_refl|lia|done|lia]. }
  destruct (Z.ltb_spec budget n).
  { ok_steps. split_and!; [done| |done|exists k0; by eauto]. rewrite bool_decide_eq_false_2; [done|lia]. }
  ok_steps. destruct (Z.leb_spec (n + sched) (num_free_slots c)).
  { ok_steps. split_and!; [done| |done|exists k0; by eauto]. rewrite bool_decide_eq_true_2; [done|lia]. }
  ok_steps. destruct (Z.ltb_spec (num_freeable_slots c) (n + sched)).
  { ok_steps. split_and!; [done| |done|exists k0; by eauto]. rewrite bool_decide_eq_false_2; [done|lia]. }
  ok_steps. eapply ok_mono; [by apply evict_until_ok; [|lia|]|]. intros [] c' (Hi' & Hn & k & Hev & Hk & Hmin).
  ok_steps. split_and!; [done| |done|by exists k]. rewrite bool_decide_eq_true_2; [done|lia].
Qed.

Lemma allocate_ok c r i : enc_inv c → good_input r i →
  cached c !! hash_of r i = None → sz (hash_of r i) ≤ num_free_slots c →
  ok (allocate r i) c (λ _ c', enc_inv c' ∧ cached c' = <[hash_of r i := {[request_id r]}]> (cached c) ∧
    num_free_slots c' = num_free_slots c - sz (hash_of r i) ∧ freed c' = freed c).
Proof.
  intros Hc Hi Hnew Hfit. set (h := hash_of r i) in *. set (c1 := set_cached (<[h := ∅]> (cached c)) c).
  destruct (input_eq r i c Hi) as [Hh _]. destruct (input_eq r i c1 Hi) as [_ He]. fold h in Hh, He.
  destruct Hi as [[Hl _] Hi]. rewrite Hl in Hi. pose proof (freeable_total_nonneg c Hc) as Ht.
  destruct Hc as [Hf Hb Hfa Hnd Hent Hids]. unfold allocate. ok_step. eapply ok_eq; [exact Hh|]. ok_step. ok_step.
  rewrite Hnew. fold c1. ok_step. eapply ok_eq; [exact He|]. ok_steps.
  apply ok_assert; [apply Z.leb_le; cbn; lia|]. ok_steps. apply ok_assert; [apply Z.leb_le; cbn; lia|]. ok_steps.
  eapply add_reference_ok; [by apply lookup_insert_eq|]. ok_steps. cbn. rewrite insert_insert_eq, union_empty_l_L.
  split_and!; [|done|done|done]. constructor; cbn.
  - rewrite sizes_insert by done. lia.
  - lia.
  - lia.
  - done.
  - intros h' n. rewrite Hent. destruct (decide (h = h')) as [<-|Hne].
    + rewrite lookup_insert_eq, Hnew. split; [by intros [? _]|]. intros [Hu%(inj Some) _]. set_solver.
    + by rewrite lookup_insert_ne.
  - by apply (ids_insert c _ _ (λ _ _, True)).
Qed.

Definition drop_id (rid : string) (i : Z) (m : gmap string (gset Z)) : gmap string (gset Z) :=
  match m !! rid with
  | None => m
  | Some ids => if decide (ids ∖ {[i]} = ∅) then delete rid m else <[rid := ids ∖ {[i]}]> m
  end.

Lemma drop_id_sub rid i m rid' ids j :
  drop_id rid i m !! rid' = Some ids → j ∈ ids → ∃ ids0, m !! rid' = Some ids0 ∧ j ∈ ids0.
Proof.
  unfold drop_id. destruct (m !! rid) as [ids0|] eqn:Hm; [|by eauto].
  case_decide as Hd; destruct (decide (rid = rid')) as [<-|Hne].
  - by rewrite lookup_delete_eq.
  - rewrite lookup_delete_ne by done. by eauto.
  - rewrite lookup_insert_eq. intros Hs%(inj Some) Hj. exists ids0. split; [done|]. set_solver.
  - rewrite lookup_insert_ne by done. by eauto.
Qed.

Lemma free_input_ok c r i : enc_inv c → good_input r i →
  ok (free_encoder_input r i) c (λ _ c', enc_inv c' ∧
    cached c' = alter (λ refs, refs ∖ {[request_id r]}) (hash_of r i) (cached c) ∧
    num_free_slots c' = num_free_slots c ∧ freed c' = freed c).
Proof.
  intros Hc Hi. set (h := hash_of r i) in *. set (c1 := set_request_ids (drop_id (request_id r) i (request_cached_ids c)) c).
  destruct (input_eq r i c Hi) as [Hh _]. fold h in Hh. unfold free_encoder_input. ok_step.
  eapply ok_eq; [exact Hh|]. ok_step. ok_step.
  assert (match request_cached_ids c !! request_id r with
    | None => c
    | Some ids => set_request_ids (if decide (ids ∖ {[i]} = ∅) then delete (request_id r) (request_cached_ids c)
                         else <[request_id r := ids ∖ {[i]}]> (request_cached_ids c)) c end = c1) as ->.
  { unfold c1, drop_id. by destruct c; cbn; destruct (_ !! _). }
  destruct Hc as [Hf Hb Hfa Hnd Hent Hids].
  assert (∀ rid ids j, request_cached_ids c1 !! rid = Some ids → j ∈ ids → 0 ≤ j < num_inputs rid) as Hids1.
  { intros rid ids j Hl Hj. destruct (drop_id_sub _ _ _ _ _ _ Hl Hj) as (ids0 & Hl0 & Hj0). by eapply Hids. }
  assert (enc_inv c1) as Hc1 by (constructor; done). ok_steps.
  change (cached c1) with (cached c). destruct (cached c !! h) as [refs|] eqn:Hm.
  2: { ok_steps. split_and!; [done| |done|done]. cbn. symmetry. apply alter_id. intros x Hx. by rewrite Hm in Hx. }
  assert (alter (λ refs, refs ∖ {[request_id r]}) h (cached c) = <[h := refs ∖ {[request_id r]}]> (cached c)) as Halt.
  { apply map_eq. intros h'. destruct (decide (h = h')) as [<-|Hne];
    [by rewrite lookup_alter_eq, lookup_insert_eq, Hm|by rewrite lookup_alter_ne, lookup_insert_ne]. }
  rewrite Halt. case_decide as Hr.
  { ok_steps. split_and!; [done| |done|done]. cbn. subst refs. symmetry. apply insert_id. rewrite Hm. f_equal. set_solver. }
  ok_steps. case_decide as Hr'.
  - ok_step. eapply ok_eq; [apply (input_eq r i _ Hi)|]. fold h. ok_steps. split_and!; [|done|done|done].
    assert (h ∉ (freeable c).*1) as Hnot.
    { intros ([h' n] & Heq & Hin)%list_elem_of_fmap. cbn in Heq. subst h'. apply Hent in Hin as [Hin _].
      rewrite Hm in Hin. injection Hin as ->. done. }
    constructor; cbn.
    + by rewrite (sizes_update _ _ refs).
    + done.
    + rewrite od_set_new, total_app by done. rewrite total_cons. change (total []) with 0. lia.
    + rewrite od_set_new by done. rewrite fmap_app. apply NoDup_app. split_and!; [done| |apply NoDup_singleton].
      intros h' Hin ->%list_elem_of_singleton. done.
    + intros h' n. rewrite od_set_new, elem_of_app, list_elem_of_singleton, Hent by done.
      destruct (decide (h = h')) as [<-|Hne].
      * rewrite lookup_insert_eq, Hr', Hm. split; [intros [[[= ->] _]|[= ->]]; done|]. intros [_ ->]. by right.
      * rewrite lookup_insert_ne by done. split; [intros [?|[= -> ->]]; done|by left].
    + done.
  - ok_steps. split_and!; [|done|done|done]. constructor; cbn; [by rewrite (sizes_update _ _ refs)|done..| |done].
    intros h' n. rewrite Hent. destruct (decide (h = h')) as [<-|Hne]; [|by rewrite lookup_insert_ne].
    rewrite lookup_insert_eq, Hm. split; [by intros [[= ->] _]|]. intros [Hu%(inj Some) _]. done.
Qed.

Section with_order.
Context (set_order : gset Z → list Z).
Hypothesis set_order_perm : ∀ s, set_order s ≡ₚ elements s.

Lemma enc_free_ok c r : enc_inv c → fitting r →
  ok (enc_free set_order r) c (λ _ c', enc_inv c' ∧ num_free_slots c' = num_free_slots c ∧ freed c' = freed c ∧
    ∀ h, cached c' !! h = None ↔ cached c !! h = None).
Proof.
  intros Hc Hr. unfold enc_free. ok_steps. set (ids := get_cached_input_ids r c).
  assert (∀ i, i ∈ set_order ids → good_input r i) as Hids.
  { intros i Hi. split; [done|]. destruct Hr as [Hl _]. rewrite Hl. rewrite set_order_perm, elem_of_elements in Hi.
    unfold ids, get_cached_input_ids in Hi. destruct (_ !! _) as [ids0|] eqn:Hm; [by eapply (ei_ids c Hc)|].
    by apply elem_of_empty in Hi. }
  apply (ok_for_each _ (λ l c', (∀ i, i ∈ l → good_input r i) ∧ enc_inv c' ∧
    num_free_slots c' = num_free_slots c ∧ freed c' = freed c ∧ ∀ h, cached c' !! h = None ↔ cached c !! h = None));
    [done| |by intros s (_ & ?)].
  intros i l' c' (Hl & Hc' & Hn & Hf & Hk). eapply ok_mono; [apply free_input_ok; [exact Hc'|apply Hl; left]|].
  intros [] c'' (Hi' & Hca & Hn' & Hf'). split_and!; [|done|by rewrite Hn'|by rewrite Hf'|].
  - intros j Hj. apply Hl. by right.
  - intros h. rewrite Hca, lookup_alter_None. apply Hk.
Qed.
End with_order.
End accounting.
