(* ===== verification/EncoderSafety.v ===== *)
(** * The encoder cache: histories

    The calls the scheduler makes, what holds after any sequence of them, and
    when an encoder output can be given space. *)

From stdpp Require Import gmap sets.
From S2P Require Import Prelude Request EncoderCache EncoderProps.
Open Scope Z_scope.

Section machine.
Context (set_order : gset Z → list Z) (sz : string → Z) (num_inputs : string → Z).

Inductive enc_op : Type :=
| ECheck (r : Request) (i : Z)
| ECanAllocate (r : Request) (i budget sched : Z)
| EAllocate (r : Request) (i : Z)
| EFreeInput (r : Request) (i : Z)
| EFree (r : Request)
| EFreed
| EReset.

Definition run_enc_op (o : enc_op) : M EncoderCacheManager unit :=
  match o with
  | ECheck r i => let* _ := check_and_update_cache r i in ret tt
  | ECanAllocate r i b s => let* _ := can_allocate r i b s in ret tt
  | EAllocate r i => allocate r i
  | EFreeInput r i => free_encoder_input r i
  | EFree r => enc_free set_order r
  | EFreed => let* _ := get_freed_mm_hashes in ret tt
  | EReset => enc_reset
  end.

(** Space is taken for an output that is not there and fits. *)
Definition enc_legal (c : EncoderCacheManager) (o : enc_op) : Prop :=
  match o with
  | ECheck r i | ECanAllocate r i _ _ | EFreeInput r i => good_input sz num_inputs r i
  | EAllocate r i => good_input sz num_inputs r i ∧ cached c !! hash_of r i = None ∧
      sz (hash_of r i) ≤ num_free_slots c
  | EFree r => fitting sz num_inputs r
  | EFreed | EReset => True
  end.

Inductive enc_reachable : EncoderCacheManager → Prop :=
| enc_new size : 0 ≤ size → enc_reachable (EncoderCacheManager_init size)
| enc_call c o c' :
    enc_reachable c → enc_legal c o → run_enc_op o c = (Ok tt, c') → enc_reachable c'.

Hypothesis sz_nonneg : ∀ h, 0 ≤ sz h.
Hypothesis set_order_perm : ∀ s, set_order s ≡ₚ elements s.

Lemma init_inv size : 0 ≤ size → enc_inv sz num_inputs (EncoderCacheManager_init size).
Proof.
  intros Hs. constructor; cbn; [|done| |constructor| |done].
  - rewrite sizes_empty. lia.
  - change (total []) with 0. lia.
  - intros h n. rewrite lookup_empty. split; [by intros ?%elem_of_nil|by intros [? _]].
Qed.

Lemma run_enc_op_ok c o : enc_inv sz num_inputs c → 0 ≤ cache_size c → enc_legal c o →
  ok (run_enc_op o) c (λ _ c', enc_inv sz num_inputs c').
Proof.
  intros Hc Hsize Hl. destruct o; cbn [run_enc_op enc_legal] in *.
  - ok_step. eapply ok_mono; [by apply check_ok|]. intros b c' (Hi & _). by ok_step.
  - ok_step. eapply ok_mono; [by apply (can_allocate_ok sz num_inputs)|]. intros b c' (Hi & _). by ok_step.
  - destruct Hl as (Hg & Hn & Hf). eapply ok_mono; [by apply (allocate_ok sz num_inputs)|]. by intros _ c' (Hi & _).
  - eapply ok_mono; [by apply (free_input_ok sz num_inputs)|]. by intros _ c' (Hi & _).
  - eapply ok_mono; [by apply (enc_free_ok sz num_inputs)|]. by intros _ c' (Hi & _).
  - unfold get_freed_mm_hashes. ok_steps. destruct Hc as [? ? ? ? ? ?]. by constructor.
  - unfold enc_reset. ok_steps. by apply init_inv.
Qed.

Lemma enc_reachable_inv c : enc_reachable c → enc_inv sz num_inputs c ∧ 0 ≤ cache_size c.
Proof.
  induction 1 as [size Hs|c o c' _ [IH Hs] Hl Hrun]; [split; [by apply init_inv|done]|].
  pose proof (run_enc_op_ok c o IH Hs Hl) as Hok. unfold ok in Hok. rewrite Hrun in Hok. split; [exact Hok|].
  pose proof (ei_free _ _ _ Hok) as Hf. pose proof (ei_bound _ _ _ Hok). pose proof (sizes_nonneg sz sz_nonneg (cached c')). lia.
Qed.

(** C31: in every reachable state of the encoder cache the free slots are the
    cache size less the sizes of all entries, the freeable slots the cache size
    less the sizes of the entries some request refers to, an entry is on the
    eviction list exactly when no request refers to it, and every legal call
    returns. *)
Theorem encoder_cache_invariant c :
  enc_reachable c →
  num_free_slots c = cache_size c - sizes sz (cached c) ∧
  num_freeable_slots c = cache_size c - referenced sz (cached c) ∧
  0 ≤ num_free_slots c ≤ num_freeable_slots c ∧
  NoDup (freeable c).*1 ∧ (∀ h, h ∈ (freeable c).*1 ↔ cached c !! h = Some ∅) ∧
  ∀ o, enc_legal c o → ∃ c', run_enc_op o c = (Ok tt, c').
Proof.
  intros Hr. destruct (enc_reachable_inv c Hr) as [Hc Hs]. pose proof (freeable_total_nonneg sz num_inputs sz_nonneg c Hc).
  pose proof (ei_freeable _ _ _ Hc). pose proof (ei_bound _ _ _ Hc). split_and!.
  - apply (ei_free _ _ _ Hc).
  - by eapply freeable_slots_eq.
  - done.
  - lia.
  - apply (ei_nodup _ _ _ Hc).
  - intros h. by eapply freeable_keys.
  - intros o Hl. destruct (ok_inv _ _ _ (run_enc_op_ok c o Hc Hs Hl)) as ([] & c' & Hrun & _). by exists c'.
Qed.

(** C32: [can_allocate] answers whether the input is within the compute budget
    and fits, with what is already scheduled, into what no request refers to.
    Only when it answers yes does it evict, the oldest unreferenced entries
    first and no more than needed; then the input fits the free slots, so that
    [allocate] succeeds.  (The docstring says it answers no only if the input
    exceeds the free and the reclaimable capacity; the compute budget is a second
    reason.) *)
Theorem can_allocate_spec c r i budget sched :
  enc_reachable c → good_input sz num_inputs r i →
  let n := sz (hash_of r i) in
  ∃ b c' k, can_allocate r i budget sched c = (Ok b, c') ∧
    b = bool_decide (n ≤ budget ∧ n + sched ≤ cache_size c - referenced sz (cached c)) ∧
    evicted c c' k ∧ (b = false → k = 0%nat) ∧
    (∀ j, (j < k)%nat → num_free_slots c + total (take j (freeable c)) < n + sched) ∧
    (b = true → n + sched ≤ num_free_slots c' ∧
      (0 ≤ sched → cached c' !! hash_of r i = None → ∃ c'', allocate r i c' = (Ok tt, c''))).
Proof.
  intros Hr Hi n. destruct (enc_reachable_inv c Hr) as [Hc _].
  destruct (ok_inv _ _ _ (can_allocate_ok sz num_inputs sz_nonneg c r i budget sched Hc Hi))
    as (b & c' & Hrun & Hc' & Hb & Hfit & k & Hev & _ & Hk & Hmin).
  exists b, c', k. rewrite <-(freeable_slots_eq sz num_inputs c Hc). split_and!; [done..|]. intros Hbt.
  specialize (Hfit Hbt). split; [done|]. intros Hs Hnew.
  destruct (ok_inv _ _ _ (allocate_ok sz num_inputs sz_nonneg c' r i Hc' Hi Hnew ltac:(lia))) as ([] & c'' & Hrun' & _).
  by exists c''.
Qed.
End machine.

(** ** A cache of ten slots, an image of six and one of five embeddings *)

Section demo.
Definition demo_sz (h : string) : Z := if String.eqb h "image-a" then 6 else 5.
Definition demo_inputs (rid : string) : Z := 1.
Definition demo_feature (h : string) (n : Z) : MultiModalFeatureSpec := MkMMFeature h (MkPlaceholder 0 n None).
Definition demo_request (rid h : string) : Request :=
  MkRequest rid 0 0 None None None None [demo_feature h (demo_sz h)] (Some [1; 2; 3]) None ∅ 3 [] [1; 2; 3] [] 0 0 16
    WAITING None [] None false.

Lemma demo_good rid h : good_input demo_sz demo_inputs (demo_request rid h) 0.
Proof. split; [split; [done|]|by vm_compute]. by intros f ->%list_elem_of_singleton. Qed.

(** [image-a] is stored for one request, which is then freed. *)
Definition demo_ops : list enc_op :=
  [ECanAllocate (demo_request "r1" "image-a") 0 100 0; EAllocate (demo_request "r1" "image-a") 0;
   EFree (demo_request "r1" "image-a")].
Definition demo_cache : EncoderCacheManager :=
  foldl (λ c o, (run_enc_op elements o c).2) (EncoderCacheManager_init 10) demo_ops.

Lemma demo_sz_nonneg h : 0 ≤ demo_sz h.
Proof. unfold demo_sz. by destruct (String.eqb h _). Qed.

Lemma demo_cache_reachable : enc_reachable elements demo_sz demo_inputs demo_cache.
Proof.
  set (c0 := EncoderCacheManager_init 10).
  assert (enc_reachable elements demo_sz demo_inputs c0) as H0 by (by apply enc_new).
  set (c1 := (run_enc_op elements (ECanAllocate (demo_request "r1" "image-a") 0 100 0) c0).2).
  assert (enc_reachable elements demo_sz demo_inputs c1) as H1.
  { eapply (enc_call _ _ _ c0 (ECanAllocate (demo_request "r1" "image-a") 0 100 0)); [done|apply demo_good|done]. }
  set (c2 := (run_enc_op elements (EAllocate (demo_request "r1" "image-a") 0) c1).2).
  assert (enc_reachable elements demo_sz demo_inputs c2) as H2.
  { eapply (enc_call _ _ _ c1 (EAllocate (demo_request "r1" "image-a") 0)); [done| |done].
    split_and!; [apply demo_good|done|by vm_compute]. }
  eapply (enc_call _ _ _ c2 (EFree (demo_request "r1" "image-a"))); [done|apply demo_good|done].
  Unshelve. all: exact 0.
Qed.

Lemma encoder_cache_invariant_witness :
  num_free_slots demo_cache = 4 ∧ num_freeable_slots demo_cache = 10 - referenced demo_sz (cached demo_cache).
Proof.
  destruct (encoder_cache_invariant elements demo_sz demo_inputs demo_sz_nonneg (λ s, reflexivity _) demo_cache
    demo_cache_reachable) as (_ & Hf & _). split; [reflexivity|exact Hf].
Defined.

(** A second image evicts the first. *)
Lemma can_allocate_spec_witness :
  ∃ b c' k, can_allocate (demo_request "r2" "image-b") 0 100 0 demo_cache = (Ok b, c') ∧ b = true ∧
    evicted demo_cache c' k ∧ 5 ≤ num_free_slots c'.
Proof.
  destruct (can_allocate_spec elements demo_sz demo_inputs demo_sz_nonneg (λ s, reflexivity _) demo_cache
    (demo_request "r2" "image-b") 0 100 0 demo_cache_reachable (demo_good "r2" "image-b"))
    as (b & c' & k & Hrun & _ & Hev & _ & _ & Hfit).
  assert ((can_allocate (demo_request "r2" "image-b") 0 100 0 demo_cache).1 = Ok true) as Hb by reflexivity.
  rewrite Hrun in Hb. injection Hb as ->. exists true, c', k. split_and!; [exact Hrun|done|exact Hev|].
  destruct (Hfit eq_refl) as [Hn _]. exact Hn.
Defined.
End demo.
