(* ===== verification/StopCheck.v ===== *)
(** * Stop conditions

    src/vllm/vllm/v1/core/sched/utils.py: when a request is finished after a
    token, with the repetition detector, and the scheduler's loop that appends
    the tokens of a step ([Scheduler._update_request_with_output]). *)

From stdpp Require Import gmap sets.
From S2P Require Import Prelude FreeQueue BlockHash Request.
Open Scope Z_scope.

(** ** Repetition *)

(** The comparisons of [_has_repeating_pattern] for one [n]. *)
Fixpoint same_as_earlier (token_ids : list Z) (pattern_len n : Z) (target : Z) (ms : list Z) : res bool :=
  match ms with
  | [] => Ok true
  | m :: ms' =>
      match py_nth token_ids (- (pattern_len * m + n)) with
      | None => Err IndexError
      | Some t => if t =? target then same_as_earlier token_ids pattern_len n target ms' else Ok false
      end
  end.
Fixpoint repeating_loop (token_ids : list Z) (pattern_len : Z) (repetition_min_count : Z) (ns : list Z) : res bool :=
  match ns with
  | [] => Ok true
  | n :: ns' =>
      match py_nth token_ids (- n) with
      | None => Err IndexError
      | Some target_token =>
          rbind (same_as_earlier token_ids pattern_len n target_token (range 1 repetition_min_count)) (λ same,
          if (same : bool) then repeating_loop token_ids pattern_len repetition_min_count ns' else Ok false)
      end
  end.
Definition has_repeating_pattern (token_ids : list Z) (pattern_len repetition_min_count : Z) : res bool :=
  repeating_loop token_ids pattern_len repetition_min_count (range 1 (pattern_len + 1)).

Fixpoint pattern_loop (token_ids : list Z) (min_count : Z) (lens : list Z) : res bool :=
  match lens with
  | [] => Ok false
  | pattern_len :: lens' =>
      if len token_ids <? pattern_len * min_count then Ok false
      else
        rbind (has_repeating_pattern token_ids pattern_len min_count) (λ found,
        if (found : bool) then Ok true else pattern_loop token_ids min_count lens')
  end.
Definition check_sequence_repetition (token_ids : list Z) (params : RepetitionDetectionParams) : res bool :=
  let max_pattern_size := max_pattern_size params in
  let min_pattern_size := min_pattern_size params in
  let min_count := min_count params in
  let min_pattern_size := if min_pattern_size <=? 0 then 1 else min_pattern_size in
  if (max_pattern_size <=? 0) || (min_count <? 2) || (max_pattern_size <? min_pattern_size) then Ok false
  else pattern_loop token_ids min_count (range min_pattern_size (max_pattern_size + 1)).

(** ** remove_all *)

Section remove_all.
Context {A : Type} `{Countable A}.

(** [lst.remove(item)], where a missing item is ignored *)
Fixpoint remove_first (x : A) (l : list A) : list A :=
  match l with
  | [] => []
  | y :: l' => if decide (x = y) then l' else y :: remove_first x l'
  end.
Definition remove_all (lst : list A) (items_to_remove : gset A) : list A :=
  match elements items_to_remove with
  | [] => lst
  | [item] => remove_first item lst
  | _ => filter (λ x, x ∉ items_to_remove) lst
  end.
End remove_all.

(** ** check_stop *)

Definition check_stop (max_model_len : Z) : M Request bool :=
  let* r := gets (λ r, r) in
  assert_ (bool_decide (pooling_params r = None)) ;;;
  let* sp := or_raise AssertionError (sampling_params r) in
  if num_output_tokens r <? sp_min_tokens sp then ret false
  else
    let* last_token_id := or_raise IndexError (py_nth (output_token_ids r) (-1)) in
    if bool_decide (sp_eos_token_id sp = Some last_token_id) then
      modify (set_status FINISHED_STOPPED) ;;; ret true
    else if bool_decide (last_token_id ∈ sp_stop_token_ids sp) then
      modify (set_status FINISHED_STOPPED) ;;;
      modify (set_stop_reason (Some (StopToken last_token_id))) ;;;
      ret true
    else if (max_model_len <=? num_tokens r) || (max_tokens r <=? num_output_tokens r) then
      modify (set_status FINISHED_LENGTH_CAPPED) ;;; ret true
    else
      let* repeats :=
        match sp_repetition_detection sp with
        | None => ret false
        | Some params => of_res (check_sequence_repetition (output_token_ids r) params)
        end in
      if (repeats : bool) then
        modify (set_status FINISHED_REPETITION) ;;;
        modify (set_stop_reason (Some (StopString "repetition_detected"))) ;;;
        ret true
      else ret false.

Section update.
Context `{HashEnv}.

(** The loop over the new tokens; the result is the tokens that were appended,
    to which the caller's list is trimmed. *)
Fixpoint update_request_with_output (max_model_len : Z) (new_token_ids : list Z)
  : M Request (list Z * bool) :=
  match new_token_ids with
  | [] => ret ([], false)
  | output_token_id :: new_token_ids' =>
      append_output_token_ids [output_token_id] ;;;
      let* stopped := check_stop max_model_len in
      if (stopped : bool) then ret ([output_token_id], true)
      else
        let* kept := update_request_with_output max_model_len new_token_ids' in
        ret (output_token_id :: kept.1, kept.2)
  end.
End update.

(** ** What they compute *)

(** The list ends in [k] copies of a pattern of length [p]. *)
Definition ends_in_repeats (l : list Z) (p k : Z) : Prop :=
  ∃ before pattern, len pattern = p ∧ l = before ++ concat (replicate (Z.to_nat k) pattern).

Lemma py_nth_from_end {A} (l : list A) n : 1 ≤ n ≤ len l → py_nth l (- n) = l !! Z.to_nat (len l - n).
Proof.
  intros Hn. unfold py_nth. rewrite (proj2 (Z.leb_gt _ _)), (proj2 (Z.leb_le _ _)) by lia.
  by replace (len l + - n) with (len l - n) by lia.
Qed.

Lemma lookup_in_range (l : list Z) i : 0 ≤ i < len l → ∃ x, l !! Z.to_nat i = Some x.
Proof. intros Hi. apply lookup_lt_is_Some_2. unfold len in Hi. lia. Qed.

Lemma same_as_earlier_spec l p n t ms :
  0 ≤ p → 1 ≤ n → (∀ m, m ∈ ms → 1 ≤ m ∧ p * m + n ≤ len l) →
  ∃ b, same_as_earlier l p n t ms = Ok b ∧
    (b = true ↔ ∀ m, m ∈ ms → l !! Z.to_nat (len l - (p * m + n)) = Some t).
Proof.
  intros Hp Hn. induction ms as [|m ms IH]; intros Hms.
  { exists true. split; [done|]. split; [by intros _ m ?%elem_of_nil|done]. }
  destruct IH as (b & Hb & Hiff); [by intros; apply Hms; right|].
  destruct (Hms m ltac:(left)) as [Hm1 Hm2]. cbn [same_as_earlier]. rewrite py_nth_from_end by nia.
  destruct (lookup_in_range l (len l - (p * m + n))) as [x Hx]; [nia|]. rewrite Hx.
  destruct (Z.eqb_spec x t) as [->|Hne].
  - exists b. split; [done|]. rewrite Hiff. split.
    + intros Hall m' [->|Hm']%elem_of_cons; [done|by apply Hall].
    + intros Hall m' Hm'. apply Hall. by right.
  - exists false. split; [done|]. split; [done|]. intros Hall. specialize (Hall m ltac:(left)). congruence.
Qed.

Lemma repeating_loop_spec l p k ns :
  0 ≤ p → (∀ n, n ∈ ns → 1 ≤ n ≤ p) → 1 ≤ k → p * k ≤ len l →
  ∃ b, repeating_loop l p k ns = Ok b ∧
    (b = true ↔ ∀ n m, n ∈ ns → 1 ≤ m < k → l !! Z.to_nat (len l - (p * m + n)) = l !! Z.to_nat (len l - n)).
Proof.
  intros Hp. induction ns as [|n ns IH]; intros Hns Hk Hlen.
  { exists true. split; [done|]. split; [by intros _ n m ?%elem_of_nil|done]. }
  destruct IH as (b & Hb & Hiff); [by intros; apply Hns; right|done|done|].
  pose proof (Hns n ltac:(left)) as Hn. cbn [repeating_loop]. rewrite py_nth_from_end by nia.
  destruct (lookup_in_range l (len l - n)) as [t Ht]; [nia|]. rewrite Ht.
  destruct (same_as_earlier_spec l p n t (range 1 k) Hp ltac:(lia)) as (b' & Hb' & Hiff').
  { intros m Hm%elem_of_range. split; [lia|nia]. }
  rewrite Hb'. cbn [rbind].
  assert (b' = true ↔ ∀ m, 1 ≤ m < k → l !! Z.to_nat (len l - (p * m + n)) = Some t) as Hiff2.
  { rewrite Hiff'. split; intros Hall m Hm; apply Hall; by apply elem_of_range. }
  destruct b'.
  - exists b. split; [done|]. rewrite Hiff. pose proof (proj1 Hiff2 eq_refl) as Hcur. split.
    + intros Hall n' m [->|Hn']%elem_of_cons Hm; [by rewrite Ht, Hcur|by apply Hall].
    + intros Hall n' m Hn' Hm. apply Hall; [by right|done].
  - exists false. split; [done|]. split; [done|]. intros Hall. apply Hiff2. intros m Hm.
    rewrite (Hall n m) by (done || left). done.
Qed.

Lemma lookup_repeats {A} (pat : list A) k j :
  (j < length pat * k)%nat → concat (replicate k pat) !! j = pat !! (j mod length pat)%nat.
Proof.
  revert j. induction k as [|k IH]; intros j Hj; [lia|]. cbn [replicate concat].
  destruct (decide (j < length pat)%nat) as [Hlt|Hge].
  - rewrite lookup_app_l by done. by rewrite Nat.mod_small.
  - rewrite lookup_app_r, IH by lia. f_equal.
    replace j with ((j - length pat) + 1 * length pat)%nat at 2 by lia. rewrite Nat.Div0.mod_add. done.
Qed.

Lemma length_repeats {A} (pat : list A) k : length (concat (replicate k pat)) = (length pat * k)%nat.
Proof. induction k as [|k IH]; [by rewrite Nat.mul_0_r|]. cbn. rewrite length_app, IH. lia. Qed.

(** Equality of the tail with its shifts is periodicity. *)
Lemma ends_in_repeats_iff l p k :
  1 ≤ p → 1 ≤ k → p * k ≤ len l →
  ends_in_repeats l p k ↔
  ∀ n m, 1 ≤ n ≤ p → 1 ≤ m < k → l !! Z.to_nat (len l - (p * m + n)) = l !! Z.to_nat (len l - n).
Proof.
  intros Hp Hk Hlen. split.
  - intros (before & pat & Hpat & ->) n m Hn Hm. rewrite !len_app in *.
    assert (len (concat (replicate (Z.to_nat k) pat)) = p * k) as Hl
      by (unfold len in *; rewrite length_repeats; lia). rewrite Hl in *. unfold len in Hpat.
    rewrite !lookup_app_r by (unfold len; nia).
    assert (∀ m, 0 ≤ m < k → (Z.to_nat (len before + p * k - (p * m + n)) - length before)%nat =
      (Z.to_nat (p - n) + Z.to_nat (k - 1 - m) * length pat)%nat) as Hidx by (intros; unfold len; nia).
    pose proof (Hidx 0 ltac:(lia)) as H0. rewrite Z.mul_0_r, Z.add_0_l in H0. rewrite H0, (Hidx m) by lia.
    rewrite !lookup_repeats by nia. by rewrite !Nat.Div0.mod_add.
  - intros Hall. exists (take (Z.to_nat (len l - p * k)) l), (drop (Z.to_nat (len l - p)) l).
    assert (length (drop (Z.to_nat (len l - p)) l) = Z.to_nat p) as Hpl
      by (rewrite length_drop; unfold len in *; nia).
    split; [unfold len at 1; rewrite Hpl; lia|]. rewrite <-(take_drop (Z.to_nat (len l - p * k)) l) at 1. f_equal.
    apply list_eq. intros j. destruct (decide (j < Z.to_nat (p * k))%nat) as [Hj|Hj].
    2: { rewrite !lookup_ge_None_2; [done| |].
         - rewrite length_repeats, Hpl, <-Z2Nat.inj_mul by lia. lia.
         - rewrite length_drop. unfold len in *. lia. }
    rewrite lookup_repeats, Hpl, !lookup_drop by (rewrite Hpl; nia).
    pose proof (Nat.div_mod_eq j (Z.to_nat p)) as Hdm.
    pose proof (Nat.mod_upper_bound j (Z.to_nat p) ltac:(lia)) as Hmod.
    set (q := (j / Z.to_nat p)%nat) in *. set (s := (j mod Z.to_nat p)%nat) in *.
    assert (Z.of_nat j = p * Z.of_nat q + Z.of_nat s) as Hz
      by (rewrite Hdm at 1; rewrite Nat2Z.inj_add, Nat2Z.inj_mul, Z2Nat.id by lia; done).
    assert (0 ≤ Z.of_nat s < p) as Hs by lia. assert (Z.of_nat j < p * k) as Hjk by lia.
    assert (Z.of_nat q < k) as Hq by nia.
    destruct (decide (Z.of_nat q = k - 1)) as [Hlast|Hnl].
    + f_equal. nia.
    + specialize (Hall (p - Z.of_nat s) (k - 1 - Z.of_nat q) ltac:(lia) ltac:(lia)).
      replace (len l - (p * (k - 1 - Z.of_nat q) + (p - Z.of_nat s))) with (len l - p * k + Z.of_nat j) in Hall
        by (rewrite Hz; ring).
      rewrite Z2Nat.inj_add, Nat2Z.id in Hall by lia. rewrite Hall. assert (p ≤ len l) by nia. f_equal. lia.
Qed.

Lemma has_repeating_pattern_spec l p k :
  1 ≤ p → 1 ≤ k → p * k ≤ len l →
  ∃ b, has_repeating_pattern l p k = Ok b ∧ (b = true ↔ ends_in_repeats l p k).
Proof.
  intros Hp Hk Hlen. destruct (repeating_loop_spec l p k (range 1 (p + 1)) ltac:(lia)) as (b & Hb & Hiff).
  { intros n Hn%elem_of_range. lia. } { done. } { done. }
  exists b. split; [done|]. rewrite Hiff, ends_in_repeats_iff by done. split.
  - intros Hall n m Hn Hm. apply Hall; [apply elem_of_range; lia|done].
  - intros Hall n m Hn%elem_of_range Hm. apply Hall; [lia|done].
Qed.

Lemma ends_in_repeats_len l p k : 0 ≤ k → ends_in_repeats l p k → p * k ≤ len l.
Proof.
  intros Hk (before & pat & <- & ->). rewrite len_app. unfold len. rewrite length_repeats. lia.
Qed.

Lemma pattern_loop_spec l k a b :
  1 ≤ a → 1 ≤ k →
  ∃ r, pattern_loop l k (range a b) = Ok r ∧ (r = true ↔ ∃ p, a ≤ p < b ∧ ends_in_repeats l p k).
Proof.
  intros Ha Hk. remember (Z.to_nat (b - a)) as n eqn:Hn. revert a Ha Hn. induction n as [|n IH]; intros a Ha Hn.
  { unfold range. rewrite seqZ_nil by lia. exists false. split; [done|]. split; [done|]. intros (p & Hp & _). lia. }
  unfold range. rewrite seqZ_cons by lia. replace (Z.succ a) with (a + 1) by lia.
  replace (Z.pred (b - a)) with (b - (a + 1)) by lia. fold (range (a + 1) b). cbn [pattern_loop].
  destruct (Z.ltb_spec (len l) (a * k)) as [Hlt|Hge].
  { exists false. split; [done|]. split; [done|]. intros (p & Hp & He).
    pose proof (ends_in_repeats_len l p k ltac:(lia) He). nia. }
  destruct (has_repeating_pattern_spec l a k ltac:(lia) Hk Hge) as (r & -> & Hr). cbn [rbind]. destruct r.
  - exists true. split; [done|]. split; [|done]. intros _. exists a. split; [lia|by apply Hr].
  - destruct (IH (a + 1) ltac:(lia) ltac:(lia)) as (r & Hrun & Hr'). exists r. split; [done|]. rewrite Hr'. split.
    + intros (p & Hp & He). exists p. split; [lia|done].
    + intros (p & Hp & He). exists p. split; [|done]. destruct (decide (p = a)) as [->|]; [|lia].
      apply Hr in He. done.
Qed.

Lemma check_sequence_repetition_ok l params : ∃ b, check_sequence_repetition l params = Ok b.
Proof.
  unfold check_sequence_repetition. destruct (_ || _ || _) eqn:Hc; [by eexists|].
  apply orb_false_iff in Hc as [[_ Hk%Z.ltb_ge]%orb_false_iff _].
  destruct (pattern_loop_spec l (min_count params) (if min_pattern_size params <=? 0 then 1 else min_pattern_size params)
    (max_pattern_size params + 1)) as (b & Hb & _); [destruct (Z.leb_spec (min_pattern_size params) 0); lia|lia|].
  by exists b.
Qed.

(** C33: the repetition detector never fails, and it fires exactly when the
    output ends in [min_count] copies of some pattern whose length is between
    the (at least one) minimal and the maximal pattern size. *)
Theorem check_sequence_repetition_spec l params :
  ∃ b, check_sequence_repetition l params = Ok b ∧
    (b = true ↔ 0 < max_pattern_size params ∧ 2 ≤ min_count params ∧
      ∃ p, Z.max 1 (min_pattern_size params) ≤ p ≤ max_pattern_size params ∧
        ends_in_repeats l p (min_count params)).
Proof.
  destruct params as [mx mn k]. unfold check_sequence_repetition. cbn [max_pattern_size min_pattern_size min_count].
  assert ((if mn <=? 0 then 1 else mn) = Z.max 1 mn) as -> by (destruct (Z.leb_spec mn 0); lia).
  destruct (Z.leb_spec mx 0); cbn [orb].
  { exists false. split; [done|]. split; [done|]. intros (? & _). lia. }
  destruct (Z.ltb_spec k 2); cbn [orb].
  { exists false. split; [done|]. split; [done|]. intros (_ & ? & _). lia. }
  destruct (Z.ltb_spec mx (Z.max 1 mn)).
  { exists false. split; [done|]. split; [done|]. intros (_ & _ & p & Hp & _). lia. }
  destruct (pattern_loop_spec l k (Z.max 1 mn) (mx + 1) ltac:(lia) ltac:(lia)) as (b & Hb & Hiff).
  exists b. split; [done|]. rewrite Hiff. split.
  - intros (p & Hp & He). split_and!; [lia|lia|]. exists p. split; [lia|done].
  - intros (_ & _ & p & Hp & He). exists p. split; [lia|done].
Qed.

(** ** Removing several items *)

Section remove_all_spec.
Context {A : Type} `{Countable A}.

Lemma remove_first_filter (x : A) l : NoDup l → remove_first x l = filter (λ y, y ∉ ({[x]} : gset A)) l.
Proof.
  induction 1 as [|y l Hy Hnd IH]; [done|]. cbn [remove_first]. rewrite filter_cons.
  destruct (decide (x = y)) as [<-|Hne].
  - rewrite decide_False by set_solver. rewrite <-IH. clear IH Hnd.
    induction l as [|z l IHl]; [done|]. cbn. apply not_elem_of_cons in Hy as [Hne Hy].
    rewrite decide_False by done. f_equal. by apply IHl.
  - rewrite decide_True by set_solver. by rewrite IH.
Qed.

(** On a list without duplicates the fast path for one item agrees with the
    general one. *)
Lemma remove_all_filter l (s : gset A) : NoDup l → remove_all l s = filter (λ x, x ∉ s) l.
Proof.
  intros Hnd. unfold remove_all. destruct (elements s) as [|x [|y xs]] eqn:He; [| |done].
  - apply elements_empty_inv in He. assert (s = ∅) as -> by set_solver.
    clear Hnd. induction l as [|x l IH]; [done|]. rewrite filter_cons, decide_True by set_solver. by rewrite <-IH.
  - assert (s = {[x]}) as ->; [|by apply remove_first_filter].
    apply set_eq. intros z. rewrite <-elem_of_elements, He, elem_of_singleton. by rewrite list_elem_of_singleton.
Qed.
End remove_all_spec.

(** ** Stopping *)

(** Why a request stops after a token, by precedence. *)
Definition stop_cause (max_model_len : Z) (sp : SamplingParams) (r : Request) : option (RequestStatus * option StopReason) :=
  match last (output_token_ids r) with
  | None => None
  | Some t =>
      if num_output_tokens r <? sp_min_tokens sp then None
      else if bool_decide (sp_eos_token_id sp = Some t) then Some (FINISHED_STOPPED, stop_reason r)
      else if bool_decide (t ∈ sp_stop_token_ids sp) then Some (FINISHED_STOPPED, Some (StopToken t))
      else if (max_model_len <=? num_tokens r) || (max_tokens r <=? num_output_tokens r)
           then Some (FINISHED_LENGTH_CAPPED, stop_reason r)
      else match sp_repetition_detection sp with
           | Some p => match check_sequence_repetition (output_token_ids r) p with
                       | Ok true => Some (FINISHED_REPETITION, Some (StopString "repetition_detected"))
                       | _ => None
                       end
           | None => None
           end
  end.

Lemma py_nth_minus_one {A} (l : list A) : py_nth l (-1) = last l.
Proof.
  destruct l as [|x l] using rev_ind; [done|]. rewrite last_snoc.
  change (-1) with (- (1)). rewrite py_nth_from_end by (rewrite len_app; change (len [x]) with 1; pose proof (len_nonneg l); lia).
  rewrite len_app. change (len [x]) with 1. rewrite Z.add_simpl_r. unfold len. rewrite Nat2Z.id.
  by rewrite lookup_app_r, Nat.sub_diag by done.
Qed.

Lemma check_stop_eq mml sp r :
  pooling_params r = None → sampling_params r = Some sp → output_token_ids r ≠ [] →
  check_stop mml r = match stop_cause mml sp r with
                     | Some (st, sr) => (Ok true, set_stop_reason sr (set_status st r))
                     | None => (Ok false, r)
                     end.
Proof.
  intros Hp Hs Hne. unfold check_stop, stop_cause, bind, gets, assert_, or_raise, modify, ret, of_res.
  rewrite bool_decide_eq_true_2, Hs by done. rewrite py_nth_minus_one.
  destruct (last (output_token_ids r)) as [t|] eqn:Ht; [|by apply last_None in Ht].
  assert (r = set_stop_reason (stop_reason r) r) as Hid by by destruct r.
  destruct (_ <? _); [done|]. destruct (bool_decide (sp_eos_token_id sp = Some t)).
  { by destruct r. }
  destruct (bool_decide (t ∈ sp_stop_token_ids sp)); [by destruct r|].
  destruct (_ || _); [by destruct r|]. destruct (sp_repetition_detection sp) as [params|]; [|done].
  destruct (check_sequence_repetition_ok (output_token_ids r) params) as (b & ->). by destruct b, r.
Qed.
