(* ===== verification/StopProps.v ===== *)
(** * Stop conditions: the tokens of a step

    Appending the sampled tokens of a step stops at the first token that ends
    the request, and leaves the block hashes of exactly the tokens kept. *)

From S2P Require Import Prelude FreeQueue BlockHash Request HashChain StopCheck.
Open Scope Z_scope.

Section update.
Context `{HashEnv}.

(** The request after [toks] more tokens. *)
Definition with_output (r : Request) (toks : list Z) : Request :=
  set_tokens (output_token_ids r ++ toks) (all_token_ids r ++ toks) r.

(** A text request that is hashed and may be checked. *)
Definition checkable (bs : Z) (sp : SamplingParams) (r : Request) : Prop :=
  hashed bs r ∧ mm_features r = [] ∧ pooling_params r = None ∧ sampling_params r = Some sp.

Lemma stop_cause_tokens mml sp r r' :
  output_token_ids r' = output_token_ids r → all_token_ids r' = all_token_ids r →
  max_tokens r' = max_tokens r → stop_reason r' = stop_reason r → stop_cause mml sp r' = stop_cause mml sp r.
Proof. intros Ho Ha Hm Hs. unfold stop_cause, num_output_tokens, num_tokens. by rewrite Ho, Ha, Hm, Hs. Qed.

Lemma append_one bs sp r t :
  0 < bs → checkable bs sp r →
  ∃ r' m hs, append_output_token_ids [t] r = (Ok tt, r') ∧ checkable bs sp r' ∧
    r' = set_hashes hs (set_embed_memo m (with_output r [t])).
Proof.
  intros Hbs (Hh & Hm & Hp & Hs).
  destruct (append_output_ok bs r [t] Hbs Hh) as (r' & Hrun & _ & _ & _ & _ & Hh' & m & Hr').
  { intros _. rewrite Hm. constructor. }
  exists r', m, (block_hashes r'). split; [done|]. split; [|done]. rewrite Hr'. split; [by rewrite <-Hr'|done].
Qed.

Lemma stop_cause_finished mml sp r st sr :
  stop_cause mml sp r = Some (st, sr) → status_is_finished st = true.
Proof. unfold stop_cause. intros Hc. repeat case_match; try done; by injection Hc as <- <-. Qed.

Lemma with_output_nil r : set_hashes (block_hashes r) (set_embed_memo (prompt_embeds_per_block_hashes r) (with_output r [])) = r.
Proof. destruct r. cbn. unfold with_output. cbn. by rewrite !app_nil_r. Qed.
Lemma with_output_more r hs m hs' m' t kept :
  set_hashes hs' (set_embed_memo m' (with_output (set_hashes hs (set_embed_memo m (with_output r [t]))) kept)) =
  set_hashes hs' (set_embed_memo m' (with_output r (t :: kept))).
Proof. destruct r. unfold with_output. cbn. by rewrite <-!app_assoc. Qed.

(** The loop for any property [P] of requests that appending a token keeps and
    that appending needs to return. *)
Section loop.
Context (P : Request → Prop).
Context (P_append : ∀ r t, P r → ∃ r' m hs, append_output_token_ids [t] r = (Ok tt, r') ∧ P r' ∧
  r' = set_hashes hs (set_embed_memo m (with_output r [t]))).

Lemma update_loop mml sp r toks : P r → pooling_params r = None → sampling_params r = Some sp →
  ∃ kept stopped r1 r' m hs, update_request_with_output mml toks r = (Ok (kept, stopped), r') ∧
    kept `prefix_of` toks ∧ P r1 ∧ r1 = set_hashes hs (set_embed_memo m (with_output r kept)) ∧
    (∀ pre, pre `prefix_of` kept → pre ≠ [] → stopped = false ∨ pre ≠ kept →
      stop_cause mml sp (with_output r pre) = None) ∧
    (if stopped : bool
     then kept ≠ [] ∧ ∃ st sr, stop_cause mml sp (with_output r kept) = Some (st, sr) ∧
            r' = set_stop_reason sr (set_status st r1)
     else kept = toks ∧ r' = r1).
Proof.
  revert r. induction toks as [|t toks IH]; intros r Hr Hp Hs.
  { exists [], false, r, r, (prompt_embeds_per_block_hashes r), (block_hashes r). split_and!; try done.
    - symmetry. apply with_output_nil.
    - by intros pre ->%prefix_nil_inv. }
  destruct (P_append r t Hr) as (r1 & m & hs & Hrun & Hr1 & Hr1eq).
  cbn [update_request_with_output]. rewrite (bind_eq _ _ _ _ _ Hrun).
  assert (pooling_params r1 = None ∧ sampling_params r1 = Some sp) as [Hp1 Hs1] by (by rewrite Hr1eq).
  assert (output_token_ids r1 ≠ []) as Hne by (rewrite Hr1eq; cbn; by destruct (output_token_ids r)).
  pose proof (check_stop_eq mml sp r1 Hp1 Hs1 Hne) as Hstop.
  assert (stop_cause mml sp r1 = stop_cause mml sp (with_output r [t])) as Hcause.
  { apply stop_cause_tokens; by rewrite Hr1eq. }
  rewrite Hcause in Hstop. destruct (stop_cause mml sp (with_output r [t])) as [[st sr]|] eqn:Hsc;
    rewrite (bind_eq _ _ _ _ _ Hstop).
  - exists [t], true, r1. eexists _, m, hs. split; [done|]. split_and!; try done; [by apply prefix_cons, prefix_nil| |by exists st, sr].
    intros pre Hpre Hn [|Hk]; [done|]. destruct pre as [|x pre]; [done|].
    apply prefix_cons_inv_1 in Hpre as Hx. apply prefix_cons_inv_2, prefix_nil_inv in Hpre as ->. by subst.
  - destruct (IH r1 Hr1 Hp1 Hs1) as (kept & stopped & r2 & r' & m2 & hs2 & Hrun' & Hpre & Hr2 & Hr2eq & Hnone & Hres).
    assert (∀ pre, stop_cause mml sp (with_output r1 pre) = stop_cause mml sp (with_output r (t :: pre))) as Hshift.
    { intros pre. apply stop_cause_tokens; rewrite Hr1eq; cbn; by rewrite <-?app_assoc. }
    rewrite (bind_eq _ _ _ _ _ Hrun'). exists (t :: kept), stopped, r2, r', m2, hs2. split; [done|].
    split_and!; [by apply prefix_cons|done| | |].
    + rewrite Hr2eq, Hr1eq. apply with_output_more.
    + intros [|x pre] Hpre' Hn Hk; [done|]. apply prefix_cons_inv_1 in Hpre' as Hx. apply prefix_cons_inv_2 in Hpre'. subst x.
      destruct pre as [|y pre]; [done|]. rewrite <-Hshift. apply Hnone; [done|done|]. destruct Hk as [?|Hk]; [by left|right].
      congruence.
    + destruct stopped; [|by destruct Hres as (-> & ->)]. destruct Hres as (Hk & Hc). split; [done|]. by rewrite <-Hshift.
Qed.
End loop.

Lemma update_ok bs sp mml r toks :
  0 < bs → checkable bs sp r →
  ∃ kept stopped r', update_request_with_output mml toks r = (Ok (kept, stopped), r') ∧
    kept `prefix_of` toks ∧
    output_token_ids r' = output_token_ids r ++ kept ∧ all_token_ids r' = all_token_ids r ++ kept ∧
    block_hashes r' = hash_chain None (full_blocks r' bs) ∧
    (∀ pre, pre `prefix_of` kept → pre ≠ [] → stopped = false ∨ pre ≠ kept →
      stop_cause mml sp (with_output r pre) = None) ∧
    (if stopped : bool
     then kept ≠ [] ∧ is_finished r' = true ∧
          stop_cause mml sp (with_output r kept) = Some (status r', stop_reason r')
     else kept = toks ∧ status r' = status r ∧ stop_reason r' = stop_reason r).
Proof.
  intros Hbs Hr. pose proof Hr as (_ & _ & Hp & Hs).
  destruct (update_loop (checkable bs sp) (λ r t, append_one bs sp r t Hbs) mml sp r toks Hr Hp Hs)
    as (kept & stopped & r1 & r' & m & hs & Hrun & Hpre & (Hh & _) & Hr1 & Hnone & Hres).
  exists kept, stopped, r'. split; [done|]. split; [done|]. destruct Hh as (_ & _ & _ & Hhs). destruct stopped.
  - destruct Hres as (Hk & st & sr & Hc & ->). split_and!; [by rewrite Hr1|by rewrite Hr1|exact Hhs|done|done| |exact Hc].
    exact (stop_cause_finished _ _ _ _ _ Hc).
  - destruct Hres as (-> & ->). split_and!; [by rewrite Hr1|by rewrite Hr1|exact Hhs|done|done|by rewrite Hr1|by rewrite Hr1].
Qed.

(** C34: the scheduler's loop over the tokens sampled for a request returns; it
    appends the tokens up to the first one after which the request has to stop
    (end of sequence, stop token, length cap, repetition, in that order) and
    drops the rest; it reports a stop exactly then, with the request's status
    finished; otherwise it keeps all tokens and the status. The block hashes
    are those of the tokens kept. *)
Theorem update_request_with_output_spec bs sp mml r toks :
  0 < bs → checkable bs sp r →
  ∃ kept stopped r', update_request_with_output mml toks r = (Ok (kept, stopped), r') ∧
    kept `prefix_of` toks ∧
    output_token_ids r' = output_token_ids r ++ kept ∧ all_token_ids r' = all_token_ids r ++ kept ∧
    block_hashes r' = hash_chain None (full_blocks r' bs) ∧
    (∀ pre, pre `prefix_of` kept → pre ≠ [] → stopped = false ∨ pre ≠ kept →
      stop_cause mml sp (with_output r pre) = None) ∧
    (if stopped : bool
     then kept ≠ [] ∧ is_finished r' = true ∧
          stop_cause mml sp (with_output r kept) = Some (status r', stop_reason r')
     else kept = toks ∧ status r' = status r ∧ stop_reason r' = stop_reason r).
Proof. exact (update_ok bs sp mml r toks). Qed.

(** *** Steps *)

(** The outputs of successive steps, until one stops the request. *)
Fixpoint run_steps (mml : Z) (steps : list (list Z)) : M Request (list Z * bool) :=
  match steps with
  | [] => ret ([], false)
  | toks :: steps' =>
      let* kept := update_request_with_output mml toks in
      if (kept.2 : bool) then ret kept
      else
        let* kept' := run_steps mml steps' in
        ret (kept.1 ++ kept'.1, kept'.2)
  end.

Lemma update_app mml toks toks' r :
  update_request_with_output mml (toks ++ toks') r =
  (let* kept := update_request_with_output mml toks in
   if (kept.2 : bool) then ret kept
   else let* kept' := update_request_with_output mml toks' in ret (kept.1 ++ kept'.1, kept'.2)) r.
Proof.
  revert r. induction toks as [|t toks IH]; intros r.
  { cbn. unfold bind, ret. cbn. destruct (update_request_with_output mml toks' r) as [[[k b]|e] r']; done. }
  cbn [app update_request_with_output]. unfold bind, ret in *.
  destruct (append_output_token_ids [t] r) as [[[]|e] r1]; [|done].
  destruct (check_stop mml r1) as [[[]|e] r2]; [done| |done]. rewrite IH.
  destruct (update_request_with_output mml toks r2) as [[[k []]|e] r3]; try done. cbn.
  destruct (update_request_with_output mml toks' r3) as [[[k' b']|e] r4]; done.
Qed.

Lemma run_steps_concat mml steps r : run_steps mml steps r = update_request_with_output mml (concat steps) r.
Proof.
  revert r. induction steps as [|toks steps IH]; intros r; [done|]. cbn [run_steps concat]. rewrite update_app.
  apply bind_ext; [done|]. intros [k []] r' _; [done|]. cbn [fst snd]. by apply bind_ext.
Qed.

Lemma concat_long (steps : list (list Z)) : (∀ toks, toks ∈ steps → toks ≠ []) → len steps ≤ len (concat steps).
Proof.
  induction steps as [|s steps IH]; intros Hs; [done|]. cbn [concat]. rewrite len_app, len_cons.
  pose proof (Hs s ltac:(left)) as Hne. specialize (IH (λ t Ht, Hs t ltac:(by right))).
  destruct s as [|x s]; [done|]. rewrite len_cons. pose proof (len_nonneg s). lia.
Qed.

(** Enough tokens to reach a length cap are a reason to stop. *)
Lemma cap_is_cause mml sp r toks :
  toks ≠ [] → sp_min_tokens sp ≤ num_output_tokens r + len toks →
  mml ≤ num_tokens r + len toks ∨ max_tokens r ≤ num_output_tokens r + len toks →
  stop_cause mml sp (with_output r toks) ≠ None.
Proof.
  intros Hne Hmin Hcap. unfold stop_cause. cbn [output_token_ids with_output set_tokens].
  destruct (last (output_token_ids r ++ toks)) as [t|] eqn:Hl.
  2: { apply last_None in Hl. by apply app_nil in Hl as [_ ?]. }
  change (num_output_tokens (with_output r toks)) with (len (output_token_ids r ++ toks)).
  change (num_tokens (with_output r toks)) with (len (all_token_ids r ++ toks)).
  rewrite !len_app. unfold num_output_tokens, num_tokens in *.
  rewrite (proj2 (Z.ltb_ge _ _)) by lia. destruct (bool_decide _); [done|]. destruct (bool_decide _); [done|].
  cbn [max_tokens with_output set_tokens].
  destruct (Z.leb_spec mml (len (all_token_ids r) + len toks)); [done|].
  destruct (Z.leb_spec (max_tokens r) (len (output_token_ids r) + len toks)); [done|lia].
Qed.

(** C38: a request whose steps each bring a token stops after at most [n] tokens
    if [n] more bring it to its length cap, the model's or its own, and to
    [min_tokens]; until it has [min_tokens] tokens nothing stops it, not even
    the model's length. *)
Theorem request_stops bs sp mml r steps n :
  0 < bs → checkable bs sp r → (∀ toks, toks ∈ steps → toks ≠ []) →
  (1 ≤ n → sp_min_tokens sp ≤ num_output_tokens r + n →
   mml ≤ num_tokens r + n ∨ max_tokens r ≤ num_output_tokens r + n → n ≤ len steps →
   ∃ kept r', run_steps mml steps r = (Ok (kept, true), r') ∧ len kept ≤ n ∧ is_finished r' = true) ∧
  (num_output_tokens r + len (concat steps) < sp_min_tokens sp →
   ∃ r', run_steps mml steps r = (Ok (concat steps, false), r') ∧ status r' = status r).
Proof.
  intros Hbs Hr Hsteps. rewrite run_steps_concat.
  destruct (update_ok bs sp mml r (concat steps) Hbs Hr) as (kept & stopped & r' & Hrun & Hpre & Ho & _ & _ & Hnone & Hres).
  split.
  - intros Hn Hmin Hcap Hlen. pose proof (concat_long steps Hsteps) as Hlong.
    assert (len (take (Z.to_nat n) (concat steps)) = n) as Hpn by (unfold len in *; rewrite length_take; lia).
    assert (take (Z.to_nat n) (concat steps) `prefix_of` concat steps) as Hpc by (eexists; symmetry; apply take_drop).
    remember (take (Z.to_nat n) (concat steps)) as pre eqn:Hpre_eq. clear Hpre_eq.
    assert (pre ≠ []) as Hpne by (intros E; rewrite E, len_nil in Hpn; lia).
    assert (stop_cause mml sp (with_output r pre) ≠ None) as Hcause by (apply cap_is_cause; rewrite ?Hpn; done).
    assert (len kept ≤ n ∧ stopped = true) as [Hk ->].
    { destruct (decide (pre `prefix_of` kept)) as [Hp|Hp].
      - destruct stopped; [|by destruct Hcause; apply Hnone; [| |left]].
        destruct (decide (pre = kept)) as [->|Hne]; [by rewrite Hpn|]. by destruct Hcause; apply Hnone; [| |right].
      - assert (kept `prefix_of` pre) as Hkp.
        { by destruct (prefix_weak_total pre kept (concat steps) Hpc Hpre). }
        destruct stopped.
        + split; [|done]. destruct Hkp as [k3 Hk3]. rewrite Hk3, len_app in Hpn. pose proof (len_nonneg k3). lia.
        + by destruct Hres as (-> & _). }
    exists kept, r'. split_and!; [done|done|apply Hres].
  - intros Hmin. destruct stopped.
    + exfalso. destruct Hres as (_ & _ & Hc). unfold stop_cause in Hc. destruct (last _); [|done].
      rewrite (proj2 (Z.ltb_lt _ _)) in Hc; [done|]. unfold num_output_tokens in *. cbn. rewrite len_app.
      destruct Hpre as [k2 Hk2]. rewrite Hk2, len_app in Hmin. pose proof (len_nonneg k2). lia.
    + destruct Hres as (-> & Hst & _). by exists r'.
Qed.
End update.

(** ** A request that stops at token 9 *)

Section demo.
Let env : HashEnv := injective_env.
Existing Instance env.

Definition stop_params : SamplingParams := MkSampling (Some 10) 0 (Some 2) [9] None None.
Definition stop_request : Request :=
  set_hashes (hash_chain None [([1; 2], None)])
    (MkRequest "r"%string 0 0 (Some stop_params) None None None [] (Some [1; 2; 3]) None ∅ 3 []
       [1; 2; 3] [] 0 0 10 RUNNING None [] (Some 2) false).

Lemma stop_request_checkable : checkable 2 stop_params stop_request.
Proof.
  split_and!; [|done..]. unfold hashed. split_and!; [done| | |reflexivity].
  - split; repeat constructor.
  - intros s e d rows Hl. cbn in Hl. by rewrite lookup_empty in Hl.
Qed.

(** Of the tokens 5, 9, 7 the last one is dropped. *)
Lemma update_request_with_output_spec_witness :
  ∃ r', update_request_with_output 100 [5; 9; 7] stop_request = (Ok ([5; 9], true), r') ∧
    output_token_ids r' = [5; 9] ∧ is_finished r' = true ∧ stop_reason r' = Some (StopToken 9).
Proof.
  destruct (update_request_with_output_spec 2 stop_params 100 stop_request [5; 9; 7] ltac:(lia) stop_request_checkable)
    as (kept & stopped & r' & Hrun & _ & Ho & _ & _ & _ & Hres).
  assert ((update_request_with_output 100 [5; 9; 7] stop_request).1 = Ok ([5; 9], true)) as Hr
    by (vm_compute; reflexivity).
  rewrite Hrun in Hr. injection Hr as -> ->. destruct Hres as (_ & Hf & Hc).
  exists r'. split; [exact Hrun|]. split; [exact Ho|]. split; [exact Hf|].
  change (stop_cause 100 stop_params (with_output stop_request [5; 9])) with
    (Some (FINISHED_STOPPED, Some (StopToken 9))) in Hc.
  injection Hc as _ Hc. by symmetry.
Defined.

(** A request of at most ten tokens stops; one that must have twenty
    tokens runs past the model's length of five. *)
Definition long_params : SamplingParams := MkSampling (Some 10) 20 None [] None None.
Definition long_request : Request :=
  set_hashes (hash_chain None [([1; 2], None)])
    (MkRequest "r"%string 0 0 (Some long_params) None None None [] (Some [1; 2; 3]) None ∅ 3 []
       [1; 2; 3] [] 0 0 2 RUNNING None [] (Some 2) false).
Lemma long_request_checkable : checkable 2 long_params long_request.
Proof.
  split_and!; [|done..]. unfold hashed. split_and!; [done| | |reflexivity].
  - split; repeat constructor.
  - intros s e d rows Hl. cbn in Hl. by rewrite lookup_empty in Hl.
Qed.

Lemma request_stops_witness :
  (∃ kept r', run_steps 100 (replicate 10 [5]) stop_request = (Ok (kept, true), r') ∧ len kept ≤ 10 ∧ is_finished r' = true) ∧
  (∃ r', run_steps 5 (replicate 10 [5]) long_request = (Ok (concat (replicate 10 [5]), false), r') ∧ status r' = RUNNING).
Proof.
  assert (∀ toks, toks ∈ replicate 10 [5] → toks ≠ []) as Hne by (by intros toks (-> & _)%elem_of_replicate).
  split.
  - apply (proj1 (request_stops 2 stop_params 100 stop_request (replicate 10 [5]) 10 ltac:(lia) stop_request_checkable Hne));
      [lia|by vm_compute|right; by vm_compute|by vm_compute].
  - apply (proj2 (request_stops 2 long_params 5 long_request (replicate 10 [5]) 10 ltac:(lia) long_request_checkable Hne)).
    vm_compute. reflexivity.
Defined.
End demo.
