(* ===== verification/SMCScheduler.v ===== *)
(** * Power-SMC in the scheduler

    src/vllm/vllm/v1/core/sched/scheduler.py: the particle groups the scheduler
    keeps for the child requests of a Power-SMC request, the observation of
    their tokens, and what a resampling plan does to the child requests and
    their KV-cache blocks. *)

From stdpp Require Import gmap sets.
From S2P Require Import Prelude Arith PowerSMC FreeQueue BlockHash Request BlockPool KVCacheSpec SingleType CacheHit Coordinator KVCacheManager EncoderCache.
Open Scope Z_scope.

Section scheduler.
Context {A : Arith} `{HashEnv}.
(** Iteration over a set of input ids, and [random.Random] seeded with an
    integer or, the n-th time it is called with [None], from the system. *)
Context (set_order : gset Z → list Z) (seeded : Z → Rng) (entropy : nat → Rng).

(** ** State *)

(** A request with the attributes Power-SMC and the scheduler add to it. *)
Record SRequest : Type := MkSRequest {
  sr_req : Request;
  num_output_placeholders : Z;
  async_tokens_to_discard : Z;
  is_prefill_chunk : bool;
  sr_seed : option Z;
  power_smc_config : option PowerSMCConfig;
  power_smc_child_info : option PowerSMCChildRequestInfo;
  next_decode_eligible_step : Z;
  use_structured_output : bool (** [structured_output_request is not None] *);
  grammar_ready : bool (** its [grammar] is compiled *);
  client_index : Z;
  prefill_stats : bool (** [prefill_stats is not None] *)
}.

Abbreviation event := (gmap string pyval) (only parsing).

Record Scheduler : Type := MkSched {
  requests : gmap string SRequest;
  kv_cache_manager : KVCacheManager;
  encoder_cache_manager : EncoderCacheManager;
  inflight_prefills : gset string;
  power_smc_group_managers : gmap string PowerSMCGroupManager;
  power_smc_group_children : gmap string (gmap Z string);
  sched_block_size : Z;
  group_spec_block_sizes : list Z;
  last_power_smc_kv_event : option event;
  entropy_used : nat
}.

Definition set_requests m (s : Scheduler) : Scheduler :=
  MkSched m (kv_cache_manager s) (encoder_cache_manager s) (inflight_prefills s) (power_smc_group_managers s)
    (power_smc_group_children s) (sched_block_size s) (group_spec_block_sizes s) (last_power_smc_kv_event s) (entropy_used s).
Definition set_kv kv (s : Scheduler) : Scheduler :=
  MkSched (requests s) kv (encoder_cache_manager s) (inflight_prefills s) (power_smc_group_managers s)
    (power_smc_group_children s) (sched_block_size s) (group_spec_block_sizes s) (last_power_smc_kv_event s) (entropy_used s).
Definition set_enc e (s : Scheduler) : Scheduler :=
  MkSched (requests s) (kv_cache_manager s) e (inflight_prefills s) (power_smc_group_managers s)
    (power_smc_group_children s) (sched_block_size s) (group_spec_block_sizes s) (last_power_smc_kv_event s) (entropy_used s).
Definition set_inflight i (s : Scheduler) : Scheduler :=
  MkSched (requests s) (kv_cache_manager s) (encoder_cache_manager s) i (power_smc_group_managers s)
    (power_smc_group_children s) (sched_block_size s) (group_spec_block_sizes s) (last_power_smc_kv_event s) (entropy_used s).
Definition set_managers m (s : Scheduler) : Scheduler :=
  MkSched (requests s) (kv_cache_manager s) (encoder_cache_manager s) (inflight_prefills s) m
    (power_smc_group_children s) (sched_block_size s) (group_spec_block_sizes s) (last_power_smc_kv_event s) (entropy_used s).
Definition set_children c (s : Scheduler) : Scheduler :=
  MkSched (requests s) (kv_cache_manager s) (encoder_cache_manager s) (inflight_prefills s) (power_smc_group_managers s)
    c (sched_block_size s) (group_spec_block_sizes s) (last_power_smc_kv_event s) (entropy_used s).
Definition set_last_event e (s : Scheduler) : Scheduler :=
  MkSched (requests s) (kv_cache_manager s) (encoder_cache_manager s) (inflight_prefills s) (power_smc_group_managers s)
    (power_smc_group_children s) (sched_block_size s) (group_spec_block_sizes s) e (entropy_used s).
Definition set_entropy n (s : Scheduler) : Scheduler :=
  MkSched (requests s) (kv_cache_manager s) (encoder_cache_manager s) (inflight_prefills s) (power_smc_group_managers s)
    (power_smc_group_children s) (sched_block_size s) (group_spec_block_sizes s) (last_power_smc_kv_event s) n.

Definition on_kv {B} (m : M KVCacheManager B) : M Scheduler B := zoom kv_cache_manager set_kv m.
Definition on_enc {B} (m : M EncoderCacheManager B) : M Scheduler B := zoom encoder_cache_manager set_enc m.
(** A call on the group manager of [parent_id]. *)
Definition on_group {B} (parent_id : string) (m : M PowerSMCGroupManager B) : M Scheduler B :=
  let* ms := gets power_smc_group_managers in
  let* g := or_raise KeyError (ms !! parent_id) in
  let '(r, g') := m g in
  modify (λ s, set_managers (<[parent_id := g']> (power_smc_group_managers s)) s) ;;;
  of_res r.

(** [except ValueError]; VLLMValidationError is a ValueError. *)
Definition except_ValueError {S B} (m handler : M S B) : M S B := λ s,
  match m s with
  | (Err ValueError, s') | (Err VLLMValidationError, s') => handler s'
  | r => r
  end.

(** [random.Random(seed)] *)
Definition new_rng (seed : option Z) : M Scheduler Rng :=
  match seed with
  | Some z => ret (seeded z)
  | None =>
      let* n := gets entropy_used in
      modify (set_entropy (S n)) ;;;
      ret (entropy n)
  end.

(** ** Observation *)

Definition power_smc_should_pause_at_group_boundary (managers : gmap string PowerSMCGroupManager)
    (request : SRequest) : bool :=
  match power_smc_config request, power_smc_child_info request with
  | Some config, Some child_info =>
      if num_computed_tokens (sr_req request) <? num_tokens (sr_req request) then false
      else
        let output_length := num_output_tokens (sr_req request) in
        if (output_length =? 0) || negb (output_length mod smc_block_size config =? 0) then false
        else match managers !! parent_id child_info with
             | None => false
             | Some manager => existsb (λ p, len (token_ids p) <? output_length) (particles manager)
             end
  | _, _ => false
  end.

(** The group of a child request, created on first use; the manager itself is
    read from the state afterwards. *)
Definition get_power_smc_group_manager (request : SRequest) : M Scheduler (option (string * Z)) :=
  match power_smc_config request, power_smc_child_info request with
  | Some config, Some (MkChild parent_id particle_idx) =>
      if particles_n config <=? particle_idx then raise RuntimeError
      else
        let* ms := gets power_smc_group_managers in
        (match ms !! parent_id with
         | Some _ => ret tt
         | None =>
             let* r := new_rng ((λ z, z - particle_idx) <$> sr_seed request) in
             let* manager := of_res (PowerSMCGroupManager_init config r) in
             modify (λ s, set_managers (<[parent_id := manager]> (power_smc_group_managers s)) s) ;;;
             modify (λ s, set_children (<[parent_id := ∅]> (power_smc_group_children s)) s)
         end) ;;;
        let* cs := gets power_smc_group_children in
        let* c := or_raise KeyError (cs !! parent_id) in
        modify (λ s, set_children
          (<[parent_id := <[particle_idx := request_id (sr_req request)]> c]> (power_smc_group_children s)) s) ;;;
        ret (Some (parent_id, particle_idx))
  | _, _ => ret None
  end.

(** [finish] is the finish reason's name. *)
Definition observe_power_smc_request_output (request : SRequest) (new_token_ids : list Z)
    (power_smc_logprobs : option (num * num)) (finish : option string) (stop : option stop_val)
  : M Scheduler (option string) :=
  match new_token_ids with
  | [] => ret None
  | _ =>
      let* group_info := get_power_smc_group_manager request in
      match group_info with
      | None => ret None
      | Some (parent_id, particle_idx) =>
          let* lp := or_raise RuntimeError power_smc_logprobs in
          match new_token_ids with
          | [token] =>
              let* is_block_boundary := on_group parent_id (update_after_token particle_idx token
                lp.1 lp.2 (bool_decide (finish ≠ None)) finish stop) in
              ret (if bool_decide (finish ≠ None) || is_block_boundary then Some parent_id else None)
          | _ => raise RuntimeError
          end
      end
  end.

(** One request's output in [update_from_output]: the parents whose groups are
    to be checked at the end of the step. *)
Record StepOutput : Type := MkOutput {
  so_request : string;
  so_tokens : list Z;
  so_logprobs : option (num * num);
  so_stopped : bool;
  so_finish : option string;
  so_stop : option stop_val
}.
Definition observe_step_output (parents : list string) (o : StepOutput) : M Scheduler (list string) :=
  let* rs := gets requests in
  match rs !! so_request o with
  | None => ret parents
  | Some request =>
      if bool_decide (power_smc_config request ≠ None) && negb (bool_decide (so_tokens o = [])) && negb (so_stopped o)
      then
        let* p := observe_power_smc_request_output request (so_tokens o) (so_logprobs o) (so_finish o) (so_stop o) in
        ret (match p with
             | Some p => if bool_decide (p ∈ parents) then parents else parents ++ [p]
             | None => parents
             end)
      else ret parents
  end.

(** ** Applying a plan *)

Definition power_smc_kv_alias_supported (s : Scheduler) : bool :=
  forallb (λ b, b =? sched_block_size s) (group_spec_block_sizes s).

Definition child_resample_is_scheduler_noop (request : SRequest) (token_ids : list Z) (same_ancestor : bool) : bool :=
  if negb same_ancestor then false
  else if negb (has_output_token_ids token_ids (sr_req request)) then false
  else if num_computed_tokens (sr_req request) <? num_tokens (sr_req request) then false
  else negb (negb (num_output_placeholders request =? 0) || negb (async_tokens_to_discard request =? 0) ||
             negb (bool_decide (spec_token_ids (sr_req request) = [])) || is_prefill_chunk request).

(** [_power_smc_kv_pool_snapshot], keyed for the event *)
Definition kv_pool_snapshot (suffix : string) : M Scheduler event :=
  let key k := ("kv_pool_" ++ k ++ "_" ++ suffix)%string in
  let* kv := gets kv_cache_manager in
  let total_blocks := num_gpu_blocks (cs_pool (coordinator kv)) in
  let* free_blocks := on_kv (on_kv_pool get_num_free_blocks) in
  let usage := if total_blocks - 1 =? 0 then of_Z 0
               else nsub (of_Z 1) (ndiv (of_Z free_blocks) (of_Z (total_blocks - 1))) in
  ret (<[key "total_blocks" := PInt total_blocks]> (<[key "free_blocks" := PInt free_blocks]>
        (<[key "used_blocks" := PInt (total_blocks - free_blocks)]> {[key "usage" := PFloat usage]})))%string.

Definition add_kv_pool_snapshot (diagnostics : bool) (e : event) (suffix : string) : M Scheduler event :=
  if diagnostics then let* snap := kv_pool_snapshot suffix in ret (snap ∪ e) else ret e.

Definition event_counts : list string :=
  ["child_count"; "snapshot_count"; "alias_attempt_count"; "alias_success_count"; "fallback_count";
   "aliased_blocks"; "aliased_tokens"; "cow_physical_blocks"; "cow_saved_blocks"; "cow_saved_tokens";
   "replay_tokens"; "identity_noop_count"]%string.
Definition initial_event (resamples : Z) (kv_cow supported : bool) (block_size : Z) : event :=
  let mode := if kv_cow && supported then "snapshot_alias_replay"
              else if negb kv_cow then "disabled_reset_recompute" else "unsupported_reset_recompute" in
  <["resample_index" := PInt resamples]> (<["kv_cow_enabled" := PBool kv_cow]>
  (<["kv_alias_supported" := PBool supported]> (<["kv_mode" := PStr mode]>
  (<["block_size" := PInt block_size]> (list_to_map ((λ k, (k, PInt 0)) <$> event_counts))))))%string.

(** What the first loop over the plan finds. *)
Record PlanScan : Type := MkScan {
  active : list (Z * list Z * string) (** particle, tokens, request id *);
  noops : list Z (** particles whose request stays as it is *);
  needed : list (Z * string) (** ancestors to snapshot, in insertion order *);
  all_noop : bool
}.

Definition scan_child (children : gmap Z string) (anc : list Z) (can_alias : bool) (sc : PlanScan)
    (entry : Z * list Z) : M Scheduler PlanScan :=
  let '(particle_idx, toks) := entry in
  let* rs := gets requests in
  match children !! particle_idx with
  | None => ret (MkScan (active sc) (noops sc) (needed sc) false)
  | Some req_id =>
      match rs !! req_id with
      | None => ret (MkScan (active sc) (noops sc) (needed sc) false)
      | Some request =>
          if is_finished (sr_req request) then ret (MkScan (active sc) (noops sc) (needed sc) false)
          else
            let active := active sc ++ [(particle_idx, toks, req_id)] in
            let* ancestor_idx := or_raise IndexError (py_nth anc particle_idx) in
            if child_resample_is_scheduler_noop request toks (ancestor_idx =? particle_idx)
            then ret (MkScan active (noops sc ++ [particle_idx]) (needed sc) (all_noop sc))
            else
              let needed :=
                if can_alias then
                  match children !! ancestor_idx with
                  | Some a => if bool_decide (rs !! a ≠ None) && negb (existsb (λ n, n.1 =? ancestor_idx) (needed sc))
                              then needed sc ++ [(ancestor_idx, a)] else needed sc
                  | None => needed sc
                  end
                else needed sc in
              ret (MkScan active (noops sc) needed false)
      end
  end.

(** Counters of the second loop. *)
Record ApplyCounts : Type := MkCounts {
  child_count : Z;
  alias_attempt_count : Z;
  alias_success_count : Z;
  fallback_count : Z;
  aliased_blocks : Z;
  aliased_tokens : Z;
  replay_tokens : Z;
  identity_noop_count : Z;
  aliased_blocks_by_ancestor : gmap Z Z;
  resampled : list string
}.

Definition count_identity (ct : ApplyCounts) : ApplyCounts :=
  MkCounts (child_count ct + 1) (alias_attempt_count ct) (alias_success_count ct) (fallback_count ct)
    (aliased_blocks ct) (aliased_tokens ct) (replay_tokens ct) (identity_noop_count ct + 1)
    (aliased_blocks_by_ancestor ct) (resampled ct).
(** A child was reset; [aliased] is whether aliasing was tried, and worked. *)
Definition count_reset (ancestor_idx num_alias_blocks : Z) (aliased : option bool) (aliased_computed_tokens
    tokens : Z) (req_id : string) (ct : ApplyCounts) : ApplyCounts :=
  let ok := bool_decide (aliased = Some true) in
  MkCounts (child_count ct + 1)
    (alias_attempt_count ct + if bool_decide (aliased = None) then 0 else 1)
    (alias_success_count ct + if ok then 1 else 0)
    (fallback_count ct + if aliased_computed_tokens =? 0 then 1 else 0)
    (aliased_blocks ct + if ok then num_alias_blocks else 0)
    (aliased_tokens ct + aliased_computed_tokens)
    (replay_tokens ct + Z.max (tokens - aliased_computed_tokens) 0)
    (identity_noop_count ct)
    (if ok then <[ancestor_idx := Z.max (default 0 (aliased_blocks_by_ancestor ct !! ancestor_idx)) num_alias_blocks]>
                  (aliased_blocks_by_ancestor ct)
     else aliased_blocks_by_ancestor ct)
    (resampled ct ++ [req_id]).

(** A snapshot of an ancestor: its blocks and cached counts. *)
Definition snapshot : Type := (KVCacheBlocks * list Z)%type.

Definition snapshot_of (a : Z * string) : M Scheduler (Z * snapshot) :=
  let* blocks := on_kv (kv_get_blocks a.2) in
  let* cached := on_kv (kv_get_num_cached_blocks a.2) in
  ret (a.1, (blocks, cached)).

(** Try to alias [num_alias_blocks] blocks of the snapshot; the result is
    whether that worked. *)
Definition try_alias (req_id : string) (snap : snapshot) (num_alias_blocks : Z) : M Scheduler bool :=
  except_ValueError
    (on_kv (kv_alias_request_blocks_from_snapshot req_id snap.1 snap.2 num_alias_blocks) ;;; ret true)
    (ret false).

(** What becomes of a request whose tokens are replaced. *)
Definition reset_request (toks : list Z) (computed : Z) (request : SRequest) : res SRequest :=
  match reset_output_token_ids toks (sr_req request) with
  | (Ok _, r) =>
      let r := MkRequest (Request.request_id r) (priority r) (arrival_time r) (sampling_params r)
        (pooling_params r) (lora_request r) (cache_salt r) (mm_features r)
        (prompt_token_ids r) (prompt_embeds r) (prompt_embeds_per_block_hashes r)
        (num_prompt_tokens r) (output_token_ids r) (all_token_ids r) [] computed
        (num_preemptions r) (max_tokens r) PREEMPTED (Request.stop_reason r)
        (block_hashes r) (block_hasher r) (skip_reading_prefix_cache r) in
      Ok (MkSRequest r 0 0 false (sr_seed request) (power_smc_config request) (power_smc_child_info request)
        (next_decode_eligible_step request) (use_structured_output request) (grammar_ready request) (client_index request)
        (prefill_stats request))
  | (Err e, _) => Err e
  end.

Definition apply_child (anc : list Z) (snapshots : list (Z * snapshot)) (noops : list Z) (can_alias : bool)
    (block_size : Z) (ct : ApplyCounts) (entry : Z * list Z * string) : M Scheduler ApplyCounts :=
  let '(particle_idx, toks, req_id) := entry in
  if bool_decide (particle_idx ∈ noops) then ret (count_identity ct)
  else
    let* ancestor_idx := or_raise IndexError (py_nth anc particle_idx) in
    let* rs := gets requests in
    let* request := or_raise KeyError (rs !! req_id) in
    let replay_safe_tokens := num_prompt_tokens (sr_req request) + len toks - 1 in
    let num_alias_blocks := if replay_safe_tokens <=? 0 then 0 else replay_safe_tokens / block_size in
    let* aliased :=
      match find (λ x, x.1 =? ancestor_idx) snapshots with
      | Some (_, snap) =>
          if can_alias && (0 <? num_alias_blocks)
          then let* b := try_alias req_id snap num_alias_blocks in ret (Some b)
          else ret None
      | None => ret None
      end in
    let aliased_computed_tokens := if bool_decide (aliased = Some true) then num_alias_blocks * block_size else 0 in
    (if aliased_computed_tokens =? 0 then on_kv (kv_free (sr_req request)) else ret tt) ;;;
    on_enc (enc_free set_order (sr_req request)) ;;;
    modify (λ s, set_inflight (inflight_prefills s ∖ {[req_id]}) s) ;;;
    let* request' := of_res (reset_request toks aliased_computed_tokens request) in
    modify (λ s, set_requests (<[req_id := request']> (requests s)) s) ;;;
    ret (count_reset ancestor_idx num_alias_blocks aliased aliased_computed_tokens
           (num_tokens (sr_req request')) req_id ct).

Definition no_counts : ApplyCounts := MkCounts 0 0 0 0 0 0 0 0 ∅ [].

Definition final_event (ct : ApplyCounts) (snapshots : Z) (block_size : Z) (e : event) : event :=
  let physical := map_fold (λ _ n acc, n + acc) 0 (aliased_blocks_by_ancestor ct) in
  let saved := Z.max (aliased_blocks ct - physical) 0 in
  (<["child_count" := PInt (child_count ct)]> (<["snapshot_count" := PInt snapshots]>
  (<["alias_attempt_count" := PInt (alias_attempt_count ct)]> (<["alias_success_count" := PInt (alias_success_count ct)]>
  (<["fallback_count" := PInt (fallback_count ct)]> (<["aliased_blocks" := PInt (aliased_blocks ct)]>
  (<["aliased_tokens" := PInt (aliased_tokens ct)]> (<["replay_tokens" := PInt (replay_tokens ct)]>
  (<["identity_noop_count" := PInt (identity_noop_count ct)]> (<["cow_physical_blocks" := PInt physical]>
  (<["cow_saved_blocks" := PInt saved]> (<["cow_saved_tokens" := PInt (saved * block_size)]> e))))))))))))%string.

Definition enumerate {B} (l : list B) : list (Z * B) := zip (range 0 (len l)) l.

Definition apply_power_smc_resample_plan (parent_id : string) : M Scheduler (list string) :=
  let* ms := gets power_smc_group_managers in
  let* manager := or_raise KeyError (ms !! parent_id) in
  match last_resample_plan manager with
  | None => ret []
  | Some plan =>
      let* st := gets (λ s, s) in
      let children := default ∅ (power_smc_group_children st !! parent_id) in
      let supported := power_smc_kv_alias_supported st in
      let cow := kv_cow (config (constants manager)) in
      let diag := kv_pool_diagnostics (config (constants manager)) in
      let can_alias := cow && supported in
      let block_size := sched_block_size st in
      let* e := add_kv_pool_snapshot diag
        (initial_event (resample_count (stats manager)) cow supported block_size) "before" in
      let* sc := fold_each (scan_child children (ancestors plan) can_alias) (enumerate (particle_token_ids plan))
        (MkScan [] [] [] true) in
      if all_noop sc then
        let n := len (particle_token_ids plan) in
        let* e := add_kv_pool_snapshot diag
          (<["kv_mode" := PStr "identity_noop"]> (<["child_count" := PInt n]>
            (<["identity_noop_count" := PInt n]> e)))%string "after" in
        on_group parent_id (record_kv_resample_event e) ;;;
        modify (set_last_event (Some e)) ;;;
        ret []
      else
        let* snapshots := if can_alias then map_each snapshot_of (needed sc) else ret [] in
        let* ct := fold_each (apply_child (ancestors plan) snapshots (noops sc) can_alias block_size) (active sc) no_counts in
        (if bool_decide (resampled ct = []) then ret tt
         else
           let* e := add_kv_pool_snapshot diag (final_event ct (len snapshots) block_size e) "after" in
           on_group parent_id (record_kv_resample_event e) ;;;
           modify (set_last_event (Some e))) ;;;
        ret (resampled ct)
  end.

Definition maybe_resample_power_smc_parent (parent_id : string) : M Scheduler (list string) :=
  let* ms := gets power_smc_group_managers in
  match ms !! parent_id with
  | None => ret []
  | Some _ =>
      let* r := on_group parent_id maybe_resample in
      if negb r then ret [] else apply_power_smc_resample_plan parent_id
  end.

(** The end of [update_from_output]: the parents collected are checked in
    order; the events go to the step's outputs. *)
Definition resample_step (parents : list string) : M Scheduler (list string * list (string * event)) :=
  fold_each (λ acc parent_id,
    modify (set_last_event None) ;;;
    let* rs := maybe_resample_power_smc_parent parent_id in
    let* e := gets last_power_smc_kv_event in
    modify (set_last_event None) ;;;
    ret (acc.1 ++ rs, match e with Some e => acc.2 ++ [(parent_id, e)] | None => acc.2 end)) parents ([], []).

(** The part of [_free_blocks] that concerns the groups. *)
Definition free_blocks (request : SRequest) : M Scheduler unit :=
  assert_ (is_finished (sr_req request)) ;;;
  on_kv (kv_free (sr_req request)) ;;;
  (match power_smc_child_info request with
   | None => ret tt
   | Some (MkChild parent_id particle_idx) =>
       let* cs := gets power_smc_group_children in
       match cs !! parent_id with
       | None => ret tt
       | Some children =>
           let children := delete particle_idx children in
           modify (set_children (<[parent_id := children]> cs)) ;;;
           if bool_decide (children = ∅) then
             modify (λ s, set_children (delete parent_id (power_smc_group_children s)) s) ;;;
             modify (λ s, set_managers (delete parent_id (power_smc_group_managers s)) s)
           else ret tt
       end
   end) ;;;
  let rid := request_id (sr_req request) in
  let* rs := gets requests in
  let* _ := or_raise KeyError (rs !! rid) in
  modify (set_requests (delete rid rs)).
End scheduler.
