(* ===== verification/SMCParent.v ===== *)
(** * Parent requests

    src/vllm/vllm/v1/engine/parallel_sampling.py: the front end's view of a
    request that fans out into children, for plain parallel sampling and for
    Power-SMC, where it keeps a particle group of its own. *)

From stdpp Require Import gmap sets.
From S2P Require Import Prelude Arith PowerSMC.
Open Scope Z_scope.

(** [CompletionOutput], without the text and the log probabilities *)
Record CompletionOutput : Type := MkCompletion {
  out_index : Z;
  out_token_ids : list Z;
  out_finish_reason : option string
}.
Definition out_finished (c : CompletionOutput) : bool := bool_decide (out_finish_reason c ≠ None).

(** The sampling parameters of a child. *)
Record ChildParams : Type := MkChildParams { cp_n : Z; cp_seed : option Z; cp_final_only : bool }.

(** ** Parallel sampling *)

Record ParentRequest : Type := MkParent {
  parent_request_id : string;
  parent_n : Z;
  parent_seed : option Z;
  final_only : bool;
  child_requests : gset string;
  output_aggregator : list (option CompletionOutput);
  max_num_generation_tokens : Z;
  cached_child_sampling_params : option ChildParams
}.

Definition ParentRequest_init (rid : string) (n : Z) (seed : option Z) (final : bool) : ParentRequest :=
  MkParent rid n seed final ∅ (if final then replicate (Z.to_nat n) None else []) 0 None.

Definition set_child_requests c (p : ParentRequest) : ParentRequest :=
  MkParent (parent_request_id p) (parent_n p) (parent_seed p) (final_only p) c (output_aggregator p)
    (max_num_generation_tokens p) (cached_child_sampling_params p).
Definition set_aggregator l (p : ParentRequest) : ParentRequest :=
  MkParent (parent_request_id p) (parent_n p) (parent_seed p) (final_only p) (child_requests p) l
    (max_num_generation_tokens p) (cached_child_sampling_params p).
Definition set_max_tokens n (p : ParentRequest) : ParentRequest :=
  MkParent (parent_request_id p) (parent_n p) (parent_seed p) (final_only p) (child_requests p) (output_aggregator p)
    n (cached_child_sampling_params p).
Definition set_cached_params c (p : ParentRequest) : ParentRequest :=
  MkParent (parent_request_id p) (parent_n p) (parent_seed p) (final_only p) (child_requests p) (output_aggregator p)
    (max_num_generation_tokens p) c.

(** [_get_child_sampling_params]; Power-SMC's override also sets the output
    kind. *)
Definition get_child_sampling_params (force_final : bool) (index : Z) : M ParentRequest ChildParams :=
  let* p := gets (λ p, p) in
  match cached_child_sampling_params p with
  | Some c => ret c
  | None =>
      let final := force_final || final_only p in
      match parent_seed p with
      | None =>
          let c := MkChildParams 1 None final in
          modify (set_cached_params (Some c)) ;;; ret c
      | Some seed => ret (MkChildParams 1 (Some (seed + index)) final)
      end
  end.

Definition get_child_info (index : Z) : M ParentRequest (string * ChildParams) :=
  let* p := gets (λ p, p) in
  let child_req_id := (str_of_Z index ++ "_" ++ parent_request_id p)%string in
  modify (set_child_requests (child_requests p ∪ {[child_req_id]})) ;;;
  let* c := get_child_sampling_params false index in
  ret (child_req_id, c).

(** [l[i] = x], IndexError out of range *)
Definition set_item {S A} (l : list A) (i : Z) (x : A) : M S (list A) :=
  match py_nth l i with
  | None => raise IndexError
  | Some _ => ret (py_set l i x)
  end.

Definition get_outputs (child_request_id : string) (completion_output : CompletionOutput)
  : M ParentRequest (list (option CompletionOutput) * bool) :=
  let* p := gets (λ p, p) in
  let known := bool_decide (child_request_id ∈ child_requests p) in
  let already_finished_and_returned := out_finished completion_output && negb known in
  (if out_finished completion_output && known
   then modify (set_child_requests (child_requests p ∖ {[child_request_id]})) else ret tt) ;;;
  let* remaining := gets child_requests in
  let* outputs :=
    if negb (final_only p) then
      ret (if already_finished_and_returned then [] else [Some completion_output])
    else
      let* l := set_item (output_aggregator p) (out_index completion_output) (Some completion_output) in
      modify (set_aggregator l) ;;;
      ret (if bool_decide (remaining = ∅) then l else []) in
  ret (outputs, bool_decide (remaining = ∅)).

Definition observe_num_generation_tokens (num_generation_tokens : Z) : M ParentRequest Z :=
  modify (λ p, set_max_tokens (Z.max num_generation_tokens (max_num_generation_tokens p)) p) ;;;
  gets max_num_generation_tokens.

(** [observe_finished_request]: the pairs appended to the iteration's stats. *)
Definition observe_finished_request (num_generation_tokens : Z) : M ParentRequest (list (Z * Z)) :=
  let* n := observe_num_generation_tokens num_generation_tokens in
  let* p := gets (λ p, p) in
  ret (if bool_decide (child_requests p = ∅) then [(n, parent_n p)] else []).

(** ** Power-SMC *)

Section power_smc.
Context {A : Arith}.

Record PowerSMCParentRequest : Type := MkSMCParent {
  pp_parent : ParentRequest;
  pp_config : PowerSMCConfig;
  pp_manager : PowerSMCGroupManager;
  child_request_to_index : gmap string Z
}.

Definition set_pp_parent p (s : PowerSMCParentRequest) : PowerSMCParentRequest :=
  MkSMCParent p (pp_config s) (pp_manager s) (child_request_to_index s).
Definition set_pp_manager m (s : PowerSMCParentRequest) : PowerSMCParentRequest :=
  MkSMCParent (pp_parent s) (pp_config s) m (child_request_to_index s).
Definition set_index m (s : PowerSMCParentRequest) : PowerSMCParentRequest :=
  MkSMCParent (pp_parent s) (pp_config s) (pp_manager s) m.
Definition on_parent {B} (m : M ParentRequest B) : M PowerSMCParentRequest B := zoom pp_parent set_pp_parent m.
Definition on_manager {B} (m : M PowerSMCGroupManager B) : M PowerSMCParentRequest B :=
  zoom pp_manager set_pp_manager m.

(** [r] is [random.Random(seed)]. *)
Definition PowerSMCParentRequest_init (rid : string) (seed : option Z) (config : PowerSMCConfig) (r : Rng)
  : res PowerSMCParentRequest :=
  rbind (PowerSMCGroupManager_init config r) (λ manager,
  Ok (MkSMCParent (set_aggregator (replicate (Z.to_nat (particles_n config)) None)
                     (ParentRequest_init rid (particles_n config) seed false)) config manager ∅)).

Definition smc_get_child_info (index : Z) : M PowerSMCParentRequest (string * ChildParams) :=
  let* s := gets (λ s, s) in
  let child_req_id := make_power_smc_child_request_id (parent_request_id (pp_parent s)) index in
  on_parent (modify (λ p, set_child_requests (child_requests p ∪ {[child_req_id]}) p)) ;;;
  modify (λ s, set_index (<[child_req_id := index]> (child_request_to_index s)) s) ;;;
  let* c := on_parent (get_child_sampling_params true index) in
  ret (child_req_id, c).

Definition observe_power_smc_step (child_request_id : string) (token_ids : list Z)
    (power_smc_logprobs : option (num * num)) (finish : option string) (stop : option stop_val)
  : M PowerSMCParentRequest bool :=
  match token_ids with
  | [] => ret false
  | _ =>
      let* lp := or_raise RuntimeError power_smc_logprobs in
      match token_ids with
      | [token] =>
          let* idx := gets child_request_to_index in
          let* particle_idx := or_raise KeyError (idx !! child_request_id) in
          let* is_block_boundary := on_manager (update_after_token particle_idx token lp.1 lp.2
            (bool_decide (finish ≠ None)) finish stop) in
          ret (bool_decide (finish ≠ None) || is_block_boundary)
      | _ => raise RuntimeError
      end
  end.

Definition maybe_resample_power_smc : M PowerSMCParentRequest unit :=
  let* _ := on_manager maybe_resample in ret tt.

Definition observe_power_smc_kv_event (e : option (gmap string pyval)) : M PowerSMCParentRequest unit :=
  match e with Some e => on_manager (record_kv_resample_event e) | None => ret tt end.

(** The selected output, once every child has finished. *)
Definition smc_get_outputs (child_request_id : string) (completion_output : CompletionOutput)
  : M PowerSMCParentRequest (list CompletionOutput * bool) :=
  (if out_finished completion_output
   then on_parent (modify (λ p, set_child_requests (child_requests p ∖ {[child_request_id]}) p)) else ret tt) ;;;
  let* p := gets pp_parent in
  let* l := set_item (output_aggregator p) (out_index completion_output) (Some completion_output) in
  on_parent (modify (set_aggregator l)) ;;;
  if negb (bool_decide (child_requests p = ∅)) then ret ([], false)
  else
    let* chosen_idx := on_manager final_select in
    let* o := or_raise IndexError (py_nth l chosen_idx) in
    let* o := or_raise TypeError o in
    let* m := gets pp_manager in
    let* particle := or_raise IndexError (py_nth (particles m) chosen_idx) in
    ret ([MkCompletion 0 (token_ids particle) (out_finish_reason o)], true).

Definition get_power_smc_diagnostics (ps : PyParse) : M PowerSMCParentRequest (option Diagnostics) :=
  let* s := gets (λ s, s) in
  if negb (return_diagnostics (pp_config s)) || bool_decide (chosen_particle (pp_manager s) = None) then ret None
  else let* d := on_manager (diagnostics ps) in ret (Some d).

(** One call of [OutputProcessor.process_outputs]: every output is observed, then
    the group is checked once if any asks for it, then the scheduler's events are
    recorded.  [LLMEngine] makes one call per step; [AsyncLLM] makes one per chunk
    of a step's outputs. *)
Record EngineOutput : Type := MkEngineOutput {
  eo_request : string;
  eo_tokens : list Z;
  eo_logprobs : option (num * num);
  eo_finish : option string;
  eo_stop : option stop_val;
  eo_event : option (gmap string pyval)
}.
Definition process_power_smc_outputs (outs : list EngineOutput) : M PowerSMCParentRequest unit :=
  let* check := fold_each (λ acc o,
    let* b := observe_power_smc_step (eo_request o) (eo_tokens o) (eo_logprobs o) (eo_finish o) (eo_stop o) in
    ret (acc || b)) outs false in
  (if (check : bool) then maybe_resample_power_smc else ret tt) ;;;
  for_each outs (λ o, observe_power_smc_kv_event (eo_event o)).
End power_smc.
