(* ===== verification/SMCMirror.v ===== *)
(** * Two copies of a particle group

    The scheduler and the front end each keep a particle group for a Power-SMC
    request and feed it the same tokens.  With a seed the two agree; without one,
    or once a child stops, they need not. *)

From stdpp Require Import gmap sets.
From Stdlib Require Import SpecFloat.
From S2P Require Import Prelude Arith PowerSMC PowerSMCProps FreeQueue BlockHash Request BlockPool KVCacheSpec SingleType CacheHit Coordinator KVCacheManager EncoderCache SMCScheduler SMCParent.
Open Scope Z_scope.

(** ** Computations on a group that ignore the recorded KV events *)

Section events.
Context {A : Arith}.

Definition with_events (ev : list (gmap string pyval)) (g : PowerSMCGroupManager) : PowerSMCGroupManager :=
  let st := stats g in
  set_gstats (MkGStats (resample_count st) (ess_history st) (unique_ancestors_per_resample st)
    (ancestor_history st) ev (maybe_resample_calls st) (block_boundary_checks st) (resample_skip_reasons st)) g.
(** The group without its KV events. *)
Definition erase (g : PowerSMCGroupManager) : PowerSMCGroupManager := with_events [] g.

Lemma erase_with ev g : erase (with_events ev g) = erase g.
Proof. done. Qed.

Lemma erase_eq_with g g' : erase g = erase g' → g' = with_events (kv_resample_events (stats g')) g.
Proof.
  destruct g as [k r p [] l pl c e], g' as [k' r' p' [] l' pl' c' e']. unfold erase, with_events. cbn.
  by intros [= -> -> -> -> -> -> -> -> -> -> -> -> -> ->].
Qed.

Definition blind {B} (m : M PowerSMCGroupManager B) : Prop :=
  ∀ ev g, m (with_events ev g) = ((m g).1, with_events ev (m g).2).

Lemma blind_ret {B} (b : B) : blind (ret b).
Proof. done. Qed.
Lemma blind_of_res {B} (r : res B) : blind (of_res r).
Proof. done. Qed.
Lemma blind_raise {B} e : blind (B := B) (raise e).
Proof. done. Qed.
Lemma blind_or_raise {B} e (o : option B) : blind (or_raise e o).
Proof. by destruct o. Qed.
Lemma blind_gets {B} (f : PowerSMCGroupManager → B) :
  (∀ ev g, f (with_events ev g) = f g) → blind (gets f).
Proof. intros Hf ev g. unfold gets. cbn. by rewrite Hf. Qed.
Lemma blind_modify f : (∀ ev g, f (with_events ev g) = with_events ev (f g)) → blind (modify f).
Proof. intros Hf ev g. unfold modify. cbn. by rewrite Hf. Qed.
Lemma blind_bind {B C} (m : M PowerSMCGroupManager B) (k : B → M PowerSMCGroupManager C) :
  blind m → (∀ b, blind (k b)) → blind (bind m k).
Proof.
  intros Hm Hk ev g. unfold bind. rewrite Hm. destruct (m g) as [[b|e] g']; [apply Hk|done].
Qed.
Lemma blind_map_each {B C} (f : B → M PowerSMCGroupManager C) l : (∀ b, blind (f b)) → blind (map_each f l).
Proof.
  intros Hf. induction l as [|b l IH]; [apply blind_ret|]. cbn [map_each]. apply blind_bind; [done|].
  intros c. apply blind_bind; [done|]. intros cs. apply blind_ret.
Qed.

Lemma blind_erase {B} (m : M PowerSMCGroupManager B) g1 g2 :
  blind m → erase g1 = erase g2 → (m g1).1 = (m g2).1 ∧ erase (m g1).2 = erase (m g2).2.
Proof.
  intros Hm He. rewrite (erase_eq_with g1 g2 He), Hm. cbn [fst snd]. by rewrite erase_with.
Qed.

Ltac blind := repeat match goal with
  | |- blind (bind _ _) => apply blind_bind; [|intros ?]
  | |- blind (gets _) => apply blind_gets; reflexivity
  | |- blind (modify _) => apply blind_modify; reflexivity
  | |- blind (ret _) => apply blind_ret
  | |- blind (raise _) => apply blind_raise
  | |- blind (of_res _) => apply blind_of_res
  | |- blind (or_raise _ _) => apply blind_or_raise
  | |- blind (map_each _ _) => apply blind_map_each; intros ?
  | |- blind (if ?b then _ else _) => destruct b
  | |- blind (let '(_, _) := ?p in _) => destruct p
  end.

Lemma blind_update i tok b q d f s : blind (update_after_token i tok b q d f s).
Proof. unfold update_after_token. blind. Qed.

Lemma blind_resample_at b : blind (resample_at b).
Proof. unfold resample_at, record_resample_skip, apply_ancestors. blind. Qed.

Lemma blind_maybe_resample : blind maybe_resample.
Proof.
  intros ev g. unfold maybe_resample. set (g1 := set_plan None (set_gstats (count_call (stats g)) g)).
  rewrite !(bind_eq (modify _) _ _ _ _ eq_refl).
  change (set_plan None (set_gstats (count_call (stats (with_events ev g))) (with_events ev g))) with (with_events ev g1).
  fold g1. rewrite !(bind_eq (gets _) _ _ _ _ eq_refl). cbv beta.
  change (eligible_resample_boundary (with_events ev g1)) with (eligible_resample_boundary g1).
  change (constants (with_events ev g1)) with (constants g1).
  change (last_boundary_check_length (with_events ev g1)) with (last_boundary_check_length g1).
  assert (∀ r, blind (record_resample_skip r ;;; ret false)) as Hskip by (intros r; unfold record_resample_skip; blind).
  destruct (_ =? 1); [apply Hskip|]. destruct (eligible_resample_boundary g1) as [ob []]; [apply Hskip|].
  destruct ob as [b|]; [|apply Hskip]. destruct (b <=? _); [apply Hskip|]. apply blind_resample_at.
Qed.

Lemma erase_record e g : erase (record_kv_resample_event e g).2 = erase g.
Proof. done. Qed.
End events.

(** Two monad laws. *)
Lemma bind_ret {S B C} (b : B) (k : B → M S C) : bind (ret b) k = k b.
Proof. done. Qed.
Lemma bind_ok {S B C} (b : B) (k : B → M S C) : bind (of_res (Ok b)) k = k b.
Proof. done. Qed.

Lemma bind_tail {S B} (m : M S B) (k : B → M S B) s : (∀ b, k b = ret b) → (bind m k s).2 = (m s).2.
Proof. intros Hk. unfold bind. destruct (m s) as [[b|e] s']; [by rewrite Hk|done]. Qed.

(** ** What applying a plan leaves of the groups *)

Section keeps.
Context {A : Arith} `{HashEnv}.
Context (set_order : gset Z → list Z).

(** The groups without their events, the child tables, and what identifies the
    child requests. *)
Definition attributes (r : SRequest) : string * option PowerSMCConfig * option PowerSMCChildRequestInfo * option Z :=
  (request_id (sr_req r), power_smc_config r, power_smc_child_info r, sr_seed r).
Definition view (s : Scheduler) : gmap string PowerSMCGroupManager * gmap string (gmap Z string) *
    gmap string (string * option PowerSMCConfig * option PowerSMCChildRequestInfo * option Z) :=
  (erase <$> power_smc_group_managers s, power_smc_group_children s, attributes <$> requests s).

Definition keeps {B} (s0 : Scheduler) (m : M Scheduler B) : Prop := ∀ s, view s = view s0 → view (m s).2 = view s0.

Section rules.
Context {s0 : Scheduler}.

Lemma keeps_bind {B C} (m : M Scheduler B) (k : B → M Scheduler C) :
  keeps s0 m → (∀ b, keeps s0 (k b)) → keeps s0 (bind m k).
Proof.
  intros Hm Hk s Hs. unfold bind. specialize (Hm s Hs). destruct (m s) as [[b|e] s']; [by apply Hk|done].
Qed.
Lemma keeps_gets_bind {B C} (f : Scheduler → B) (k : B → M Scheduler C) :
  (∀ s, view s = view s0 → keeps s0 (k (f s))) → keeps s0 (bind (gets f) k).
Proof. intros Hk s Hs. by apply Hk. Qed.
Lemma keeps_ret {B} (b : B) : keeps s0 (ret b).
Proof. by intros s. Qed.
Lemma keeps_raise {B} e : keeps s0 (raise (A := B) e).
Proof. by intros s. Qed.
Lemma keeps_of_res {B} (r : res B) : keeps s0 (of_res r).
Proof. by intros s. Qed.
Lemma keeps_or_raise {B} e (o : option B) : keeps s0 (or_raise e o).
Proof. by destruct o; intros s. Qed.
Lemma keeps_gets {B} (f : Scheduler → B) : keeps s0 (gets f).
Proof. by intros s. Qed.
Lemma keeps_modify f : (∀ s, view (f s) = view s) → keeps s0 (modify f).
Proof. intros Hf s Hs. cbn. by rewrite Hf. Qed.
Lemma keeps_on_kv {B} (m : M KVCacheManager B) : keeps s0 (on_kv m).
Proof. intros s Hs. unfold on_kv, zoom. by destruct (m (kv_cache_manager s)). Qed.
Lemma keeps_on_enc {B} (m : M EncoderCacheManager B) : keeps s0 (on_enc m).
Proof. intros s Hs. unfold on_enc, zoom. by destruct (m (encoder_cache_manager s)). Qed.
Lemma keeps_except {B} (m h : M Scheduler B) : keeps s0 m → keeps s0 h → keeps s0 (except_ValueError m h).
Proof.
  intros Hm Hh s Hs. unfold except_ValueError. specialize (Hm s Hs).
  destruct (m s) as [[b|[]] s']; try done; by apply Hh.
Qed.
Lemma keeps_map_each {B C} (f : B → M Scheduler C) l : (∀ b, keeps s0 (f b)) → keeps s0 (map_each f l).
Proof.
  intros Hf. induction l as [|b l IH]; [apply keeps_ret|]. cbn [map_each]. apply keeps_bind; [done|].
  intros c. apply keeps_bind; [done|]. intros cs. apply keeps_ret.
Qed.
Lemma keeps_fold_each {B C} (f : C → B → M Scheduler C) l c : (∀ c b, keeps s0 (f c b)) → keeps s0 (fold_each f l c).
Proof.
  intros Hf. revert c. induction l as [|b l IH]; intros c; [apply keeps_ret|]. cbn [fold_each].
  apply keeps_bind; [done|]. intros c'. apply IH.
Qed.
Lemma keeps_record pid e : keeps s0 (on_group pid (record_kv_resample_event e)).
Proof.
  intros s Hs. unfold on_group. rewrite (bind_eq (gets _) _ _ _ _ eq_refl).
  destruct (power_smc_group_managers s !! pid) as [g|] eqn:Hg; [|done]. cbn [or_raise].
  rewrite (bind_eq (ret g) _ _ _ _ eq_refl).
  rewrite (surjective_pairing (record_kv_resample_event e g)). rewrite (bind_eq (modify _) _ _ _ _ eq_refl).
  unfold of_res. cbn [snd]. rewrite <-Hs. unfold view. cbn [power_smc_group_managers power_smc_group_children requests set_managers].
  f_equal. f_equal. rewrite fmap_insert, erase_record. apply insert_id. by rewrite lookup_fmap, Hg.
Qed.
End rules.

Ltac keeps_step := match goal with
  | |- keeps _ (bind (gets _) _) => apply keeps_gets_bind; intros ? ?
  | |- keeps _ (bind _ _) => apply keeps_bind; [|intros ?]
  | |- keeps _ (ret _) => apply keeps_ret
  | |- keeps _ (raise _) => apply keeps_raise
  | |- keeps _ (of_res _) => apply keeps_of_res
  | |- keeps _ (or_raise _ _) => apply keeps_or_raise
  | |- keeps _ (gets _) => apply keeps_gets
  | |- keeps _ (on_kv _) => apply keeps_on_kv
  | |- keeps _ (on_enc _) => apply keeps_on_enc
  | |- keeps _ (on_group _ (record_kv_resample_event _)) => apply keeps_record
  | |- keeps _ (except_ValueError _ _) => apply keeps_except
  | |- keeps _ (map_each _ _) => apply keeps_map_each; intros ?
  | |- keeps _ (fold_each _ _ _) => apply keeps_fold_each; intros ? ?
  | |- keeps _ (modify (set_last_event _)) => apply keeps_modify; reflexivity
  | |- keeps _ (modify (λ s, set_inflight _ s)) => apply keeps_modify; reflexivity
  | |- keeps _ (if ?b then _ else _) => destruct b
  | |- keeps _ (let '(_, _) := ?p in _) => destruct p
  | |- keeps _ (match ?o with Some _ => _ | None => _ end) => destruct o eqn:?
  end.

(** Rehashing a request keeps its id. *)
Definition keeps_id {B} (m : M Request B) : Prop := ∀ r, request_id (m r).2 = request_id r.

Lemma keeps_id_bind {B C} (m : M Request B) (k : B → M Request C) :
  keeps_id m → (∀ b, keeps_id (k b)) → keeps_id (bind m k).
Proof.
  intros Hm Hk r. unfold bind. specialize (Hm r). destruct (m r) as [[b|e] r']; [|done]. by rewrite (Hk b r').
Qed.

Lemma keeps_id_mm a b i : keeps_id (gen_mm_extra_hash_keys a b i).
Proof.
  unfold gen_mm_extra_hash_keys. apply keeps_id_bind; [by intros r|]. intros fs.
  destruct (last fs) as [f|]; [|by intros r]. cbv zeta. destruct (_ <=? a); [by intros r|].
  apply keeps_id_bind; [|intros j r; reflexivity]. destruct (i <? 0); [|by intros r].
  apply keeps_id_bind; [|intros ? r; reflexivity]. by destruct (- i <=? len fs).
Qed.

Lemma keeps_id_embeds a b : keeps_id (gen_prompt_embeds_extra_hash_keys a b).
Proof.
  unfold gen_prompt_embeds_extra_hash_keys. apply keeps_id_bind; [by intros r|]. intros e.
  destruct e as [rows|]; [|by intros r]. cbv zeta. apply keeps_id_bind; [by intros r|]. intros memo.
  by destruct (memo !! (a, b)).
Qed.

Lemma keeps_id_extra_keys a b i : keeps_id (generate_block_hash_extra_keys a b i).
Proof.
  unfold generate_block_hash_extra_keys. apply keeps_id_bind; [apply keeps_id_mm|]. intros [mm j].
  apply keeps_id_bind; [by intros r|]. intros lora. apply keeps_id_bind; [by intros r|]. intros salt.
  apply keeps_id_bind; [apply keeps_id_embeds|]. intros pe r.
  by destruct (lora ++ _).
Qed.

Lemma keeps_id_hasher fuel bs n st i prev new : keeps_id (hasher_loop fuel bs n st i prev new).
Proof.
  revert st i prev new. induction fuel as [|fuel IH]; intros st i prev new; [by intros r|]. cbn [hasher_loop].
  destruct (_ <? _); [by intros r|]. apply keeps_id_bind; [apply keeps_id_extra_keys|]. intros [ek mi].
  apply keeps_id_bind; [by intros r|]. intros toks. apply IH.
Qed.

Lemma reset_output_request_id toks r : request_id (reset_output_token_ids toks r).2 = request_id r.
Proof.
  revert r. change (keeps_id (reset_output_token_ids toks)). unfold reset_output_token_ids, update_block_hashes.
  apply keeps_id_bind; [by intros r|]. intros _. apply keeps_id_bind; [by intros r|]. intros _.
  apply keeps_id_bind; [by intros r|]. intros [bs|]; [|by intros r].
  apply keeps_id_bind; [|intros new r; reflexivity]. unfold request_block_hasher.
  apply keeps_id_bind; [by intros r|]. intros hs. apply keeps_id_bind; [by intros r|]. intros n. cbv zeta.
  destruct (n <? _); [by intros r|]. apply keeps_id_hasher.
Qed.

Lemma reset_attributes toks n r r' : reset_request toks n r = Ok r' → attributes r' = attributes r.
Proof.
  unfold reset_request. destruct (reset_output_token_ids toks (sr_req r)) as [[[]|e] r1] eqn:Hr; [|done].
  intros [= <-]. unfold attributes. cbn. f_equal. f_equal. f_equal.
  pose proof (reset_output_request_id toks (sr_req r)) as Hid. by rewrite Hr in Hid.
Qed.

(** Inserting a request with the attributes it had. *)
Lemma keeps_insert s0 s rid r r' :
  view s = view s0 → requests s !! rid = Some r → attributes r' = attributes r →
  keeps s0 (modify (λ s, set_requests (<[rid := r']> (requests s)) s)).
Proof.
  intros Hs Hr Ha s1 Hs1. cbn. rewrite <-Hs1. unfold view. cbn. f_equal. rewrite fmap_insert. apply insert_id.
  rewrite Ha. assert (attributes <$> requests s1 = attributes <$> requests s) as ->.
  { unfold view in Hs, Hs1. congruence. }
  by rewrite lookup_fmap, Hr.
Qed.

Lemma keeps_apply_child s0 anc snaps noops can bs ct entry : keeps s0 (apply_child set_order anc snaps noops can bs ct entry).
Proof.
  destruct entry as [[i toks] rid]. unfold apply_child. destruct (bool_decide (i ∈ noops)); [apply keeps_ret|].
  keeps_step; [keeps_step|]. apply keeps_gets_bind. intros s Hs.
  destruct (requests s !! rid) as [r|] eqn:Hr; cbn [or_raise]; [|by intros s1 Hs1].
  rewrite bind_ret. cbv zeta.
  set (n := if num_prompt_tokens (sr_req r) + len toks - 1 <=? 0 then _ else _). clearbody n.
  apply keeps_bind. { unfold try_alias. repeat keeps_step. }
  intros aliased. set (c := if bool_decide (aliased = Some true) then _ else _). clearbody c.
  apply keeps_bind; [by repeat keeps_step|]. intros _. apply keeps_bind; [by repeat keeps_step|]. intros _.
  apply keeps_bind; [by repeat keeps_step|]. intros _.
  destruct (reset_request toks c r) as [r'|e] eqn:Hreset; [|by intros s1 Hs1].
  rewrite bind_ok. apply keeps_bind; [|intros _; apply keeps_ret].
  eapply keeps_insert; [exact Hs|exact Hr|by eapply reset_attributes].
Qed.

Lemma keeps_scan_child s0 children anc can sc entry : keeps s0 (scan_child children anc can sc entry).
Proof.
  destruct entry as [i toks]. unfold scan_child. apply keeps_gets_bind. intros s Hs.
  destruct (children !! i) as [rid|]; [|apply keeps_ret]. destruct (requests s !! rid) as [r|]; [|apply keeps_ret].
  destruct (is_finished _); [apply keeps_ret|]. cbv zeta. apply keeps_bind; [apply keeps_or_raise|]. intros a.
  destruct (child_resample_is_scheduler_noop _ _ _); apply keeps_ret.
Qed.

Lemma keeps_pool_snapshot s0 diag e suffix : keeps s0 (add_kv_pool_snapshot diag e suffix).
Proof. unfold add_kv_pool_snapshot, kv_pool_snapshot. destruct diag; repeat (cbv zeta; keeps_step). Qed.

(** Applying a plan, whether it returns or raises, changes no group but for
    the events, no child table and no request's identity. *)
Lemma apply_plan_keeps s0 pid : keeps s0 (apply_power_smc_resample_plan set_order pid).
Proof.
  unfold apply_power_smc_resample_plan. apply keeps_gets_bind. intros s _. apply keeps_bind; [apply keeps_or_raise|].
  intros g. destruct (last_resample_plan g) as [plan|]; [|apply keeps_ret]. apply keeps_gets_bind. intros st _. cbv zeta.
  apply keeps_bind; [apply keeps_pool_snapshot|]. intros e.
  apply keeps_bind; [apply keeps_fold_each; intros; apply keeps_scan_child|]. intros sc.
  destruct (all_noop sc).
  - apply keeps_bind; [apply keeps_pool_snapshot|]. intros e'. repeat keeps_step.
  - apply keeps_bind; [destruct (_ && _); [apply keeps_map_each; intros a; unfold snapshot_of|apply keeps_ret]; repeat keeps_step|].
    intros snaps. apply keeps_bind; [apply keeps_fold_each; intros; apply keeps_apply_child|]. intros ct.
    apply keeps_bind; [|intros _; apply keeps_ret]. destruct (bool_decide _); [apply keeps_ret|].
    apply keeps_bind; [apply keeps_pool_snapshot|]. intros e'. repeat keeps_step.
Qed.
End keeps.

(** ** One step on both sides *)

Section mirror.
Context {A : Arith} `{HashEnv}.
Context (set_order : gset Z → list Z) (seeded : Z → Rng) (entropy : nat → Rng).
(** A parent request with id [pid], seed [z] and configuration [c]. *)
Context (pid : string) (z : Z) (c : PowerSMCConfig).

Definition sched_step (outs : list StepOutput) : M Scheduler (list string * list (string * gmap string pyval)) :=
  let* parents := fold_each (observe_step_output seeded entropy) outs [] in
  resample_step set_order parents.

(** The scheduler's group, and the requests of the children, match the front
    end's; before the first output the scheduler has no group. *)
Record mirrors (s : Scheduler) (p : PowerSMCParentRequest) : Prop := {
  mi_config : pp_config p = c;
  mi_children : ∀ rid idx, child_request_to_index p !! rid = Some idx →
    0 ≤ idx < particles_n c ∧
    (attributes <$> requests s) !! rid = Some (rid, Some c, Some (MkChild pid idx), Some (z + idx));
  mi_group : match power_smc_group_managers s !! pid with
             | Some g => erase g = erase (pp_manager p) ∧ is_Some (power_smc_group_children s !! pid)
             | None => PowerSMCGroupManager_init c (seeded z) = Ok (pp_manager p)
             end
}.

(** The front end's group can take a token of each of its particles. *)
Definition open_group (p : PowerSMCParentRequest) : Prop :=
  group_ok (pp_manager p) ∧ config (constants (pp_manager p)) = c ∧ ∀ q, q ∈ particles (pp_manager p) → done q = false.

(** A token of a child that goes on. *)
Definition going_on (p : PowerSMCParentRequest) (o : StepOutput) (e : EngineOutput) : Prop :=
  so_stopped o = false ∧ so_finish o = None ∧ is_Some (child_request_to_index p !! so_request o) ∧
  (∃ t, so_tokens o = [t]) ∧ is_Some (so_logprobs o) ∧
  eo_request e = so_request o ∧ eo_tokens e = so_tokens o ∧ eo_logprobs e = so_logprobs o ∧
  eo_finish e = None ∧ eo_stop e = so_stop o.

Lemma open_lookup p idx : open_group p → 0 ≤ idx < particles_n c →
  ∃ q, particles (pp_manager p) !! Z.to_nat idx = Some q ∧ done q = false.
Proof.
  intros (Hg & Hc & Hd) Hi. destruct (lookup_lt_is_Some_2 (particles (pp_manager p)) (Z.to_nat idx)) as [q Hq].
  { pose proof (go_count _ Hg) as Hn. rewrite (go_const _ Hg), Hc in Hn. cbn in Hn. unfold len in Hn. lia. }
  exists q. split; [done|]. by apply Hd, (list_elem_of_lookup_2 _ (Z.to_nat idx)).
Qed.

(** The scheduler's group before a token: the one it has, or a new one. *)
Lemma get_group_ok s p r rid idx :
  mirrors s p → child_request_to_index p !! rid = Some idx → requests s !! rid = Some r →
  ∃ s' g, get_power_smc_group_manager seeded entropy r s = (Ok (Some (pid, idx)), s') ∧
    power_smc_group_managers s' !! pid = Some g ∧ erase g = erase (pp_manager p) ∧
    is_Some (power_smc_group_children s' !! pid) ∧ requests s' = requests s.
Proof.
  intros [Hc Hch Hgrp] Hidx Hr. destruct (Hch rid idx Hidx) as [Hi Hattr].
  rewrite lookup_fmap, Hr in Hattr. injection Hattr as Hrid Hcfg Hinfo Hseed.
  unfold get_power_smc_group_manager. rewrite Hcfg, Hinfo, (proj2 (Z.leb_gt _ _)) by lia.
  rewrite (bind_eq (gets _) _ _ _ _ eq_refl).
  destruct (power_smc_group_managers s !! pid) as [g|] eqn:Hg.
  - destruct Hgrp as [He [ch Hchs]]. rewrite bind_ret, (bind_eq (gets _) _ _ _ _ eq_refl), Hchs. cbn [or_raise].
    rewrite bind_ret, (bind_eq (modify _) _ _ _ _ eq_refl). eexists _, g. split; [done|]. cbn.
    split_and!; [done|done|by rewrite lookup_insert_eq|done].
  - rewrite Hseed. cbn [fmap option_fmap option_map new_rng]. rewrite Z.add_simpl_r.
    rewrite bind_ret, Hgrp, bind_ok. rewrite (bind_eq (modify _ ;;; modify _) _ _ _ _ eq_refl).
    rewrite (bind_eq (gets _) _ _ _ _ eq_refl). cbn [power_smc_group_children set_children set_managers].
    rewrite lookup_insert_eq. cbn [or_raise]. rewrite bind_ret, (bind_eq (modify _) _ _ _ _ eq_refl).
    eexists _, (pp_manager p). split; [done|]. cbn. by rewrite !lookup_insert_eq.
Qed.

Lemma observe_mirrors s p parents o e :
  mirrors s p → open_group p → going_on p o e →
  ∃ (b : bool) s' p', observe_step_output seeded entropy parents o s =
      (Ok (if b then if bool_decide (pid ∈ parents) then parents else parents ++ [pid] else parents), s') ∧
    observe_power_smc_step (eo_request e) (eo_tokens e) (eo_logprobs e) (eo_finish e) (eo_stop e) p = (Ok b, p') ∧
    mirrors s' p' ∧ open_group p' ∧ is_Some (power_smc_group_managers s' !! pid) ∧
    child_request_to_index p' = child_request_to_index p.
Proof.
  intros Hm Ho (Hst & Hfin & [idx Hidx] & [t Ht] & [lp Hlp] & He1 & He2 & He3 & He4 & He5).
  destruct (mi_children _ _ Hm _ _ Hidx) as [Hi Hattr]. rewrite lookup_fmap in Hattr.
  destruct (requests s !! so_request o) as [r|] eqn:Hr; [|done]. pose proof Hattr as Hattr'.
  injection Hattr' as Hrid Hcfg Hinfo Hseed.
  destruct (get_group_ok s p r _ idx Hm Hidx Hr) as (s1 & g & Hget & Hg & Heg & Hch & Hreq).
  destruct (open_lookup p idx Ho Hi) as (q & Hq & Hqd). destruct Ho as (Hgok & Hcc & Hd).
  destruct (ok_inv _ _ _ (update_after_token_ok (pp_manager p) idx q t lp.1 lp.2 false None (so_stop o) Hgok ltac:(lia) Hq Hqd))
    as (b & gp & Hrun & Hgok' & Hk & _ & _ & Hps & _).
  destruct (blind_erase _ g (pp_manager p) (blind_update idx t lp.1 lp.2 false None (so_stop o)) Heg) as [Hres Herase].
  rewrite Hrun in Hres, Herase. cbn [fst snd] in Hres, Herase.
  destruct (update_after_token idx t lp.1 lp.2 false None (so_stop o) g) as [rg g'] eqn:Hrung. cbn [fst snd] in Hres, Herase.
  subst rg. set (s2 := set_managers (<[pid := g']> (power_smc_group_managers s1)) s1).
  exists b, s2, (set_pp_manager gp p). split_and!.
  - unfold observe_step_output. rewrite (bind_eq (gets _) _ _ _ _ eq_refl), Hr, Hcfg, Hst, Ht.
    rewrite !bool_decide_eq_true_2, bool_decide_eq_false_2 by done. cbn [andb negb].
    unfold observe_power_smc_request_output. rewrite Hlp, Hfin.
    rewrite (bind_eq _ _ s (if b then Some pid else None) s2); [by destruct b; [destruct (bool_decide (pid ∈ parents))|]|].
    rewrite (bind_eq _ _ _ _ _ Hget). cbn [or_raise]. rewrite bind_ret.
    rewrite bool_decide_eq_false_2 by (by intros ?).
    rewrite (bind_eq _ _ s1 b s2); [by destruct b|]. unfold on_group.
    rewrite (bind_eq (gets _) _ _ _ _ eq_refl), Hg. cbn [or_raise]. rewrite bind_ret, Hrung.
    by rewrite (bind_eq (modify _) _ _ _ _ eq_refl).
  - rewrite He1, He2, He3, He4, He5, Ht, Hlp. unfold observe_power_smc_step. cbn [or_raise]. rewrite bind_ret.
    rewrite (bind_eq (gets _) _ _ _ _ eq_refl), Hidx. cbn [or_raise]. rewrite bind_ret.
    rewrite bool_decide_eq_false_2 by (by intros ?).
    unfold on_manager. rewrite (bind_eq (zoom _ _ _) _ p b (set_pp_manager gp p)); [done|].
    unfold zoom. by rewrite Hrun.
  - constructor; cbn.
    + apply (mi_config _ _ Hm).
    + rewrite Hreq. apply (mi_children _ _ Hm).
    + rewrite lookup_insert_eq. done.
  - split_and!; cbn; [done|by rewrite Hk|]. rewrite Hps. intros q' Hq'.
    apply list_elem_of_lookup in Hq' as [j Hj]. destruct (decide (j = Z.to_nat idx)) as [->|Hne].
    + rewrite list_lookup_insert_eq in Hj by (by eapply lookup_lt_Some). injection Hj as <-.
      unfold observe_token. by destruct (update_log_weight _ _ _ _ _ _) as [[? ?] ?].
    + rewrite list_lookup_insert_ne in Hj by done. by eapply Hd, list_elem_of_lookup_2.
  - cbn. rewrite lookup_insert_eq. by eexists.
  - done.
Qed.

(** All outputs of a step; the parent is collected exactly when the front end
    is to check its group. *)
Lemma observe_all_mirrors outs eouts s p (check : bool) :
  Forall2 (going_on p) outs eouts → mirrors s p → open_group p →
  ∃ (check' : bool) s' p',
    fold_each (observe_step_output seeded entropy) outs (if check then [pid] else []) s =
      (Ok (if check' then [pid] else []), s') ∧
    fold_each (λ acc e, let* b := observe_power_smc_step (eo_request e) (eo_tokens e) (eo_logprobs e) (eo_finish e) (eo_stop e) in
      ret (acc || b)) eouts check p = (Ok check', p') ∧
    mirrors s' p' ∧ open_group p' ∧
    (is_Some (power_smc_group_managers s !! pid) ∨ outs ≠ [] → is_Some (power_smc_group_managers s' !! pid)) ∧
    (outs = [] → check' = check).
Proof.
  intros Hall. revert eouts s p check Hall. induction outs as [|o outs IH]; intros eouts s p check Hall Hm Ho.
  - apply Forall2_nil_inv_l in Hall as ->. exists check, s, p. split_and!; try done. by intros [?|?].
  - apply Forall2_cons_inv_l in Hall as (e & eouts' & Hgo & Hall & ->). cbn [fold_each].
    destruct (observe_mirrors s p (if check then [pid] else []) o e Hm Ho Hgo)
      as (b & s1 & p1 & Hs1 & Hp1 & Hm1 & Ho1 & Hg1 & Hidx).
    rewrite (bind_eq _ _ _ _ _ Hs1).
    rewrite (bind_eq (bind _ _) _ p (check || b) p1) by (by rewrite (bind_eq _ _ _ _ _ Hp1)).
    assert ((if b then if bool_decide (pid ∈ (if check then [pid] else [])) then if check then [pid] else []
                       else (if check then [pid] else []) ++ [pid] else if check then [pid] else [])
      = if check || b then [pid] else []) as ->.
    { destruct check, b; cbn [orb]; [by rewrite bool_decide_eq_true_2 by left|done| |done].
      by rewrite bool_decide_eq_false_2 by apply not_elem_of_nil. }
    assert (Forall2 (going_on p1) outs eouts') as Hall1.
    { eapply Forall2_impl; [exact Hall|]. intros o' e'. unfold going_on. by rewrite Hidx. }
    destruct (IH eouts' s1 p1 (check || b) Hall1 Hm1 Ho1) as (check' & s' & p' & H1 & H2 & H3 & H4 & H5 & _).
    exists check', s', p'. split_and!; [done..| |done]. intros _. apply H5. by left.
Qed.


(** The relation only reads the view. *)
Lemma mirrors_view s s' p : view s' = view s → is_Some (power_smc_group_managers s !! pid) → mirrors s p → mirrors s' p.
Proof.
  unfold view. intros Hv [g Hg] [Hc Hch Hgrp]. injection Hv as Hm Hcs Hr. constructor; [done|by rewrite Hr|].
  rewrite Hg in Hgrp. destruct Hgrp as [He Hcg]. rewrite Hcs.
  assert ((erase <$> power_smc_group_managers s') !! pid = Some (erase g)) as Hg'
    by (by rewrite Hm, lookup_fmap, Hg).
  rewrite lookup_fmap in Hg'. destruct (power_smc_group_managers s' !! pid) as [g'|]; [|done].
  apply (inj Some) in Hg'. split; [by rewrite <-He|done].
Qed.

Lemma maybe_resample_done g r g' q : group_ok g → (∀ q, q ∈ particles g → done q = false) →
  check_outcome g r g' → q ∈ particles g' → done q = false.
Proof.
  intros Hg Hd (_ & Hc) Hq. destruct (due g) as [b|]; [|destruct Hc as (_ & Hp & _); rewrite Hp in Hq; by apply Hd].
  destruct Hc as [Hc _]. destruct (checked_particles _ _ _ _ _ Hc Hq) as [?|(_ & q0 & st & _ & _ & ->)]; [by apply Hd|done].
Qed.

(** The check at the end of the step. *)
Lemma check_mirrors s p :
  mirrors s p → open_group p → is_Some (power_smc_group_managers s !! pid) →
  ∃ p', maybe_resample_power_smc p = (Ok tt, p') ∧ open_group p' ∧
    mirrors (resample_step set_order [pid] s).2 p' ∧
    is_Some (power_smc_group_managers (resample_step set_order [pid] s).2 !! pid).
Proof.
  intros Hm (Hgok & Hc & Hd) [g Hg].
  destruct (ok_inv _ _ _ (maybe_resample_ok (pp_manager p) Hgok)) as (b & gp & Hrun & Hout).
  pose proof Hm as [Hmc Hmch Hmg]. rewrite Hg in Hmg. destruct Hmg as [He Hcs].
  destruct (blind_erase _ g (pp_manager p) blind_maybe_resample He) as [Hres Herase].
  rewrite Hrun in Hres, Herase. cbn [fst snd] in Hres, Herase.
  destruct (maybe_resample g) as [rg g'] eqn:Hrung. cbn [fst snd] in Hres, Herase. subst rg.
  exists (set_pp_manager gp p). split.
  { unfold maybe_resample_power_smc, on_manager. rewrite (bind_eq (zoom _ _ _) _ p b (set_pp_manager gp p)); [done|].
    unfold zoom. by rewrite Hrun. }
  split.
  { assert (constants gp = constants (pp_manager p)) as Hk by apply Hout.
    split_and!; cbn; [by eapply check_outcome_ok|by rewrite Hk|].
    intros q Hq. by eapply maybe_resample_done. }
  set (s1 := set_managers (<[pid := g']> (power_smc_group_managers s)) (set_last_event None s)).
  assert (mirrors s1 (set_pp_manager gp p)) as Hm1.
  { constructor; cbn; [done|done|]. by rewrite lookup_insert_eq. }
  assert (view (resample_step set_order [pid] s).2 = view s1) as Hv.
  { unfold resample_step. cbn [fold_each].
    rewrite (bind_tail _ _ s (λ b, eq_refl)).
    rewrite (bind_eq (modify _) _ _ _ _ eq_refl).
    assert (maybe_resample_power_smc_parent set_order pid (set_last_event None s) =
      (if negb b then ret [] else apply_power_smc_resample_plan set_order pid) s1) as Hparent.
    { unfold maybe_resample_power_smc_parent. rewrite (bind_eq (gets _) _ _ _ _ eq_refl).
      cbn [power_smc_group_managers set_last_event]. rewrite Hg.
      rewrite (bind_eq _ _ (set_last_event None s) b s1); [done|]. unfold on_group.
      rewrite (bind_eq (gets _) _ _ _ _ eq_refl). cbn [power_smc_group_managers set_last_event]. rewrite Hg. cbn [or_raise].
      rewrite bind_ret, Hrung. by rewrite (bind_eq (modify _) _ _ _ _ eq_refl). }
    assert (view (maybe_resample_power_smc_parent set_order pid (set_last_event None s)).2 = view s1) as Hv1.
    { rewrite Hparent. destruct b; cbn [negb]; [by apply apply_plan_keeps|done]. }
    unfold bind at 1. destruct (maybe_resample_power_smc_parent set_order pid (set_last_event None s)) as [[rs|e] s2]; exact Hv1. }
  split; [by eapply mirrors_view; [exact Hv|cbn; rewrite lookup_insert_eq; by eexists|]|].
  assert ((erase <$> power_smc_group_managers (resample_step set_order [pid] s).2) !! pid = Some (erase g')) as Hlook.
  { apply (f_equal (λ v, v.1.1)) in Hv. cbn [view fst] in Hv. rewrite Hv. cbn.
    by rewrite lookup_fmap, lookup_insert_eq. }
  rewrite lookup_fmap in Hlook.
  destruct (power_smc_group_managers (resample_step set_order [pid] s).2 !! pid) as [g2|]; [by eexists|discriminate Hlook].
Qed.
End mirror.
