(* ===== verification/SMCAgree.v ===== *)
(** * Agreement of the scheduler's particle group with the front end's

    Histories in which a seeded Power-SMC request is created and its children
    go on token by token, on both sides. *)

From stdpp Require Import gmap sets.
From S2P Require Import Prelude Arith FreeQueue BlockHash Request HashChain BlockPool KVCacheSpec SingleType CacheHit Coordinator KVCacheManager KVInvariant PowerSMC PowerSMCProps PowerSMCGroup EncoderCache SMCScheduler SMCParent SMCMirror.
Open Scope Z_scope.

(** ** Creation of the children *)

Section creation.
Context {A : Arith}.

(** The loop over [get_child_info] in async_llm.py and llm_engine.py. *)
Definition start_children (n : Z) : M PowerSMCParentRequest (list (string * ChildParams)) :=
  map_each smc_get_child_info (range 0 n).

(** The children registered so far, and what the next one's parameters are
    made from. *)
Definition parent_for (pid : string) (z n : Z) (p0 p : PowerSMCParentRequest) : Prop :=
  pp_config p = pp_config p0 ∧ pp_manager p = pp_manager p0 ∧
  parent_request_id (pp_parent p) = pid ∧ parent_seed (pp_parent p) = Some z ∧
  cached_child_sampling_params (pp_parent p) = None ∧
  ∀ rid i, child_request_to_index p !! rid = Some i →
    rid = make_power_smc_child_request_id pid i ∧ 0 ≤ i < n.

Lemma smc_get_child_info_ok pid z n p0 p i :
  parent_for pid z n p0 p → 0 ≤ i < n →
  ok (smc_get_child_info i) p (λ c p',
    c = (make_power_smc_child_request_id pid i, MkChildParams 1 (Some (z + i)) true) ∧ parent_for pid z n p0 p').
Proof.
  intros (Hc & Hm & Hid & Hs & Hp & Hi) Hin. unfold smc_get_child_info, on_parent, get_child_sampling_params.
  ok_steps. apply ok_zoom. ok_steps. apply ok_zoom. ok_steps.
  cbn. rewrite Hp, Hs. ok_steps. cbn. rewrite Hid. split; [done|]. split_and!; [done..|]. cbn. rewrite ?Hid.
  intros rid j. rewrite lookup_insert_Some. intros [[<- <-]|[_ Hj]]; [done|by apply Hi].
Qed.

Lemma map_children_ok pid z n p0 js p :
  parent_for pid z n p0 p → (∀ i, i ∈ js → 0 ≤ i < n) →
  ok (map_each smc_get_child_info js) p (λ cs p',
    cs = (λ i, (make_power_smc_child_request_id pid i, MkChildParams 1 (Some (z + i)) true)) <$> js ∧
    parent_for pid z n p0 p').
Proof.
  intros Hp His. revert p Hp. induction js as [|i js IH]; intros p Hp; [by apply ok_ret|]. cbn [map_each].
  ok_step. eapply ok_mono; [apply (smc_get_child_info_ok pid z n p0); [done|apply His; left]|].
  intros c p1 [-> Hp1]. ok_step. eapply ok_mono; [apply IH; [|done]|].
  { intros j Hj. apply His. by right. }
  intros cs p2 [-> Hp2]. by ok_step.
Qed.
End creation.

(** ** Histories *)

Section agree.
Context {A : Arith} `{HashEnv}.
Context (set_order : gset Z → list Z) (seeded : Z → Rng) (entropy : nat → Rng).
Context (pid : string) (z : Z) (c : PowerSMCConfig).

Abbreviation mirrors := (mirrors seeded pid z c).
Abbreviation sched_step := (sched_step set_order seeded entropy).

(** The scheduler and the front end, from the creation of the request.  The
    scheduler's other work leaves the view of the groups alone. *)
Inductive together : Scheduler → PowerSMCParentRequest → Prop :=
| to_start s p0 p children :
    threshold_scales c = true →
    PowerSMCParentRequest_init pid (Some z) c (seeded z) = Ok p0 →
    start_children (particles_n c) p0 = (Ok children, p) →
    power_smc_group_managers s !! pid = None →
    (∀ i rid params, children !! Z.to_nat i = Some (rid, params) → 0 ≤ i →
       (attributes <$> requests s) !! rid = Some (rid, Some c, Some (MkChild pid i), cp_seed params)) →
    together s p
| to_other s s' p :
    together s p → view s' = view s → together s' p
| to_step s p outs eouts p' :
    together s p → Forall2 (going_on p) outs eouts →
    process_power_smc_outputs eouts p = (Ok tt, p') →
    together (sched_step outs s).2 p'.

Lemma start_mirrors s p0 p children :
  threshold_scales c = true →
  PowerSMCParentRequest_init pid (Some z) c (seeded z) = Ok p0 →
  start_children (particles_n c) p0 = (Ok children, p) →
  power_smc_group_managers s !! pid = None →
  (∀ i rid params, children !! Z.to_nat i = Some (rid, params) → 0 ≤ i →
     (attributes <$> requests s) !! rid = Some (rid, Some c, Some (MkChild pid i), cp_seed params)) →
  mirrors s p ∧ open_group c p.
Proof.
  intros Ht Hinit Hstart Hnone Hreq. unfold PowerSMCParentRequest_init in Hinit.
  destruct (PowerSMCGroupManager_init c (seeded z)) as [g|] eqn:Hg; [|done]. cbn [rbind] in Hinit.
  apply (f_equal (λ r, match r with Ok x => Some x | Err _ => None end)) in Hinit. apply (inj Some) in Hinit. subst p0.
  set (p0 := MkSMCParent _ _ _ _) in Hstart.
  assert (parent_for pid z (particles_n c) p0 p0) as Hp0 by done.
  pose proof (map_children_ok pid z (particles_n c) p0 (range 0 (particles_n c)) p0 Hp0
    (λ i, proj1 (elem_of_range 0 (particles_n c) i))) as Hok.
  unfold ok in Hok. unfold start_children in Hstart. rewrite Hstart in Hok.
  destruct Hok as [-> (Hc & Hm & _ & _ & _ & Hidx)]. split.
  - constructor; [by rewrite Hc| |by rewrite Hnone, Hm].
    intros rid i Hi. destruct (Hidx rid i Hi) as [-> Hin]. split; [done|].
    rewrite (Hreq i _ (MkChildParams 1 (Some (z + i)) true)); [done| |lia].
    rewrite list_lookup_fmap. unfold range. rewrite lookup_seqZ_lt by lia. cbn. do 4 f_equal; lia.
  - assert (particles (pp_manager p) = particles g ∧ group_ok g ∧ config (constants g) = c ∧
      ∀ q, q ∈ particles g → done q = false) as (_ & Hgok & Hgc & Hd).
    { split; [by rewrite Hm|]. split; [by eapply init_ok|]. apply group_init_inv in Hg as (_ & _ & ->). split; [done|]. cbn.
      by intros q (-> & _)%elem_of_replicate. }
    unfold open_group. by rewrite Hm.
Qed.

(** The events of a step touch nothing else. *)
Lemma record_events_ok eouts p :
  ok (for_each eouts (λ o, observe_power_smc_kv_event (eo_event o))) p (λ _ p',
    pp_config p' = pp_config p ∧ child_request_to_index p' = child_request_to_index p ∧
    erase (pp_manager p') = erase (pp_manager p)).
Proof.
  apply (ok_for_each _ (λ _ p', pp_config p' = pp_config p ∧ child_request_to_index p' = child_request_to_index p ∧
    erase (pp_manager p') = erase (pp_manager p))); [done| |done].
  intros o os p1 Hp1. unfold observe_power_smc_kv_event. destruct (eo_event o) as [e|]; [|by apply ok_ret].
  unfold on_manager. apply ok_zoom. unfold record_kv_resample_event. by ok_step.
Qed.

Lemma erase_open g g' : erase g = erase g' →
  constants g = constants g' ∧ particles g = particles g' ∧ rng g = rng g' ∧ (group_ok g → group_ok g').
Proof.
  intros He. rewrite (erase_eq_with g g' He). unfold with_events. cbn. split_and!; try done.
  intros Hg. by eapply group_ok_same, Hg.
Qed.

Lemma together_mirrors_step s p outs eouts :
  mirrors s p → open_group c p → Forall2 (going_on p) outs eouts →
  ∃ p', process_power_smc_outputs eouts p = (Ok tt, p') ∧ open_group c p' ∧ mirrors (sched_step outs s).2 p' ∧
    (outs ≠ [] → is_Some (power_smc_group_managers (sched_step outs s).2 !! pid)).
Proof.
  intros Hm Ho Hall.
  destruct (observe_all_mirrors seeded entropy pid z c outs eouts s p false Hall Hm Ho)
    as (check & s1 & p1 & Hs1 & Hp1 & Hm1 & Ho1 & Hg1 & Hnil).
  assert (∃ p2, (if check then maybe_resample_power_smc else ret tt) p1 = (Ok tt, p2) ∧ open_group c p2 ∧
    mirrors (sched_step outs s).2 p2 ∧ (outs ≠ [] → is_Some (power_smc_group_managers (sched_step outs s).2 !! pid)))
    as (p2 & Hp2 & Ho2 & Hm2 & Hg2).
  { unfold sched_step, SMCMirror.sched_step. rewrite (bind_eq _ _ _ _ _ Hs1). destruct check.
    - assert (is_Some (power_smc_group_managers s1 !! pid)) as Hg.
      { apply Hg1. right. intros ->. by specialize (Hnil eq_refl). }
      destruct (check_mirrors set_order seeded pid z c s1 p1 Hm1 Ho1 Hg) as (p2 & ? & ? & ? & ?). by exists p2.
    - exists p1. split_and!; [done..|]. intros Hne. apply Hg1. by right. }
  destruct (ok_inv _ _ _ (record_events_ok eouts p2)) as ([] & p3 & Hp3 & Hc3 & Hi3 & He3).
  exists p3. split.
  { unfold process_power_smc_outputs. rewrite (bind_eq _ _ _ _ _ Hp1). by rewrite (bind_eq _ _ _ _ _ Hp2). }
  destruct (erase_open _ _ (eq_sym He3)) as (Hk3 & Hps3 & _ & Hok3). destruct Ho2 as (Hok2 & Hkc2 & Hd2).
  split; [split_and!; [by apply Hok3|by rewrite <-Hk3|by rewrite <-Hps3]|]. split; [|done].
  destruct Hm2 as [Hmc Hmch Hmg]. constructor; [by rewrite Hc3|by rewrite Hi3|].
  destruct (power_smc_group_managers (sched_step outs s).2 !! pid) as [g|] eqn:Hg.
  - by rewrite He3.
  - destruct outs as [|o outs]; [|by destruct (Hg2 ltac:(done)) as [? [=]]].
    apply Forall2_nil_inv_l in Hall as ->. by injection Hp3 as <-.
Qed.

Lemma together_mirrors s p : together s p → mirrors s p ∧ open_group c p.
Proof.
  induction 1 as [s p0 p ch Ht Hi Hs Hn Hr|s s' p _ [Hm Ho] Hv|s p outs eouts p' _ [Hm Ho] Hall Hrun].
  - by eapply start_mirrors.
  - split; [|done]. destruct Hm as [Hc Hch Hg]. injection Hv as Hvm Hvc Hvr.
    constructor; [done|by rewrite Hvr|]. rewrite Hvc.
    apply (f_equal (.!! pid)) in Hvm. rewrite !lookup_fmap in Hvm.
    destruct (power_smc_group_managers s !! pid) as [g|], (power_smc_group_managers s' !! pid) as [g'|]; try done.
    apply (inj Some) in Hvm. destruct Hg as [He ?]. split; [by rewrite Hvm|done].
  - destruct (together_mirrors_step s p outs eouts Hm Ho Hall) as (p1 & Hp1 & Ho1 & Hm1 & _).
    rewrite Hrun in Hp1. by injection Hp1 as <-.
Qed.

(** C10: a seeded request whose children go on: after any history of steps the
    group the scheduler keeps is the one the front end keeps, up to the KV
    events each recorded: the same particles, weights, generator, statistics
    and plan. A further step of such tokens is accepted by the front end and
    leaves the two in agreement, whether or not it resamples and whatever
    becomes of the KV-cache blocks.  The outputs of a step reach the front end in
    one call of [process_outputs], as [LLMEngine] makes it; when [AsyncLLM] splits
    them within a group the two can part ([SMCDiverge.chunks_diverge]). *)
Theorem seeded_groups_agree s p outs eouts :
  together s p → Forall2 (going_on p) outs eouts →
  (∀ g, power_smc_group_managers s !! pid = Some g → erase g = erase (pp_manager p)) ∧
  ∃ p', process_power_smc_outputs eouts p = (Ok tt, p') ∧
    (outs ≠ [] → ∃ g, power_smc_group_managers (sched_step outs s).2 !! pid = Some g ∧
       erase g = erase (pp_manager p')).
Proof.
  intros Ht Hall. destruct (together_mirrors s p Ht) as [Hm Ho]. split.
  { intros g Hg. pose proof (mi_group _ _ _ _ _ _ Hm) as Hgr. rewrite Hg in Hgr. apply Hgr. }
  destruct (together_mirrors_step s p outs eouts Hm Ho Hall) as (p' & Hp' & _ & Hm' & Hg').
  exists p'. split; [done|]. intros Hne. destruct (Hg' Hne) as [g Hg]. exists g. split; [done|].
  pose proof (mi_group _ _ _ _ _ _ Hm') as Hgr. rewrite Hg in Hgr. apply Hgr.
Qed.
End agree.

(** ** Two particles with one-token blocks, seed 5 *)

Section demo.
Let env : HashEnv := injective_env.
Existing Instance env.
#[local] Existing Instance demo_arith.

Definition demo_seeded (z : Z) : Rng := MkRng (λ _, tenths 1) 0.
Definition demo_entropy (n : nat) : Rng := MkRng (λ _, tenths 1) 0.
Definition demo_child_id (i : Z) : string := make_power_smc_child_request_id "req" i.

(** A running child with prompt [[1; 2; 3]]. *)
Definition demo_child (seed : option Z) (i : Z) : SRequest :=
  MkSRequest
    (MkRequest (demo_child_id i) 0 0 None None None None [] (Some [1; 2; 3]) None ∅ 3 [] [1; 2; 3] [] 3 0 16
       RUNNING None [] None false)
    0 0 false ((λ z, z + i) <$> seed) (Some demo_config) (Some (MkChild "req" i)) 0 false false 0 false.
Definition demo_sched (seed : option Z) : Scheduler :=
  MkSched (<[demo_child_id 1 := demo_child seed 1]> {[demo_child_id 0 := demo_child seed 0]})
    KVInvariant.demo_kv (EncoderCacheManager_init 10) ∅ ∅ ∅ 4 [4; 4] None 0.

Definition no_parent : PowerSMCParentRequest :=
  MkSMCParent (ParentRequest_init "req" 0 None false) demo_config
    (MkGroup (group_constants demo_config) demo_rng [] (MkGStats 0 [] [] [] [] 0 0 ∅) 0 None None None) ∅.
Definition parent_with (seed : option Z) (r : Rng) : PowerSMCParentRequest :=
  match PowerSMCParentRequest_init "req" seed demo_config r with Ok p => p | Err _ => no_parent end.
Definition demo_parent0 (seed : option Z) : PowerSMCParentRequest := parent_with seed (demo_seeded 5).
Definition demo_parent (seed : option Z) : PowerSMCParentRequest := (start_children 2 (demo_parent0 seed)).2.

(** The outputs of one step, as the scheduler and the front end get them. *)
Definition demo_out (i tok b : Z) (stopped : bool) : StepOutput :=
  MkOutput (demo_child_id i) [tok] (Some (f64_of_Z b, f64_of_Z (-2))) stopped (if stopped then Some "stop" else None)%string None.
Definition demo_eout (i tok b : Z) (stopped : bool) : EngineOutput :=
  MkEngineOutput (demo_child_id i) [tok] (Some (f64_of_Z b, f64_of_Z (-2))) (if stopped then Some "stop" else None)%string
    None None.

Lemma demo_together : together (λ X, elements X) demo_seeded demo_entropy "req" 5 demo_config (demo_sched (Some 5)) (demo_parent (Some 5)).
Proof.
  assert ((start_children 2 (demo_parent0 (Some 5))).1 =
    Ok [(demo_child_id 0, MkChildParams 1 (Some 5) true); (demo_child_id 1, MkChildParams 1 (Some 6) true)]) as Hch
    by (vm_compute; reflexivity).
  assert (start_children 2 (demo_parent0 (Some 5)) =
    (Ok [(demo_child_id 0, MkChildParams 1 (Some 5) true); (demo_child_id 1, MkChildParams 1 (Some 6) true)],
     demo_parent (Some 5))) as Hst by (rewrite <-Hch; apply surjective_pairing).
  assert (∀ m, match m with Ok p => p | Err _ => no_parent end = demo_parent0 (Some 5) → (∃ p, m = Ok p) →
    m = Ok (demo_parent0 (Some 5))) as Hok by (by intros m <- [p ->]).
  eapply (to_start _ _ _ _ _ _ _ (demo_parent0 (Some 5))); [exact eq_refl| |exact Hst|exact eq_refl|].
  { apply Hok; [reflexivity|]. by eexists. }
  assert (∀ j, (attributes <$> requests (demo_sched (Some 5))) !! demo_child_id j = attributes <$> requests (demo_sched (Some 5)) !! demo_child_id j)
    as Hlook by (intros j; apply lookup_fmap).
  intros i rid params Hi Hi0. destruct (decide (i = 0)) as [->|].
  { cbn in Hi. apply (inj Some), pair_equal_spec in Hi as [<- <-]. rewrite Hlook. exact eq_refl. }
  destruct (decide (i = 1)) as [->|].
  { cbn in Hi. apply (inj Some), pair_equal_spec in Hi as [<- <-]. rewrite Hlook. exact eq_refl. }
  replace (Z.to_nat i) with (S (S (Z.to_nat (i - 2)))) in Hi by lia. done.
Qed.

Lemma demo_going_on p i tok b : child_request_to_index p !! demo_child_id i = Some i →
  going_on p (demo_out i tok b false) (demo_eout i tok b false).
Proof. intros Hi. unfold going_on. cbn. split_and!; try done; by eexists. Qed.

(** Both particles get their first token and both sides resample: particle 1
    continues particle 0's token. *)
Lemma seeded_groups_agree_witness :
  let outs := [demo_out 0 7 (-1) false; demo_out 1 9 (-3) false] in
  let s' := (sched_step (λ X, elements X) demo_seeded demo_entropy outs (demo_sched (Some 5))).2 in
  ∃ p' g, power_smc_group_managers s' !! "req"%string = Some g ∧ erase g = erase (pp_manager p') ∧
    token_ids <$> particles (pp_manager p') = [[7]; [7]].
Proof.
  intros outs s'.
  destruct (seeded_groups_agree (λ X, elements X) demo_seeded demo_entropy "req" 5 demo_config (demo_sched (Some 5))
    (demo_parent (Some 5)) outs [demo_eout 0 7 (-1) false; demo_eout 1 9 (-3) false] demo_together)
    as (_ & p' & Hp' & Hag).
  { apply Forall2_cons; split; [by apply demo_going_on; vm_compute|].
    apply Forall2_cons; split; [by apply demo_going_on; vm_compute|done]. }
  destruct Hag as (g & Hg & He); [done|]. exists p', g. split; [exact Hg|]. split; [exact He|].
  assert (token_ids <$> particles (pp_manager (process_power_smc_outputs
    [demo_eout 0 7 (-1) false; demo_eout 1 9 (-3) false] (demo_parent (Some 5))).2) = [[7]; [7]]) as Ht by (vm_compute; reflexivity).
  rewrite Hp' in Ht. exact Ht.
Defined.
End demo.
