(* ===== verification/SMCDiverge.v ===== *)
(** * Where the two particle groups of a request part

    The scheduler does not observe the token a child stops with, and without a
    seed it draws from a generator of its own; either way the front end's group
    takes another course. *)

From stdpp Require Import gmap sets.
From Stdlib Require Import SpecFloat.
From S2P Require Import Prelude Arith FreeQueue BlockHash Request HashChain BlockPool KVCacheSpec SingleType CacheHit Coordinator KVCacheManager KVInvariant PowerSMC PowerSMCProps PowerSMCGroup EncoderCache SMCScheduler SMCParent SMCMirror SMCAgree.
Open Scope Z_scope.

Section stop.
Context {A : Arith} `{HashEnv}.
Context (set_order : gset Z → list Z) (seeded : Z → Rng) (entropy : nat → Rng).
Context (pid : string) (z : Z) (c : PowerSMCConfig).

Abbreviation together := (together set_order seeded entropy pid z c).

(** A done particle stops all resampling. *)
Lemma min_length_done ps acc q : q ∈ ps → done q = true → min_length ps acc = None.
Proof.
  revert acc. induction ps as [|p ps IH]; intros acc Hq Hd; [by apply elem_of_nil in Hq|]. cbn [min_length].
  apply elem_of_cons in Hq as [->|Hq]; [by rewrite Hd|]. destruct (done p); [done|].
  destruct (_ =? 0); by apply IH.
Qed.

Lemma done_not_due g q : q ∈ particles g → done q = true → due g = None.
Proof.
  intros Hq Hd. unfold due, eligible_resample_boundary. rewrite (min_length_done _ None q Hq Hd).
  by destruct (_ =? 1).
Qed.

(** C35: a child of a seeded request stops. The front end observes its last token
    and marks the particle done, after which its group never resamples. The
    scheduler skips the output: its group has no done particle and lacks the
    token, so it can still resample the children that go on. *)
Theorem stopped_output_unseen s p parents o i t lp f stop :
  together s p →
  child_request_to_index p !! so_request o = Some i → so_stopped o = true → so_tokens o = [t] →
  observe_step_output seeded entropy parents o s = (Ok parents, s) ∧
  (∀ g q, power_smc_group_managers s !! pid = Some g → q ∈ particles g → done q = false) ∧
  ∃ q q' p', particles (pp_manager p) !! Z.to_nat i = Some q ∧
    observe_power_smc_step (so_request o) (so_tokens o) (Some lp) (Some f) stop p = (Ok true, p') ∧
    particles (pp_manager p') !! Z.to_nat i = Some q' ∧ token_ids q' = token_ids q ++ [t] ∧ done q' = true ∧
    (∃ p'', maybe_resample_power_smc p' = (Ok tt, p'') ∧
       particles (pp_manager p'') = particles (pp_manager p')).
Proof.
  intros Ht Hidx Hs Htok. destruct (together_mirrors _ _ _ _ _ _ _ _ Ht) as [Hm Ho]. split.
  { unfold observe_step_output. rewrite (bind_eq (gets _) _ _ _ _ eq_refl).
    destruct (requests s !! so_request o); [|done]. by rewrite Hs, andb_false_r. }
  split.
  { intros g q Hg Hq. pose proof (mi_group _ _ _ _ _ _ Hm) as Hgr. rewrite Hg in Hgr.
    destruct (erase_open _ _ (proj1 Hgr)) as (_ & Hps & _). rewrite Hps in Hq. destruct Ho as (_ & _ & Hd). by apply Hd. }
  destruct (mi_children _ _ _ _ _ _ Hm _ _ Hidx) as [Hi _].
  destruct (open_lookup c p i Ho Hi) as (q & Hq & Hd). destruct Ho as (Hgok & _ & _).
  destruct (ok_inv _ _ _ (update_after_token_ok (pp_manager p) i q t lp.1 lp.2 true (Some f) stop Hgok ltac:(lia) Hq Hd))
    as (b & g' & Hrun & Hgok' & _ & _ & _ & Hps & _).
  set (q' := observe_token (constants (pp_manager p)) t lp.1 lp.2 true (Some f) stop q).
  assert (particles g' !! Z.to_nat i = Some q') as Hq'
    by (rewrite Hps; apply list_lookup_insert_eq; by eapply lookup_lt_Some).
  assert (done q' = true ∧ token_ids q' = token_ids q ++ [t]) as [Hd' Htk].
  { unfold q', observe_token. by destruct (update_log_weight _ _ _ _ _ _) as [[? ?] ?]. }
  exists q, q', (set_pp_manager g' p). split_and!; [done| |done..|].
  - rewrite Htok. unfold observe_power_smc_step. cbn [or_raise]. rewrite bind_ret.
    rewrite (bind_eq (gets _) _ _ _ _ eq_refl), Hidx. cbn [or_raise]. rewrite bind_ret.
    rewrite bool_decide_eq_true_2 by done. unfold on_manager.
    rewrite (bind_eq (zoom _ _ _) _ p b (set_pp_manager g' p)); [done|]. unfold zoom. by rewrite Hrun.
  - destruct (ok_inv _ _ _ (maybe_resample_ok g' Hgok')) as (r & g'' & Hrs & _ & Hc).
    rewrite (done_not_due g' q' (list_elem_of_lookup_2 _ _ _ Hq') Hd') in Hc.
    exists (set_pp_manager g'' (set_pp_manager g' p)). split; [|apply Hc].
    unfold maybe_resample_power_smc, on_manager. rewrite (bind_eq (zoom _ _ _) _ _ r (set_pp_manager g'' (set_pp_manager g' p))); [done|].
    unfold zoom. cbn [pp_manager set_pp_manager]. by rewrite Hrs.
Qed.
End stop.

(** ** A resampling only one side does *)

Section demo.
Let env : HashEnv := injective_env.
Existing Instance env.
#[local] Existing Instance demo_arith.

(** Particle 0 is a token ahead. *)
Definition ahead_sched : Scheduler :=
  (sched_step (λ X, elements X) demo_seeded demo_entropy [demo_out 0 7 (-1) false] (demo_sched (Some 5))).2.
Definition ahead_parent : PowerSMCParentRequest :=
  (process_power_smc_outputs [demo_eout 0 7 (-1) false] (demo_parent (Some 5))).2.

Lemma ahead_together :
  together (λ X, elements X) demo_seeded demo_entropy "req" 5 PowerSMCGroup.demo_config ahead_sched ahead_parent.
Proof.
  apply (to_step _ _ _ _ _ _ (demo_sched (Some 5)) (demo_parent (Some 5)) [demo_out 0 7 (-1) false] [demo_eout 0 7 (-1) false]
    ahead_parent demo_together).
  - apply Forall2_cons; split; [by apply demo_going_on; vm_compute|done].
  - assert ((process_power_smc_outputs [demo_eout 0 7 (-1) false] (demo_parent (Some 5))).1 = Ok tt) as <-
      by (vm_compute; reflexivity).
    apply surjective_pairing.
Qed.

(** In one step particle 0 stops and particle 1 gets its first token. *)
Definition stop_sched : Scheduler :=
  (sched_step (λ X, elements X) demo_seeded demo_entropy [demo_out 0 8 (-1) true; demo_out 1 9 (-3) false] ahead_sched).2.
Definition stop_parent : PowerSMCParentRequest :=
  (process_power_smc_outputs [demo_eout 0 8 (-1) true; demo_eout 1 9 (-3) false] ahead_parent).2.

(** The scheduler replaces particle 1's token 9 by its sibling's 7 and goes on
    from there; the front end, which returns the tokens, keeps the 9. *)
Lemma stopped_output_unseen_witness :
  (observe_step_output demo_seeded demo_entropy [] (demo_out 0 8 (-1) true) ahead_sched = (Ok [], ahead_sched)) ∧
  (∃ r, requests stop_sched !! demo_child_id 1 = Some r ∧ output_token_ids (sr_req r) = [7]) ∧
  token_ids <$> particles (pp_manager stop_parent) = [[7; 8]; [9]].
Proof.
  destruct (stopped_output_unseen (λ X, elements X) demo_seeded demo_entropy "req" 5 PowerSMCGroup.demo_config
    ahead_sched ahead_parent [] (demo_out 0 8 (-1) true) 0 8 (f64_of_Z (-1), f64_of_Z (-2)) "stop" None ahead_together)
    as (Hunseen & _); [by vm_compute|done|done|].
  split; [exact Hunseen|]. split; [|vm_compute; reflexivity].
  assert (output_token_ids <$> (sr_req <$> requests stop_sched !! demo_child_id 1) = Some [7]) as Ht
    by (vm_compute; reflexivity).
  destruct (requests stop_sched !! demo_child_id 1) as [r|]; [|done]. exists r. split; [done|]. by injection Ht.
Defined.

(** *** A step's outputs in two chunks

    [AsyncLLM] gives a step's outputs to [process_outputs] in chunks, and every
    chunk that completes a block has the group checked.  Particle 0 is ahead;
    when the output of particle 1 comes in the first chunk and that of particle 0
    in the second, the front end resamples between them and then appends the 8
    to the resampled particle, while the scheduler observes both before it
    resamples. *)
Definition in_chunks (chunks : list (list EngineOutput)) : PowerSMCParentRequest :=
  foldl (λ p outs, (process_power_smc_outputs outs p).2) ahead_parent chunks.

Lemma chunks_diverge :
  token_ids <$> particles (pp_manager (in_chunks [[demo_eout 1 9 (-3) false; demo_eout 0 8 (-1) false]])) = [[7]; [7]] ∧
  token_ids <$> particles (pp_manager (in_chunks [[demo_eout 1 9 (-3) false]; [demo_eout 0 8 (-1) false]])) = [[7; 8]; [7]] ∧
  ((λ g, token_ids <$> particles g) <$> power_smc_group_managers
     (sched_step (λ X, elements X) demo_seeded demo_entropy [demo_out 1 9 (-3) false; demo_out 0 8 (-1) false] ahead_sched).2
       !! "req"%string) = Some [[7]; [7]].
Proof. split_and!; vm_compute; reflexivity. Qed.
End demo.

(** ** Without a seed *)

Section unseeded.
Context {A : Arith} `{HashEnv}.
Context (seeded : Z → Rng) (entropy : nat → Rng).

(** For a request without a seed the scheduler creates its group with a
    generator drawn from the system, whatever generator the front end drew for
    its own: the two groups start with equal particles but resample with
    unrelated draws. *)
Theorem unseeded_groups_part s r pid i c :
  power_smc_config r = Some c → power_smc_child_info r = Some (MkChild pid i) → i < particles_n c →
  sr_seed r = None → power_smc_group_managers s !! pid = None →
  is_Some (match PowerSMCGroupManager_init c (entropy 0%nat) with Ok g => Some g | Err _ => None end) →
  ∃ s' g, get_power_smc_group_manager seeded entropy r s = (Ok (Some (pid, i)), s') ∧
    power_smc_group_managers s' !! pid = Some g ∧ rng g = entropy (entropy_used s) ∧
    ∀ r', ∃ p, PowerSMCParentRequest_init pid None c r' = Ok p ∧ particles (pp_manager p) = particles g ∧
      rng (pp_manager p) = r'.
Proof.
  intros Hcfg Hinfo Hi Hseed Hg Hv.
  destruct (PowerSMCGroupManager_init c (entropy 0%nat)) as [g0|] eqn:Hg0; [clear Hv|by destruct Hv].
  apply group_init_inv in Hg0 as (_ & Hinit & _). unfold get_power_smc_group_manager. rewrite Hcfg, Hinfo, (proj2 (Z.leb_gt _ _)) by lia.
  rewrite (bind_eq (gets _) _ _ _ _ eq_refl), Hg, Hseed. cbn [fmap option_fmap option_map new_rng].
  eexists _, _. split.
  { unfold new_rng, bind, gets, modify, ret, of_res, or_raise. cbn. rewrite Hinit. cbn. rewrite lookup_insert_eq. reflexivity. }
  cbn. split; [by rewrite lookup_insert_eq|]. split; [done|]. intros r'.
  unfold PowerSMCParentRequest_init. rewrite Hinit. by eexists.
Qed.
End unseeded.

Section demo_unseeded.
Let env : HashEnv := injective_env.
Existing Instance env.
#[local] Existing Instance demo_arith.

(** The scheduler draws 0.1, the front end 0.9: one keeps two copies of
    particle 0, the other one copy of each. *)
Definition unseeded_outs : list StepOutput := [demo_out 0 7 (-1) false; demo_out 1 9 (-3) false].
Definition unseeded_eouts : list EngineOutput := [demo_eout 0 7 (-1) false; demo_eout 1 9 (-3) false].
Definition unseeded_parent : PowerSMCParentRequest :=
  (process_power_smc_outputs unseeded_eouts (start_children 2 (parent_with None (MkRng (λ _, tenths 9) 0))).2).2.

Lemma unseeded_groups_part_witness :
  (∃ s' g, get_power_smc_group_manager demo_seeded demo_entropy (demo_child None 0) (demo_sched None) =
     (Ok (Some ("req"%string, 0)), s') ∧ power_smc_group_managers s' !! "req"%string = Some g ∧ rng g = demo_entropy 0) ∧
  ((λ g, token_ids <$> particles g) <$>
     power_smc_group_managers (sched_step (λ X, elements X) demo_seeded demo_entropy unseeded_outs (demo_sched None)).2
       !! "req"%string) = Some [[7]; [7]] ∧
  token_ids <$> particles (pp_manager unseeded_parent) = [[7]; [9]].
Proof.
  destruct (unseeded_groups_part demo_seeded demo_entropy (demo_sched None) (demo_child None 0) "req" 0 PowerSMCGroup.demo_config
    eq_refl eq_refl eq_refl eq_refl eq_refl ltac:(by eexists)) as (s' & g & Hrun & Hg & Hr & _).
  split; [by exists s', g|]. split; vm_compute; reflexivity.
Defined.
End demo_unseeded.
