(* ===== verification/Heapq.v ===== *)
(** * Python's heapq

    The binary heap of the standard library that the priority queue of
    waiting requests is kept in, over an order given as a comparison function,
    and its correctness.  The items are of any type. *)

From stdpp Require Import list sorting.
From S2P Require Import Prelude.
Open Scope nat_scope.

Definition parent (i : nat) : nat := (i - 1) / 2.

Section heapq.
(** [x < y] on the items *)
Context {E : Type} (lt : E → E → bool).

(** ** Operations

    [None] is IndexError; the loops' fuel is proved to be enough. *)

Fixpoint siftdown_loop (fuel : nat) (h : list E) (startpos pos : nat) (newitem : E) : option (list E) :=
  match fuel with
  | O => None
  | S fuel =>
      if startpos <? pos then
        p ← h !! parent pos;
        if lt newitem p then siftdown_loop fuel (<[pos := p]> h) startpos (parent pos) newitem
        else Some (<[pos := newitem]> h)
      else Some (<[pos := newitem]> h)
  end.
Definition siftdown (h : list E) (startpos pos : nat) : option (list E) :=
  newitem ← h !! pos;
  siftdown_loop (S pos) h startpos pos newitem.

(** The smaller child of [pos], the left one [c] if they are equal. *)
Definition smaller_child (h : list E) (childpos : nat) (c : E) : option (nat * E) :=
  if childpos + 1 <? length h then
    r ← h !! (childpos + 1);
    Some (if negb (lt c r) then (childpos + 1, r) else (childpos, c))
  else Some (childpos, c).
Fixpoint siftup_loop (fuel : nat) (h : list E) (pos : nat) : option (list E * nat) :=
  match fuel with
  | O => None
  | S fuel =>
      let childpos := 2 * pos + 1 in
      if childpos <? length h then
        c ← h !! childpos;
        '(p, x) ← smaller_child h childpos c;
        siftup_loop fuel (<[pos := x]> h) p
      else Some (h, pos)
  end.
Definition siftup (h : list E) (pos : nat) : option (list E) :=
  newitem ← h !! pos;
  '(h, p) ← siftup_loop (S (length h)) h pos;
  siftdown (<[p := newitem]> h) pos p.

Definition heappush (h : list E) (item : E) : option (list E) :=
  siftdown (h ++ [item]) 0 (length h).
Definition heappop (h : list E) : option (E * list E) :=
  lastelt ← last h;
  match removelast h with
  | [] => Some (lastelt, [])
  | returnitem :: rest =>
      h' ← siftup (<[0 := lastelt]> (returnitem :: rest)) 0;
      Some (returnitem, h')
  end.
Definition heapify (h : list E) : option (list E) :=
  foldl (λ acc i, h ← acc; siftup h i) (Some h) (rev (seq 0 (length h / 2))).

(** ** Correctness *)

Definition le (a b : E) : Prop := lt b a = false.
Context `{!PreOrder le, !Total le}.

(** Every item from [s] on is at most its children. *)
Definition heap_from (s : nat) (h : list E) : Prop :=
  ∀ i x y, 0 < i → s ≤ parent i → h !! parent i = Some x → h !! i = Some y → le x y.

Inductive below (s : nat) : nat → Prop :=
| below_refl : below s s
| below_child i : 0 < i → below s (parent i) → below s i.

Lemma parent_lt i : 0 < i → parent i < i.
Proof. unfold parent. intros. apply Nat.Div0.div_lt_upper_bound; lia. Qed.
Lemma parent_of_left i : parent (2 * i + 1) = i.
Proof. unfold parent. replace (2 * i + 1 - 1) with (i * 2) by lia. by apply Nat.div_mul. Qed.
Lemma parent_of_right i : parent (2 * i + 2) = i.
Proof. unfold parent. replace (2 * i + 2 - 1) with (1 + i * 2) by lia. rewrite Nat.div_add by lia. done. Qed.
Lemma children i p : 0 < i → parent i = p → i = 2 * p + 1 ∨ i = 2 * p + 2.
Proof.
  unfold parent. intros Hi Hp. pose proof (Nat.div_mod_eq (i - 1) 2) as Hd.
  pose proof (Nat.mod_upper_bound (i - 1) 2 ltac:(lia)). rewrite Hp in Hd. lia.
Qed.
Lemma below_le s i : below s i → s ≤ i.
Proof. induction 1 as [|i Hi _ IH]; [done|]. pose proof (parent_lt i Hi). lia. Qed.
Lemma below_parent s i : below s i → s < i → below s (parent i).
Proof. intros [|j Hj Hb] Hlt; [lia|done]. Qed.

(** Moving an item along a list. *)
Lemma insert_twice (h : list E) i j x y :
  i ≠ j → i < length h → h !! j = Some y → <[j := x]> (<[i := y]> h) ≡ₚ <[i := x]> h.
Proof.
  intros Hij Hi Hj.
  assert (∀ (l : list E) k a, k < length l → <[k := a]> l ≡ₚ a :: delete k l) as Hins.
  { intros l k a Hk. rewrite insert_take_drop, delete_take_drop by done. by rewrite Permutation_middle. }
  set (l := <[i := y]> h).
  assert (l !! j = Some y) as Hlj by (unfold l; by rewrite list_lookup_insert_ne).
  assert (j < length l) as Hjl by (by eapply lookup_lt_Some).
  rewrite (Hins l j x Hjl), (Hins h i x Hi). apply Permutation_cons; [done|].
  apply (Permutation_cons_inv (a := y)). rewrite <-(delete_Permutation l j y Hlj). unfold l. by apply Hins.
Qed.

(** *** Towards the root *)

Definition rising (s : nat) (h : list E) (pos : nat) (x : E) : Prop :=
  pos < length h ∧ below s pos ∧
  (∀ i a b, 0 < i → s ≤ parent i → i ≠ pos →
     <[pos := x]> h !! parent i = Some a → <[pos := x]> h !! i = Some b → le a b) ∧
  (∀ i a b, 0 < i → parent i = pos → s < pos → h !! parent pos = Some a → h !! i = Some b → le a b).

Lemma rising_done s h pos x :
  rising s h pos x → (s < pos → ∀ a, h !! parent pos = Some a → le a x) → heap_from s (<[pos := x]> h).
Proof.
  intros (Hpos & Hb & He & _) Hx i a b Hi Hs Ha Hib. destruct (decide (i = pos)) as [->|Hne]; [|by eapply He].
  pose proof (parent_lt pos Hi). rewrite list_lookup_insert_ne in Ha by lia. rewrite list_lookup_insert_eq in Hib by done.
  injection Hib as <-. apply Hx; [lia|done].
Qed.

Lemma rising_step s h pos x p :
  rising s h pos x → s < pos → h !! parent pos = Some p → le x p →
  rising s (<[pos := p]> h) (parent pos) x.
Proof.
  intros (Hpos & Hb & He & Hg) Hs Hp Hx. pose proof (parent_lt pos ltac:(lia)) as Hlt.
  assert (∀ j, j ≠ pos → j ≠ parent pos → <[parent pos := x]> (<[pos := p]> h) !! j = <[pos := x]> h !! j) as Hsame.
  { intros j Hj1 Hj2. rewrite !list_lookup_insert_ne by done. done. }
  split_and!; [rewrite length_insert; lia|by apply below_parent| |].
  - intros i a b Hi Hsi Hne. destruct (decide (i = pos)) as [->|Hip].
    { rewrite list_lookup_insert_eq by (rewrite length_insert; lia).
      rewrite list_lookup_insert_ne, list_lookup_insert_eq by (done || lia). by intros [= <-] [= <-]. }
    rewrite (Hsame i) by done. destruct (decide (parent i = parent pos)) as [Hsib|Hnp].
    { rewrite Hsib, list_lookup_insert_eq by (rewrite length_insert; lia). intros [= <-] Hib.
      transitivity p; [done|]. apply (He i p b Hi Hsi Hip); [|done].
      rewrite Hsib, list_lookup_insert_ne by lia. done. }
    destruct (decide (parent i = pos)) as [Hc|Hnc].
    { rewrite Hc, list_lookup_insert_ne, list_lookup_insert_eq by (done || lia). intros [= <-] Hib.
      rewrite list_lookup_insert_ne in Hib by done. by apply (Hg i p b). }
    rewrite Hsame by done. intros Ha Hib. by apply (He i a b).
  - intros i a b Hi Hip Hs' Ha. pose proof (parent_lt (parent pos) ltac:(lia)) as Hlt2.
    rewrite list_lookup_insert_ne in Ha by lia.
    assert (le a p) as Hap.
    { assert (below s (parent pos)) as Hbp by (by apply below_parent).
      pose proof (below_le _ _ (below_parent _ _ Hbp Hs')).
      apply (He (parent pos) a p); [lia|done|lia|by rewrite list_lookup_insert_ne by lia|by rewrite list_lookup_insert_ne by lia]. }
    destruct (decide (i = pos)) as [->|Hne].
    { rewrite list_lookup_insert_eq by done. by intros [= <-]. }
    rewrite list_lookup_insert_ne by done. intros Hib. transitivity p; [done|].
    pose proof (below_le _ _ (below_parent _ _ Hb Hs)).
    apply (He i p b); [done|by rewrite Hip|done|by rewrite Hip, list_lookup_insert_ne by lia|by rewrite list_lookup_insert_ne].
Qed.

Lemma siftdown_loop_ok fuel s h pos x :
  pos < fuel → rising s h pos x →
  ∃ h', siftdown_loop fuel h s pos x = Some h' ∧ heap_from s h' ∧ h' ≡ₚ <[pos := x]> h.
Proof.
  revert h pos. induction fuel as [|fuel IH]; intros h pos Hf Hr; [lia|]. cbn [siftdown_loop].
  destruct (Nat.ltb_spec s pos) as [Hs|Hs].
  2: { eexists. split; [done|]. split; [|done]. apply rising_done; [done|lia]. }
  pose proof (parent_lt pos ltac:(lia)) as Hlt. pose proof Hr as (Hpos & _).
  destruct (lookup_lt_is_Some_2 h (parent pos) ltac:(lia)) as [p Hp]. rewrite Hp. cbn [mbind option_bind].
  destruct (lt x p) eqn:Hxp.
  - assert (le x p) as Hle. { destruct (total le x p) as [?|Hpx]; [done|]. unfold le in Hpx. congruence. }
    destruct (IH (<[pos := p]> h) (parent pos) ltac:(lia) (rising_step _ _ _ _ _ Hr Hs Hp Hle)) as (h' & Hrun & Hh & Hperm).
    exists h'. split_and!; [done..|]. rewrite Hperm. apply insert_twice; [lia|done|done].
  - eexists. split; [done|]. split; [|done]. apply rising_done; [done|]. intros _ a Ha. rewrite Hp in Ha.
    by injection Ha as <-.
Qed.

Lemma siftdown_ok s h pos :
  pos < length h → below s pos →
  (∀ i a b, 0 < i → s ≤ parent i → i ≠ pos → h !! parent i = Some a → h !! i = Some b → le a b) →
  (∀ i a b, 0 < i → parent i = pos → s < pos → h !! parent pos = Some a → h !! i = Some b → le a b) →
  ∃ h', siftdown h s pos = Some h' ∧ heap_from s h' ∧ h' ≡ₚ h.
Proof.
  intros Hpos Hb He Hg. destruct (lookup_lt_is_Some_2 h pos Hpos) as [x Hx]. unfold siftdown. rewrite Hx. cbn [mbind option_bind].
  destruct (siftdown_loop_ok (S pos) s h pos x ltac:(lia)) as (h' & Hrun & Hh & Hp).
  { split_and!; [done|done| |done]. by rewrite list_insert_id. }
  exists h'. split_and!; [done..|]. by rewrite Hp, list_insert_id.
Qed.

(** *** Towards the leaves *)

(** The hole at [pos] holds a copy of the item above it; the items below it
    are in order. *)
Definition sinking (s : nat) (h : list E) (pos : nat) : Prop :=
  pos < length h ∧ below s pos ∧
  ∀ i a b, 0 < i → s ≤ parent i → parent i ≠ s ∨ pos ≠ s → h !! parent i = Some a → h !! i = Some b → le a b.

Lemma smaller_child_ok h pos c :
  h !! (2 * pos + 1) = Some c →
  ∃ p x, smaller_child h (2 * pos + 1) c = Some (p, x) ∧ h !! p = Some x ∧ 0 < p ∧ parent p = pos ∧
    ∀ i b, 0 < i → parent i = pos → h !! i = Some b → le x b.
Proof.
  intros Hc. unfold smaller_child. replace (2 * pos + 1 + 1) with (2 * pos + 2) by lia.
  destruct (Nat.ltb_spec (2 * pos + 2) (length h)) as [Hlt|Hge].
  - destruct (lookup_lt_is_Some_2 h _ Hlt) as [r Hr]. rewrite Hr. cbn [mbind option_bind].
    assert (∀ x, le x c → le x r → ∀ i b, 0 < i → parent i = pos → h !! i = Some b → le x b) as Hboth.
    { intros x Hxc Hxr i b Hi Hp Hib. destruct (children i pos Hi Hp) as [->| ->]; congruence. }
    destruct (lt c r) eqn:Hcr; cbn [negb]; eexists _, _; (split; [done|]).
    + split_and!; [done|lia|apply parent_of_left|]. apply Hboth; [done|].
      destruct (total le c r) as [?|Hrc]; [done|]. unfold le in Hrc. congruence.
    + split_and!; [done|lia|apply parent_of_right|]. by apply Hboth.
  - eexists _, _. split; [done|]. split_and!; [done|lia|apply parent_of_left|].
    intros i b Hi Hp Hib. apply lookup_lt_Some in Hib as Hl. destruct (children i pos Hi Hp) as [->| ->]; [|lia].
    rewrite Hc in Hib. by injection Hib as <-.
Qed.

Lemma sinking_step s h pos p x :
  sinking s h pos → h !! p = Some x → 0 < p → parent p = pos →
  (∀ i b, 0 < i → parent i = pos → h !! i = Some b → le x b) →
  sinking s (<[pos := x]> h) p.
Proof.
  intros (Hpos & Hb & He) Hp Hp0 Hpp Hmin. pose proof (parent_lt p Hp0) as Hlt. pose proof (below_le _ _ Hb) as Hs.
  split_and!; [rewrite length_insert; by eapply lookup_lt_Some|apply below_child; [done|by rewrite Hpp]|].
  intros i a b Hi Hsi _. pose proof (parent_lt i Hi) as Hlti. destruct (decide (parent i = pos)) as [Hc|Hc].
  - rewrite Hc, list_lookup_insert_eq by done. intros [= <-]. rewrite list_lookup_insert_ne by lia. by apply Hmin.
  - rewrite list_lookup_insert_ne by done. intros Ha. destruct (decide (i = pos)) as [->|Hne].
    + rewrite list_lookup_insert_eq by done. intros [= <-]. pose proof Hpos as Hpos'.
      destruct (lookup_lt_is_Some_2 h pos Hpos') as [y Hy].
      assert (pos ≠ s) as Hps by lia. transitivity y; [apply (He pos a y); try done; by right|].
      apply (He p y x); [done|lia|by right|by rewrite Hpp|done].
    + rewrite list_lookup_insert_ne by done. intros Hib. apply (He i a b); try done.
      destruct (decide (pos = s)); [left|right]; congruence.
Qed.

Lemma siftup_loop_ok fuel s h pos :
  length h - pos < fuel → sinking s h pos →
  ∃ h' p, siftup_loop fuel h pos = Some (h', p) ∧ sinking s h' p ∧ length h' ≤ 2 * p + 1 ∧
    ∀ x, <[p := x]> h' ≡ₚ <[pos := x]> h.
Proof.
  revert h pos. induction fuel as [|fuel IH]; intros h pos Hf Hs; [lia|]. cbn [siftup_loop]. pose proof Hs as (Hpos & _).
  destruct (Nat.ltb_spec (2 * pos + 1) (length h)) as [Hlt|Hge].
  - destruct (lookup_lt_is_Some_2 h _ Hlt) as [c Hc]. rewrite Hc. cbn [mbind option_bind].
    destruct (smaller_child_ok h pos c Hc) as (p & x & -> & Hp & Hp0 & Hpp & Hmin). cbn [mbind option_bind].
    pose proof (parent_lt p Hp0) as Hltp. pose proof (lookup_lt_Some _ _ _ Hp) as Hpl.
    destruct (IH (<[pos := x]> h) p) as (h' & q & Hrun & Hs' & Hleaf & Hperm).
    { rewrite length_insert. lia. }
    { by eapply sinking_step. }
    exists h', q. split_and!; [done..|]. intros y. rewrite Hperm. apply insert_twice; [lia|done|done].
  - exists h, pos. split; [done|]. by split.
Qed.

Lemma siftup_ok h pos :
  pos < length h → heap_from (S pos) h →
  ∃ h', siftup h pos = Some h' ∧ heap_from pos h' ∧ h' ≡ₚ h.
Proof.
  intros Hpos Hh. destruct (lookup_lt_is_Some_2 h pos Hpos) as [x Hx]. unfold siftup. rewrite Hx. cbn [mbind option_bind].
  destruct (siftup_loop_ok (S (length h)) pos h pos) as (h' & p & -> & (Hp & Hb & He) & Hleaf & Hperm); [lia| |].
  { split_and!; [done|apply below_refl|]. intros i a b Hi Hs [Hne|Hne]; [|done]. apply Hh; [done|lia]. }
  cbn [mbind option_bind].
  assert (∀ i b, 0 < i → parent i = p → <[p := x]> h' !! i = Some b → False) as Hno.
  { intros i b Hi Hip Hib. apply lookup_lt_Some in Hib. rewrite length_insert in Hib.
    destruct (children i p Hi Hip); lia. }
  destruct (siftdown_ok pos (<[p := x]> h') p) as (h2 & Hrun & Hh2 & Hp2).
  - by rewrite length_insert.
  - done.
  - intros i a b Hi Hs Hne Ha Hib. destruct (decide (parent i = p)) as [Hc|Hc]; [by destruct (Hno i b Hi Hc Hib)|].
    rewrite list_lookup_insert_ne in Ha, Hib by done. apply (He i a b); try done.
    destruct (decide (p = pos)); [left|right]; congruence.
  - intros i a b Hi Hip _ _ Hib. by destruct (Hno i b Hi Hip Hib).
  - exists h2. split_and!; [done..|]. rewrite Hp2, Hperm. by rewrite list_insert_id.
Qed.

(** *** The heap operations *)

Definition heap (h : list E) : Prop := heap_from 0 h.

Lemma below_0 i : below 0 i.
Proof.
  induction (lt_wf i) as [i _ IH]. destruct (decide (i = 0)) as [->|Hi]; [apply below_refl|].
  apply below_child; [lia|]. apply IH. apply parent_lt. lia.
Qed.

Lemma heap_head h x y : heap h → h !! 0 = Some x → y ∈ h → le x y.
Proof.
  intros Hh Hx Hy. apply list_elem_of_lookup in Hy as [i Hi]. revert y Hi.
  induction (lt_wf i) as [i _ IH]; intros y Hi. destruct (decide (i = 0)) as [->|Hne]; [rewrite Hx in Hi; by injection Hi as <-|].
  pose proof (parent_lt i ltac:(lia)) as Hlt. pose proof (lookup_lt_Some _ _ _ Hi).
  destruct (lookup_lt_is_Some_2 h (parent i) ltac:(lia)) as [p Hp].
  transitivity p; [by apply (IH (parent i))|]. apply (Hh i p y); [lia|lia|done|done].
Qed.

Lemma heappush_ok h x : heap h → ∃ h', heappush h x = Some h' ∧ heap h' ∧ h' ≡ₚ x :: h.
Proof.
  intros Hh. unfold heappush. destruct (siftdown_ok 0 (h ++ [x]) (length h)) as (h' & Hrun & Hh' & Hp).
  - rewrite length_app. cbn. lia.
  - apply below_0.
  - intros i a b Hi _ Hne Ha Hib. pose proof (parent_lt i Hi) as Hlt.
    assert (i < length h) as Hl. { apply lookup_lt_Some in Hib. rewrite length_app in Hib. cbn in Hib. lia. }
    rewrite lookup_app_l in Ha, Hib by lia. by apply (Hh i a b); [|lia|..].
  - intros i a b Hi Hip _ _ Hib. apply lookup_lt_Some in Hib. rewrite length_app in Hib. cbn in Hib.
    pose proof (parent_lt i Hi). lia.
  - exists h'. split_and!; [done..|]. rewrite Hp. by rewrite Permutation_app_comm.
Qed.

Lemma heappop_ok x h : heap (x :: h) → ∃ h', heappop (x :: h) = Some (x, h') ∧ heap h' ∧ h' ≡ₚ h.
Proof.
  intros Hh. unfold heappop. destruct (exists_last (l := x :: h)) as (l & e & Hl); [done|].
  rewrite Hl, last_snoc, removelast_last. cbn [mbind option_bind]. destruct l as [|y l].
  { injection Hl as -> ->. exists []. split_and!; [done| |done]. by intros i a b _ _ Ha. }
  injection Hl as <- ->.
  destruct (siftup_ok (<[0 := e]> (x :: l)) 0) as (h' & -> & Hh' & Hp).
  - cbn. lia.
  - intros i a b Hi Hs Ha Hib. cbn in Ha, Hib.
    assert (∀ j v, 0 < j → (e :: l) !! j = Some v → (x :: l ++ [e]) !! j = Some v) as Hsame.
    { intros [|j] v Hj Hv; [lia|]. cbn in *. by apply lookup_app_l_Some. }
    apply (Hh i a b); [done|lia|by apply Hsame; [lia|]|by apply Hsame; [lia|]].
  - exists h'. split_and!; [done..|]. cbn in Hp. by rewrite Hp, Permutation_app_comm.
Qed.

Lemma heappop_empty : heappop [] = None.
Proof. done. Qed.

Lemma heapify_ok h : ∃ h', heapify h = Some h' ∧ heap h' ∧ h' ≡ₚ h.
Proof.
  unfold heapify.
  assert (∀ n g, n ≤ length g / 2 → heap_from n g → g ≡ₚ h →
    ∃ h', foldl (λ acc i, h ← acc; siftup h i) (Some g) (rev (seq 0 n)) = Some h' ∧ heap h' ∧ h' ≡ₚ h) as Hfold.
  { induction n as [|n IH]; intros g Hn Hg Hp; [by exists g|].
    rewrite seq_S, rev_app_distr. cbn [rev app foldl mbind option_bind plus].
    assert (n < length g) as Hl.
    { assert (length g / 2 ≤ length g); [|lia]. apply Nat.Div0.div_le_upper_bound. lia. }
    destruct (siftup_ok g n Hl Hg) as (g' & -> & Hg' & Hp'). apply IH; [|done|by rewrite Hp'].
    rewrite (Permutation_length Hp'). lia. }
  apply Hfold; [done| |done]. intros i a b Hi Hs Ha Hib. apply lookup_lt_Some in Hib as Hl.
  unfold parent in Hs. exfalso. pose proof (Nat.div_mod_eq (length h) 2). pose proof (Nat.div_mod_eq (i - 1) 2).
  pose proof (Nat.mod_upper_bound (length h) 2 ltac:(lia)). pose proof (Nat.mod_upper_bound (i - 1) 2 ltac:(lia)). lia.
Qed.
End heapq.
