(* ===== verification/RequestQueue.v ===== *)
(** * Queues of waiting requests

    src/vllm/vllm/v1/core/sched/request_queue.py: the first-come-first-served and
    the priority queue behind one interface, [Request.__lt__], and the
    scheduler's choice between its two queues.  A queue holds request objects
    of some type [E]; [deref] gives their attributes, [addr] their [id()]. *)

From stdpp Require Import list sorting gmap.
From S2P Require Import Prelude Request Heapq.
Open Scope Z_scope.

(** ** The order of requests *)

Section order.
Context {E : Type} (addr : E → Z) `{!Inj (=) (=) addr} (deref : E → Request).

(** [Request.__lt__] *)
Definition Request_lt (a b : E) : bool :=
  let self := deref a in
  let other := deref b in
  if negb (priority self =? priority other) then priority self <? priority other
  else if negb (arrival_time self =? arrival_time other) then arrival_time self <? arrival_time other
  else if negb (String.eqb (request_id self) (request_id other)) then String.ltb (request_id self) (request_id other)
  else addr a <? addr b.
Definition Request_le : E → E → Prop := le Request_lt.

Lemma string_ltb_leb s1 s2 : String.ltb s1 s2 = negb (String.leb s2 s1).
Proof. unfold String.ltb, String.leb. rewrite (String.compare_antisym s1 s2). by destruct (String.compare s2 s1). Qed.

(** The order the class documents: by priority, then arrival, then id. *)
Lemma Request_le_spec a b :
  Request_le a b ↔
  priority (deref a) < priority (deref b) ∨ priority (deref a) = priority (deref b) ∧
  (arrival_time (deref a) < arrival_time (deref b) ∨ arrival_time (deref a) = arrival_time (deref b) ∧
   (request_id (deref a) ≠ request_id (deref b) ∧ String.le (request_id (deref a)) (request_id (deref b)) ∨
    request_id (deref a) = request_id (deref b) ∧ addr a ≤ addr b)).
Proof.
  unfold Request_le, le, Request_lt.
  destruct (Z.eqb_spec (priority (deref b)) (priority (deref a))) as [Hp|Hp]; cbn [negb].
  2: { rewrite Z.ltb_ge. split; [left; lia|lia]. }
  destruct (Z.eqb_spec (arrival_time (deref b)) (arrival_time (deref a))) as [Ht|Ht]; cbn [negb].
  2: { rewrite Z.ltb_ge. split; [right; split; [done|left; lia]|lia]. }
  destruct (String.eqb_spec (request_id (deref b)) (request_id (deref a))) as [Hi|Hi]; cbn [negb].
  { rewrite Z.ltb_ge, Hi. split; [intros; right; split; [done|right]; split; [done|by right]|].
    intros [?|[_ [?|[_ [[? _]|[_ ?]]]]]]; done || lia. }
  rewrite string_ltb_leb. unfold String.le. rewrite negb_false_iff, Is_true_true.
  split; [intros; right; split; [done|right]; split; [done|left]; by split|].
  intros [?|[_ [?|[_ [[_ ?]|[? _]]]]]]; congruence || lia.
Qed.

#[export] Instance Request_le_preorder : PreOrder Request_le.
Proof.
  split.
  - intros a. apply Request_le_spec. right. split; [done|right]. split; [done|right]. by split.
  - intros a b c. rewrite !Request_le_spec.
    intros [Hp|(Hp & [Ht|(Ht & [(Hn & Hl)|(He & Hi)])])] [Hp'|(Hp' & [Ht'|(Ht' & [(Hn' & Hl')|(He' & Hi')])])];
      try (left; lia); right; (split; [lia|]); try (left; lia); right; (split; [lia|]).
    + left. split; [|by transitivity (request_id (deref b))]. intros Heq. rewrite Heq in *. by apply Hn, (anti_symm String.le).
    + left. by rewrite <-He'.
    + left. by rewrite He.
    + right. split; [congruence|lia].
Qed.
#[export] Instance Request_le_total : Total Request_le.
Proof.
  intros a b. rewrite !Request_le_spec.
  destruct (Z.lt_trichotomy (priority (deref a)) (priority (deref b))) as [?|[Hp|?]]; [by left; left| |by right; left].
  rewrite Hp.
  destruct (Z.lt_trichotomy (arrival_time (deref a)) (arrival_time (deref b))) as [?|[Ht|?]];
    [left; right; auto| |right; right; auto].
  rewrite Ht.
  destruct (decide (request_id (deref a) = request_id (deref b))) as [->|Hn].
  - destruct (Z.le_ge_cases (addr a) (addr b)); [left|right]; auto 10.
  - destruct (total String.le (request_id (deref a)) (request_id (deref b))); [left|right]; auto 10.
Qed.
#[export] Instance Request_le_antisymm : AntiSymm (=) Request_le.
Proof.
  intros a b. rewrite !Request_le_spec.
  intros [Hp|(Hp & [Ht|(Ht & [(Hn & Hl)|(He & Hi)])])] [Hp'|(Hp' & [Ht'|(Ht' & [(Hn' & Hl')|(He' & Hi')])])];
    try lia; try congruence; [|by apply (inj addr); lia]. by destruct Hn; apply (anti_symm String.le).
Qed.
End order.

(** ** The interface *)

Inductive SchedulingPolicy : Type := FCFS | PRIORITY.

Class RequestQueue (E : Type) `{Countable E} (Q : Type) : Type := {
  empty_queue : Q;
  add_request : E → M Q unit;
  pop_request : M Q E;
  peek_request : M Q E;
  prepend_request : E → M Q unit;
  prepend_requests : list E → M Q unit (** the items the other queue iterates over *);
  remove_request : E → M Q unit;
  remove_requests : gset E → M Q unit;
  queue_bool : Q → bool;
  queue_len : Q → Z;
  queue_iter : Q → res (list E)
}.

(** [list.remove] and [deque.remove] *)
Fixpoint list_remove {E} `{EqDecision E} (x : E) (l : list E) : option (list E) :=
  match l with
  | [] => None
  | y :: l' => if decide (y = x) then Some l' else cons y <$> list_remove x l'
  end.

(** *** [FCFSRequestQueue], a deque *)

Definition set_list {S A} (o : option A) (e : exn) (f : A → S) : M S unit :=
  let* a := or_raise e o in modify (λ _, f a).

Definition FCFSRequestQueue (E : Type) : Type := list E.
#[export] Instance fcfs_queue {E} `{Countable E} : RequestQueue E (FCFSRequestQueue E) := {
  empty_queue := [];
  add_request x := modify (λ q, q ++ [x]);
  pop_request := λ q, match q with [] => (Err IndexError, q) | x :: q' => (Ok x, q') end;
  peek_request := let* q := gets (λ q, q) in or_raise IndexError (head q);
  prepend_request x := modify (cons x);
  prepend_requests l := modify (λ q, rev l ++ q);
  remove_request x := let* q := gets (λ q, q) in set_list (list_remove x q) ValueError (λ q, q);
  remove_requests X := modify (filter (λ x, x ∉ X));
  queue_bool q := 0 <? len q;
  queue_len q := len q;
  queue_iter q := Ok q
}.

(** *** [PriorityRequestQueue] *)

Section priority.
Record PriorityRequestQueue (E : Type) : Type := MkPriorityQueue { _heap : list E }.
#[global] Arguments MkPriorityQueue {E} _heap.
#[global] Arguments _heap {E} _.
Context {E : Type} `{Countable E} (addr : E → Z) (deref : E → Request).
Abbreviation lt := (Request_lt addr deref).

(** [while heap_copy: yield heapq.heappop(heap_copy)] *)
Fixpoint heap_iter (fuel : nat) (heap_copy : list E) : res (list E) :=
  match heap_copy, fuel with
  | [], _ => Ok []
  | _, O => Err OutOfFuel
  | _, S fuel =>
      match heappop lt heap_copy with
      | None => Err IndexError
      | Some (x, h) => rbind (heap_iter fuel h) (λ l, Ok (x :: l))
      end
  end.

Definition priority_add (x : E) : M (PriorityRequestQueue E) unit :=
  let* h := gets _heap in
  set_list (heappush lt h x) IndexError MkPriorityQueue.

#[export] Instance priority_queue : RequestQueue E (PriorityRequestQueue E) := {
  empty_queue := MkPriorityQueue [];
  add_request := priority_add;
  pop_request :=
    let* h := gets _heap in
    match h with
    | [] => raise IndexError
    | _ =>
        let* xh := or_raise IndexError (heappop lt h) in
        modify (λ _, MkPriorityQueue xh.2) ;;;
        ret xh.1
    end;
  peek_request :=
    let* h := gets _heap in
    match h with [] => raise IndexError | x :: _ => ret x end;
  prepend_request := priority_add;
  prepend_requests l := for_each l priority_add;
  remove_request x :=
    let* h := gets _heap in
    set_list (list_remove x h) ValueError MkPriorityQueue ;;;
    let* h := gets _heap in
    set_list (heapify lt h) IndexError MkPriorityQueue;
  remove_requests X :=
    modify (λ q, MkPriorityQueue (filter (λ x, x ∉ X) (_heap q))) ;;;
    let* h := gets _heap in
    set_list (heapify lt h) IndexError MkPriorityQueue;
  queue_bool q := bool_decide (_heap q ≠ []);
  queue_len q := len (_heap q);
  queue_iter q := heap_iter (length (_heap q)) (_heap q)
}.
End priority.

(** *** What every queue promises

    A queue stands for the list it iterates over; a policy says where that list
    takes a new and a returned request. *)

Class QueueSpec (E Q : Type) `{RequestQueue E Q} : Type := {
  good : Q → Prop;
  content : Q → list E;
  place : E → list E → list E;
  replace_front : E → list E → list E;
  empty_spec : good empty_queue ∧ content empty_queue = [];
  add_spec x q : good q → ok (add_request x) q (λ _ q', good q' ∧ content q' = place x (content q));
  prepend_spec x q : good q → ok (prepend_request x) q (λ _ q', good q' ∧ content q' = replace_front x (content q));
  prepend_all_spec l q : good q →
    ok (prepend_requests l) q (λ _ q', good q' ∧ content q' = foldl (flip replace_front) (content q) l);
  pop_spec q : good q →
    match content q with
    | [] => pop_request q = (Err IndexError, q)
    | x :: l => ok pop_request q (λ r q', r = x ∧ good q' ∧ content q' = l)
    end;
  peek_spec q : good q →
    peek_request q = (match content q with [] => Err IndexError | x :: _ => Ok x end, q);
  remove_spec x q : good q →
    match list_remove x (content q) with
    | None => remove_request x q = (Err ValueError, q)
    | Some l => ok (remove_request x) q (λ _ q', good q' ∧ content q' = l)
    end;
  remove_all_spec X q : good q →
    ok (remove_requests X) q (λ _ q', good q' ∧ content q' = filter (λ x, x ∉ X) (content q));
  bool_spec q : good q → queue_bool q = bool_decide (content q ≠ []);
  len_spec q : good q → queue_len q = len (content q);
  iter_spec q : good q → queue_iter q = Ok (content q);
  (** a request taken from the front goes back there *)
  front_back q x l : good q → content q = x :: l → replace_front x l = x :: l;
  place_perm x l : place x l ≡ₚ x :: l;
  replace_front_perm x l : replace_front x l ≡ₚ x :: l
}.

#[export] Instance fcfs_spec {E} `{Countable E} : QueueSpec E (FCFSRequestQueue E).
Proof.
  refine {| good := λ _, True; content := λ q, q; place := λ x l, l ++ [x]; replace_front := cons |}; try done.
  - intros l q _. cbn. split; [done|]. revert q. induction l as [|x l IH]; intros q; [done|]. cbn.
    rewrite <-app_assoc. apply IH.
  - intros [|x q] _; done.
  - intros [|x q] _; done.
  - intros x q _. cbn. destruct (list_remove x q) as [l|] eqn:Hl; [|done]. apply ok_bind, ok_gets.
    by rewrite Hl.
  - intros q _. cbn. unfold len. by destruct q.
  - intros x l. cbn. by rewrite Permutation_app_comm.
Defined.

(** ** The priority queue keeps the sorted order of its requests *)

Section priority_spec.
Context {E : Type} `{Countable E} (addr : E → Z) `{!Inj (=) (=) addr} (deref : E → Request).
Abbreviation rle := (Request_le addr deref).
Implicit Types (x y : E) (l h : list E).

Fixpoint insert_sorted (x : E) (l : list E) : list E :=
  match l with
  | [] => [x]
  | y :: l' => if Request_lt addr deref y x then y :: insert_sorted x l' else x :: l
  end.
Definition sort (l : list E) : list E := foldr insert_sorted [] l.
#[local] Arguments sort : simpl never.

Lemma insert_sorted_perm x l : insert_sorted x l ≡ₚ x :: l.
Proof.
  induction l as [|y l IH]; [done|]. cbn. destruct (Request_lt addr deref y x); [|done]. rewrite IH. constructor.
Qed.
Lemma sort_perm l : sort l ≡ₚ l.
Proof. induction l as [|x l IH]; [done|]. unfold sort. cbn [foldr]. fold (sort l). rewrite insert_sorted_perm. by f_equiv. Qed.

Lemma insert_sorted_sorted x l : StronglySorted rle l → StronglySorted rle (insert_sorted x l).
Proof.
  induction 1 as [|y l Hl IH Hy]; cbn; [by repeat constructor|].
  destruct (Request_lt addr deref y x) eqn:Hyx.
  - constructor; [done|]. rewrite insert_sorted_perm. constructor; [|done].
    destruct (total rle y x) as [?|Hle]; [done|]. unfold Request_le, le in Hle. congruence.
  - constructor; [by constructor|]. constructor; [done|]. eapply Forall_impl; [exact Hy|]. intros z Hz.
    transitivity y; [done|exact Hz].
Qed.
Lemma sort_sorted l : StronglySorted rle (sort l).
Proof. induction l; [constructor|by apply insert_sorted_sorted]. Qed.
Lemma sort_unique l1 l2 : StronglySorted rle l1 → l1 ≡ₚ l2 → l1 = sort l2.
Proof.
  intros Hs Hp. apply (StronglySorted_unique rle); [done|apply sort_sorted|]. by rewrite Hp, sort_perm.
Qed.
#[export] Instance sort_proper : Proper ((≡ₚ) ==> eq) sort.
Proof. intros l1 l2 Hp. apply sort_unique; [apply sort_sorted|]. by rewrite sort_perm. Qed.

Lemma list_remove_perm x l : match list_remove x l with Some l' => l ≡ₚ x :: l' | None => x ∉ l end.
Proof.
  induction l as [|y l IH]; [apply not_elem_of_nil|]. cbn. destruct (decide (y = x)) as [->|Hne]; [done|].
  destruct (list_remove x l) as [l'|]; cbn; [rewrite IH; constructor|]. rewrite not_elem_of_cons. by split.
Qed.
Lemma list_remove_sorted x l : StronglySorted rle l →
  match list_remove x l with Some l' => StronglySorted rle l' | None => True end.
Proof.
  induction 1 as [|y l Hl IH Hy]; [done|]. cbn. destruct (decide (y = x)); [done|].
  pose proof (list_remove_perm x l) as Hp. destruct (list_remove x l) as [l'|]; cbn; [|done].
  constructor; [done|]. rewrite Hp in Hy. by apply Forall_cons in Hy as [_ ?].
Qed.
(** Removing from the heap and from the sorted list agree. *)
Lemma list_remove_sort x l : list_remove x (sort l) = sort <$> list_remove x l.
Proof.
  pose proof (list_remove_perm x l) as Hp. pose proof (list_remove_perm x (sort l)) as Hp'.
  pose proof (list_remove_sorted x _ (sort_sorted l)) as Hs.
  destruct (list_remove x l) as [l1|], (list_remove x (sort l)) as [l2|]; cbn; try done.
  - f_equal. apply sort_unique; [done|]. apply (Permutation_cons_inv (a := x)). by rewrite <-Hp, <-Hp', sort_perm.
  - exfalso. rewrite sort_perm in Hp'. rewrite Hp in Hp'. apply Hp'. left.
  - exfalso. rewrite sort_perm in Hp'. rewrite Hp' in Hp. apply Hp. left.
Qed.

Lemma sort_filter (P : E → Prop) `{∀ x, Decision (P x)} l : sort (filter P l) = filter P (sort l).
Proof.
  symmetry. apply sort_unique; [|by rewrite sort_perm].
  pose proof (sort_sorted l) as Hs. induction Hs as [|y l' Hl IH Hy]; [constructor|].
  rewrite filter_cons. destruct (decide (P y)); [|done]. constructor; [done|].
  apply Forall_forall. intros z [_ Hz]%list_elem_of_filter. by eapply Forall_forall in Hy.
Qed.

(** A non-empty heap's root is the head of its sorted contents. *)
Lemma sort_head x l l' : sort (x :: l) = l' → (∀ y, y ∈ l → rle x y) → l' = x :: sort l.
Proof.
  intros <- Hx. symmetry. apply sort_unique; [|by rewrite sort_perm]. constructor; [apply sort_sorted|].
  rewrite sort_perm. apply Forall_forall. intros y. apply Hx.
Qed.

Lemma sort_root x h : heap (Request_lt addr deref) (x :: h) → sort (x :: h) = x :: sort h.
Proof.
  intros Hh. apply sort_head; [done|]. intros y Hy. by apply (heap_head (Request_lt addr deref) (x :: h) x y Hh eq_refl); right.
Qed.

Lemma heap_iter_ok fuel h : (length h ≤ fuel)%nat → heap (Request_lt addr deref) h → heap_iter addr deref fuel h = Ok (sort h).
Proof.
  revert h. induction fuel as [|fuel IH]; intros [|x h] Hf Hh; cbn [length] in Hf; try done; [lia|].
  cbn [heap_iter]. destruct (heappop_ok _ x h Hh) as (h' & -> & Hh' & Hp).
  rewrite (IH h'); [|rewrite (Permutation_length Hp); lia|done]. cbn [rbind]. by rewrite (sort_root x h Hh), Hp.
Qed.

Lemma priority_add_ok x q : heap (Request_lt addr deref) (_heap q) →
  ok (priority_add addr deref x) q (λ _ q', heap (Request_lt addr deref) (_heap q') ∧ sort (_heap q') = insert_sorted x (sort (_heap q))).
Proof.
  intros Hh. unfold priority_add, set_list. apply ok_bind, ok_gets.
  destruct (heappush_ok _ (_heap q) x Hh) as (h' & -> & Hh' & Hp). cbn. split; [done|]. by rewrite Hp.
Qed.

Lemma heapify_spec h q : ok (set_list (heapify (Request_lt addr deref) h) IndexError MkPriorityQueue) q (λ _ q',
  heap (Request_lt addr deref) (_heap q') ∧ sort (_heap q') = sort h).
Proof. destruct (heapify_ok (Request_lt addr deref) h) as (h' & -> & Hh' & Hp). cbn. split; [done|]. by rewrite Hp. Qed.

#[export] Instance priority_spec : QueueSpec (H0 := priority_queue addr deref) E (PriorityRequestQueue E).
Proof.
  refine (Build_QueueSpec _ _ _ _ (priority_queue addr deref) (λ q, heap (Request_lt addr deref) (_heap q)) (λ q, sort (_heap q))
    insert_sorted insert_sorted _ _ _ _ _ _ _ _ _ _ _ _ insert_sorted_perm insert_sorted_perm).
  - split; [|done]. by intros i a b _ _ Ha.
  - apply priority_add_ok.
  - apply priority_add_ok.
  - intros l q Hh. cbn.
    apply (ok_for_each _ (λ l' q', heap (Request_lt addr deref) (_heap q') ∧
      foldl (flip insert_sorted) (sort (_heap q')) l' = foldl (flip insert_sorted) (sort (_heap q)) l)); [done| |].
    + intros x l' q' [Hh' Hf]. eapply ok_mono; [by apply priority_add_ok|]. intros _ q'' [Hh'' Hs]. split; [done|].
      by rewrite Hs.
    + intros q' [Hh' Hf]. by split.
  - intros [[|x h]] Hh; [done|]. cbn [_heap] in *. rewrite sort_root by done.
    cbn. destruct (heappop_ok _ x h Hh) as (h' & Hpop & Hh' & Hp).
    apply ok_bind, ok_gets. cbn. rewrite Hpop. cbn. split_and!; [done|done|by rewrite Hp].
  - intros [[|x h]] Hh; [done|]. cbn [_heap] in *. by rewrite sort_root.
  - intros x [h] Hh. cbn. rewrite list_remove_sort. destruct (list_remove x h) as [l|] eqn:Hl; cbn.
    + apply ok_bind, ok_gets, ok_bind. cbn [_heap]. rewrite Hl. cbn. apply heapify_spec.
    + done.
  - intros X [h] Hh. cbn. apply ok_bind, ok_modify, ok_bind, ok_gets. cbn.
    eapply ok_mono; [apply heapify_spec|]. intros _ q' [Hh' ->]. split; [done|]. by rewrite sort_filter.
  - intros [h] Hh. cbn. apply bool_decide_ext. destruct h as [|x h]; [done|].
    split; [|done]. intros _ Hs. pose proof (sort_perm (x :: h)) as Hp. rewrite Hs in Hp.
    by apply Permutation_nil_cons in Hp.
  - intros [h] Hh. cbn. unfold len. by rewrite sort_perm.
  - intros [h] Hh. by apply heap_iter_ok.
  - intros [h] x l Hh Hs. cbn [_heap] in Hs.
    pose proof (sort_sorted h) as Hst. rewrite Hs in Hst. apply StronglySorted_inv in Hst as [Hst _].
    transitivity (sort (x :: l)).
    { change (insert_sorted x l = insert_sorted x (sort l)). f_equal. by apply sort_unique. }
    rewrite <-Hs. symmetry. apply sort_unique; [apply sort_sorted|done].
Defined.
End priority_spec.

(** ** The scheduler's two queues

    scheduler.py keeps new and preempted requests in [waiting] and those it had
    to pass over in [skipped_waiting]. *)

Section scheduling.
Context {E : Type} `{Countable E} (addr : E → Z) (deref : E → Request) {Q : Type} `{!RequestQueue E Q}.
Context (policy : SchedulingPolicy).

(** The queues, and the one [schedule] collects the requests of this pass in
    that it skips. *)
Record WaitingQueues : Type := MkWaiting { waiting : Q; skipped_waiting : Q; step_skipped_waiting : Q }.
Definition on_waiting {B} (m : M Q B) : M WaitingQueues B :=
  zoom waiting (λ q s, MkWaiting q (skipped_waiting s) (step_skipped_waiting s)) m.
Definition on_skipped {B} (m : M Q B) : M WaitingQueues B :=
  zoom skipped_waiting (λ q s, MkWaiting (waiting s) q (step_skipped_waiting s)) m.
Definition on_step_skipped {B} (m : M Q B) : M WaitingQueues B :=
  zoom step_skipped_waiting (λ q s, MkWaiting (waiting s) (skipped_waiting s) q) m.
Inductive which_queue : Type := Waiting | Skipped.
Definition on_queue {B} (w : which_queue) (m : M Q B) : M WaitingQueues B :=
  match w with Waiting => on_waiting m | Skipped => on_skipped m end.

Definition is_blocked_waiting_status (s : RequestStatus) : bool :=
  bool_decide (s ∈ [WAITING_FOR_STRUCTURED_OUTPUT_GRAMMAR; WAITING_FOR_REMOTE_KVS; WAITING_FOR_STREAMING_REQ]).

(** [st] is the request's status. *)
Definition enqueue_waiting_request (request : E) (st : RequestStatus) : M WaitingQueues unit :=
  if is_blocked_waiting_status st then on_skipped (add_request request)
  else on_waiting (add_request request).

Definition select_waiting_queue_for_scheduling : M WaitingQueues (option which_queue) :=
  let* s := gets (λ s, s) in
  match policy with
  | FCFS => ret (if queue_bool (skipped_waiting s) then Some Skipped
                 else if queue_bool (waiting s) then Some Waiting else None)
  | PRIORITY =>
      if queue_bool (waiting s) && queue_bool (skipped_waiting s) then
        let* waiting_req := on_waiting peek_request in
        let* skipped_req := on_skipped peek_request in
        ret (Some (if Request_lt addr deref waiting_req skipped_req then Waiting else Skipped))
      else ret (if queue_bool (waiting s) then Some Waiting
                else if queue_bool (skipped_waiting s) then Some Skipped else None)
  end.

(** One turn of [schedule]'s loop over the waiting requests: the next one is
    scheduled, or popped and set aside. *)
Definition visit (scheduled : bool) : M WaitingQueues (list E) :=
  let* q := select_waiting_queue_for_scheduling in
  let* q := or_raise AssertionError q in
  let* request := on_queue q peek_request in
  let* _ := on_queue q pop_request in
  if scheduled then ret [request]
  else on_step_skipped (prepend_request request) ;;; ret [].

(** The loop for the decisions [ds], and what follows it. *)
Definition scheduling_pass (ds : list bool) : M WaitingQueues (list E) :=
  modify (λ s, MkWaiting (waiting s) (skipped_waiting s) empty_queue) ;;;
  let* rs := fold_each (λ acc d, let* r := visit d in ret (acc ++ r)) ds [] in
  let* step_skipped := gets step_skipped_waiting in
  (if queue_bool step_skipped then
     let* requests := of_res (queue_iter step_skipped) in
     on_skipped (prepend_requests requests)
   else ret tt) ;;;
  ret rs.
End scheduling.
Arguments WaitingQueues Q : clear implicits.
