(* ===== verification/QueueProps.v ===== *)
(** * What the queues of waiting requests do

    Any use of either queue gives what a plain list would; a scheduling pass
    visits the requests in order and puts those it skips back in their
    places. *)

From stdpp Require Import list sorting gmap.
From S2P Require Import Prelude Request Heapq RequestQueue.
Open Scope Z_scope.

Section queues.
Context {E : Type} `{Countable E}.

(** ** Sequences of operations *)

Inductive queue_op : Type :=
| QAdd (x : E)
| QPop
| QPeek
| QPrepend (x : E)
| QPrependAll (l : list E)
| QRemove (x : E)
| QRemoveAll (X : gset E)
| QLen
| QBool
| QIter.

Inductive queue_ret : Type := RNone | RItem (x : E) | RLen (n : Z) | RBool (b : bool) | RList (l : list E).

Definition returning {S A} (f : A → queue_ret) (m : M S A) : M S queue_ret := let* a := m in ret (f a).

Definition run_queue_op {Q} `{!RequestQueue E Q} (o : queue_op) : M Q queue_ret :=
  match o with
  | QAdd x => returning (λ _, RNone) (add_request x)
  | QPop => returning RItem pop_request
  | QPeek => returning RItem peek_request
  | QPrepend x => returning (λ _, RNone) (prepend_request x)
  | QPrependAll l => returning (λ _, RNone) (prepend_requests l)
  | QRemove x => returning (λ _, RNone) (remove_request x)
  | QRemoveAll X => returning (λ _, RNone) (remove_requests X)
  | QLen => gets (λ q, RLen (queue_len q))
  | QBool => gets (λ q, RBool (queue_bool q))
  | QIter => let* q := gets (λ q, q) in returning RList (of_res (queue_iter q))
  end.

(** The same on a list, given where new and returned requests go. *)
Definition run_list_op (place front : E → list E → list E) (o : queue_op) (l : list E) : res queue_ret * list E :=
  match o with
  | QAdd x => (Ok RNone, place x l)
  | QPop => match l with [] => (Err IndexError, l) | x :: l' => (Ok (RItem x), l') end
  | QPeek => match l with [] => (Err IndexError, l) | x :: _ => (Ok (RItem x), l) end
  | QPrepend x => (Ok RNone, front x l)
  | QPrependAll xs => (Ok RNone, foldl (flip front) l xs)
  | QRemove x => match list_remove x l with Some l' => (Ok RNone, l') | None => (Err ValueError, l) end
  | QRemoveAll X => (Ok RNone, filter (λ x, x ∉ X) l)
  | QLen => (Ok (RLen (len l)), l)
  | QBool => (Ok (RBool (bool_decide (l ≠ []))), l)
  | QIter => (Ok (RList l), l)
  end.

(** The results of a sequence of calls, each made whether or not the one
    before it raised. *)
Fixpoint results {S} (run : queue_op → M S queue_ret) (ops : list queue_op) (s : S) : list (res queue_ret) :=
  match ops with
  | [] => []
  | o :: ops' => let '(r, s') := run o s in r :: results run ops' s'
  end.

Section refine.
Context {Q : Type} `{!RequestQueue E Q, !QueueSpec E Q}.

Lemma ok_returning {A} f (m : M Q A) q q' (r : A → Prop) (l : list E) :
  ok m q (λ a s', r a ∧ good s' ∧ content s' = l) → (∀ a, r a → f a = q') →
  ∃ s', returning f m q = (Ok q', s') ∧ good s' ∧ content s' = l.
Proof.
  intros (a & s' & Hm & Hr & Hg & Hc)%ok_inv Hf. exists s'. split; [|done]. unfold returning.
  rewrite (bind_eq _ _ _ _ _ Hm). unfold ret. by rewrite (Hf a Hr).
Qed.

Lemma run_refines o q : good q →
  ∃ q', run_queue_op o q = ((run_list_op place replace_front o (content q)).1, q') ∧ good q' ∧
    content q' = (run_list_op place replace_front o (content q)).2.
Proof.
  intros Hg. destruct o as [x| | |x|xs|x|X| | |]; cbn [run_queue_op run_list_op fst snd].
  - eapply (ok_returning _ _ _ _ (λ _, True)); [|done].
    eapply ok_mono; [by apply add_spec|]. intros [] s' ?. by split.
  - pose proof (pop_spec q Hg) as Hp. destruct (content q) as [|x l] eqn:Hc; cbn [fst snd].
    + exists q. unfold returning, bind. by rewrite Hp.
    + eapply (ok_returning _ _ _ _ (λ a, a = x)); [done|]. by intros a ->.
  - pose proof (peek_spec q Hg) as Hp. destruct (content q) as [|x l] eqn:Hc; cbn [fst snd];
      exists q; unfold returning, bind; by rewrite Hp.
  - eapply (ok_returning _ _ _ _ (λ _, True)); [|done].
    eapply ok_mono; [by apply prepend_spec|]. intros [] s' ?. by split.
  - eapply (ok_returning _ _ _ _ (λ _, True)); [|done].
    eapply ok_mono; [by apply prepend_all_spec|]. intros [] s' ?. by split.
  - pose proof (remove_spec x q Hg) as Hp. destruct (list_remove x (content q)) as [l|]; cbn [fst snd].
    + eapply (ok_returning _ _ _ _ (λ _, True)); [|done].
      eapply ok_mono; [exact Hp|]. intros [] s' ?. by split.
    + exists q. unfold returning, bind. by rewrite Hp.
  - eapply (ok_returning _ _ _ _ (λ _, True)); [|done].
    eapply ok_mono; [by apply remove_all_spec|]. intros [] s' ?. by split.
  - exists q. unfold gets. by rewrite len_spec.
  - exists q. unfold gets. by rewrite bool_spec.
  - exists q. rewrite (bind_eq (gets _) _ _ _ _ eq_refl), iter_spec by done. done.
Qed.

Lemma results_refine ops q : good q →
  results run_queue_op ops q = results (run_list_op place replace_front) ops (content q).
Proof.
  revert q. induction ops as [|o ops IH]; intros q Hg; [done|]. cbn [results].
  destruct (run_refines o q Hg) as (q' & -> & Hg' & Hc).
  destruct (run_list_op place replace_front o (content q)) as [r l]. cbn in *. by rewrite (IH q' Hg'), Hc.
Qed.
End refine.

(** C36: whatever is done with a queue, each call returns or raises what it
    would on a plain list: for first come first served one with new requests at the
    end and returned ones at the front, for priorities one kept sorted by
    [Request.__lt__]. *)
Theorem queues_refine_lists (addr : E → Z) `{!Inj (=) (=) addr} deref ops :
  results (run_queue_op (Q := FCFSRequestQueue E)) ops empty_queue =
    results (run_list_op (λ x l, l ++ [x]) cons) ops [] ∧
  results (run_queue_op (RequestQueue0 := priority_queue addr deref)) ops (empty_queue (RequestQueue := priority_queue addr deref)) =
    results (run_list_op (insert_sorted addr deref) (insert_sorted addr deref)) ops [].
Proof.
  split.
  - exact (results_refine ops empty_queue I).
  - pose proof (empty_spec (QueueSpec := priority_spec addr deref)) as [Hg Hc].
    rewrite <-Hc. exact (results_refine ops _ Hg).
Qed.

(** ** A scheduling pass *)

(** What a pass with decisions [ds] takes from a list, and what it leaves. *)
Fixpoint chosen (ds : list bool) (l : list E) : list E :=
  match ds, l with
  | d :: ds', x :: l' => if d then x :: chosen ds' l' else chosen ds' l'
  | _, _ => []
  end.
Fixpoint left_over (ds : list bool) (l : list E) : list E :=
  match ds, l with
  | d :: ds', x :: l' => if d then left_over ds' l' else x :: left_over ds' l'
  | _, _ => l
  end.

Lemma left_over_sub ds l x : x ∈ left_over ds l → x ∈ l.
Proof.
  revert l. induction ds as [|d ds IH]; intros [|y l]; try done. cbn. destruct d.
  - intros Hx. right. by apply IH.
  - intros [->|Hx]%elem_of_cons; [left|right]. by apply IH.
Qed.
Lemma left_over_sorted R ds l : StronglySorted R l → StronglySorted R (left_over ds l).
Proof.
  intros Hs. revert ds. induction Hs as [|y l Hl IH Hy]; intros [|[] ds]; try (by constructor); [apply IH|].
  cbn. constructor; [apply IH|]. apply Forall_forall. intros x Hx%left_over_sub. by eapply Forall_forall in Hy.
Qed.

(** The requests set aside, oldest first, and the rest. *)
Fixpoint set_aside (ds : list bool) (l : list E) : list E :=
  match ds, l with
  | d :: ds', x :: l' => if d then set_aside ds' l' else x :: set_aside ds' l'
  | _, _ => []
  end.
Lemma left_over_split ds l : left_over ds l = set_aside ds l ++ drop (length ds) l.
Proof.
  revert l. induction ds as [|d ds IH]; intros [|x l]; try done. cbn. rewrite IH. by destruct d.
Qed.

Section pass.
Context (addr : E → Z) (deref : E → Request) {Q : Type} `{!RequestQueue E Q, !QueueSpec E Q} (policy : SchedulingPolicy).

Definition queues_good (s : WaitingQueues Q) : Prop :=
  good (waiting s) ∧ good (skipped_waiting s) ∧ good (step_skipped_waiting s).
(** The order in which the two queues are visited. *)
Context (merged : list E → list E → list E).
Definition order (s : WaitingQueues Q) : list E := merged (content (skipped_waiting s)) (content (waiting s)).
(** The next one is at the head of the chosen queue. *)
Definition picks : Prop := ∀ s x l, queues_good s → order s = x :: l →
  ∃ w, select_waiting_queue_for_scheduling addr deref policy s = (Ok (Some w), s) ∧
    ∃ l', content (match w with Waiting => waiting s | Skipped => skipped_waiting s end) = x :: l' ∧
      l = match w with
          | Waiting => merged (content (skipped_waiting s)) l'
          | Skipped => merged l' (content (waiting s))
          end.
Context (Hpicks : picks).

Lemma pop_ok q x l : good q → content q = x :: l → ∃ q', pop_request q = (Ok x, q') ∧ good q' ∧ content q' = l.
Proof.
  intros Hg Hc. pose proof (pop_spec q Hg) as Hp. rewrite Hc in Hp.
  destruct (ok_inv _ _ _ Hp) as (r & q' & Hrun & -> & Hq). by exists q'.
Qed.

Lemma visit_ok d s x l : queues_good s → order s = x :: l →
  ok (visit addr deref policy d) s (λ r s', r = (if d then [x] else []) ∧ queues_good s' ∧ order s' = l ∧
    content (step_skipped_waiting s') =
      if d then content (step_skipped_waiting s) else replace_front x (content (step_skipped_waiting s))).
Proof.
  intros Hg Ho. destruct (Hpicks s x l Hg Ho) as (w & Hsel & l' & Hc & Hl). destruct Hg as (Hgw & Hgs & Hgp).
  unfold visit. apply ok_bind. eapply ok_eq; [exact Hsel|]. cbn [or_raise]. apply ok_bind, ok_ret, ok_bind.
  assert (∃ s1, on_queue w peek_request s = (Ok x, s) ∧ on_queue w pop_request s = (Ok x, s1) ∧ queues_good s1 ∧
    order s1 = l ∧ step_skipped_waiting s1 = step_skipped_waiting s) as (s1 & Hpeek & Hpop & (Hg1 & Hg2 & Hg3) & Ho1 & Hst).
  { destruct w.
    - destruct (pop_ok _ x l' Hgw Hc) as (q' & Hrun & Hgq & Hcq).
      exists (MkWaiting q' (skipped_waiting s) (step_skipped_waiting s)).
      unfold on_queue, on_waiting, zoom. rewrite (peek_spec _ Hgw), Hrun, Hc. unfold queues_good, order. cbn. rewrite Hcq.
      destruct s as [a b c]. cbn in *. split; [done|]. split; [done|]. split; [done|]. by rewrite Hl.
    - destruct (pop_ok _ x l' Hgs Hc) as (q' & Hrun & Hgq & Hcq).
      exists (MkWaiting (waiting s) q' (step_skipped_waiting s)).
      unfold on_queue, on_skipped, zoom. rewrite (peek_spec _ Hgs), Hrun, Hc. unfold queues_good, order. cbn. rewrite Hcq.
      destruct s as [a b c]. cbn in *. split; [done|]. split; [done|]. split; [done|]. by rewrite Hl. }
  eapply ok_eq; [exact Hpeek|]. apply ok_bind. eapply ok_eq; [exact Hpop|]. destruct d.
  - apply ok_ret. by rewrite Hst.
  - apply ok_bind, ok_zoom. eapply ok_mono; [by apply prepend_spec|]. intros _ q' [Hgq Hcq]. apply ok_ret.
    split; [done|]. split; [done|]. split; [done|]. cbn. by rewrite Hcq, Hst.
Qed.

Lemma visits_ok ds s acc : (length ds ≤ length (order s))%nat → queues_good s →
  ok (fold_each (λ acc d, let* r := visit addr deref policy d in ret (acc ++ r)) ds acc) s (λ rs s',
    rs = acc ++ chosen ds (order s) ∧ queues_good s' ∧ order s' = drop (length ds) (order s) ∧
    content (step_skipped_waiting s') =
      foldl (flip replace_front) (content (step_skipped_waiting s)) (set_aside ds (order s))).
Proof.
  revert s acc. induction ds as [|d ds IH]; intros s acc Hlen Hg.
  { apply ok_ret. cbn. by rewrite app_nil_r. }
  cbn [fold_each]. destruct (order s) as [|x l] eqn:Ho; [cbn in Hlen; lia|].
  apply ok_bind, ok_bind. eapply ok_mono; [by apply visit_ok|]. intros r s1 (-> & Hg1 & Ho1 & Hs1). apply ok_ret.
  eapply ok_mono; [apply IH; [rewrite Ho1; cbn in Hlen; lia|done]|]. rewrite Ho1.
  intros rs s2 (-> & Hg2 & Ho2 & Hs2). split_and!; try done; [by destruct d; rewrite <-?app_assoc|].
  rewrite Hs2, Hs1. by destruct d.
Qed.

Lemma pass_ok ds s : (length ds ≤ length (order s))%nat → good (waiting s) → good (skipped_waiting s) →
  ok (scheduling_pass addr deref policy ds) s (λ rs s', rs = chosen ds (order s) ∧ good (waiting s') ∧ good (skipped_waiting s') ∧
    ∃ s1, order s1 = drop (length ds) (order s) ∧ content (waiting s') = content (waiting s1) ∧
      content (skipped_waiting s') =
        foldl (flip replace_front) (content (skipped_waiting s1)) (foldl (flip replace_front) [] (set_aside ds (order s)))).
Proof.
  intros Hlen Hgw Hgs. pose proof empty_spec as [Hge Hce]. unfold scheduling_pass. apply ok_bind, ok_modify.
  set (s0 := MkWaiting _ _ _). assert (queues_good s0) as Hg0 by (by split_and!).
  apply ok_bind. eapply ok_mono; [by apply (visits_ok ds s0 [])|]. intros rs s1 (-> & (Hg1 & Hg2 & Hg3) & Ho1 & Hs1).
  change (order s0) with (order s) in *. cbn [step_skipped_waiting s0] in Hs1. rewrite Hce in Hs1.
  apply ok_bind, ok_gets, ok_bind. rewrite bool_spec by done.
  destruct (bool_decide (content (step_skipped_waiting s1) ≠ [])) eqn:Hb.
  - apply ok_bind. eapply ok_eq; [unfold of_res; by rewrite iter_spec|]. apply ok_zoom.
    eapply ok_mono; [by apply prepend_all_spec|]. intros _ q' [Hgq Hcq]. apply ok_ret.
    split_and!; try done. exists s1. split_and!; try done. cbn. by rewrite Hcq, Hs1.
  - apply bool_decide_eq_false, dec_stable in Hb. apply ok_ret, ok_ret. split_and!; try done.
    exists s1. split_and!; try done. rewrite <-Hs1. by rewrite Hb.
Qed.
End pass.

(** *** The two policies *)

Section policies.
Context (addr : E → Z) `{!Inj (=) (=) addr} (deref : E → Request).

Lemma fcfs_picks : picks addr deref (Q := FCFSRequestQueue E) FCFS app.
Proof.
  intros [w k t] x l Hg Ho. unfold order in Ho. cbn in Ho. destruct k as [|y k].
  - cbn in Ho. subst w. exists Waiting. split; [done|]. by exists l.
  - injection Ho as -> <-. exists Skipped. split; [|by exists k].
    unfold select_waiting_queue_for_scheduling. rewrite (bind_eq (gets _) _ _ _ _ eq_refl). cbn.
    by rewrite (proj2 (Z.ltb_lt _ _)) by (rewrite len_cons; pose proof (len_nonneg k); lia).
Qed.

#[local] Instance pq : RequestQueue E (PriorityRequestQueue E) := priority_queue addr deref.
#[local] Instance pq_spec : QueueSpec E (PriorityRequestQueue E) := priority_spec addr deref.
Abbreviation rle := (Request_le addr deref).
Abbreviation PQ := (PriorityRequestQueue E).

Lemma prefer_head x y a b : StronglySorted rle (x :: a) → StronglySorted rle (y :: b) → rle x y →
  sort addr deref ((x :: a) ++ y :: b) = x :: sort addr deref (a ++ y :: b).
Proof.
  intros [Ha Hxa]%StronglySorted_inv [Hb Hyb]%StronglySorted_inv Hxy. apply (sort_head addr deref); [done|].
  intros z [Hz|[->|Hz]%elem_of_cons]%elem_of_app; [by eapply Forall_forall in Hxa|done|].
  transitivity y; [done|]. by eapply Forall_forall in Hyb.
Qed.

Lemma priority_picks : picks addr deref (Q := PQ) PRIORITY (λ a b, sort addr deref (a ++ b)).
Proof.
  intros [w k t] x l (Hw & Hk & _) Ho. unfold order in Ho. cbn [waiting skipped_waiting] in *.
  assert (∀ q : PQ, StronglySorted rle (content q)) as Hsorted by (intros q; apply sort_sorted).
  pose proof (Hsorted w) as Hsw. pose proof (Hsorted k) as Hsk.
  unfold select_waiting_queue_for_scheduling. rewrite (bind_eq (gets _) _ _ _ _ eq_refl).
  cbn [waiting skipped_waiting]. rewrite (bool_spec w Hw), (bool_spec k Hk).
  pose proof (peek_spec w Hw) as Hpw. pose proof (peek_spec k Hk) as Hpk.
  destruct (content w) as [|a cw] eqn:Hcw, (content k) as [|b ck] eqn:Hck; cbn [app] in Ho.
  - done.
  - rewrite app_nil_r in Ho. exists Skipped. split; [done|]. exists ck.
    rewrite <-(sort_unique addr deref (b :: ck) (b :: ck)) in Ho by done. injection Ho as <- <-. split; [done|].
    rewrite app_nil_r. apply (sort_unique addr deref); [by apply StronglySorted_inv in Hsk as [? _]|done].
  - exists Waiting. split; [done|]. exists cw.
    rewrite <-(sort_unique addr deref (a :: cw) (a :: cw)) in Ho by done. injection Ho as <- <-. split; [done|].
    apply (sort_unique addr deref); [by apply StronglySorted_inv in Hsw as [? _]|done].
  - rewrite !bool_decide_eq_true_2 by done. cbn [andb].
    unfold on_waiting, on_skipped, zoom, bind. cbn [waiting skipped_waiting step_skipped_waiting]. rewrite Hpw.
    cbn [skipped_waiting waiting step_skipped_waiting]. rewrite Hpk.
    destruct (Request_lt addr deref a b) eqn:Hab.
    + exists Waiting. split; [done|]. exists cw.
      assert (rle a b) as Hle by (destruct (total rle a b) as [?|Hba]; [done|unfold Request_le, le in Hba; congruence]).
      assert (sort addr deref (b :: ck ++ a :: cw) = sort addr deref ((a :: cw) ++ b :: ck)) as Hswap
        by (apply (sort_proper addr deref); by rewrite (Permutation_app_comm (a :: cw))).
      rewrite Hswap, prefer_head in Ho by done. injection Ho as <- <-. split; [done|].
      apply (sort_proper addr deref). by rewrite Permutation_app_comm.
    + exists Skipped. split; [done|]. exists ck.
      pose proof (prefer_head b a ck cw Hsk Hsw Hab) as Hp. cbn [app] in Hp. rewrite Hp in Ho. by injection Ho as <- <-.
Qed.

(** C37: a pass over the waiting requests visits them in the policy's order,
    whichever queue holds them, and schedules those it decides to; the others,
    those it skipped included, are left in that order. First come first served
    keeps the queues' order, skipped requests first; priorities merge the two
    queues by [Request.__lt__]. *)
Theorem scheduling_pass_order ds :
  (∀ s : WaitingQueues (FCFSRequestQueue E),
     let all := skipped_waiting s ++ waiting s in
     (length ds ≤ length all)%nat →
     ok (scheduling_pass addr deref FCFS ds) s (λ rs s',
       rs = chosen ds all ∧ skipped_waiting s' ++ waiting s' = left_over ds all)) ∧
  (∀ s : WaitingQueues PQ,
     let all := sort addr deref (_heap (skipped_waiting s) ++ _heap (waiting s)) in
     heap (Request_lt addr deref) (_heap (waiting s)) → heap (Request_lt addr deref) (_heap (skipped_waiting s)) →
     (length ds ≤ length all)%nat →
     ok (scheduling_pass addr deref PRIORITY ds) s (λ rs s',
       rs = chosen ds all ∧ sort addr deref (_heap (skipped_waiting s') ++ _heap (waiting s')) = left_over ds all ∧
       heap (Request_lt addr deref) (_heap (waiting s')) ∧ heap (Request_lt addr deref) (_heap (skipped_waiting s')))).
Proof.
  split.
  - intros s all Hlen. eapply ok_mono; [by apply (pass_ok addr deref FCFS app fcfs_picks ds s)|].
    intros rs s' (-> & _ & _ & s1 & Ho & Hw & Hk). split; [done|].
    assert (∀ xs l : list E, foldl (flip cons) l xs = rev xs ++ l) as Hfold.
    { induction xs as [|x xs IH]; intros l; [done|]. cbn. by rewrite IH, <-app_assoc. }
    unfold order in Ho. cbn in *. rewrite Hw, Hk, left_over_split. unfold all. rewrite <-Ho.
    rewrite !Hfold, app_nil_r, rev_involutive. by rewrite app_assoc.
  - intros s all Hw Hk Hlen.
    assert (order (λ a b, sort addr deref (a ++ b)) s = all) as Hall by (apply (sort_proper addr deref); cbn; by rewrite !sort_perm).
    rewrite <-Hall in Hlen |- *.
    eapply ok_mono; [by apply (pass_ok addr deref PRIORITY _ priority_picks ds s)|].
    intros rs s' (-> & Hgw & Hgk & s1 & Ho & Hw' & Hk'). split; [done|]. split; [|done].
    assert (∀ q : PQ, _heap q ≡ₚ content q) as Hperm by (intros q; symmetry; apply sort_perm).
    assert (∀ xs l, foldl (flip (insert_sorted addr deref)) l xs ≡ₚ xs ++ l) as Hfold.
    { induction xs as [|x xs IH]; intros l; [done|]. cbn. rewrite IH, insert_sorted_perm. by rewrite Permutation_middle. }
    symmetry. apply (sort_unique addr deref).
    + apply left_over_sorted. apply sort_sorted.
    + rewrite left_over_split, <-Ho, !Hperm, Hw', Hk'. cbn [replace_front pq_spec priority_spec].
      rewrite !Hfold, app_nil_r. generalize (set_aside ds (order (λ a b, sort addr deref (a ++ b)) s)). intros aside.
      unfold order. rewrite sort_perm. by rewrite app_assoc.
Qed.
End policies.

End queues.

(** *** Requests in order of arrival, and one of higher priority *)

Section witness.
Definition queued (pr arrival : Z) : Request :=
  MkRequest "r" pr arrival None None None None [] (Some [1]) None ∅ 1 [] [1] [] 0 0 1 WAITING None [] None false.
Definition demo_deref (i : Z) : Request := queued (if i =? 9 then 0 else 1) i.

(** Four requests are visited and every other one is scheduled. *)
Lemma scheduling_pass_order_witness :
  (∃ s', scheduling_pass id demo_deref FCFS [true; false; true; false]
     (MkWaiting (Q := FCFSRequestQueue Z) [5; 6; 9] [4] []) = (Ok [4; 6], s') ∧ skipped_waiting s' ++ waiting s' = [5; 9]) ∧
  (∃ s', scheduling_pass (RequestQueue0 := priority_queue id demo_deref) id demo_deref PRIORITY [true; false; true; false]
     (MkWaiting (MkPriorityQueue [5; 6]) (MkPriorityQueue [9; 4]) (MkPriorityQueue [])) = (Ok [9; 5], s') ∧
     sort id demo_deref (_heap (skipped_waiting s') ++ _heap (waiting s')) = [4; 6]).
Proof.
  destruct (scheduling_pass_order id demo_deref [true; false; true; false]) as [Hf Hp]. split.
  - destruct (ok_inv _ _ _ (Hf (MkWaiting [5; 6; 9] [4] []) ltac:(cbn; lia))) as (rs & s' & Hrun & -> & Hq).
    exists s'. split; [exact Hrun|exact Hq].
  - assert (∀ a b, Request_lt id demo_deref b a = false → heap (Request_lt id demo_deref) [a; b]) as Hheap.
    { intros a b Hab i x y Hi _ Hx Hy. destruct i as [|[|[|i]]]; [lia| |done|done].
      injection Hx as <-. injection Hy as <-. exact Hab. }
    destruct (ok_inv _ _ _ (Hp (MkWaiting (MkPriorityQueue [5; 6]) (MkPriorityQueue [9; 4]) (MkPriorityQueue []))
      (Hheap 5 6 eq_refl) (Hheap 9 4 eq_refl) ltac:(vm_compute; lia))) as (rs & s' & Hrun & -> & Hq & _).
    exists s'. split; [exact Hrun|exact Hq].
Defined.
End witness.

(** Two requests, one with the higher priority, go through both queues. *)
Lemma queues_refine_lists_witness :
  let ops := [QAdd 4; QAdd 9; QPop; QPop; QPop] in
  results (run_queue_op (Q := FCFSRequestQueue Z)) ops empty_queue =
    [Ok RNone; Ok RNone; Ok (RItem 4); Ok (RItem 9); Err IndexError] ∧
  results (run_queue_op (RequestQueue0 := priority_queue id demo_deref)) ops
    (empty_queue (RequestQueue := priority_queue id demo_deref)) =
    [Ok RNone; Ok RNone; Ok (RItem 9); Ok (RItem 4); Err IndexError].
Proof.
  cbv zeta. destruct (queues_refine_lists id demo_deref [QAdd 4; QAdd 9; QPop; QPop; QPop]) as [Hf Hp].
  split; [rewrite Hf|rewrite Hp]; vm_compute; reflexivity.
Defined.
