(* ===== verification/SMCBlocks.v ===== *)
(** * Block tables under resampling

    What reading, aliasing and freeing the tables of single requests does to a
    KV-cache manager, as the scheduler's resampling uses it. *)

From S2P Require Import Prelude FreeQueue BlockHash Request BlockPool PoolProps KVCacheSpec SingleType Ownership SingleTypeProps CachingProps MambaProps CacheHit Coordinator KVCacheManager CoordinatorProps SlotProps SlotPhases KVProps KVReach KVInvariant.

Lemma imap_forget {A B} (f : A → B) (l : list A) : imap (λ _, f) l = f <$> l.
Proof. apply list_eq. intros i. by rewrite list_lookup_imap, list_lookup_fmap. Qed.

Section tables.
Context `{HashEnv}.

(** A request's block tables and cached counts, one of each per group. *)
Definition tables (rid : string) (kv : KVCacheManager) : list (list loc) := blocks_at rid <$> cs_mgrs (coordinator kv).
Definition cached_counts (rid : string) (kv : KVCacheManager) : list Z := cached_at rid <$> cs_mgrs (coordinator kv).

Lemma length_tables rid kv : length (tables rid kv) = length (cs_mgrs (coordinator kv)).
Proof. apply length_fmap. Qed.

(** A step that concerns the tables of [rid] only. *)
Definition moves (rid : string) (kv kv' : KVCacheManager) : Prop :=
  same_config (cs_pool (coordinator kv)) (cs_pool (coordinator kv')) ∧
  length (cs_mgrs (coordinator kv')) = length (cs_mgrs (coordinator kv)) ∧
  ∀ rid', rid' ≠ rid → tables rid' kv' = tables rid' kv.

Lemma kv_get_blocks_eq kv l h rid :
  kv_rep kv l h → ∃ b, kv_get_blocks rid kv = (Ok b, kv) ∧ kb_blocks b = tables rid kv.
Proof.
  intros (_ & Hg & _). unfold kv_get_blocks.
  assert (on_co (co_get_blocks rid) kv = (Ok (tables rid kv), kv)) as Hrd.
  { apply on_co_eq. unfold co_get_blocks, tables. rewrite (map_mgrs_pure _ (λ _, blocks_at rid)) by done.
    by rewrite imap_forget. }
  destruct (create_blocks_eq (tables rid kv) kv) as (b & Hb & Hkb & _); [by rewrite length_tables|].
  exists b. split; [|done]. by rewrite (bind_eq _ _ _ _ _ Hrd).
Qed.

Lemma kv_get_num_cached_eq kv rid : kv_get_num_cached_blocks rid kv = (Ok (cached_counts rid kv), kv).
Proof.
  apply on_co_eq. unfold co_get_num_cached_blocks, cached_counts. rewrite (map_mgrs_pure _ (λ _, cached_at rid)) by done.
  by rewrite imap_forget.
Qed.

(** From a relation between the managers to their tables. *)
Lemma rel_moves rid (P : nat → Manager → Manager → Prop) kv cs' :
  same_config (cs_pool (coordinator kv)) (cs_pool cs') →
  mgrs_rel P (coordinator kv) cs' →
  (∀ i m m', P i m m' → delete rid (req_to_blocks m') = delete rid (req_to_blocks m)) →
  moves rid kv (set_coordinator cs' kv).
Proof.
  intros Hcfg (_ & Hlen & HP) Hd. split; [done|]. split; [done|].
  intros rid' Hne. unfold tables. cbn [coordinator set_coordinator]. apply list_eq. intros i. rewrite !list_lookup_fmap.
  destruct (cs_mgrs (coordinator kv) !! i) as [m|] eqn:Hm.
  - destruct (HP i m Hm) as (m' & -> & Hm'). cbn. f_equal. unfold blocks_at.
    specialize (Hd i m m' Hm'). apply (f_equal (.!! rid')) in Hd. rewrite !lookup_delete_ne in Hd by done. by rewrite Hd.
  - apply lookup_ge_None in Hm. by rewrite (proj2 (lookup_ge_None (cs_mgrs cs') i)) by lia.
Qed.

Lemma rel_tables rid (P : nat → Manager → Manager → Prop) kv cs' (f : nat → list loc) :
  mgrs_rel P (coordinator kv) cs' → (∀ i m m', P i m m' → blocks_at rid m' = f i) →
  tables rid (set_coordinator cs' kv) = f <$> seq 0 (length (cs_mgrs (coordinator kv))).
Proof.
  intros (_ & Hlen & HP) Hf. unfold tables. cbn [coordinator set_coordinator]. apply list_eq. intros i.
  rewrite !list_lookup_fmap. destruct (cs_mgrs (coordinator kv) !! i) as [m|] eqn:Hm.
  - destruct (HP i m Hm) as (m' & -> & Hm'). cbn. rewrite (Hf i m m' Hm').
    rewrite lookup_seq_lt by (by eapply lookup_lt_Some). done.
  - apply lookup_ge_None in Hm. rewrite (proj2 (lookup_ge_None (cs_mgrs cs') i)) by lia.
    by rewrite lookup_seq_ge by lia.
Qed.

Lemma kv_free_ok kv l h r : kv_reachable kv → kv_rep kv l h →
  ok (kv_free r) kv (λ _ kv', ∃ l', kv_reachable kv' ∧ kv_rep kv' l' h ∧ moves (request_id r) kv kv' ∧
    tables (request_id r) kv' = replicate (length (cs_mgrs (coordinator kv))) []).
Proof.
  intros Hreach Hrep. pose proof Hrep as (Hr & Hg & Hst).
  assert (ok (kv_free r) kv (λ _ kv', ∃ l', kv_rep kv' l' h ∧ moves (request_id r) kv kv' ∧
    tables (request_id r) kv' = replicate (length (cs_mgrs (coordinator kv))) [])) as Hok.
  { apply ok_on_co. eapply ok_mono; [by apply (co_free_ok _ [] l h)|].
    intros _ cs' (l' & Hr' & [Hcfg _] & Hrel). exists l'. split_and!.
    - split; [exact Hr'|]. split; [|exact Hst]. cbn. by destruct Hrel as (_ & -> & _).
    - eapply rel_moves; [exact Hcfg|exact Hrel|]. intros i m m' (_ & -> & _). by rewrite delete_delete_eq.
    - rewrite (rel_tables _ _ _ _ (λ _, []) Hrel); [by rewrite (const_fmap _ _ ([] : list loc)), length_seq|].
      intros i m m' (_ & Hb & _). unfold blocks_at. by rewrite Hb, lookup_delete_eq. }
  destruct (ok_inv _ _ _ Hok) as ([] & kv' & Hrun & l' & Hl'). eapply ok_eq; [exact Hrun|].
  exists l'. split; [|exact Hl']. by apply (kv_call kv l h (KFree r)).
Qed.

(** Sharing the first [k] blocks of a snapshot. *)
Lemma kv_alias_ok kv l h dst src ncs k : kv_reachable kv → kv_rep kv l h →
  length (kb_blocks src) = length (cs_mgrs (coordinator kv)) → length ncs = length (cs_mgrs (coordinator kv)) →
  (∀ i bs n, kb_blocks src !! i = Some bs → ncs !! i = Some n → snapshot_ok (cs_pool (coordinator kv)) h bs n k) →
  ok (kv_alias_request_blocks_from_snapshot dst src ncs k) kv (λ _ kv', ∃ l', kv_reachable kv' ∧ kv_rep kv' l' h ∧
    moves dst kv kv' ∧ tables dst kv' = take (Z.to_nat k) <$> kb_blocks src).
Proof.
  intros Hreach Hrep Hls Hln Hsnap. pose proof Hrep as (Hr & Hg & Hst).
  assert (ok (kv_alias_request_blocks_from_snapshot dst src ncs k) kv (λ _ kv', ∃ l', kv_rep kv' l' h ∧
    moves dst kv kv' ∧ tables dst kv' = take (Z.to_nat k) <$> kb_blocks src)) as Hok.
  { apply ok_on_co. eapply ok_mono; [by apply (co_alias_ok _ [] l h)|].
    intros _ cs' (l' & Hr' & [Hcfg _] & Hrel). exists l'. split_and!.
    - split; [exact Hr'|]. split; [|exact Hst]. cbn. by destruct Hrel as (_ & -> & _).
    - eapply rel_moves; [exact Hcfg|exact Hrel|]. intros i m m' [(Hd & _) _]. exact Hd.
    - rewrite (rel_tables _ _ _ _ (λ i, take (Z.to_nat k) (kb_blocks src !!! i)) Hrel).
      + apply list_eq. intros i. rewrite !list_lookup_fmap. destruct (decide (i < length (kb_blocks src))%nat) as [Hi|Hi].
        * rewrite lookup_seq_lt by lia. cbn. by rewrite (list_lookup_lookup_total_lt _ _ Hi).
        * rewrite lookup_seq_ge by lia. by rewrite (proj2 (lookup_ge_None (kb_blocks src) i)) by lia.
      + intros i m m' (_ & bs & nc & Hbs & _ & -> & _). by rewrite (list_lookup_total_correct _ _ _ Hbs). }
  destruct (ok_inv _ _ _ Hok) as ([] & kv' & Hrun & l' & Hl'). eapply ok_eq; [exact Hrun|].
  exists l'. split; [|exact Hl']. by apply (kv_call kv l h (KAlias dst src ncs k)).
Qed.

(** Too short a snapshot is refused before anything happens. *)
Lemma kv_alias_short kv dst src ncs k bs n : 0 ≤ k →
  length (kb_blocks src) = length (cs_mgrs (coordinator kv)) → length ncs = length (cs_mgrs (coordinator kv)) →
  kb_blocks src !! 0%nat = Some bs → ncs !! 0%nat = Some n → len bs < k →
  kv_alias_request_blocks_from_snapshot dst src ncs k kv = (Err ValueError, kv).
Proof.
  intros Hk Hls Hln Hbs Hn Hlt. unfold kv_alias_request_blocks_from_snapshot, on_co, zoom.
  assert (co_alias_request_blocks_from_snapshot dst (kb_blocks src) ncs k (coordinator kv) = (Err ValueError, coordinator kv)) as ->;
    [|by rewrite set_coordinator_same].
  unfold co_alias_request_blocks_from_snapshot. rewrite (bind_eq (gets _) _ _ _ _ eq_refl), Hls, Hln, Nat.eqb_refl. cbn [negb].
  unfold for_mgrs. rewrite (bind_eq (gets _) _ _ _ _ eq_refl).
  destruct (coordinator kv) as [p ms co]. cbn [cs_mgrs] in *. destruct ms as [|m ms].
  { destruct (kb_blocks src); done. }
  cbn [length seq for_each]. unfold bind at 1. unfold on_mgr. cbn [cs_mgrs lookup list_lookup cs_pool].
  rewrite Hbs, Hn. cbn [or_raise]. unfold bind, ret. unfold alias_request_blocks_from_snapshot.
  rewrite (proj2 (Z.ltb_ge k 0)), (proj2 (Z.ltb_lt (len bs) k)) by lia. done.
Qed.
End tables.
