(* ===== verification/SMCApply.v ===== *)
(** * Applying a resampling plan

    The scheduler's part of a resampling: which child requests it resets, and
    which blocks of their ancestors they share afterwards. *)

From stdpp Require Import gmap sets.
From S2P Require Import Prelude Arith FreeQueue BlockHash Request HashChain BlockPool PoolProps KVCacheSpec SingleType Ownership SingleTypeProps CachingProps CacheHit Coordinator KVCacheManager CoordinatorProps SlotPhases KVProps KVReach KVInvariant PowerSMC EncoderCache EncoderProps SMCScheduler SMCMirror SMCBlocks.
Open Scope Z_scope.

(** ** Resetting a request *)

Section reset.
Context {A : Arith} `{HashEnv}.

Definition resettable (r : Request) : Prop :=
  len (prompt_tokens_or_zeros r) = num_prompt_tokens r ∧
  ∀ bs, block_hasher r = Some bs → 0 < bs ∧ mm_sorted (mm_features r) ∧ memo_ok r.

(** The request as it waits to be scheduled again with [c] tokens computed. *)
Record is_reset (toks : list Z) (c : Z) (r r' : SRequest) : Prop := {
  ir_output : output_token_ids (sr_req r') = toks;
  ir_all : all_token_ids (sr_req r') = prompt_tokens_or_zeros (sr_req r) ++ toks;
  ir_computed : num_computed_tokens (sr_req r') = c;
  ir_status : status (sr_req r') = PREEMPTED;
  ir_spec : spec_token_ids (sr_req r') = [] ∧ num_output_placeholders r' = 0 ∧ async_tokens_to_discard r' = 0 ∧
    is_prefill_chunk r' = false;
  ir_attr : attributes r' = attributes r;
  ir_hashed : ∀ bs, block_hasher (sr_req r) = Some bs → hashed bs (sr_req r')
}.

Lemma reset_request_ok toks c r : resettable (sr_req r) → ∃ r', reset_request toks c r = Ok r' ∧ is_reset toks c r r'.
Proof.
  intros [_ Hh].
  assert (∃ q, reset_output_token_ids toks (sr_req r) = (Ok tt, q) ∧ output_token_ids q = toks ∧
    all_token_ids q = prompt_tokens_or_zeros (sr_req r) ++ toks ∧
    ∀ bs, block_hasher (sr_req r) = Some bs → hashed bs q) as (q & Hrun & Ho & Ha & Hq).
  { destruct (block_hasher (sr_req r)) as [bs|] eqn:Hb.
    - destruct (Hh bs eq_refl) as (Hbs & Hs & Hm).
      destruct (reset_output_ok bs (sr_req r) toks Hbs Hb Hs Hm) as (q & Hrun & Ha & Ho & Hq).
      exists q. split_and!; try done. by intros ? [= <-].
    - eexists. unfold reset_output_token_ids, update_block_hashes, bind, modify, gets. cbn. rewrite Hb. done. }
  assert (reset_request toks c r = Ok _) as Hres by (unfold reset_request; rewrite Hrun; reflexivity).
  eexists. split; [exact Hres|]. constructor; try done. by eapply reset_attributes.
Qed.
End reset.

(** ** One child *)

Section child.
Context {A : Arith} `{HashEnv}.
Context (set_order : gset Z → list Z) (set_order_perm : ∀ X, set_order X ≡ₚ elements X).
Context (sz : string → Z) (num_inputs : string → Z) (sz_nonneg : ∀ h, 0 ≤ sz h).

Abbreviation kv_of s := (kv_cache_manager s) (only parsing).

(** What the scheduler keeps at all times. *)
Definition sound (s : Scheduler) (h : gmap Z bytes) : Prop :=
  kv_reachable (kv_of s) ∧ (∃ l, kv_rep (kv_of s) l h) ∧ enc_inv sz num_inputs (encoder_cache_manager s).

(** Full blocks of prompt and replayed tokens, the last token excepted. *)
Definition alias_blocks (r : SRequest) (toks : list Z) (block_size : Z) : Z :=
  let n := num_prompt_tokens (sr_req r) + len toks - 1 in if n <=? 0 then 0 else n / block_size.

(** The first [k] blocks of every table of a request can be shared: with
    caching on, they were offered to the cache and still carry a hash. *)
Definition shareable (kv : KVCacheManager) (rid : string) (k : Z) : Prop :=
  ∀ i bs n, tables rid kv !! i = Some bs → cached_counts rid kv !! i = Some n →
    enable_caching (cs_pool (coordinator kv)) = true →
    k ≤ n ∧ ∀ b, b ∈ take (Z.to_nat k) bs → b ≠ 0 → PoolProps.hash_of (cs_pool (coordinator kv)) b ≠ None.
(** Every table of a request has [k] blocks. *)
Definition long_enough (kv : KVCacheManager) (rid : string) (k : Z) : Prop :=
  Forall (λ bs : list loc, k ≤ len bs) (tables rid kv).
#[export] Instance long_enough_dec kv rid k : Decision (long_enough kv rid k).
Proof. unfold long_enough. apply _. Defined.
(** The groups' tables of a request are of one length. *)
Definition even_tables (kv : KVCacheManager) (rid : string) : Prop :=
  ∀ bs bs', bs ∈ tables rid kv → bs' ∈ tables rid kv → len bs = len bs'.

Lemma table_facts kv l h rid i bs :
  kv_rep kv l h → tables rid kv !! i = Some bs →
  (∀ b, b ∈ bs → 0 ≤ b < num_gpu_blocks (cs_pool (coordinator kv))) ∧ NoDup (real bs).
Proof.
  intros (Hr & _) Hbs. unfold tables in Hbs. rewrite list_lookup_fmap in Hbs.
  destruct (cs_mgrs (coordinator kv) !! i) as [m|] eqn:Hm; [|done]. injection Hbs as <-. unfold blocks_at.
  destruct (req_to_blocks m !! rid) as [bs|] eqn:Hb; cbn; [|split; [by intros b ?%elem_of_nil|constructor]].
  pose proof (owner_of _ m rid bs (list_elem_of_lookup_2 _ _ _ Hm) Hb) as Ho.
  pose proof (co_own _ _ _ _ Hr) as Hown. rewrite app_nil_r in Hown. split.
  - intros b Hbb. by eapply own_rep_range.
  - by apply (ow_nodup _ _ _ _ Hown _ Ho).
Qed.

Lemma NoDup_real_take k (bs : list loc) : NoDup (real bs) → NoDup (real (take k bs)).
Proof.
  intros Hn. rewrite <-(take_drop k bs), real_app in Hn. by apply NoDup_app in Hn as [? _].
Qed.

(** Snapshots taken in [kv0] serve in every later state with the same hashes. *)
Lemma snapshot_serves kv0 l0 kv h rid k :
  kv_rep kv0 l0 h → same_config (cs_pool (coordinator kv0)) (cs_pool (coordinator kv)) →
  0 ≤ k → shareable kv0 rid k → long_enough kv0 rid k →
  ∀ i bs n, tables rid kv0 !! i = Some bs → cached_counts rid kv0 !! i = Some n →
    snapshot_ok (cs_pool (coordinator kv)) h bs n k.
Proof.
  intros Hrep (Hnum & Hec & _) Hk Hsh Hlong i bs n Hbs Hn.
  destruct (table_facts _ _ _ _ _ _ Hrep Hbs) as [Hrange Hnd]. split_and!.
  - done.
  - by apply (proj1 (Forall_lookup _ _) Hlong i).
  - unfold cached_counts in Hn. rewrite list_lookup_fmap in Hn.
    destruct (cs_mgrs (coordinator kv0) !! i) as [m|] eqn:Hm; [|done]. injection Hn as <-. unfold cached_at.
    destruct (num_cached_block m !! rid) as [c|] eqn:Hc; [|done].
    destruct Hrep as (Hr & _). apply (co_cached _ _ _ _ Hr m rid c (list_elem_of_lookup_2 _ _ _ Hm) Hc).
  - intros b Hb. rewrite Hnum. apply Hrange. by eapply subseteq_take.
  - by apply NoDup_real_take.
  - rewrite Hec. intros He. destruct (Hsh i bs n Hbs Hn He) as [Hkn Hhash]. split; [done|].
    intros b Hb Hb0. specialize (Hhash b Hb Hb0). destruct Hrep as (Hr & _).
    rewrite (hash_of_rep _ _ b (ow_pool _ _ _ _ (co_own _ _ _ _ Hr))) in Hhash; [done|].
    apply Hrange. by eapply subseteq_take.
Qed.

(** *** The loop over the children *)

Context (s0 : Scheduler) (l0 : list loc) (h : gmap Z bytes).
Context (children : gmap Z string) (anc : list Z) (can : bool) (bs : Z) (noops : list Z).
Context (snapshots : list (Z * snapshot)).
Abbreviation kv0 := (kv_cache_manager s0).
Context (Hrep0 : kv_rep kv0 l0 h) (Hbs : 0 < bs).

(** The request whose blocks a child with ancestor [a] may share. *)
Definition source (a : Z) : option string :=
  if can then
    match children !! a with
    | Some arid => if bool_decide (requests s0 !! arid ≠ None) then Some arid else None
    | None => None
    end
  else None.

(** A child of the plan the scheduler can reset. *)
Definition entry_ready (entry : Z * list Z * string) : Prop :=
  let '(i, toks, rid) := entry in
  ∃ r a, requests s0 !! rid = Some r ∧ request_id (sr_req r) = rid ∧ py_nth anc i = Some a ∧
    resettable (sr_req r) ∧ fitting sz num_inputs (sr_req r) ∧
    ∀ arid, source a = Some arid → 0 < alias_blocks r toks bs →
      shareable kv0 arid (alias_blocks r toks bs) ∧ even_tables kv0 arid.

Definition snapshots_for (entry : Z * list Z * string) : Prop :=
  ∀ a, entry.1.1 ∉ noops → py_nth anc entry.1.1 = Some a →
    match source a with
    | Some arid => ∃ b, find (λ x, x.1 =? a) snapshots = Some (a, (b, cached_counts arid kv0)) ∧
        kb_blocks b = tables arid kv0
    | None => find (λ x, x.1 =? a) snapshots = None
    end.

(** A child that stays the same is left alone.  Any other is reset to its new
    tokens; it shares its ancestor's blocks if it has one that can be shared
    and that has enough of them, and otherwise starts anew without blocks. *)
Definition outcome (noop : bool) (s : Scheduler) (entry : Z * list Z * string) : Prop :=
  let '(i, toks, rid) := entry in
  ∀ r a, requests s0 !! rid = Some r → py_nth anc i = Some a →
  if noop then requests s !! rid = Some r ∧ tables rid (kv_of s) = tables rid kv0
  else
    let k := alias_blocks r toks bs in
    ∃ r' c, requests s !! rid = Some r' ∧ is_reset toks c r r' ∧
    (0 < num_tokens (sr_req r') → 0 ≤ c < num_tokens (sr_req r')) ∧
    let anew := c = 0 ∧ tables rid (kv_of s) = replicate (length (cs_mgrs (coordinator kv0))) [] in
    match source a with
    | Some arid =>
        if decide (0 < k ∧ long_enough kv0 arid k)
        then c = k * bs ∧ tables rid (kv_of s) = take (Z.to_nat k) <$> tables arid kv0
        else anew
    | None => anew
    end.

(** The state between two children. *)
Record between (s : Scheduler) : Prop := {
  bt_sound : sound s h;
  bt_config : same_config (cs_pool (coordinator kv0)) (cs_pool (coordinator (kv_of s)));
  bt_mgrs : length (cs_mgrs (coordinator (kv_of s))) = length (cs_mgrs (coordinator kv0));
  bt_groups : power_smc_group_managers s = power_smc_group_managers s0;
  bt_children : power_smc_group_children s = power_smc_group_children s0
}.
(** The request and the tables of [rid] are as in [s1]. *)
Definition same_for (rid : string) (s1 s : Scheduler) : Prop :=
  requests s !! rid = requests s1 !! rid ∧ tables rid (kv_of s) = tables rid (kv_of s1).

Lemma alias_blocks_nonneg r toks : 0 ≤ alias_blocks r toks bs.
Proof. unfold alias_blocks. destruct (Z.leb_spec (num_prompt_tokens (sr_req r) + len toks - 1) 0); [done|]. apply Z.div_pos; lia. Qed.

(** The shared blocks leave a token to compute. *)
Lemma alias_blocks_lt toks c r r' : resettable (sr_req r) → is_reset toks c r r' →
  c = alias_blocks r toks bs * bs ∨ c = 0 → 0 < num_tokens (sr_req r') → 0 ≤ c < num_tokens (sr_req r').
Proof.
  intros [Hp _] Hr Hc. unfold num_tokens. rewrite (ir_all _ _ _ _ Hr), len_app, Hp. intros Hpos.
  destruct Hc as [->| ->]; [|lia]. pose proof (alias_blocks_nonneg r toks). unfold alias_blocks in *.
  destruct (Z.leb_spec (num_prompt_tokens (sr_req r) + len toks - 1) 0); [lia|].
  pose proof (Z.mul_div_le (num_prompt_tokens (sr_req r) + len toks - 1) bs Hbs). nia.
Qed.

(** The attempt to alias. *)
Lemma try_alias_ok s rid arid b k : between s → 0 ≤ k → kb_blocks b = tables arid kv0 →
  shareable kv0 arid k → even_tables kv0 arid →
  ok (try_alias rid (b, cached_counts arid kv0) k) s (λ res s', between s' ∧ requests s' = requests s ∧
    inflight_prefills s' = inflight_prefills s ∧ encoder_cache_manager s' = encoder_cache_manager s ∧
    res = bool_decide (long_enough kv0 arid k) ∧
    if res then (∀ rid', rid' ≠ rid → tables rid' (kv_of s') = tables rid' (kv_of s)) ∧
                tables rid (kv_of s') = take (Z.to_nat k) <$> tables arid kv0
    else s' = s).
Proof.
  intros Hb Hk Hkb Hsh Heven. destruct Hb as [(Hreach & [l Hrep] & Henc) Hcfg Hm Hg Hc]. unfold try_alias.
  assert (length (cached_counts arid kv0) = length (cs_mgrs (coordinator (kv_of s)))) as Hln
    by (unfold cached_counts; by rewrite length_fmap).
  assert (length (kb_blocks b) = length (cs_mgrs (coordinator (kv_of s)))) as Hls by (by rewrite Hkb, length_tables).
  destruct (decide (long_enough kv0 arid k)) as [Hlong|Hshort].
  - pose proof (snapshot_serves kv0 l0 (kv_of s) h arid k Hrep0 Hcfg Hk Hsh Hlong) as Hserves.
    destruct (ok_inv _ _ _ (kv_alias_ok (kv_of s) l h rid b (cached_counts arid kv0) k Hreach Hrep Hls Hln
      ltac:(by rewrite Hkb))) as ([] & kv' & Hrun & l' & Hreach' & Hrep' & (Hcfg' & Hm' & Hmv) & Htab).
    eapply (ok_eq _ _ true (set_kv kv' s)).
    { unfold except_ValueError. rewrite (bind_eq _ _ s tt (set_kv kv' s)); [done|]. unfold on_kv, zoom. cbn [fst snd]. by rewrite Hrun. }
    rewrite bool_decide_eq_true_2 by done. rewrite <-Hkb. split; [|done].
    constructor; cbn; [|by etransitivity|by rewrite Hm'|done|done]. split_and!; [done|by exists l'|done].
  - assert (∃ bs0 n0, kb_blocks b !! 0%nat = Some bs0 ∧ cached_counts arid kv0 !! 0%nat = Some n0 ∧ len bs0 < k)
      as (bs0 & n0 & Hb0 & Hn0 & Hlt).
    { unfold long_enough in Hshort. apply not_Forall_Exists in Hshort; [|apply _].
      apply Exists_exists in Hshort as (bs1 & Hbs1 & Hlt%Z.nle_gt).
      destruct (tables arid kv0) as [|bs0 ts] eqn:Ht; [by apply elem_of_nil in Hbs1|].
      destruct (cached_counts arid kv0) as [|n0 ns] eqn:Hns.
      { exfalso. rewrite Hkb in Hls. cbn in Hls, Hln. lia. }
      exists bs0, n0. rewrite Hkb. split_and!; [done..|]. rewrite (Heven bs0 bs1); [done|rewrite Ht; left|by rewrite Ht]. }
    eapply (ok_eq _ _ false s).
    { unfold except_ValueError, bind, on_kv, zoom. cbn [fst snd].
      rewrite (kv_alias_short _ rid b _ k bs0 n0 Hk Hls Hln Hb0 Hn0 Hlt). by destruct s. }
    rewrite bool_decide_eq_false_2 by done. split_and!; try done. constructor; try done. split_and!; [done|by exists l|done].
Qed.

(** Whether, and then what, a child shares. *)
Definition shares (a k : Z) (ts : list (list loc)) : Prop :=
  ∃ arid, source a = Some arid ∧ 0 < k ∧ long_enough kv0 arid k ∧ ts = take (Z.to_nat k) <$> tables arid kv0.
Definition shares_nothing (a k : Z) : Prop :=
  ∀ arid, source a = Some arid → ¬ (0 < k ∧ long_enough kv0 arid k).

Lemma alias_step_ok s i toks rid r a : between s → i ∉ noops → py_nth anc i = Some a →
  snapshots_for (i, toks, rid) →
  (∀ arid, source a = Some arid → 0 < alias_blocks r toks bs →
     shareable kv0 arid (alias_blocks r toks bs) ∧ even_tables kv0 arid) →
  ok (match find (λ x, x.1 =? a) snapshots with
      | Some (_, snap) =>
          if can && (0 <? alias_blocks r toks bs)
          then let* b := try_alias rid snap (alias_blocks r toks bs) in ret (Some b) else ret None
      | None => ret None
      end) s (λ aliased s1, between s1 ∧ requests s1 = requests s ∧
    (∀ rid', rid' ≠ rid → tables rid' (kv_of s1) = tables rid' (kv_of s)) ∧
    if bool_decide (aliased = Some true) then shares a (alias_blocks r toks bs) (tables rid (kv_of s1))
    else shares_nothing a (alias_blocks r toks bs)).
Proof.
  intros Hb Hi Ha Hsn Hsh. set (k := alias_blocks r toks bs) in *.
  pose proof (alias_blocks_nonneg r toks) as Hk. fold k in Hk. specialize (Hsn a Hi Ha). unfold shares_nothing.
  destruct (source a) as [arid|] eqn:Hsrc; [|rewrite Hsn; apply ok_ret; by split_and!].
  destruct Hsn as (b & -> & Hkb).
  assert (can = true) as Hcan by (unfold source in Hsrc; by destruct can). rewrite Hcan. cbn [andb].
  destruct (Z.ltb_spec 0 k) as [Hk0|Hk0].
  2: { apply ok_ret. split_and!; [done..|]. cbn. intros ? _ [? _]. lia. }
  destruct (Hsh arid eq_refl Hk0) as [Hshare Heven]. apply ok_bind.
  eapply ok_mono; [by apply (try_alias_ok s rid arid b k)|].
  intros res s1 (Hb1 & Hreq & _ & _ & -> & Hres). apply ok_ret. destruct (decide (long_enough kv0 arid k)) as [Hl|Hl].
  - rewrite (bool_decide_eq_true_2 _ Hl) in Hres |- *. destruct Hres as [Ho Ht].
    split_and!; [done..|]. rewrite bool_decide_eq_true_2 by done. by exists arid.
  - rewrite (bool_decide_eq_false_2 _ Hl) in Hres |- *. subst s1. split_and!; [done..|].
    rewrite bool_decide_eq_false_2 by done. by intros ? [= <-] [_ ?].
Qed.

Lemma free_step_ok s rid r : between s → request_id (sr_req r) = rid →
  ok (on_kv (kv_free (sr_req r))) s (λ _ s1, between s1 ∧ requests s1 = requests s ∧
    (∀ rid', rid' ≠ rid → tables rid' (kv_of s1) = tables rid' (kv_of s)) ∧
    tables rid (kv_of s1) = replicate (length (cs_mgrs (coordinator kv0))) []).
Proof.
  intros [(Hreach & [l Hrep] & Henc) Hcfg Hm Hg Hc] <-. unfold on_kv. apply ok_zoom.
  eapply ok_mono; [by apply (kv_free_ok (kv_of s) l h)|].
  intros _ kv' (l' & Hreach' & Hrep' & (Hcfg' & Hm' & Hmv) & Htab). split_and!; [|done|done|by rewrite <-Hm].
  constructor; cbn; [|by etransitivity|by rewrite Hm'|done|done]. split_and!; [done|by exists l'|done].
Qed.

Lemma enc_step_ok s r : between s → fitting sz num_inputs (sr_req r) →
  ok (on_enc (enc_free set_order (sr_req r))) s (λ _ s1, between s1 ∧ requests s1 = requests s ∧ kv_of s1 = kv_of s).
Proof.
  intros [(Hreach & Hrep & Henc) Hcfg Hm Hg Hc] Hfit. unfold on_enc. apply ok_zoom.
  eapply ok_mono; [by apply (enc_free_ok sz num_inputs sz_nonneg set_order set_order_perm)|].
  intros _ c' (Henc' & _ & _). split_and!; [|done|done]. by constructor.
Qed.

Lemma apply_child_ok s ct entry : between s → entry_ready entry → snapshots_for entry → same_for entry.2 s0 s →
  ok (apply_child set_order anc snapshots noops can bs ct entry) s (λ ct' s', between s' ∧ outcome (bool_decide (entry.1.1 ∈ noops)) s' entry ∧
    (∀ rid', rid' ≠ entry.2 → same_for rid' s s') ∧
    resampled ct' = resampled ct ++ if bool_decide (entry.1.1 ∈ noops) then [] else [entry.2]).
Proof.
  intros Hb Hready Hsn [Hsame Hstab]. destruct entry as [[i toks] rid]. cbn [fst snd] in *. unfold apply_child, outcome.
  destruct Hready as (r & a & Hr & Hid & Ha & Hreset & Hfit & Hsh). rewrite Hr in Hsame.
  destruct (bool_decide (i ∈ noops)) eqn:Hno.
  { apply ok_ret. split_and!; [done| |done|by rewrite app_nil_r]. intros r1 a1 Hr1 _. by rewrite <-Hr1, Hr. }
  apply bool_decide_eq_false in Hno. rewrite Ha. cbn [or_raise]. apply ok_bind, ok_ret, ok_bind, ok_gets.
  rewrite Hsame. cbn [or_raise]. apply ok_bind, ok_ret. cbv zeta.
  change (if num_prompt_tokens (sr_req r) + len toks - 1 <=? 0 then 0 else (num_prompt_tokens (sr_req r) + len toks - 1) / bs)
    with (alias_blocks r toks bs). set (k := alias_blocks r toks bs) in *.
  apply ok_bind. eapply ok_mono; [by apply (alias_step_ok s i toks rid r a)|].
  intros aliased s1 (Hb1 & Hreq1 & Ho1 & Hal). apply ok_bind.
  set (c := if bool_decide (aliased = Some true) then k * bs else 0).
  apply (ok_mono _ _ (λ _ s2, between s2 ∧ requests s2 = requests s ∧
    (∀ rid', rid' ≠ rid → tables rid' (kv_of s2) = tables rid' (kv_of s)) ∧
    (c = k * bs ∧ shares a k (tables rid (kv_of s2)) ∨
     c = 0 ∧ shares_nothing a k ∧ tables rid (kv_of s2) = replicate (length (cs_mgrs (coordinator kv0))) []))).
  { unfold c. destruct (bool_decide (aliased = Some true)).
    - destruct Hal as (arid & Hsrc & Hk0 & Hl & Ht). rewrite (proj2 (Z.eqb_neq _ _)) by nia.
      apply ok_ret. split_and!; try done. left. split; [done|]. by exists arid.
    - cbn [Z.eqb]. eapply ok_mono; [by apply (free_step_ok s1 rid r)|].
      intros _ s2 (Hb2 & Hreq2 & Ho2 & Ht2). split_and!; [done|by rewrite Hreq2| |by right].
      intros rid' Hne. by rewrite Ho2, Ho1. }
  intros _ s2 (Hb2 & Hreq2 & Ho2 & Hc). clearbody c. apply ok_bind.
  eapply ok_mono; [by apply (enc_step_ok s2 r)|]. intros _ s3 (Hb3 & Hreq3 & Hkv3).
  apply ok_bind, ok_modify, ok_bind.
  destruct (reset_request_ok toks c r Hreset) as (r' & Hres & Hr'). eapply ok_eq; [unfold of_res; by rewrite Hres|].
  apply ok_bind, ok_modify, ok_ret. set (s4 := set_requests _ _).
  assert (requests s4 = <[rid := r']> (requests s)) as Hreq4 by (unfold s4; cbn; by rewrite Hreq3, Hreq2).
  assert (kv_of s4 = kv_of s2) as Hkv4 by (unfold s4; cbn; done).
  split_and!.
  - destruct Hb3 as [Hsd ? ? ? ?]. by constructor.
  - intros r1 a1 Hr1 Ha1. rewrite Hr in Hr1. injection Hr1 as <-. injection Ha1 as <-.
    exists r', c. rewrite Hreq4, lookup_insert_eq. split; [done|]. split; [done|]. split.
    { apply (alias_blocks_lt toks c r r' Hreset Hr'). destruct Hc as [[-> _]|[-> _]]; [by left|by right]. }
    fold k. rewrite Hkv4.
    destruct Hc as [(-> & arid & -> & Hk0 & Hl & Ht)|(-> & Hno' & Ht)]; [by rewrite decide_True|].
    destruct (source a) as [arid|] eqn:Hsrc; [|done]. rewrite decide_False by (by apply Hno'). done.
  - intros rid' Hne. split; [by rewrite Hreq4, lookup_insert_ne|]. by rewrite Hkv4, Ho2.
  - done.
Qed.

(** Later children do not undo it. *)
Lemma outcome_same noop s s' e : outcome noop s e → same_for e.2 s s' → outcome noop s' e.
Proof. destruct e as [[i toks] rid]. intros Ho [Hr Ht]. unfold outcome in *. cbn [snd] in *. by rewrite Hr, Ht. Qed.

Lemma apply_children_ok es s ct : between s → NoDup es.*2 →
  (∀ e, e ∈ es → entry_ready e ∧ snapshots_for e ∧ same_for e.2 s0 s) →
  ok (fold_each (apply_child set_order anc snapshots noops can bs) es ct) s (λ ct' s', between s' ∧
    (∀ e, e ∈ es → outcome (bool_decide (e.1.1 ∈ noops)) s' e) ∧
    (∀ rid, rid ∉ es.*2 → same_for rid s s') ∧
    resampled ct' = resampled ct ++ (filter (λ e : Z * list Z * string, e.1.1 ∉ noops) es).*2).
Proof.
  revert s ct. induction es as [|e es IH]; intros s ct Hb Hnd Hes.
  { apply ok_ret. split_and!; [done|by intros e ?%elem_of_nil|done|by rewrite app_nil_r]. }
  cbn [fold_each]. rewrite fmap_cons in Hnd. apply NoDup_cons in Hnd as [Hn Hnd].
  destruct (Hes e ltac:(left)) as (Hready & Hsn & Hsame). apply ok_bind.
  eapply ok_mono; [by apply apply_child_ok|]. intros ct1 s1 (Hb1 & Ho1 & Hs1 & Hrs1).
  eapply ok_mono; [apply IH; [done|done|]|].
  { intros e' He'. destruct (Hes e' ltac:(by right)) as (Hr' & Hsn' & Hsame'). split_and!; [done..|].
    assert (e'.2 ≠ e.2) as Hne by (intros Heq; apply Hn; rewrite <-Heq; by apply list_elem_of_fmap_2).
    destruct Hsame' as [Ha' Hb']. destruct (Hs1 e'.2 Hne) as [Hc' Hd']. split; congruence. }
  intros ct2 s2 (Hb2 & Ho2 & Hs2 & Hrs2). split_and!; [done| | |].
  - intros e' [->|He']%elem_of_cons; [|by apply Ho2]. eapply outcome_same; [exact Ho1|by apply Hs2].
  - rewrite fmap_cons. intros rid [Hne Hrest]%not_elem_of_cons. destruct (Hs1 rid Hne) as [H1 H2].
    destruct (Hs2 rid Hrest) as [H3 H4]. split; congruence.
  - rewrite Hrs2, Hrs1, filter_cons, <-app_assoc. f_equal. destruct (decide (e.1.1 ∉ noops)) as [Hi|Hi].
    + by rewrite bool_decide_eq_false_2.
    + apply dec_stable in Hi. by rewrite bool_decide_eq_true_2.
Qed.
End child.
