(* ===== verification/SMCPlan.v ===== *)
(** * The whole of a resampling plan

    [_apply_power_smc_resample_plan] on a scheduler whose state is sound: it
    returns, and what it leaves of every child. *)

From stdpp Require Import gmap sets.
From S2P Require Import Prelude Arith PowerSMC PowerSMCProps PowerSMCGroup FreeQueue BlockHash Request HashChain BlockPool PoolProps KVCacheSpec SingleType Ownership SingleTypeProps CachingProps CacheHit Coordinator KVCacheManager CoordinatorProps SlotPhases KVProps KVReach KVInvariant EncoderCache EncoderProps EncoderSafety SMCScheduler SMCMirror SMCBlocks SMCApply.
Open Scope Z_scope.

Section scan.
Context {A : Arith} `{HashEnv}.
Context (s0 : Scheduler) (children : gmap Z string) (anc : list Z) (can : bool).
Abbreviation kv0 := (kv_cache_manager s0).
Abbreviation source := (source s0 children can).

(** The plan's entries whose child request is there and goes on. *)
Definition live (entry : Z * list Z) : option (Z * list Z * string) :=
  match children !! entry.1 with
  | Some rid =>
      match requests s0 !! rid with
      | Some r => if is_finished (sr_req r) then None else Some (entry, rid)
      | None => None
      end
  | None => None
  end.
(** ... and the ones that stay as they are. *)
Definition stays (e : Z * list Z * string) : bool :=
  match requests s0 !! e.2, py_nth anc e.1.1 with
  | Some r, Some a => child_resample_is_scheduler_noop r e.1.2 (a =? e.1.1)
  | _, _ => false
  end.

(** What the scan has found after the entries [es]. *)
Record scanned (es : list (Z * list Z)) (sc : PlanScan) : Prop := {
  sn_active : active sc = omap live es;
  sn_noops : noops sc = (filter (λ e, stays e = true) (omap live es)).*1.*1;
  sn_all : all_noop sc = true → ∀ e, e ∈ omap live es → stays e = true;
  sn_needed : ∀ a arid, (a, arid) ∈ needed sc → source a = Some arid;
  sn_covers : ∀ e a arid, e ∈ omap live es → stays e = false → py_nth anc e.1.1 = Some a →
    source a = Some arid → (a, arid) ∈ needed sc
}.

Lemma omap_snoc {B C} (f : B → option C) l x : omap f (l ++ [x]) = omap f l ++ match f x with Some y => [y] | None => [] end.
Proof. rewrite omap_app. cbn. by destruct (f x). Qed.

Lemma existsb_key a (l : list (Z * string)) : existsb (λ n, n.1 =? a) l = true → ∃ b, (a, b) ∈ l.
Proof.
  intros ([a' b] & Hin & Heq)%existsb_exists. apply Z.eqb_eq in Heq. cbn in Heq. subst a'.
  exists b. by apply list_elem_of_In.
Qed.

Lemma scan_step es sc entry : scanned es sc →
  (∀ e, live entry = Some e → is_Some (py_nth anc entry.1)) →
  ok (scan_child children anc can sc entry) s0 (λ sc' s', s' = s0 ∧ scanned (es ++ [entry]) sc').
Proof.
  intros [Ha Hn Hall Hnd Hcov] Hanc. destruct entry as [i toks]. unfold scan_child. apply ok_bind, ok_gets.
  pose proof (omap_snoc live es (i, toks)) as Hsnoc.
  assert (live (i, toks) = match children !! i with
    | Some rid => match requests s0 !! rid with
                  | Some r => if is_finished (sr_req r) then None else Some (i, toks, rid) | None => None end
    | None => None end) as Hlive by done.
  rewrite Hlive in Hsnoc, Hanc. clear Hlive. cbn [fst] in Hanc.
  assert (∀ f, omap live (es ++ [(i, toks)]) = omap live es → scanned (es ++ [(i, toks)]) (MkScan (active sc) (noops sc) (needed sc) f ) ∨ f = true) as Hskip.
  { intros [] Hs; [by right|left]. constructor; cbn [active noops needed all_noop]; rewrite ?Hs; done. }
  destruct (children !! i) as [rid|]; [|rewrite app_nil_r in Hsnoc; apply ok_ret; split; [done|by destruct (Hskip false Hsnoc)]].
  destruct (requests s0 !! rid) as [r|] eqn:Hr; [|rewrite app_nil_r in Hsnoc; apply ok_ret; split; [done|by destruct (Hskip false Hsnoc)]].
  destruct (is_finished (sr_req r)); [rewrite app_nil_r in Hsnoc; apply ok_ret; split; [done|by destruct (Hskip false Hsnoc)]|].
  destruct (Hanc _ eq_refl) as [a Hai]. rewrite Hai. cbn [or_raise]. apply ok_bind, ok_ret.
  set (e := ((i, toks), rid)) in *.
  assert (stays e = child_resample_is_scheduler_noop r toks (a =? i)) as Hst by (unfold stays; cbn; by rewrite Hr, Hai).
  destruct (child_resample_is_scheduler_noop r toks (a =? i)) eqn:Hnoop; apply ok_ret; (split; [done|]).
  - constructor; cbn [active noops needed all_noop]; rewrite ?Hsnoc.
    + by rewrite Ha.
    + rewrite filter_app, filter_cons_True, filter_nil, !fmap_app, Hn by done. done.
    + intros Hal e' [He'|He'%list_elem_of_singleton]%elem_of_app; [by apply Hall|by subst e'].
    + done.
    + intros e' a' arid [He'|He'%list_elem_of_singleton]%elem_of_app; [by apply Hcov|]. subst e'. by rewrite Hst.
  - set (nd := if can then _ else _).
    assert ((∀ x, x ∈ needed sc → x ∈ nd) ∧ (∀ arid, source a = Some arid → (a, arid) ∈ nd) ∧
      (∀ a' arid, (a', arid) ∈ nd → source a' = Some arid)) as (Hsub & Hnew & Hold).
    { unfold nd, SMCApply.source. destruct can eqn:Hcan; [|by split_and!; [|done|]].
      destruct (children !! a) as [ar|] eqn:Hca; [|by split_and!].
      assert (SMCApply.source s0 children true a = if bool_decide (requests s0 !! ar ≠ None) then Some ar else None) as Hsa
        by (unfold SMCApply.source; by rewrite Hca).
      destruct (bool_decide (requests s0 !! ar ≠ None)) eqn:Hb; cbn [andb]; [|by split_and!].
      destruct (existsb _ (needed sc)) eqn:Hex; cbn [negb].
      - split_and!; [done| |done]. intros arid [= <-]. apply existsb_key in Hex as [b Hin].
        pose proof (Hnd _ _ Hin) as Hb'. rewrite Hsa in Hb'. by injection Hb' as <-.
      - split_and!.
        + intros x Hx. apply elem_of_app. by left.
        + intros arid [= <-]. apply elem_of_app. right. by apply list_elem_of_singleton.
        + intros a' arid [Hin|Hin%list_elem_of_singleton]%elem_of_app; [|injection Hin as -> ->; by rewrite Hca, Hb].
          by specialize (Hnd _ _ Hin). }
    constructor; cbn [active noops needed all_noop]; rewrite ?Hsnoc.
    + by rewrite Ha.
    + rewrite filter_app, filter_cons_False, filter_nil, app_nil_r by (by rewrite Hst). done.
    + done.
    + done.
    + intros e' a' arid [He'|He'%list_elem_of_singleton]%elem_of_app Hs' Ha' Hsrc; [by eapply Hsub, Hcov|].
      subst e'. cbn in Ha'. rewrite Hai in Ha'. injection Ha' as <-. by apply Hnew.
Qed.

Lemma scan_ok es : (∀ entry e, entry ∈ es → live entry = Some e → is_Some (py_nth anc entry.1)) →
  ok (fold_each (scan_child children anc can) es (MkScan [] [] [] true)) s0 (λ sc s', s' = s0 ∧ scanned es sc).
Proof.
  intros Hanc.
  assert (∀ pre post sc, scanned pre sc → es = pre ++ post →
    ok (fold_each (scan_child children anc can) post sc) s0 (λ sc s', s' = s0 ∧ scanned es sc)) as Hgo.
  { intros pre post. revert pre. induction post as [|entry post IH]; intros pre sc Hsc Hes.
    { apply ok_ret. split; [done|]. by rewrite Hes, app_nil_r. }
    cbn [fold_each]. apply ok_bind. eapply ok_mono; [apply (scan_step pre sc entry Hsc)|].
    - intros e. apply Hanc. rewrite Hes. apply elem_of_app. right. by left.
    - intros sc' s' [-> Hsc']. apply (IH (pre ++ [entry])); [done|]. by rewrite <-app_assoc. }
  apply (Hgo [] es); [|done]. constructor; try done; [by intros _ e ?%elem_of_nil|by intros a arid ?%elem_of_nil|].
  by intros e a arid ?%elem_of_nil.
Qed.

(** Snapshots of the ancestors found. *)
Lemma snapshots_ok l h nd : kv_rep kv0 l h →
  ∃ snaps, map_each snapshot_of nd s0 = (Ok snaps, s0) ∧
    ∀ a, match find (λ n, n.1 =? a) nd with
         | Some (_, arid) => ∃ b, find (λ x, x.1 =? a) snaps = Some (a, (b, cached_counts arid kv0)) ∧ kb_blocks b = tables arid kv0
         | None => find (λ x, x.1 =? a) snaps = None
         end.
Proof.
  intros Hrep. induction nd as [|[a0 arid0] nd (snaps & Hrun & Hfind)]; [by exists []|].
  destruct (kv_get_blocks_eq kv0 l h arid0 Hrep) as (b & Hb & Hkb).
  exists ((a0, (b, cached_counts arid0 kv0)) :: snaps). split.
  - cbn [map_each]. rewrite (bind_eq _ _ s0 (a0, (b, cached_counts arid0 kv0)) s0).
    + by rewrite (bind_eq _ _ _ _ _ Hrun).
    + assert (∀ {B} (m : M KVCacheManager B) x, m kv0 = (Ok x, kv0) → on_kv m s0 = (Ok x, s0)) as Hon.
      { intros B m x Hm. unfold on_kv, zoom. rewrite Hm. by destruct s0. }
      unfold snapshot_of. rewrite (bind_eq _ _ _ _ _ (Hon _ _ _ Hb)).
      by rewrite (bind_eq _ _ _ _ _ (Hon _ _ _ (kv_get_num_cached_eq kv0 arid0))).
  - intros a. cbn [find fst]. destruct (Z.eqb_spec a0 a) as [->|Hne]; [by exists b|apply Hfind].
Qed.

Lemma find_needed nd a : (∀ a arid, (a, arid) ∈ nd → source a = Some arid) →
  (∀ arid, source a = Some arid → (a, arid) ∈ nd) →
  find (λ n : Z * string, n.1 =? a) nd = (λ arid, (a, arid)) <$> source a.
Proof.
  intros Hnd Hcov. destruct (find (λ n : Z * string, n.1 =? a) nd) as [[a' arid]|] eqn:Hf.
  - apply find_some in Hf as [Hin Heq]. apply Z.eqb_eq in Heq. cbn in Heq. subst a'.
    by rewrite (Hnd a arid) by (by apply list_elem_of_In).
  - destruct (source a) as [arid|]; [|done]. exfalso.
    specialize (Hcov arid eq_refl). apply list_elem_of_In in Hcov.
    pose proof (find_none _ _ Hf _ Hcov) as Hn. cbn in Hn. by rewrite Z.eqb_refl in Hn.
Qed.
End scan.

Lemma filter_none {B} (P : B → Prop) `{∀ x, Decision (P x)} (l : list B) : (∀ x, x ∈ l → ¬ P x) → filter P l = [].
Proof.
  induction l as [|x l IH]; intros Hl; [done|]. rewrite filter_cons_False by (apply Hl; left). apply IH.
  intros y Hy. apply Hl. by right.
Qed.

Lemma elem_of_enumerate {B} (l : list B) i x : (i, x) ∈ enumerate l → 0 ≤ i ∧ l !! Z.to_nat i = Some x.
Proof.
  unfold enumerate. intros [j Hj]%list_elem_of_lookup. apply lookup_zip_with_Some in Hj as (i' & x' & [= <- <-] & Hi & Hx).
  unfold range in Hi. apply lookup_seqZ in Hi as [-> Hj]. split; [lia|]. by replace (Z.to_nat (0 + Z.of_nat j)) with j by lia.
Qed.

Section plan.
Context {A : Arith} `{HashEnv}.
Context (set_order : gset Z → list Z) (set_order_perm : ∀ X, set_order X ≡ₚ elements X).
Context (sz : string → Z) (num_inputs : string → Z) (sz_nonneg : ∀ h, 0 ≤ sz h).

(** The children a plan is applied to, and whether blocks may be shared. *)
Definition plan_children (s : Scheduler) (pid : string) : gmap Z string := default ∅ (power_smc_group_children s !! pid).
Definition plan_entries (s : Scheduler) (pid : string) (plan : PowerSMCResamplePlan) : list (Z * list Z * string) :=
  omap (live s (plan_children s pid)) (enumerate (particle_token_ids plan)).
Definition may_alias (s : Scheduler) (g : PowerSMCGroupManager) : bool :=
  kv_cow (config (constants g)) && power_smc_kv_alias_supported s.

Lemma stays_in_noops s anc children toks sc e :
  scanned s children anc (may_alias s sc.1) (enumerate toks) sc.2 → e ∈ omap (live s children) (enumerate toks) →
  bool_decide (e.1.1 ∈ noops sc.2) = stays s anc e.
Proof.
  intros Hsc He. rewrite (sn_noops _ _ _ _ _ _ Hsc). destruct (stays s anc e) eqn:Hst.
  - apply bool_decide_eq_true_2. apply list_elem_of_fmap. exists e.1. split; [done|].
    apply list_elem_of_fmap. exists e. split; [done|]. by apply list_elem_of_filter.
  - apply bool_decide_eq_false_2. intros ([i t] & Hi & ([[i' t'] rid'] & [= -> ->] & [Hs' He']%list_elem_of_filter)%list_elem_of_fmap)%list_elem_of_fmap.
    cbn in Hi. subst i'. destruct e as [[i t] rid]. cbn [fst] in *.
    apply list_elem_of_omap in He as ([i1 t1] & H1 & L1). apply list_elem_of_omap in He' as ([i2 t2] & H2 & L2).
    assert (∀ i t i' t' rid, live s children (i, t) = Some (i', t', rid) → i' = i ∧ t' = t ∧ children !! i = Some rid) as Hlive.
    { intros j tj j' tj' rj. unfold live. cbn. destruct (children !! j) as [r|]; [|done]. destruct (requests s !! r) as [q|]; [|done].
      destruct (is_finished _); [done|]. by intros [= <- <- <-]. }
    destruct (Hlive _ _ _ _ _ L1) as (-> & -> & C1). destruct (Hlive _ _ _ _ _ L2) as (<- & -> & C2).
    apply elem_of_enumerate in H1 as [_ H1], H2 as [_ H2]. assert (t2 = t1) as -> by congruence.
    assert (rid' = rid) as -> by congruence. congruence.
Qed.

Lemma snapshot_event_ok s l h suffix : kv_rep (kv_cache_manager s) l h → ∃ e, kv_pool_snapshot suffix s = (Ok e, s).
Proof.
  intros (Hr & _). unfold kv_pool_snapshot. rewrite (bind_eq (gets _) _ _ _ _ eq_refl).
  rewrite (bind_eq _ _ s (len l) s); [by eexists|].
  unfold on_kv, zoom. rewrite (free_blocks_eq _ _ _ _ Hr). by destruct s.
Qed.
Lemma add_snapshot_ok s l h diag e suffix : kv_rep (kv_cache_manager s) l h →
  ∃ e', add_kv_pool_snapshot diag e suffix s = (Ok e', s).
Proof.
  intros Hr. unfold add_kv_pool_snapshot. destruct diag; [|by eexists].
  destruct (snapshot_event_ok s l h suffix Hr) as [e' He']. rewrite (bind_eq _ _ _ _ _ He'). by eexists.
Qed.

(** Recording the event touches only the group and the event. *)
Lemma record_event_ok s pid g e : power_smc_group_managers s !! pid = Some g →
  ok (on_group pid (record_kv_resample_event e) ;;; modify (set_last_event (Some e))) s (λ _ s',
    requests s' = requests s ∧ kv_cache_manager s' = kv_cache_manager s ∧
    encoder_cache_manager s' = encoder_cache_manager s).
Proof.
  intros Hg. apply ok_bind. unfold on_group. apply ok_bind, ok_gets. rewrite Hg. cbn [or_raise].
  apply ok_bind, ok_ret. rewrite (surjective_pairing (record_kv_resample_event e g)).
  apply ok_bind, ok_modify. unfold ok, of_res. done.
Qed.

Lemma plan_snapshots s l h g sc children plan es : kv_rep (kv_cache_manager s) l h →
  scanned s children (ancestors plan) (may_alias s g) (enumerate (particle_token_ids plan)) sc →
  es = omap (live s children) (enumerate (particle_token_ids plan)) →
  (∀ e, e ∈ es → bool_decide (e.1.1 ∈ noops sc) = stays s (ancestors plan) e) →
  ∃ snaps, (if may_alias s g then map_each snapshot_of (needed sc) else ret []) s = (Ok snaps, s) ∧
    ∀ e, e ∈ es → snapshots_for s children (ancestors plan) (may_alias s g) (noops sc) snaps e.
Proof.
  intros Hrep Hsc -> Hst. destruct (snapshots_ok s l h (needed sc) Hrep) as (snaps & Hrun & Hfind).
  exists (if may_alias s g then snaps else []). split; [by destruct (may_alias s g)|].
  intros e He a Hno Ha. destruct (source s children (may_alias s g) a) as [arid|] eqn:Hsrc.
  - assert (may_alias s g = true) as Hal by (unfold source in Hsrc; by destruct (may_alias s g)). rewrite Hal.
    specialize (Hfind a). rewrite (find_needed s children (may_alias s g)) in Hfind.
    + by rewrite Hsrc in Hfind.
    + apply (sn_needed _ _ _ _ _ _ Hsc).
    + intros arid' Harid'. apply (sn_covers _ _ _ _ _ _ Hsc e); try done. rewrite <-(Hst e He).
      by apply bool_decide_eq_false_2.
  - destruct (may_alias s g) eqn:Hal; [|done]. specialize (Hfind a). rewrite <-Hal in Hsrc.
    rewrite (find_needed s children (may_alias s g)), Hsrc in Hfind; [done| |by rewrite Hsrc].
    rewrite Hal. apply (sn_needed _ _ _ _ _ _ Hsc).
Qed.

(** What a plan leaves, as a postcondition. *)
Definition plan_applied (s : Scheduler) (h : gmap Z bytes) (pid : string) (g : PowerSMCGroupManager)
    (plan : PowerSMCResamplePlan) (rs : list string) (s' : Scheduler) : Prop :=
  let es := plan_entries s pid plan in
  sound sz num_inputs s' h ∧ rs = (filter (λ e, stays s (ancestors plan) e = false) es).*2 ∧
  (∀ e, e ∈ es → outcome s (plan_children s pid) (ancestors plan) (may_alias s g) (sched_block_size s)
     (stays s (ancestors plan) e) s' e) ∧
  ∀ rid, rid ∉ es.*2 → same_for rid s s'.

(** An event recorded afterwards changes none of it. *)
Lemma plan_applied_same s h pid g plan rs s1 s2 : plan_applied s h pid g plan rs s1 →
  requests s2 = requests s1 → kv_cache_manager s2 = kv_cache_manager s1 →
  encoder_cache_manager s2 = encoder_cache_manager s1 → plan_applied s h pid g plan rs s2.
Proof.
  intros (Hsd & Hrs & Ho & Hs) Hr Hk He. split_and!.
  - unfold sound. by rewrite Hk, He.
  - done.
  - intros e Hin. eapply outcome_same; [by apply Ho|]. split; by rewrite ?Hr, ?Hk.
  - intros rid Hrid. destruct (Hs rid Hrid). split; by rewrite ?Hr, ?Hk.
Qed.

(** When every particle stays, nothing happens. *)
Lemma noop_plan_applied s h pid g plan : sound sz num_inputs s h →
  (∀ e, e ∈ plan_entries s pid plan → stays s (ancestors plan) e = true) → plan_applied s h pid g plan [] s.
Proof.
  intros Hsd Hstay. split_and!; [done| | |done].
  - rewrite filter_none; [done|]. intros e Hin. by rewrite Hstay.
  - intros [[i t] rid] Hin. rewrite (Hstay _ Hin). by intros r a Hr _.
Qed.

Section application.
Context (s : Scheduler) (h : gmap Z bytes) (pid : string) (g : PowerSMCGroupManager) (plan : PowerSMCResamplePlan).
Abbreviation es := (plan_entries s pid plan).
Context (Hsound : sound sz num_inputs s h) (Hbs : 0 < sched_block_size s).
Context (Hg : power_smc_group_managers s !! pid = Some g).
Context (Hnd : NoDup es.*2).
Context (Hready : ∀ e, e ∈ es → entry_ready sz num_inputs s (plan_children s pid) (ancestors plan) (may_alias s g) (sched_block_size s) e).

(** The scan finds an ancestor for every entry. *)
Lemma entries_have_ancestors entry e : entry ∈ enumerate (particle_token_ids plan) →
  live s (plan_children s pid) entry = Some e → is_Some (py_nth (ancestors plan) entry.1).
Proof.
  intros Hin Hl. assert (e ∈ es) as He by (apply list_elem_of_omap; by exists entry).
  pose proof (Hready e He) as Hrd. destruct e as [[i t] rid]. destruct Hrd as (r & a & _ & _ & Ha & _).
  unfold live in Hl. destruct (plan_children s pid !! entry.1); [|done]. destruct (requests s !! _); [|done].
  destruct (is_finished _); [done|]. injection Hl as -> _. by exists a.
Qed.

(** The second half of the plan: the children one by one. *)
Lemma children_applied sc : scanned s (plan_children s pid) (ancestors plan) (may_alias s g) (enumerate (particle_token_ids plan)) sc →
  ok (let* snapshots := if may_alias s g then map_each snapshot_of (needed sc) else ret [] in
      fold_each (apply_child set_order (ancestors plan) snapshots (noops sc) (may_alias s g) (sched_block_size s)) (active sc) no_counts)
    s (λ ct s1, plan_applied s h pid g plan (resampled ct) s1 ∧ power_smc_group_managers s1 !! pid = Some g).
Proof.
  intros Hsc. pose proof Hsound as (Hreach & [l Hrep] & Henc).
  pose proof (sn_active _ _ _ _ _ _ Hsc) as Hact. fold es in Hact.
  assert (∀ e, e ∈ es → bool_decide (e.1.1 ∈ noops sc) = stays s (ancestors plan) e) as Hst
    by (intros e; by apply (stays_in_noops s (ancestors plan) (plan_children s pid) (particle_token_ids plan) (g, sc) e Hsc)).
  destruct (plan_snapshots s l h g sc (plan_children s pid) plan es Hrep Hsc eq_refl Hst) as (snaps & Hsnaps & Hfor).
  apply ok_bind. eapply ok_eq; [exact Hsnaps|]. rewrite Hact. eapply ok_mono.
  { apply (apply_children_ok set_order set_order_perm sz num_inputs sz_nonneg s l h (plan_children s pid) (ancestors plan) (may_alias s g)
      (sched_block_size s) (noops sc) snaps Hrep Hbs es s no_counts).
    1: by constructor. 1: done. intros e He. split_and!; [by apply Hready|by apply Hfor|done]. }
  intros ct s1 ([Hsd1 _ _ Hg1 _] & Ho1 & Hs1 & Hrs1). split; [|by rewrite Hg1]. cbn [resampled no_counts app] in Hrs1.
  split_and!; [done| | |done].
  - rewrite Hrs1. f_equal. apply filter_agree. intros e He. rewrite <-(Hst e He). by rewrite bool_decide_eq_false.
  - intros e He. rewrite <-(Hst e He). by apply Ho1.
Qed.

Lemma apply_plan_ok : last_resample_plan g = Some plan →
  ok (apply_power_smc_resample_plan set_order pid) s (plan_applied s h pid g plan).
Proof.
  intros Hplan. pose proof Hsound as (Hreach & [l Hrep] & Henc).
  unfold apply_power_smc_resample_plan. apply ok_bind, ok_gets. rewrite Hg. cbn [or_raise]. apply ok_bind, ok_ret.
  rewrite Hplan. apply ok_bind, ok_gets. cbv zeta. fold (plan_children s pid). fold (may_alias s g).
  apply ok_bind. match goal with |- ok (add_kv_pool_snapshot ?d ?e1 ?x) _ _ =>
    destruct (add_snapshot_ok s l h d e1 x Hrep) as [e He] end. eapply ok_eq; [exact He|].
  apply ok_bind. eapply ok_mono; [apply (scan_ok s (plan_children s pid) (ancestors plan) (may_alias s g)), entries_have_ancestors|].
  intros sc s' [-> Hsc]. destruct (all_noop sc) eqn:Hall.
  - apply ok_bind. match goal with |- ok (add_kv_pool_snapshot ?d ?e1 ?x) _ _ =>
      destruct (add_snapshot_ok s l h d e1 x Hrep) as [e' He'] end. eapply ok_eq; [exact He'|].
    pose proof (record_event_ok s pid g e' Hg) as Hrec. apply ok_bind_inv in Hrec. apply ok_bind.
    eapply ok_mono; [exact Hrec|]. intros [] s1 Hs1. apply ok_bind. eapply ok_mono; [exact Hs1|].
    intros _ s2 (Hr & Hk & He2). apply ok_ret. eapply plan_applied_same; [|done..].
    apply noop_plan_applied; [done|]. exact (sn_all _ _ _ _ _ _ Hsc Hall).
  - pose proof (children_applied sc Hsc) as Hch. apply ok_bind_inv in Hch. apply ok_bind.
    eapply ok_mono; [exact Hch|]. intros snaps s1 Hs1. apply ok_bind. eapply ok_mono; [exact Hs1|].
    intros ct s2 (Happ & Hg2). apply ok_bind.
    apply (ok_mono _ _ (λ _ s3, requests s3 = requests s2 ∧ kv_cache_manager s3 = kv_cache_manager s2 ∧
      encoder_cache_manager s3 = encoder_cache_manager s2)).
    { destruct (bool_decide (resampled ct = [])); [by apply ok_ret|]. pose proof Happ as ((_ & [l2 Hrep2] & _) & _).
      apply ok_bind. match goal with |- ok (add_kv_pool_snapshot ?d ?e1 ?x) _ _ =>
        destruct (add_snapshot_ok s2 l2 h d e1 x Hrep2) as [e' He'] end. eapply ok_eq; [exact He'|].
      by apply (record_event_ok s2 pid g). }
    intros _ s3 (Hr & Hk & He3). apply ok_ret. by eapply plan_applied_same.
Qed.
End application.

(** C6: applying a resampling plan to children the scheduler can reset always
    returns, and leaves the KV-cache manager in a reachable state. A child
    whose tokens and ancestor stay the same is left alone. Every other one is
    reset to the plan's tokens and waits as preempted; with aliasing allowed,
    an ancestor at hand and long enough tables it shares, in every group, the
    leading blocks its ancestor had before the plan, as many as the tokens but
    the last fill, and counts them as computed; otherwise it keeps no block and
    starts anew. No other request's tokens or blocks change. *)
Theorem apply_plan_spec s h pid g plan :
  let es := plan_entries s pid plan in
  sound sz num_inputs s h → 0 < sched_block_size s →
  power_smc_group_managers s !! pid = Some g → last_resample_plan g = Some plan → NoDup es.*2 →
  (∀ e, e ∈ es → entry_ready sz num_inputs s (plan_children s pid) (ancestors plan) (may_alias s g) (sched_block_size s) e) →
  ok (apply_power_smc_resample_plan set_order pid) s (plan_applied s h pid g plan).
Proof. intros es Hsound Hbs Hg Hplan Hnd Hready. by apply apply_plan_ok. Qed.
End plan.

(** ** A plan that copies particle 0 to particle 1 *)

Section demo.
Let env : HashEnv := injective_env.
Existing Instance env.
#[local] Existing Instance PowerSMCGroup.demo_arith.

(** The manager after ten prompt tokens of request [r] got their slots. *)
Definition plan_kv : KVCacheManager := Eval vm_compute in (run_kv_op KVInvariant.demo_call KVInvariant.demo_kv).2.

Lemma plan_kv_reachable : kv_reachable plan_kv.
Proof.
  destruct (ok_inv _ _ _ (legal_kv_step KVInvariant.demo_kv (range 1 12) ∅ KVInvariant.demo_call demo_kv_rep (conj KVInvariant.demo_callable (Z.le_refl 0))))
    as ([] & kv' & Hrun & _).
  assert (kv' = plan_kv) as -> by (assert ((run_kv_op KVInvariant.demo_call KVInvariant.demo_kv).2 = plan_kv) as <- by (vm_compute; reflexivity);
    by rewrite Hrun).
  eapply (kv_call _ (range 1 12) ∅ KVInvariant.demo_call); [exact demo_kv_reachable|exact demo_kv_rep|exact (conj KVInvariant.demo_callable (Z.le_refl 0))|exact Hrun].
Qed.

Definition plan_request (rid : string) (out : list Z) (computed : Z) : Request :=
  MkRequest rid 0 0 None None None None [] (Some (replicate 10 7)) None ∅ 10 out
    (replicate 10 7 ++ out) [] computed 0 16 RUNNING None [] (Some 4) false.
Definition plan_child (rid : string) (i : Z) (out : list Z) (computed : Z) : SRequest :=
  MkSRequest (plan_request rid out computed) 0 0 false (Some i) (Some PowerSMCGroup.demo_config) (Some (MkChild "req" i)) 0 false false 0 false.
Definition copy_plan : PowerSMCResamplePlan := MkPlan [0; 0] [[7]; [7]].
Definition plan_group : PowerSMCGroupManager :=
  PowerSMC.MkGroup (group_constants PowerSMCGroup.demo_config) demo_rng [] (MkGStats 0 [] [] [] [] 0 0 ∅) 0 (Some copy_plan) None None.
Definition plan_sched : Scheduler :=
  MkSched (<["q"%string := plan_child "q" 1 [9] 10]> {["r"%string := plan_child "r" 0 [7] 11]})
    plan_kv (EncoderCacheManager_init 10) ∅ {["req"%string := plan_group]}
    {["req"%string := <[1 := "q"%string]> {[0 := "r"%string]}]} 4 [4; 4] None 0.

Definition one_set_order (X : gset Z) : list Z := elements X.
Definition demo_sz (h : string) : Z := 0.

Lemma plan_sound h : (∃ l, kv_rep plan_kv l h) → sound demo_sz demo_sz plan_sched h.
Proof.
  intros Hrep. split_and!; [exact plan_kv_reachable|exact Hrep|]. by apply init_inv.
Qed.

Lemma plan_entries_eq : plan_entries plan_sched "req" copy_plan = [(0, [7], "r"%string); (1, [7], "q"%string)].
Proof. vm_compute. reflexivity. Qed.

Lemma plan_shareable : shareable plan_kv "r" 2 ∧ even_tables plan_kv "r".
Proof.
  assert (tables "r" plan_kv = [[1; 2; 3]; [4; 5; 6]]) as Ht by (vm_compute; reflexivity).
  assert (cached_counts "r" plan_kv = [2; 2]) as Hc by (vm_compute; reflexivity).
  assert (∀ b, b ∈ [1; 2; 4; 5] → PoolProps.hash_of (cs_pool (coordinator plan_kv)) b ≠ None) as Hh
    by (apply (proj1 (Forall_forall _ _)), (bool_decide_unpack _); vm_compute; exact I).
  split.
  - intros i bs n. rewrite Ht, Hc. destruct i as [|[|i]]; intros [= <-] [= <-] _; (split; [done|]);
      intros b Hb _; apply Hh; cbn in Hb; set_solver.
  - intros bs bs'. rewrite Ht. intros Hb Hb'.
    assert (∀ x : list loc, x ∈ [[1; 2; 3]; [4; 5; 6]] → len x = 3) as Hlen by (intros x Hx; set_solver).
    by rewrite (Hlen _ Hb), (Hlen _ Hb').
Qed.

Lemma plan_child_ready i rid r : requests plan_sched !! rid = Some r → request_id (sr_req r) = rid →
  py_nth (ancestors copy_plan) i = Some 0 → num_prompt_tokens (sr_req r) = 10 →
  resettable (sr_req r) → fitting demo_sz demo_sz (sr_req r) →
  entry_ready demo_sz demo_sz plan_sched (plan_children plan_sched "req") (ancestors copy_plan)
    (may_alias plan_sched plan_group) (sched_block_size plan_sched) (i, [7], rid).
Proof.
  intros Hr Hid Ha Hn Hreset Hfit. exists r, 0. split_and!; try done. intros arid Hsrc _.
  assert (source plan_sched (plan_children plan_sched "req") (may_alias plan_sched plan_group) 0 = Some "r"%string) as Hs by reflexivity.
  rewrite Hs in Hsrc. injection Hsrc as <-. unfold alias_blocks. rewrite Hn. exact plan_shareable.
Qed.

Lemma plan_request_ok rid out c : resettable (plan_request rid out c) ∧ fitting demo_sz demo_sz (plan_request rid out c).
Proof.
  split; [|by split; [|intros f ?%elem_of_nil]]. split; [done|]. intros bs [= <-]. split_and!; [done|split; constructor|].
  intros s e d rows Hl. cbn in Hl. by rewrite lookup_empty in Hl.
Qed.

Lemma plan_ready e : e ∈ plan_entries plan_sched "req" copy_plan →
  entry_ready demo_sz demo_sz plan_sched (plan_children plan_sched "req") (ancestors copy_plan)
    (may_alias plan_sched plan_group) (sched_block_size plan_sched) e.
Proof.
  rewrite plan_entries_eq. intros [->|[->|[]%elem_of_nil]%elem_of_cons]%elem_of_cons.
  - apply (plan_child_ready 0 "r" (plan_child "r" 0 [7] 11) eq_refl); try done; apply plan_request_ok.
  - apply (plan_child_ready 1 "q" (plan_child "q" 1 [9] 10) eq_refl); try done; apply plan_request_ok.
Qed.

(** Particle 0 stays; particle 1 shares both full blocks of its prompt. *)
Lemma apply_plan_spec_witness :
  ∃ rs s', apply_power_smc_resample_plan one_set_order "req" plan_sched = (Ok rs, s') ∧ rs = ["q"%string] ∧
    tables "q" (kv_cache_manager s') = take 2 <$> tables "r" plan_kv ∧
    num_computed_tokens <$> (sr_req <$> requests s' !! "q"%string) = Some 8.
Proof.
  destruct (kv_reachable_rep plan_kv plan_kv_reachable) as (l & h & Hrep).
  destruct (ok_inv _ _ _ (apply_plan_spec one_set_order (λ X, reflexivity _) demo_sz demo_sz (λ h, Z.le_refl 0)
    plan_sched h "req" plan_group copy_plan (plan_sound h (ex_intro _ l Hrep)) eq_refl eq_refl eq_refl
    ltac:(rewrite plan_entries_eq; apply (bool_decide_unpack _); vm_compute; exact I)
    plan_ready)) as (rs & s' & Hrun & _ & Hrs & Ho & _).
  exists rs, s'. split; [exact Hrun|]. rewrite plan_entries_eq in Hrs, Ho. split; [rewrite Hrs; vm_compute; reflexivity|].
  assert (tables "q" (kv_cache_manager (apply_power_smc_resample_plan one_set_order "req" plan_sched).2) = take 2 <$> tables "r" plan_kv)
    as Ht by (vm_compute; reflexivity).
  assert (num_computed_tokens <$> (sr_req <$> requests (apply_power_smc_resample_plan one_set_order "req" plan_sched).2 !! "q"%string) = Some 8)
    as Hc by (vm_compute; reflexivity).
  rewrite Hrun in Ht, Hc. split; [exact Ht|exact Hc].
Defined.
End demo.
