(* ===== verification/EncoderInputs.v ===== *)
(** * The encoder inputs of a step

    Which multi-modal inputs of a request the encoder must process before the
    tokens of a step: [Scheduler._try_schedule_encoder_inputs] and
    [Scheduler._free_encoder_inputs] (src/vllm/vllm/v1/core/sched/scheduler.py),
    [get_mm_features_in_window] (src/vllm/vllm/multimodal/utils.py) and
    [PlaceholderRange.get_embeds_indices_in_range]
    (src/vllm/vllm/multimodal/inputs.py).  There is no encoder-cache connector. *)

From stdpp Require Import gmap sets sorting.
From S2P Require Import Prelude FreeQueue BlockHash Request EncoderCache.
Open Scope Z_scope.

(** ** Embeddings of a placeholder *)

Fixpoint cumsum (acc : Z) (mask : list bool) : list Z :=
  match mask with
  | [] => []
  | b :: mask' => (acc + Z.b2z b) :: cumsum (acc + Z.b2z b) mask'
  end.
Definition embeds_cumsum (p : PlaceholderRange) : option (list Z) := cumsum 0 <$> mm_is_embed p.

Definition get_embeds_indices_in_range {S} (p : PlaceholderRange) (start_idx end_idx : Z) : M S (Z * Z) :=
  match embeds_cumsum p with
  | None => ret (start_idx, end_idx)
  | Some sums =>
      let* embeds_start_idx :=
        if 0 <? start_idx then or_raise IndexError (py_nth sums (start_idx - 1)) else ret 0 in
      let* embeds_end_idx :=
        if 0 <? end_idx then or_raise IndexError (py_nth sums (end_idx - 1)) else ret 0 in
      ret (embeds_start_idx, embeds_end_idx)
  end.

(** ** The features in a window *)

(** [bisect.bisect_left] of the standard library, with a key *)
Fixpoint bisect_loop {A} (fuel : nat) (key : A → Z) (a : list A) (x lo hi : Z) : res Z :=
  if lo <? hi then
    match fuel with
    | O => Err OutOfFuel
    | S fuel =>
        let mid := (lo + hi) / 2 in
        match py_nth a mid with
        | None => Err IndexError
        | Some y => if key y <? x then bisect_loop fuel key a x (mid + 1) hi
                    else bisect_loop fuel key a x lo mid
        end
    end
  else Ok lo.
Definition bisect_left {A} (key : A → Z) (a : list A) (x : Z) : res Z :=
  bisect_loop (length a) key a x 0 (len a).

Definition end_pos (f : MultiModalFeatureSpec) : Z := mm_offset (mm_position f) + mm_length (mm_position f).
Definition get_mm_features_in_window (mm_features : list MultiModalFeatureSpec) (start_ end_ : Z) : res (Z * Z) :=
  rbind (bisect_left end_pos mm_features (start_ + 1)) (λ lo,
  rbind (bisect_left (λ f, mm_offset (mm_position f)) mm_features end_) (λ hi, Ok (lo, hi))).

(** ** The encoder cache as the scheduler uses it *)

Class EncCache (C : Type) : Type := {
  ec_check_and_update_cache : Request → Z → M C bool;
  ec_can_allocate : Request → Z → Z → Z → M C bool;
  ec_allocate : Request → Z → M C unit;
  ec_get_cached_input_ids : Request → C → list Z (** in the order of iteration *);
  ec_free_encoder_input : Request → Z → M C unit;
  ec_free : Request → M C unit;
  ec_get_freed_mm_hashes : M C (list string);
  ec_reset : M C unit
}.

#[export] Instance encoder_cache (set_order : gset Z → list Z) : EncCache EncoderCacheManager := {
  ec_check_and_update_cache := check_and_update_cache;
  ec_can_allocate := can_allocate;
  ec_allocate := allocate;
  ec_get_cached_input_ids r c := set_order (get_cached_input_ids r c);
  ec_free_encoder_input := free_encoder_input;
  ec_free := enc_free set_order;
  ec_get_freed_mm_hashes := get_freed_mm_hashes;
  ec_reset := enc_reset
}.

#[export] Instance encoder_decoder_cache : EncCache EncoderDecoderCacheManager := {
  ec_check_and_update_cache := ed_check_and_update_cache;
  ec_can_allocate := ed_can_allocate;
  ec_allocate := ed_allocate;
  ec_get_cached_input_ids r _ := ed_get_cached_input_ids r;
  ec_free_encoder_input := ed_free_encoder_input;
  ec_free := ed_free;
  ec_get_freed_mm_hashes := ed_get_freed_mm_hashes;
  ec_reset := modify ed_reset
}.

(** ** [_try_schedule_encoder_inputs] *)

Section try_schedule.
Context {C : Type} `{EncCache C}.
Context (is_encoder_decoder disable_chunked_mm_input : bool).
Context (request : Request) (num_computed_tokens shift_computed_tokens : Z).

(** The loop's variables; the first three are the result. *)
Record EncoderVars : Type := MkEncVars {
  encoder_inputs_to_schedule : list Z;
  ev_num_new_tokens : Z;
  ev_compute_budget : Z;
  mm_hashes_to_schedule : gset string;
  num_embeds_to_schedule : Z
}.
Definition set_new_tokens (n : Z) (v : EncoderVars) : EncoderVars :=
  MkEncVars (encoder_inputs_to_schedule v) n (ev_compute_budget v) (mm_hashes_to_schedule v)
    (num_embeds_to_schedule v).
Definition take_input (i : Z) (h : string) (n : Z) (v : EncoderVars) : EncoderVars :=
  MkEncVars (encoder_inputs_to_schedule v ++ [i]) (ev_num_new_tokens v) (ev_compute_budget v - n)
    (mm_hashes_to_schedule v ∪ {[h]}) (num_embeds_to_schedule v + n).

Fixpoint encoder_loop (idxs : list Z) (v : EncoderVars) : M C EncoderVars :=
  match idxs with
  | [] => ret v
  | i :: idxs' =>
      let* mm_feature := or_raise IndexError (py_nth (mm_features request) i) in
      let start_pos := mm_offset (mm_position mm_feature) in
      let num_encoder_tokens := mm_length (mm_position mm_feature) in
      let num_encoder_embeds := get_num_embeds (mm_position mm_feature) in
      let item_identifier := identifier mm_feature in
      if is_encoder_decoder && (0 <? num_computed_tokens) then
        assert_ (start_pos =? 0) ;;; encoder_loop idxs' v
      else
        let* available :=
          if is_encoder_decoder then ret false
          else if bool_decide (item_identifier ∈ mm_hashes_to_schedule v) then ret true
          else ec_check_and_update_cache request i in
        if (available : bool) then encoder_loop idxs' v
        else
          let num_new_tokens := ev_num_new_tokens v in
          if disable_chunked_mm_input && (num_computed_tokens <? start_pos)
             && (num_computed_tokens + num_new_tokens <? start_pos + num_encoder_tokens)
          then ret (set_new_tokens (Z.max 0 (start_pos - (num_computed_tokens + shift_computed_tokens))) v)
          else
            let* fits := ec_can_allocate request i (ev_compute_budget v) (num_embeds_to_schedule v) in
            if negb fits then
              ret (set_new_tokens
                (if num_computed_tokens + shift_computed_tokens <? start_pos
                 then start_pos - (num_computed_tokens + shift_computed_tokens) else 0) v)
            else
              let start_idx_rel := Z.max 0 (num_computed_tokens - start_pos) in
              let end_idx_rel := Z.min num_encoder_tokens (num_computed_tokens + num_new_tokens - start_pos) in
              let* curr := get_embeds_indices_in_range (mm_position mm_feature) start_idx_rel end_idx_rel in
              if curr.2 - curr.1 =? 0 then encoder_loop idxs' v
              else encoder_loop idxs' (take_input i item_identifier num_encoder_embeds v)
  end.

(** The inputs to schedule, the new tokens and the compute budget left. *)
Definition try_schedule_encoder_inputs (num_new_tokens encoder_compute_budget : Z) : M C (list Z * Z * Z) :=
  if (num_new_tokens =? 0) || negb (has_encoder_inputs request) then ret ([], num_new_tokens, encoder_compute_budget)
  else
    assert_ (0 <? len (mm_features request)) ;;;
    let* w := of_res (get_mm_features_in_window (mm_features request) num_computed_tokens
      (num_computed_tokens + num_new_tokens + shift_computed_tokens)) in
    let '(lo, hi) := w in
    let lo := if is_encoder_decoder then 0 else lo in
    let* v := encoder_loop (range lo hi) (MkEncVars [] num_new_tokens encoder_compute_budget ∅ 0) in
    ret (encoder_inputs_to_schedule v, ev_num_new_tokens v, ev_compute_budget v).
End try_schedule.

(** ** [_free_encoder_inputs] *)

Definition free_encoder_inputs {C} `{EncCache C} (is_encoder_decoder : bool) (request : Request) : M C unit :=
  let* cached_encoder_input_ids := gets (ec_get_cached_input_ids request) in
  for_each cached_encoder_input_ids (λ input_id,
    let* mm_feature := or_raise IndexError (py_nth (mm_features request) input_id) in
    let start_pos := mm_offset (mm_position mm_feature) in
    let num_tokens := mm_length (mm_position mm_feature) in
    if is_encoder_decoder && (0 <? num_computed_tokens request) then ec_free_encoder_input request input_id
    else if start_pos + num_tokens <=? num_computed_tokens request then ec_free_encoder_input request input_id
    else ret tt).
