(* ===== verification/SchedState.v ===== *)
(** * The state of the scheduler

    What src/vllm/vllm/v1/core/sched/scheduler.py keeps between steps and the
    configuration it reads.  A request object is named by its request id: the
    queues and lists of the source hold the objects of [self.requests].  The
    scheduler runs without KV connector, encoder-cache connector and streaming
    sessions; the KV cache and the encoder cache are behind the classes
    [KVCache] and [EncCache]. *)

From stdpp Require Import gmap sets.
From S2P Require Import Prelude Arith PowerSMC FreeQueue BlockHash Request BlockPool KVCacheSpec SingleType CacheHit Coordinator KVCacheManager EncoderCache SMCScheduler Heapq RequestQueue EncoderInputs.
Open Scope Z_scope.

(** ** The KV cache as the scheduler uses it *)

Class KVCache (K : Type) : Type := {
  kvc_new_step_starts : M K unit;
  kvc_get_computed_blocks : Request → M K (KVCacheBlocks * Z);
  (** request, new tokens, new computed tokens, their blocks, lookahead tokens,
      encoder tokens, whether the full sequence must fit *)
  kvc_allocate_slots : Request → Z → Z → option KVCacheBlocks → Z → Z → bool → M K (option KVCacheBlocks);
  kvc_empty_blocks : K → KVCacheBlocks;
  kvc_get_blocks : string → M K KVCacheBlocks;
  kvc_block_ids : bool → KVCacheBlocks → M K (option (list (list Z)));
  kvc_free : Request → M K unit;
  kvc_get_num_common_prefix_blocks : string → M K (list Z);
  kvc_take_new_block_ids : M K (list Z);
  kvc_reset_prefix_cache : M K bool
}.

#[export] Instance kv_cache `{HashEnv} : KVCache KVCacheManager := {
  kvc_new_step_starts := kv_new_step_starts;
  kvc_get_computed_blocks := get_computed_blocks;
  kvc_allocate_slots r nn nc blocks la enc full := allocate_slots r nn nc blocks la 0 false enc full 0;
  kvc_empty_blocks := empty_kv_cache_blocks;
  kvc_get_blocks := kv_get_blocks;
  kvc_block_ids allow_none b := on_kv_pool (get_block_ids allow_none b);
  kvc_free := kv_free;
  kvc_get_num_common_prefix_blocks := kv_get_num_common_prefix_blocks;
  kvc_take_new_block_ids := kv_take_new_block_ids;
  kvc_reset_prefix_cache := kv_reset_prefix_cache
}.

(** ** Configuration *)

Record SchedulerConfig : Type := MkSchedConfig {
  max_num_running_reqs : Z;
  max_num_scheduled_tokens : Z;
  max_num_encoder_input_tokens : Z;
  sc_max_model_len : Z;
  long_prefill_token_threshold : Z;
  enable_chunked_prefill : bool;
  sc_disable_chunked_mm_input : bool;
  sc_policy : SchedulingPolicy;
  sc_use_eagle : bool;
  num_lookahead_tokens : Z;
  need_mamba_block_aligned_split : bool;
  sc_block_size : Z (** [cache_config.block_size] *);
  is_encoder_decoder : bool;
  scheduler_reserve_full_isl : bool;
  max_loras : option Z (** [None] without LoRA *);
  sc_use_pp : bool;
  async_scheduling : bool;
  use_v2_model_runner : bool;
  needs_kv_cache_zeroing : bool;
  sc_num_groups : nat (** [len(kv_cache_config.kv_cache_groups)] *);
  sc_scheduler_block_size : Z (** [self.block_size] *);
  sc_group_block_sizes : list Z;
  num_spec_tokens : Z;
  pp_size : Z
}.

(** src/vllm/vllm/v1/core/sched/interface.py *)
Inductive PauseState : Type := UNPAUSED | PAUSED_NEW | PAUSED_ALL.
#[export] Instance PauseState_eq_dec : EqDecision PauseState.
Proof. solve_decision. Defined.

(** ** State *)

Section state.
Context {A : Arith} {K C Q : Type}.

Record SchedulerState : Type := MkState {
  st_requests : gmap string SRequest;
  running : list string;
  queues : WaitingQueues Q;
  kv : K;
  enc : C;
  in_flight : gset string;
  smc_groups : gmap string PowerSMCGroupManager;
  smc_children : gmap string (gmap Z string);
  current_step : Z;
  pause_state : PauseState;
  finished_req_ids : gset string;
  finished_req_ids_dict : option (gmap Z (gset string));
  prev_step_scheduled_req_ids : gset string;
  st_entropy : nat (** unseeded generators created so far *)
}.

Definition put_st_requests (x : gmap string SRequest) (s : SchedulerState) : SchedulerState :=
  MkState x (running s) (queues s) (kv s) (enc s) (in_flight s) (smc_groups s) (smc_children s)
    (current_step s) (pause_state s) (finished_req_ids s) (finished_req_ids_dict s)
    (prev_step_scheduled_req_ids s) (st_entropy s).
Definition put_running (x : list string) (s : SchedulerState) : SchedulerState :=
  MkState (st_requests s) x (queues s) (kv s) (enc s) (in_flight s) (smc_groups s) (smc_children s)
    (current_step s) (pause_state s) (finished_req_ids s) (finished_req_ids_dict s)
    (prev_step_scheduled_req_ids s) (st_entropy s).
Definition put_queues (x : WaitingQueues Q) (s : SchedulerState) : SchedulerState :=
  MkState (st_requests s) (running s) x (kv s) (enc s) (in_flight s) (smc_groups s) (smc_children s)
    (current_step s) (pause_state s) (finished_req_ids s) (finished_req_ids_dict s)
    (prev_step_scheduled_req_ids s) (st_entropy s).
Definition put_kv (x : K) (s : SchedulerState) : SchedulerState :=
  MkState (st_requests s) (running s) (queues s) x (enc s) (in_flight s) (smc_groups s)
    (smc_children s) (current_step s) (pause_state s) (finished_req_ids s) (finished_req_ids_dict s)
    (prev_step_scheduled_req_ids s) (st_entropy s).
Definition put_enc (x : C) (s : SchedulerState) : SchedulerState :=
  MkState (st_requests s) (running s) (queues s) (kv s) x (in_flight s) (smc_groups s) (smc_children
    s) (current_step s) (pause_state s) (finished_req_ids s) (finished_req_ids_dict s)
    (prev_step_scheduled_req_ids s) (st_entropy s).
Definition put_in_flight (x : gset string) (s : SchedulerState) : SchedulerState :=
  MkState (st_requests s) (running s) (queues s) (kv s) (enc s) x (smc_groups s) (smc_children s)
    (current_step s) (pause_state s) (finished_req_ids s) (finished_req_ids_dict s)
    (prev_step_scheduled_req_ids s) (st_entropy s).
Definition put_smc_groups (x : gmap string PowerSMCGroupManager) (s : SchedulerState) : SchedulerState :=
  MkState (st_requests s) (running s) (queues s) (kv s) (enc s) (in_flight s) x (smc_children s)
    (current_step s) (pause_state s) (finished_req_ids s) (finished_req_ids_dict s)
    (prev_step_scheduled_req_ids s) (st_entropy s).
Definition put_smc_children (x : gmap string (gmap Z string)) (s : SchedulerState) : SchedulerState :=
  MkState (st_requests s) (running s) (queues s) (kv s) (enc s) (in_flight s) (smc_groups s) x
    (current_step s) (pause_state s) (finished_req_ids s) (finished_req_ids_dict s)
    (prev_step_scheduled_req_ids s) (st_entropy s).
Definition put_current_step (x : Z) (s : SchedulerState) : SchedulerState :=
  MkState (st_requests s) (running s) (queues s) (kv s) (enc s) (in_flight s) (smc_groups s)
    (smc_children s) x (pause_state s) (finished_req_ids s) (finished_req_ids_dict s)
    (prev_step_scheduled_req_ids s) (st_entropy s).
Definition put_pause_state (x : PauseState) (s : SchedulerState) : SchedulerState :=
  MkState (st_requests s) (running s) (queues s) (kv s) (enc s) (in_flight s) (smc_groups s)
    (smc_children s) (current_step s) x (finished_req_ids s) (finished_req_ids_dict s)
    (prev_step_scheduled_req_ids s) (st_entropy s).
Definition put_finished_req_ids (x : gset string) (s : SchedulerState) : SchedulerState :=
  MkState (st_requests s) (running s) (queues s) (kv s) (enc s) (in_flight s) (smc_groups s)
    (smc_children s) (current_step s) (pause_state s) x (finished_req_ids_dict s)
    (prev_step_scheduled_req_ids s) (st_entropy s).
Definition put_finished_req_ids_dict (x : option (gmap Z (gset string))) (s : SchedulerState) : SchedulerState :=
  MkState (st_requests s) (running s) (queues s) (kv s) (enc s) (in_flight s) (smc_groups s)
    (smc_children s) (current_step s) (pause_state s) (finished_req_ids s) x
    (prev_step_scheduled_req_ids s) (st_entropy s).
Definition put_prev_step_scheduled_req_ids (x : gset string) (s : SchedulerState) : SchedulerState :=
  MkState (st_requests s) (running s) (queues s) (kv s) (enc s) (in_flight s) (smc_groups s)
    (smc_children s) (current_step s) (pause_state s) (finished_req_ids s) (finished_req_ids_dict s) x (st_entropy s).

Definition on_cache {B} (m : M K B) : M SchedulerState B := zoom kv put_kv m.
Definition on_encoder {B} (m : M C B) : M SchedulerState B := zoom enc put_enc m.
Definition on_queues {B} (m : M (WaitingQueues Q) B) : M SchedulerState B := zoom queues put_queues m.

(** The attributes of a request object, and an assignment to them. *)
Definition get_req (rid : string) : M SchedulerState SRequest :=
  let* rs := gets st_requests in or_raise KeyError (rs !! rid).
Definition update_req (rid : string) (f : SRequest → SRequest) : M SchedulerState unit :=
  modify (λ s, put_st_requests (alter f rid (st_requests s)) s).
End state.
Arguments SchedulerState {A} K C Q.

(** *** Attribute assignments *)

Section attributes.
Context {A : Arith}.

Definition put_sr_req (x : Request) (r : SRequest) : SRequest :=
  MkSRequest x (num_output_placeholders r) (async_tokens_to_discard r) (is_prefill_chunk r) (sr_seed
    r) (power_smc_config r) (power_smc_child_info r) (next_decode_eligible_step r)
    (use_structured_output r) (grammar_ready r) (client_index r) (prefill_stats r).
Definition put_num_output_placeholders (x : Z) (r : SRequest) : SRequest :=
  MkSRequest (sr_req r) x (async_tokens_to_discard r) (is_prefill_chunk r) (sr_seed r)
    (power_smc_config r) (power_smc_child_info r) (next_decode_eligible_step r)
    (use_structured_output r) (grammar_ready r) (client_index r) (prefill_stats r).
Definition put_async_tokens_to_discard (x : Z) (r : SRequest) : SRequest :=
  MkSRequest (sr_req r) (num_output_placeholders r) x (is_prefill_chunk r) (sr_seed r)
    (power_smc_config r) (power_smc_child_info r) (next_decode_eligible_step r)
    (use_structured_output r) (grammar_ready r) (client_index r) (prefill_stats r).
Definition put_is_prefill_chunk (x : bool) (r : SRequest) : SRequest :=
  MkSRequest (sr_req r) (num_output_placeholders r) (async_tokens_to_discard r) x (sr_seed r)
    (power_smc_config r) (power_smc_child_info r) (next_decode_eligible_step r)
    (use_structured_output r) (grammar_ready r) (client_index r) (prefill_stats r).
Definition put_next_decode_eligible_step (x : Z) (r : SRequest) : SRequest :=
  MkSRequest (sr_req r) (num_output_placeholders r) (async_tokens_to_discard r) (is_prefill_chunk r)
    (sr_seed r) (power_smc_config r) (power_smc_child_info r) x (use_structured_output r)
    (grammar_ready r) (client_index r) (prefill_stats r).

(** On the attributes the KV-cache manager reads. *)
Definition on_req (f : Request → Request) (r : SRequest) : SRequest := put_sr_req (f (sr_req r)) r.
End attributes.

Definition put_spec_token_ids (x : list Z) (r : Request) : Request :=
  MkRequest (Request.request_id r) (priority r) (arrival_time r) (sampling_params r) (pooling_params
    r) (lora_request r) (cache_salt r) (mm_features r) (prompt_token_ids r) (prompt_embeds r)
    (prompt_embeds_per_block_hashes r) (num_prompt_tokens r) (output_token_ids r) (all_token_ids r)
    x (num_computed_tokens r) (num_preemptions r) (max_tokens r) (status r) (Request.stop_reason r)
    (block_hashes r) (block_hasher r) (skip_reading_prefix_cache r).
Definition put_num_computed_tokens (x : Z) (r : Request) : Request :=
  MkRequest (Request.request_id r) (priority r) (arrival_time r) (sampling_params r) (pooling_params
    r) (lora_request r) (cache_salt r) (mm_features r) (prompt_token_ids r) (prompt_embeds r)
    (prompt_embeds_per_block_hashes r) (num_prompt_tokens r) (output_token_ids r) (all_token_ids r)
    (spec_token_ids r) x (num_preemptions r) (max_tokens r) (status r) (Request.stop_reason r)
    (block_hashes r) (block_hasher r) (skip_reading_prefix_cache r).
Definition put_num_preemptions (x : Z) (r : Request) : Request :=
  MkRequest (Request.request_id r) (priority r) (arrival_time r) (sampling_params r) (pooling_params
    r) (lora_request r) (cache_salt r) (mm_features r) (prompt_token_ids r) (prompt_embeds r)
    (prompt_embeds_per_block_hashes r) (num_prompt_tokens r) (output_token_ids r) (all_token_ids r)
    (spec_token_ids r) (num_computed_tokens r) x (max_tokens r) (status r) (Request.stop_reason r)
    (block_hashes r) (block_hasher r) (skip_reading_prefix_cache r).
