(* ===== verification/Schedule.v ===== *)
(** * One scheduling step

    [Scheduler.schedule] of src/vllm/vllm/v1/core/sched/scheduler.py: tokens for
    the running requests, with preemption when the KV cache is full, then for
    the waiting ones; [_preempt_request], [_mamba_block_aligned_split],
    [_try_promote_blocked_waiting_request], [_make_cached_request_data] and
    [_update_after_schedule], with the override of async_scheduler.py. *)

From stdpp Require Import gmap sets.
From S2P Require Import Prelude Arith PowerSMC FreeQueue BlockHash Request BlockPool KVCacheSpec SingleType CacheHit Coordinator KVCacheManager EncoderCache SMCScheduler Heapq RequestQueue EncoderInputs SchedState.
Open Scope Z_scope.

(** ** What a step produces (src/vllm/vllm/v1/core/sched/output.py) *)

Record NewRequestData : Type := MkNewData {
  nr_req_id : string;
  nr_prompt_token_ids : option (list Z);
  nr_mm_features : list MultiModalFeatureSpec;
  nr_block_ids : list (list Z);
  nr_num_computed_tokens : Z;
  nr_lora_request : option LoRARequest;
  nr_prefill_token_ids : option (list Z)
}.

Record CachedRequestData : Type := MkCachedData {
  cr_req_ids : list string;
  resumed_req_ids : gset string;
  cr_new_token_ids : list (list Z);
  cr_all_token_ids : gmap string (list Z);
  cr_new_block_ids : list (option (list (list Z)));
  cr_num_computed_tokens : list Z;
  cr_num_output_tokens : list Z
}.

Record SchedulerOutput : Type := MkOutputs {
  out_new_reqs : list NewRequestData;
  out_cached_reqs : CachedRequestData;
  out_num_scheduled_tokens : list (string * Z) (** a dict in insertion order *);
  total_num_scheduled_tokens : Z;
  out_spec_decode_tokens : gmap string (list Z);
  out_encoder_inputs : gmap string (list Z);
  num_common_prefix_blocks : list Z;
  preempted_req_ids : gset string;
  out_finished_req_ids : gset string;
  free_encoder_mm_hashes : list string;
  new_block_ids_to_zero : option (list Z);
  has_structured_output_requests : bool;
  pending_structured_output_tokens : bool
}.

(** ** The local variables of [schedule] *)

Record StepVars : Type := MkStep {
  scheduled_new_reqs : list string;
  scheduled_resumed_reqs : list string;
  scheduled_running_reqs : list string;
  preempted_reqs : list string;
  req_to_new_blocks : gmap string KVCacheBlocks;
  num_scheduled_tokens : list (string * Z);
  token_budget : Z;
  scheduled_encoder_inputs : gmap string (list Z);
  encoder_compute_budget : Z;
  scheduled_spec_decode_tokens : gmap string (list Z);
  scheduled_loras : gset Z
}.

Definition step_start (budget encoder_budget : Z) : StepVars := MkStep [] [] [] [] ∅ [] budget ∅ encoder_budget ∅ ∅.

(** [scheduled_running_reqs.append(request)], the entries of the three
    dictionaries and the budget. *)
Definition record_running (rid : string) (blocks : KVCacheBlocks) (n : Z) (v : StepVars) : StepVars :=
  MkStep (scheduled_new_reqs v) (scheduled_resumed_reqs v) (scheduled_running_reqs v ++ [rid]) (preempted_reqs v)
    (<[rid := blocks]> (req_to_new_blocks v)) (od_set rid n (num_scheduled_tokens v)) (token_budget v - n)
    (scheduled_encoder_inputs v) (encoder_compute_budget v) (scheduled_spec_decode_tokens v) (scheduled_loras v).
Definition record_spec (rid : string) (toks : list Z) (v : StepVars) : StepVars :=
  MkStep (scheduled_new_reqs v) (scheduled_resumed_reqs v) (scheduled_running_reqs v) (preempted_reqs v)
    (req_to_new_blocks v) (num_scheduled_tokens v) (token_budget v) (scheduled_encoder_inputs v)
    (encoder_compute_budget v) (<[rid := toks]> (scheduled_spec_decode_tokens v)) (scheduled_loras v).
Definition record_encoder (rid : string) (inputs : list Z) (budget : Z) (v : StepVars) : StepVars :=
  MkStep (scheduled_new_reqs v) (scheduled_resumed_reqs v) (scheduled_running_reqs v) (preempted_reqs v)
    (req_to_new_blocks v) (num_scheduled_tokens v) (token_budget v) (<[rid := inputs]> (scheduled_encoder_inputs v))
    budget (scheduled_spec_decode_tokens v) (scheduled_loras v).
Definition record_preempted (rid : string) (v : StepVars) : StepVars :=
  MkStep (scheduled_new_reqs v) (scheduled_resumed_reqs v) (scheduled_running_reqs v) (preempted_reqs v ++ [rid])
    (req_to_new_blocks v) (num_scheduled_tokens v) (token_budget v) (scheduled_encoder_inputs v)
    (encoder_compute_budget v) (scheduled_spec_decode_tokens v) (scheduled_loras v).
Definition record_loras (l : gset Z) (v : StepVars) : StepVars :=
  MkStep (scheduled_new_reqs v) (scheduled_resumed_reqs v) (scheduled_running_reqs v) (preempted_reqs v)
    (req_to_new_blocks v) (num_scheduled_tokens v) (token_budget v) (scheduled_encoder_inputs v)
    (encoder_compute_budget v) (scheduled_spec_decode_tokens v) l.
Definition record_waiting (resumed : bool) (rid : string) (blocks : KVCacheBlocks) (n : Z) (v : StepVars) : StepVars :=
  MkStep (if resumed then scheduled_new_reqs v else scheduled_new_reqs v ++ [rid])
    (if resumed then scheduled_resumed_reqs v ++ [rid] else scheduled_resumed_reqs v)
    (scheduled_running_reqs v) (preempted_reqs v)
    (<[rid := blocks]> (req_to_new_blocks v)) (od_set rid n (num_scheduled_tokens v)) (token_budget v - n)
    (scheduled_encoder_inputs v) (encoder_compute_budget v) (scheduled_spec_decode_tokens v) (scheduled_loras v).

(** Everything recorded for a request scheduled in this step is taken back;
    [embeds] is what its encoder inputs had taken from the compute budget. *)
Definition unrecord (rid : string) (running_reqs : list string) (n embeds : Z) (v : StepVars) : StepVars :=
  MkStep (scheduled_new_reqs v) (scheduled_resumed_reqs v) running_reqs (preempted_reqs v)
    (delete rid (req_to_new_blocks v)) (od_delete rid (num_scheduled_tokens v)) (token_budget v + n)
    (delete rid (scheduled_encoder_inputs v)) (encoder_compute_budget v + embeds)
    (delete rid (scheduled_spec_decode_tokens v)) (scheduled_loras v).

Section schedule.
Context {A : Arith} {K C Q : Type} `{!KVCache K, !EncCache C, !RequestQueue string Q}.
(** [id()] of a request object and the attributes [Request.__lt__] compares. *)
Context (addr : string → Z) (deref : string → Request).
Context (cfg : SchedulerConfig).
Abbreviation St := (SchedulerState K C Q).

Definition on_waiting_queue {B} (m : M Q B) : M St B := on_queues (on_waiting m).

(** ** Preemption *)

Definition preempted (r : Request) : Request :=
  put_num_preemptions (num_preemptions r + 1) (put_spec_token_ids [] (put_num_computed_tokens 0 (set_status PREEMPTED r))).

Definition preempt_request (rid : string) : M St unit :=
  let* request := get_req rid in
  assert_ (bool_decide (status (sr_req request) = RUNNING)) ;;;
  on_cache (kvc_free (sr_req request)) ;;;
  on_encoder (ec_free (sr_req request)) ;;;
  modify (λ s, put_in_flight (in_flight s ∖ {[rid]}) s) ;;;
  update_req rid (on_req preempted) ;;;
  on_waiting_queue (prepend_request rid).

(** [max(self.running, key=lambda r: (r.priority, r.arrival_time))]: the first
    of the largest. *)
Definition key_lt (a b : Request) : bool :=
  (priority a <? priority b) || ((priority a =? priority b) && (arrival_time a <? arrival_time b)).
Fixpoint max_first (best : string * Request) (l : list (string * Request)) : string :=
  match l with
  | [] => best.1
  | x :: l' => max_first (if key_lt best.2 x.2 then x else best) l'
  end.
Definition lowest_priority (rids : list string) : M St string :=
  let* l := map_each (λ rid, let* r := get_req rid in ret (rid, sr_req r)) rids in
  match l with
  | [] => raise ValueError
  | x :: l' => ret (max_first x l')
  end.

Definition num_embeds (request : Request) (inputs : list Z) : M St Z :=
  let* ns := map_each (λ i, of_res (get_num_encoder_embeds request i tt).1) inputs in
  ret (foldr Z.add 0 ns).

(** The request to preempt, taken off the running list and, if it was scheduled
    in this step, out of the step's variables. *)
Definition take_victim (req_index : Z) (v : StepVars) : M St (string * Z * StepVars) :=
  let* rs := gets running in
  match sc_policy cfg with
  | PRIORITY =>
      let* preempted_req := lowest_priority rs in
      let* rs' := or_raise ValueError (list_remove preempted_req rs) in
      modify (put_running rs') ;;;
      match list_remove preempted_req (scheduled_running_reqs v) with
      | None => ret (preempted_req, req_index, v)
      | Some running_reqs =>
          let* n := or_raise KeyError (od_lookup preempted_req (num_scheduled_tokens v)) in
          let* _ := or_raise KeyError (req_to_new_blocks v !! preempted_req) in
          let* request := get_req preempted_req in
          let* embeds := num_embeds (sr_req request) (default [] (scheduled_encoder_inputs v !! preempted_req)) in
          ret (preempted_req, req_index - 1, unrecord preempted_req running_reqs n embeds v)
      end
  | FCFS =>
      let* preempted_req := or_raise IndexError (last rs) in
      modify (put_running (removelast rs)) ;;;
      ret (preempted_req, req_index, v)
  end.

(** The [while True] loop around [allocate_slots]. *)
Fixpoint allocate_or_preempt (fuel : nat) (rid : string) (request : Request) (num_new_tokens req_index : Z)
    (v : StepVars) : M St (option KVCacheBlocks * Z * StepVars) :=
  let* new_blocks := on_cache (kvc_allocate_slots request num_new_tokens 0 None (num_lookahead_tokens cfg) 0 false) in
  match new_blocks with
  | Some b => ret (Some b, req_index, v)
  | None =>
      match fuel with
      | O => raise OutOfFuel
      | S fuel =>
          let* victim := take_victim req_index v in
          let '(preempted_req, req_index, v) := victim in
          preempt_request preempted_req ;;;
          let v := record_preempted preempted_req v in
          if bool_decide (preempted_req = rid) then ret (None, req_index, v)
          else allocate_or_preempt fuel rid request num_new_tokens req_index v
      end
  end.

(** ** A running request *)

(** Asynchronous scheduling: the steps in flight reach [max_tokens]. *)
Definition max_tokens_in_flight (request : SRequest) : bool :=
  let r := sr_req request in
  (0 <? num_output_placeholders request) &&
  (num_prompt_tokens r + max_tokens r <=? num_computed_tokens r + 2 - num_output_placeholders request).

Definition mamba_block_aligned_split (r : Request) (num_new_tokens num_new_local_computed_tokens : Z) : Z :=
  let num_computed_tokens := num_computed_tokens r + num_new_local_computed_tokens in
  if num_computed_tokens <? Z.max (num_prompt_tokens r) (num_tokens r - 1) then
    let block_size := sc_block_size cfg in
    let last_cache_position := num_tokens r - num_tokens r mod block_size in
    let last_cache_position :=
      if sc_use_eagle cfg then Z.max (last_cache_position - block_size) 0 else last_cache_position in
    let num_computed_tokens_after_sched := num_computed_tokens + num_new_tokens in
    if num_computed_tokens_after_sched <? last_cache_position then num_new_tokens / block_size * block_size
    else if (num_computed_tokens <? last_cache_position) && (last_cache_position <? num_computed_tokens_after_sched)
    then last_cache_position - num_computed_tokens
    else num_new_tokens
  else num_new_tokens.

Definition capped (threshold n : Z) : Z := if (0 <? threshold) && (threshold <? n) then threshold else n.

(** [_try_schedule_encoder_inputs] for a request that has any. *)
Definition encoder_part (r : Request) (computed n budget : Z) : M St (list Z * Z * Z) :=
  if has_encoder_inputs r then
    on_encoder (try_schedule_encoder_inputs (is_encoder_decoder cfg) (sc_disable_chunked_mm_input cfg) r computed
      (if sc_use_eagle cfg then 1 else 0) n budget)
  else ret ([], n, budget).

Definition allocate_inputs (r : Request) (inputs : list Z) : M St unit :=
  for_each inputs (λ i, on_encoder (ec_allocate r i)).

Inductive running_result : Type :=
| RSkip (** [continue] with the next request *)
| RStop (v : StepVars) (** [break] *)
| RScheduled (req_index : Z) (v : StepVars).

(** The bookkeeping of a scheduled request after [allocate_slots]. *)
Definition settle_running (rid : string) (request : SRequest) (n : Z) (inputs : list Z) (new_budget : Z)
    (blocks : KVCacheBlocks) (v : StepVars) : M St StepVars :=
  let r := sr_req request in
  let v := record_running rid blocks n v in
  let* v :=
    match spec_token_ids r with
    | [] => ret v
    | spec =>
        let num_scheduled_spec_tokens := n + num_computed_tokens r - num_tokens r - num_output_placeholders request in
        update_req rid (on_req (put_spec_token_ids [])) ;;;
        ret (if 0 <? num_scheduled_spec_tokens then record_spec rid (slice_to spec num_scheduled_spec_tokens) v else v)
    end in
  match inputs with
  | [] => ret v
  | _ => allocate_inputs r inputs ;;; ret (record_encoder rid inputs new_budget v)
  end.

Definition schedule_running (rid : string) (req_index : Z) (v : StepVars) : M St running_result :=
  let* request := get_req rid in
  let r := sr_req request in
  let* step := gets current_step in
  let* groups := gets smc_groups in
  if max_tokens_in_flight request then ret RSkip
  else if step <? next_decode_eligible_step request then ret RSkip
  else if bool_decide (power_smc_config request ≠ None) && power_smc_should_pause_at_group_boundary groups request
  then ret RSkip
  else
    let n := num_tokens_with_spec r + num_output_placeholders request - num_computed_tokens r in
    let n := Z.min (capped (long_prefill_token_threshold cfg) n) (token_budget v) in
    let n := Z.min n (sc_max_model_len cfg - 1 - num_computed_tokens r) in
    let* e := encoder_part r (num_computed_tokens r) n (encoder_compute_budget v) in
    let '(inputs, n, new_budget) := e in
    let n := if need_mamba_block_aligned_split cfg then mamba_block_aligned_split r n 0 else n in
    if n =? 0 then ret RSkip
    else
      let* rs := gets running in
      let* a := allocate_or_preempt (length rs) rid r n req_index v in
      let '(new_blocks, req_index, v) := a in
      match new_blocks with
      | None => ret (RStop v)
      | Some blocks =>
          let* v := settle_running rid request n inputs new_budget blocks v in
          ret (RScheduled (req_index + 1) v)
      end.

Fixpoint running_loop (fuel : nat) (req_index : Z) (v : StepVars) : M St StepVars :=
  let* rs := gets running in
  if (req_index <? len rs) && (0 <? token_budget v) then
    match fuel with
    | O => raise OutOfFuel
    | S fuel =>
        let* rid := or_raise IndexError (py_nth rs req_index) in
        let* o := schedule_running rid req_index v in
        match o with
        | RSkip => running_loop fuel (req_index + 1) v
        | RScheduled req_index v => running_loop fuel req_index v
        | RStop v => ret v
        end
    end
  else ret v.

(** ** LoRA *)

Definition lora_of (r : Request) : option Z := lora_int_id <$> lora_request r.

Definition running_loras (rids : list string) : M St (gset Z) :=
  let* l := map_each (λ rid, let* r := get_req rid in ret (lora_of (sr_req r))) rids in
  ret (list_to_set (filter (λ i, 0 < i) (omap id l))).

Definition record_scheduled_loras (v : StepVars) : M St StepVars :=
  match max_loras cfg with
  | None => ret v
  | Some n =>
      let* l := running_loras (scheduled_running_reqs v) in
      assert_ (Z.of_nat (size l) <=? n) ;;;
      ret (record_loras l v)
  end.

(** Another LoRA would exceed [max_loras]. *)
Definition too_many_loras (r : Request) (v : StepVars) : bool :=
  match max_loras cfg, lora_of r with
  | Some n, Some i => (Z.of_nat (size (scheduled_loras v)) =? n) && negb (bool_decide (i ∈ scheduled_loras v))
  | _, _ => false
  end.

(** ** A waiting request *)

(** No remote KV transfer ever finishes without a connector. *)
Definition try_promote_blocked_waiting_request (rid : string) : M St bool :=
  let* request := get_req rid in
  match status (sr_req request) with
  | WAITING_FOR_REMOTE_KVS => ret false
  | WAITING_FOR_STRUCTURED_OUTPUT_GRAMMAR =>
      if use_structured_output request && grammar_ready request then
        update_req rid (on_req (set_status WAITING)) ;;; ret true
      else ret false
  | WAITING_FOR_STREAMING_REQ => ret false
  | _ => raise AssertionError
  end.

(** Blocks and number of the tokens that are already computed. *)
Definition computed_part (request : SRequest) : M St (KVCacheBlocks * Z * Z) :=
  let r := sr_req request in
  if num_computed_tokens r =? 0 then
    let* hit := on_cache (kvc_get_computed_blocks r) in
    let '(new_computed_blocks, num_new_local_computed_tokens) := hit in
    assert_ (num_new_local_computed_tokens <=? num_tokens r) ;;;
    (if prefill_stats request then assert_ (num_new_local_computed_tokens <=? num_prompt_tokens r) else ret tt) ;;;
    ret (new_computed_blocks, num_new_local_computed_tokens, num_new_local_computed_tokens)
  else
    let* empty := gets (λ s, kvc_empty_blocks (kv s)) in
    ret (empty, 0, num_computed_tokens r).

(** The tokens and encoder inputs to schedule; [None] is [break]. *)
Definition waiting_tokens (request : SRequest) (local computed : Z) (v : StepVars) : M St (option (list Z * Z * Z)) :=
  let r := sr_req request in
  let n := capped (long_prefill_token_threshold cfg) (num_tokens r - computed) in
  if negb (enable_chunked_prefill cfg) && (token_budget v <? n) then ret None
  else
    let n := Z.min n (token_budget v) in
    assert_ (0 <? n) ;;;
    let* e := encoder_part r computed n (encoder_compute_budget v) in
    let '(inputs, n, new_budget) := e in
    if has_encoder_inputs r && (n =? 0) then ret None
    else if need_mamba_block_aligned_split cfg then
      let n := mamba_block_aligned_split r n local in
      if n =? 0 then ret None else ret (Some (inputs, n, new_budget))
    else ret (Some (inputs, n, new_budget)).

(** Encoder tokens that need cross-attention blocks. *)
Definition cross_attention_tokens (r : Request) (inputs : list Z) : M St Z :=
  if is_encoder_decoder cfg && has_encoder_inputs r && negb (bool_decide (inputs = [])) then num_embeds r inputs
  else ret 0.

(** The request, taken off its queue, joins the running ones. *)
Definition start_running (rid : string) (request : SRequest) (computed n : Z) (inputs : list Z) (new_budget : Z)
    (v : StepVars) : M St StepVars :=
  let r := sr_req request in
  modify (λ s, put_running (running s ++ [rid]) s) ;;;
  let* resumed :=
    match status r with
    | WAITING => ret false
    | PREEMPTED => ret true
    | _ => raise RuntimeError
    end in
  let v := match max_loras cfg, lora_of r with
           | Some _, Some i => record_loras (scheduled_loras v ∪ {[i]}) v
           | _, _ => v
           end in
  let* blocks := on_cache (kvc_get_blocks rid) in
  let v := record_waiting resumed rid blocks n v in
  update_req rid (on_req (λ r, put_num_computed_tokens computed (set_status RUNNING r))) ;;;
  (if computed + n <? num_tokens r then modify (λ s, put_in_flight (in_flight s ∪ {[rid]}) s) else ret tt) ;;;
  match inputs with
  | [] => ret v
  | _ => allocate_inputs r inputs ;;; ret (record_encoder rid inputs new_budget v)
  end.

Inductive waiting_result : Type :=
| WSkip (** set aside for this step *)
| WStop
| WAdmitted (v : StepVars).

(** The head [rid] of queue [q]. *)
Definition schedule_waiting (q : which_queue) (rid : string) (v : StepVars) : M St waiting_result :=
  let* request := get_req rid in
  let* schedulable :=
    if is_blocked_waiting_status (status (sr_req request)) then try_promote_blocked_waiting_request rid else ret true in
  if negb schedulable then ret WSkip
  else
    let* request := get_req rid in
    let r := sr_req request in
    if too_many_loras r v then ret WSkip
    else
      let* c := computed_part request in
      let '(new_computed_blocks, local, computed) := c in
      let* t := waiting_tokens request local computed v in
      match t with
      | None => ret WStop
      | Some (inputs, n, new_budget) =>
          let* num_encoder_tokens := cross_attention_tokens r inputs in
          let* new_blocks := on_cache (kvc_allocate_slots r n local (Some new_computed_blocks)
            (num_lookahead_tokens cfg) num_encoder_tokens (scheduler_reserve_full_isl cfg)) in
          match new_blocks with
          | None =>
              (if has_encoder_inputs r then on_encoder (ec_free r) else ret tt) ;;; ret WStop
          | Some _ =>
              let* rid := on_queues (on_queue q pop_request) in
              let* v := start_running rid request computed n inputs new_budget v in
              ret (WAdmitted v)
          end
      end.

Fixpoint waiting_loop (fuel : nat) (v : StepVars) : M St StepVars :=
  let* qs := gets queues in
  if (queue_bool (waiting qs) || queue_bool (skipped_waiting qs)) && (0 <? token_budget v) then
    let* rs := gets running in
    if len rs =? max_num_running_reqs cfg then ret v
    else
      match fuel with
      | O => raise OutOfFuel
      | S fuel =>
          let* q := on_queues (select_waiting_queue_for_scheduling addr deref (sc_policy cfg)) in
          let* q := or_raise AssertionError q in
          let* rid := on_queues (on_queue q peek_request) in
          let* o := schedule_waiting q rid v in
          match o with
          | WSkip =>
              let* _ := on_queues (on_queue q pop_request) in
              on_queues (on_step_skipped (prepend_request rid)) ;;;
              waiting_loop fuel v
          | WStop => ret v
          | WAdmitted v => waiting_loop fuel v
          end
      end
  else ret v.

Definition waiting_phase (v : StepVars) : M St StepVars :=
  modify (λ s, put_queues (MkWaiting (waiting (queues s)) (skipped_waiting (queues s)) empty_queue) s) ;;;
  let* qs := gets queues in
  let* v := waiting_loop (Z.to_nat (queue_len (waiting qs) + queue_len (skipped_waiting qs))) v in
  let* qs := gets queues in
  (if queue_bool (step_skipped_waiting qs) then
     let* requests := of_res (queue_iter (step_skipped_waiting qs)) in
     on_queues (on_skipped (prepend_requests requests))
   else ret tt) ;;;
  ret v.

(** ** The output *)

Definition block_ids_of (allow_none : bool) (v : StepVars) (rid : string) : M St (option (list (list Z))) :=
  let* b := or_raise KeyError (req_to_new_blocks v !! rid) in on_cache (kvc_block_ids allow_none b).

(** [NewRequestData.from_request] *)
Definition new_request_data (v : StepVars) (rid : string) : M St NewRequestData :=
  let* request := get_req rid in
  let r := sr_req request in
  let* ids := block_ids_of false v rid in
  ret (MkNewData rid (prompt_token_ids r) (mm_features r) (default [] ids) (num_computed_tokens r) (lora_request r)
         (if use_v2_model_runner cfg then Some (all_token_ids r) else None)).

Definition cached_request_data (v : StepVars) (running_reqs : list string) (acc : CachedRequestData)
    (rid : string) : M St CachedRequestData :=
  let* request := get_req rid in
  let r := sr_req request in
  let* prev := gets prev_step_scheduled_req_ids in
  let* new_token_ids :=
    if sc_use_pp cfg && negb (async_scheduling cfg) then
      let* n := or_raise KeyError (od_lookup rid (num_scheduled_tokens v)) in
      let n := n - len (default [] (scheduled_spec_decode_tokens v !! rid)) in
      ret (cr_new_token_ids acc ++ [slice (all_token_ids r) (num_computed_tokens r) (num_computed_tokens r + n)])
    else ret (cr_new_token_ids acc) in
  let scheduled_in_prev_step := bool_decide (rid ∈ prev) in
  let resumed := len running_reqs <=? len (cr_req_ids acc) in
  (if resumed then assert_ (negb scheduled_in_prev_step) else ret tt) ;;;
  let* ids := block_ids_of true v rid in
  ret (MkCachedData (cr_req_ids acc ++ [rid])
         (if resumed then resumed_req_ids acc ∪ {[rid]} else resumed_req_ids acc)
         new_token_ids
         (if scheduled_in_prev_step then cr_all_token_ids acc else <[rid := all_token_ids r]> (cr_all_token_ids acc))
         (cr_new_block_ids acc ++ [ids])
         (cr_num_computed_tokens acc ++ [num_computed_tokens r])
         (cr_num_output_tokens acc ++ [num_output_tokens r + num_output_placeholders request])).
Definition make_cached_request_data (v : StepVars) (running_reqs resumed_reqs : list string) : M St CachedRequestData :=
  fold_each (cached_request_data v running_reqs) (running_reqs ++ resumed_reqs) (MkCachedData [] ∅ [] ∅ [] [] []).

Definition set_structured (has pending : bool) (o : SchedulerOutput) : SchedulerOutput :=
  MkOutputs (out_new_reqs o) (out_cached_reqs o) (out_num_scheduled_tokens o) (total_num_scheduled_tokens o)
    (out_spec_decode_tokens o) (out_encoder_inputs o) (num_common_prefix_blocks o) (preempted_req_ids o)
    (out_finished_req_ids o) (free_encoder_mm_hashes o) (new_block_ids_to_zero o) has pending.

(** [_update_after_schedule] for one entry of [num_scheduled_tokens] *)
Definition advance_scheduled (has : bool) (entry : string * Z) : M St bool :=
  let '(rid, n) := entry in
  let* request := get_req rid in
  let computed := num_computed_tokens (sr_req request) + n in
  let chunk := computed <? num_tokens (sr_req request) + num_output_placeholders request in
  update_req rid (λ r, put_is_prefill_chunk chunk (on_req (put_num_computed_tokens computed) r)) ;;;
  (if (chunk : bool) then ret tt else modify (λ s, put_in_flight (in_flight s ∖ {[rid]}) s)) ;;;
  ret (has || (use_structured_output request && negb chunk)).

(** The part of [AsyncScheduler._update_after_schedule] *)
Definition advance_async (spec : gmap string (list Z)) (pending : bool) (entry : string * Z)
  : M St bool :=
  let '(rid, _) := entry in
  let* request := get_req rid in
  if is_prefill_chunk request then ret pending
  else
    let pending := pending || (use_structured_output request && (0 <? num_output_placeholders request)) in
    let cur_num_spec_tokens := len (default [] (spec !! rid)) in
    let* step := gets current_step in
    update_req rid (λ r, on_req (put_spec_token_ids (replicate (Z.to_nat (num_spec_tokens cfg)) (-1)))
      (put_num_output_placeholders (num_output_placeholders r + (1 + cur_num_spec_tokens)) r)) ;;;
    (if use_v2_model_runner cfg then update_req rid (put_next_decode_eligible_step (step + pp_size cfg)) else ret tt) ;;;
    ret pending.

Definition update_after_schedule (o : SchedulerOutput) : M St SchedulerOutput :=
  let* has := fold_each advance_scheduled (out_num_scheduled_tokens o) (has_structured_output_requests o) in
  modify (put_finished_req_ids ∅) ;;;
  let* pending :=
    if async_scheduling cfg then
      fold_each (advance_async (out_spec_decode_tokens o)) (out_num_scheduled_tokens o)
        (pending_structured_output_tokens o)
    else ret (pending_structured_output_tokens o) in
  ret (set_structured has pending o).

Definition sum_tokens (l : list (string * Z)) : Z := foldr (λ e n, e.2 + n) 0 l.

(** The constraints [schedule] asserts at its end. *)
Definition check_constraints (v : StepVars) : M St unit :=
  assert_ (sum_tokens (num_scheduled_tokens v) <=? max_num_scheduled_tokens cfg) ;;;
  assert_ (0 <=? token_budget v) ;;;
  let* rs := gets running in
  assert_ (len rs <=? max_num_running_reqs cfg) ;;;
  assert_ (len (scheduled_new_reqs v) + len (scheduled_resumed_reqs v) + len (scheduled_running_reqs v) <=? len rs).

Definition make_output (v : StepVars) : M St SchedulerOutput :=
  let* rs := gets running in
  let* common :=
    match rs with
    | [] => ret (replicate (sc_num_groups cfg) 0)
    | any_request_id :: _ => on_cache (kvc_get_num_common_prefix_blocks any_request_id)
    end in
  let new_reqs := if use_v2_model_runner cfg then scheduled_new_reqs v ++ scheduled_resumed_reqs v else scheduled_new_reqs v in
  let resumed_reqs := if use_v2_model_runner cfg then [] else scheduled_resumed_reqs v in
  let* new_data := map_each (new_request_data v) new_reqs in
  let* cached_data := make_cached_request_data v (scheduled_running_reqs v) resumed_reqs in
  modify (put_prev_step_scheduled_req_ids (list_to_set (num_scheduled_tokens v).*1)) ;;;
  let* zero :=
    if needs_kv_cache_zeroing cfg then
      let* ids := on_cache kvc_take_new_block_ids in ret (match ids with [] => None | _ => Some ids end)
    else ret None in
  let* finished := gets finished_req_ids in
  let* freed := on_encoder ec_get_freed_mm_hashes in
  ret (MkOutputs new_data cached_data (num_scheduled_tokens v) (sum_tokens (num_scheduled_tokens v))
         (scheduled_spec_decode_tokens v) (scheduled_encoder_inputs v) common (list_to_set (preempted_reqs v))
         finished freed zero false false).

Definition schedule : M St SchedulerOutput :=
  modify (λ s, put_current_step (current_step s + 1) s) ;;;
  let* pause := gets pause_state in
  let budget := if bool_decide (pause = PAUSED_ALL) then 0 else max_num_scheduled_tokens cfg in
  on_cache kvc_new_step_starts ;;;
  let* rs := gets running in
  let* v := running_loop (length rs) 0 (step_start budget (max_num_encoder_input_tokens cfg)) in
  let* v := record_scheduled_loras v in
  let* v :=
    if bool_decide (preempted_reqs v = []) && bool_decide (pause = UNPAUSED) then waiting_phase v else ret v in
  check_constraints v ;;;
  let* o := make_output v in
  update_after_schedule o.
End schedule.
