(* ===== verification/SchedUpdate.v ===== *)
(** * Between scheduling steps

    How src/vllm/vllm/v1/core/sched/scheduler.py takes in the model's output
    ([update_from_output], with the override of async_scheduler.py), adds and
    finishes requests, takes draft tokens, resets the prefix cache and counts
    requests.  Here the KV cache and the encoder cache are the modelled
    managers, since a Power-SMC resampling works on both. *)

From stdpp Require Import gmap sets.
From S2P Require Import Prelude Arith PowerSMC FreeQueue BlockHash Request BlockPool KVCacheSpec SingleType CacheHit Coordinator KVCacheManager EncoderCache StopCheck SMCScheduler SMCParent Heapq RequestQueue EncoderInputs SchedState Schedule.
Open Scope Z_scope.

(** What the model runner returns: the sampled tokens by request index, the two
    log probabilities of a Power-SMC step, and for pooling models which
    requests have an output. *)
Record ModelRunnerOutput {A : Arith} : Type := MkModelOutput {
  req_id_to_index : gmap string Z;
  sampled_token_ids : list (list Z);
  power_smc_logprobs : option (list (num * num));
  pooler_output : list bool
}.

(** The outputs with their clients, the finished ids per client, the events. *)
Record UpdateOutput {A : Arith} : Type := MkUpdateOutput {
  uo_outputs : list (Z * EngineOutput);
  uo_finished : gmap Z (gset string);
  uo_events : list KVCacheEvent
}.

Arguments MkModelOutput {A}.
Arguments MkUpdateOutput {A}.

(** [str(finish_reason)] *)
Definition finish_name (f : FinishReason) : string :=
  match f with
  | STOP => "stop"
  | LENGTH => "length"
  | ABORT => "abort"
  | ERROR => "error"
  | REPETITION => "repetition"
  end.
Definition stop_value (s : StopReason) : stop_val :=
  match s with StopToken t => StopInt t | StopString s => StopStr s end.

Section updates.
Context {A : Arith} `{HashEnv} {Q : Type} `{!RequestQueue string Q}.
(** Iteration over a set of input ids; seeded and system random generators; the
    grammars of structured outputs: whether the manager advances one for a
    request, whether it accepts tokens, and the tokens it keeps of a draft. *)
Context (set_order : gset Z → list Z) (seeded : Z → Rng) (entropy : nat → Rng).
Context (should_advance : SRequest → bool) (accept_tokens : string → list Z → bool)
  (validate_tokens : string → list Z → list Z).
Context (cfg : SchedulerConfig).
#[local] Instance ec : EncCache EncoderCacheManager := encoder_cache set_order.
Abbreviation St := (SchedulerState KVCacheManager EncoderCacheManager Q).

(** The part of the state that [SMCScheduler] works on. *)
Definition smc_get (s : St) : Scheduler :=
  MkSched (st_requests s) (kv s) (enc s) (in_flight s) (smc_groups s) (smc_children s)
    (sc_scheduler_block_size cfg) (sc_group_block_sizes cfg) None (st_entropy s).
Definition smc_put (x : Scheduler) (s : St) : St :=
  MkState (requests x) (running s) (queues s) (kv_cache_manager x) (encoder_cache_manager x) (inflight_prefills x)
    (power_smc_group_managers x) (power_smc_group_children x) (current_step s) (pause_state s) (finished_req_ids s)
    (finished_req_ids_dict s) (prev_step_scheduled_req_ids s) (entropy_used x).
Definition on_smc {B} (m : M Scheduler B) : M St B := zoom smc_get smc_put m.

(** ** Releasing a request *)

Definition add_finished (client : Z) (rid : string) (d : gmap Z (gset string)) : gmap Z (gset string) :=
  <[client := default ∅ (d !! client) ∪ {[rid]}]> d.

(** [_free_request]; without a connector nothing delays it but a remote load. *)
Definition free_request (rid : string) (delay_free_blocks : bool) : M St unit :=
  let* request := get_req rid in
  assert_ (is_finished (sr_req request)) ;;;
  modify (λ s, put_in_flight (in_flight s ∖ {[rid]}) s) ;;;
  on_encoder (ec_free (sr_req request)) ;;;
  modify (λ s, put_finished_req_ids (finished_req_ids s ∪ {[rid]}) s) ;;;
  modify (λ s, put_finished_req_ids_dict (add_finished (client_index request) rid <$> finished_req_ids_dict s) s) ;;;
  if delay_free_blocks then ret tt else on_smc (free_blocks request).

(** ** Adding and finishing requests *)

Definition sched_add_request (request : SRequest) : M St unit :=
  let rid := Request.request_id (sr_req request) in
  let* rs := gets st_requests in
  match rs !! rid with
  | Some _ => raise AssertionError (** duplicate request id *)
  | None =>
      on_queues (enqueue_waiting_request rid (status (sr_req request))) ;;;
      modify (λ s, put_st_requests (<[rid := request]> (st_requests s)) s)
  end.

(** [request_ids] in the order of iteration: one id, a set of ids, or all. *)
Definition finish_requests (request_ids : list string) (finished_status : RequestStatus) : M St (list (string * Z)) :=
  assert_ (status_is_finished finished_status) ;;;
  let* rs := gets st_requests in
  let valid_requests := omap (λ rid, request ← rs !! rid; if is_finished (sr_req request) then None else Some (rid, request)) request_ids in
  let is_running x := bool_decide (status (sr_req (x : string * SRequest).2) = RUNNING) in
  let running_requests_to_remove := list_to_set (C := gset string) (filter is_running valid_requests).*1 in
  let waiting_requests_to_remove := list_to_set (C := gset string) (filter (λ x, negb (is_running x)) valid_requests).*1 in
  modify (λ s, put_running (remove_all (running s) running_requests_to_remove) s) ;;;
  (if bool_decide (waiting_requests_to_remove = ∅) then ret tt
   else
     on_queues (on_waiting (remove_requests waiting_requests_to_remove)) ;;;
     on_queues (on_skipped (remove_requests waiting_requests_to_remove))) ;;;
  for_each valid_requests (λ x,
    let '(rid, request) := x in
    update_req rid (on_req (set_status finished_status)) ;;;
    free_request rid (bool_decide (status (sr_req request) = WAITING_FOR_REMOTE_KVS))) ;;;
  ret ((λ x : string * SRequest, (x.1, client_index x.2)) <$> valid_requests).

(** ** The model's output *)

(** A computation on a request object. *)
Definition with_request {B} (rid : string) (m : M Request B) : M St B :=
  let* request := get_req rid in
  let '(r, req') := m (sr_req request) in
  update_req rid (put_sr_req req') ;;;
  of_res r.

(** [_update_request_with_output] of the asynchronous scheduler *)
Definition async_update_request_with_output (rid : string) (new_token_ids : list Z) : M St (list Z * bool) :=
  let* request := get_req rid in
  if 0 <? async_tokens_to_discard request then
    update_req rid (put_async_tokens_to_discard (async_tokens_to_discard request - 1)) ;;;
    ret ([], false)
  else
    let status_before_update := status (sr_req request) in
    let* r := with_request rid (update_request_with_output (sc_max_model_len cfg) new_token_ids) in
    let placeholders := num_output_placeholders request - len r.1 in
    update_req rid (put_num_output_placeholders placeholders) ;;;
    assert_ (0 <=? placeholders) ;;;
    (if bool_decide (status_before_update = RUNNING) then
       let* request := get_req rid in
       on_cache (kv_cache_blocks (sr_req request) (num_computed_tokens (sr_req request) - placeholders))
     else ret tt) ;;;
    ret r.
Definition sched_update_request_with_output (rid : string) (new_token_ids : list Z) : M St (list Z * bool) :=
  if async_scheduling cfg then async_update_request_with_output rid new_token_ids
  else with_request rid (update_request_with_output (sc_max_model_len cfg) new_token_ids).

(** Rejected draft tokens were not computed. *)
Definition reject_tokens (num_rejected : Z) (request : SRequest) : SRequest :=
  let r := sr_req request in
  let request := if 0 <? num_computed_tokens r
    then on_req (put_num_computed_tokens (num_computed_tokens r - num_rejected)) request else request in
  if 0 <? num_output_placeholders request
  then put_num_output_placeholders (num_output_placeholders request - num_rejected) request else request.

(** What the loop over the scheduled requests collects. *)
Record UpdateVars : Type := MkUpdate {
  stopped_running_reqs : gset string;
  stopped_preempted_reqs : gset string;
  power_smc_parents_to_resample : list string;
  uv_outputs : list (Z * EngineOutput);
  power_smc_output_by_parent : gmap string nat (** positions in the outputs *)
}.
Definition record_stopped (rid : string) (was_running : bool) (v : UpdateVars) : UpdateVars :=
  if was_running
  then MkUpdate (stopped_running_reqs v ∪ {[rid]}) (stopped_preempted_reqs v) (power_smc_parents_to_resample v)
         (uv_outputs v) (power_smc_output_by_parent v)
  else MkUpdate (stopped_running_reqs v) (stopped_preempted_reqs v ∪ {[rid]}) (power_smc_parents_to_resample v)
         (uv_outputs v) (power_smc_output_by_parent v).
Definition record_parent (parent : option string) (v : UpdateVars) : UpdateVars :=
  match parent with
  | Some p => if bool_decide (p ∈ power_smc_parents_to_resample v) then v
              else MkUpdate (stopped_running_reqs v) (stopped_preempted_reqs v)
                     (power_smc_parents_to_resample v ++ [p]) (uv_outputs v) (power_smc_output_by_parent v)
  | None => v
  end.
Definition record_output (client : Z) (o : EngineOutput) (parent : option string) (v : UpdateVars) : UpdateVars :=
  MkUpdate (stopped_running_reqs v) (stopped_preempted_reqs v) (power_smc_parents_to_resample v)
    (uv_outputs v ++ [(client, o)])
    (match parent with Some p => <[p := length (uv_outputs v)]> (power_smc_output_by_parent v)
     | None => power_smc_output_by_parent v end).

(** The tokens kept and whether the request stops, by length or stop token, by
    its pooling output, or because its grammar rejects the tokens. *)
Definition take_tokens (rid : string) (generated_token_ids : list Z) (pooled : bool) : M St (list Z * bool) :=
  let* request := get_req rid in
  let* r :=
    match generated_token_ids with
    | [] =>
        if bool_decide (pooling_params (sr_req request) ≠ None) && pooled then
          update_req rid (on_req (set_status FINISHED_STOPPED)) ;;; ret ([], true)
        else ret ([], false)
    | _ => sched_update_request_with_output rid generated_token_ids
    end in
  let* request := get_req rid in
  if negb (bool_decide (r.1 = [])) && should_advance request && negb (accept_tokens rid r.1) then
    update_req rid (on_req (set_status FINISHED_ERROR)) ;;; ret (r.1, true)
  else ret r.

(** One entry of [num_scheduled_tokens]. *)
Definition update_one (o : SchedulerOutput) (mo : ModelRunnerOutput) (v : UpdateVars) (entry : string * Z)
  : M St UpdateVars :=
  let '(rid, num_tokens_scheduled) := entry in
  assert_ (0 <? num_tokens_scheduled) ;;;
  let* rs := gets st_requests in
  match rs !! rid with
  | None => ret v
  | Some request =>
      if is_finished (sr_req request) then ret v
      else
        let* req_index := or_raise KeyError (req_id_to_index mo !! rid) in
        let* generated_token_ids :=
          match sampled_token_ids mo with
          | [] => ret []
          | toks => or_raise IndexError (py_nth toks req_index)
          end in
        let scheduled_spec_token_ids := default [] (out_spec_decode_tokens o !! rid) in
        (if negb (bool_decide (scheduled_spec_token_ids = [])) && negb (bool_decide (generated_token_ids = []))
         then update_req rid (reject_tokens (len scheduled_spec_token_ids - (len generated_token_ids - 1)))
         else ret tt) ;;;
        let* request := get_req rid in
        (if has_encoder_inputs (sr_req request)
         then on_encoder (free_encoder_inputs (is_encoder_decoder cfg) (sr_req request)) else ret tt) ;;;
        let* pooled :=
          match pooler_output mo with
          | [] => ret false
          | l => or_raise IndexError (py_nth l req_index)
          end in
        let status_before_stop := status (sr_req request) in
        let* r := take_tokens rid generated_token_ids pooled in
        let '(new_token_ids, stopped) := r in
        let* request := get_req rid in
        let finish_reason := if (stopped : bool) then get_finished_reason (sr_req request) else None in
        (if (stopped : bool) then free_request rid false else ret tt) ;;;
        let v := if (stopped : bool) then record_stopped rid (bool_decide (status_before_stop = RUNNING)) v else v in
        let stop := stop_value <$> Request.stop_reason (sr_req request) in
        let is_smc := bool_decide (power_smc_config request ≠ None) && negb (bool_decide (new_token_ids = [])) in
        let* logprobs :=
          match is_smc, power_smc_logprobs mo with
          | true, Some l => let* x := or_raise IndexError (py_nth l req_index) in ret (Some x)
          | _, _ => ret None
          end in
        let* parent :=
          if is_smc && negb stopped
          then on_smc (observe_power_smc_request_output seeded entropy request new_token_ids logprobs
                 (finish_name <$> finish_reason) stop)
          else ret None in
        let v := record_parent parent v in
        if negb (bool_decide (new_token_ids = [])) || pooled || stopped then
          update_req rid (λ r, MkSRequest (sr_req r) (num_output_placeholders r) (async_tokens_to_discard r)
            (is_prefill_chunk r) (sr_seed r) (power_smc_config r) (power_smc_child_info r)
            (next_decode_eligible_step r) (use_structured_output r) (grammar_ready r) (client_index r) false) ;;;
          ret (record_output (client_index request)
                 (MkEngineOutput rid new_token_ids logprobs (finish_name <$> finish_reason) stop None) parent v)
        else ret v
  end.

Definition set_event (e : gmap string pyval) (o : EngineOutput) : EngineOutput :=
  MkEngineOutput (eo_request o) (eo_tokens o) (eo_logprobs o) (eo_finish o) (eo_stop o) (Some e).
(** The events of the resampled groups go into their last outputs. *)
Definition attach_events (by_parent : gmap string nat) (events : list (string * gmap string pyval))
    (outs : list (Z * EngineOutput)) : list (Z * EngineOutput) :=
  foldl (λ outs e, match by_parent !! e.1 with
                   | Some i => alter (λ o, (o.1, set_event e.2 o.2)) i outs
                   | None => outs
                   end) outs events.

(** Resampled children leave the running list and wait at the front. *)
Definition requeue (resampled_reqs : list string) : M St unit :=
  match resampled_reqs with
  | [] => ret tt
  | _ =>
      let resampled_set := list_to_set (C := gset string) resampled_reqs in
      modify (λ s, put_running (remove_all (running s) resampled_set) s) ;;;
      on_queues (on_waiting (remove_requests resampled_set)) ;;;
      on_queues (on_skipped (remove_requests resampled_set)) ;;;
      for_each (rev resampled_reqs) (λ rid,
        modify (λ s, put_prev_step_scheduled_req_ids (prev_step_scheduled_req_ids s ∖ {[rid]}) s) ;;;
        let* request := get_req rid in
        if is_finished (sr_req request) then ret tt
        else on_queues (on_waiting (prepend_request rid)))
  end.

Definition update_from_output (o : SchedulerOutput) (mo : ModelRunnerOutput) : M St UpdateOutput :=
  let* v := fold_each (update_one o mo) (out_num_scheduled_tokens o) (MkUpdate ∅ ∅ [] [] ∅) in
  let* r := on_smc (resample_step set_order (power_smc_parents_to_resample v)) in
  let outputs := attach_events (power_smc_output_by_parent v) r.2 (uv_outputs v) in
  modify (λ s, put_running (remove_all (running s) (stopped_running_reqs v)) s) ;;;
  (if bool_decide (stopped_preempted_reqs v = ∅) then ret tt
   else on_queues (on_waiting (remove_requests (stopped_preempted_reqs v)))) ;;;
  requeue r.1 ;;;
  let* events := on_cache kv_take_events in
  let* finished := gets finished_req_ids_dict in
  modify (λ s, put_finished_req_ids_dict ((λ _, ∅) <$> finished_req_ids_dict s) s) ;;;
  ret (MkUpdateOutput outputs (default ∅ finished) events).

(** ** Draft tokens *)

Definition update_draft_token_ids (drafts : list (string * list Z)) : M St unit :=
  for_each drafts (λ d,
    let '(rid, spec) := d in
    let* rs := gets st_requests in
    match rs !! rid with
    | None => ret tt
    | Some request =>
        if is_finished (sr_req request) then ret tt
        else if is_prefill_chunk request then update_req rid (on_req (put_spec_token_ids []))
        else
          let spec := if should_advance request then validate_tokens rid spec else spec in
          update_req rid (on_req (put_spec_token_ids spec))
    end).

(** [update_draft_token_ids_in_output]: the new entries of the output's draft
    tokens and the numbers of invalid ones. *)
Definition update_draft_token_ids_in_output (drafts : list (string * list Z)) (sched_spec_tokens : gmap string (list Z))
  : M St (gmap string (list Z) * gmap string Z) :=
  fold_each (λ acc d,
    let '(rid, spec) := d in
    let* rs := gets st_requests in
    match rs !! rid with
    | None => ret acc
    | Some request =>
        if is_finished (sr_req request) then ret acc
        else
          match default [] (acc.1 !! rid) with
          | [] => ret acc
          | placeholder =>
              let orig_num_spec_tokens := len placeholder in
              let spec := slice_to spec orig_num_spec_tokens in
              let spec := if should_advance request then validate_tokens rid spec else spec in
              let num_invalid_tokens := orig_num_spec_tokens - len spec in
              if num_invalid_tokens =? 0 then ret (<[rid := spec]> acc.1, acc.2)
              else ret (<[rid := spec ++ replicate (Z.to_nat num_invalid_tokens) (-1)]> acc.1,
                        <[rid := num_invalid_tokens]> acc.2)
          end
    end) drafts (sched_spec_tokens, ∅).

(** ** Resetting the caches *)

(** [while self.running: request = self.running.pop(); ...] *)
Fixpoint preempt_all (fuel : nat) : M St unit :=
  let* rs := gets running in
  match last rs, fuel with
  | None, _ => ret tt
  | Some _, O => raise OutOfFuel
  | Some rid, S fuel =>
      modify (put_running (removelast rs)) ;;;
      preempt_request rid ;;;
      update_req rid (λ r, put_num_output_placeholders 0 (put_async_tokens_to_discard (num_output_placeholders r) r)) ;;;
      preempt_all fuel
  end.

(** Without a connector, [reset_connector] changes nothing. *)
Definition sched_reset_prefix_cache (reset_running_requests : bool) : M St bool :=
  (if reset_running_requests then
     let* rs := gets running in
     preempt_all (length rs) ;;;
     modify (put_prev_step_scheduled_req_ids ∅)
   else ret tt) ;;;
  let* reset_successful := on_cache kv_reset_prefix_cache in
  if reset_running_requests && negb reset_successful then raise RuntimeError else ret reset_successful.

Definition reset_encoder_cache : M St unit := on_encoder ec_reset.

(** ** Counts and pausing *)

Definition set_pause_state (p : PauseState) : M St unit := modify (put_pause_state p).
Definition get_request_counts (s : St) : Z * Z :=
  (len (running s), queue_len (waiting (queues s)) + queue_len (skipped_waiting (queues s))).
Definition get_num_unfinished_requests (s : St) : Z :=
  match pause_state s with
  | PAUSED_ALL => 0
  | PAUSED_NEW => len (running s)
  | UNPAUSED => queue_len (waiting (queues s)) + queue_len (skipped_waiting (queues s)) + len (running s)
  end.
Definition has_finished_requests (s : St) : bool := negb (bool_decide (finished_req_ids s = ∅)).

(** ** Blocks still needed by requests in flight *)

Definition request_remaining_blocks (request : SRequest) : M St Z :=
  let r := sr_req request in
  let full_num_tokens := Z.min (num_tokens r) (sc_max_model_len cfg) in
  let* empty := gets (λ s, empty_kv_cache_blocks (kv s)) in
  on_cache (on_co (co_get_num_blocks_to_allocate (Request.request_id r) full_num_tokens (kb_blocks empty) 0
    (num_computed_tokens r) full_num_tokens true)).
Definition inflight_prefill_reserved_blocks : M St Z :=
  let* ids := gets in_flight in
  fold_each (λ n rid, let* request := get_req rid in let* k := request_remaining_blocks request in ret (n + k))
    (elements ids) 0.

End updates.
