(* ===== verification/EngineCore.v ===== *)
(** * The engine core

    src/vllm/vllm/v1/engine/core.py: how [EngineCore] drives the scheduler.  It
    adds and aborts requests, runs a step (schedule, execute the model, take in
    the output), hands draft tokens over afterwards, pauses and resumes.  The
    model executor is an argument of [step]. *)

From stdpp Require Import gmap sets.
From S2P Require Import Prelude Arith PowerSMC FreeQueue BlockHash Request BlockPool KVCacheSpec SingleType CacheHit Coordinator KVCacheManager EncoderCache SMCScheduler Heapq RequestQueue EncoderInputs SchedState Schedule SchedUpdate.
Open Scope Z_scope.

Inductive PauseMode : Type := PauseAbort | PauseKeep | PauseWait.

Section engine.
Context {A : Arith} `{HashEnv} {Q : Type} `{!RequestQueue string Q}.
(** Iteration over sets and over the keys of the dictionary of requests, object
    identity and the grammars as in the scheduler; [supported] is whether the executor supports the task of a pooling request. *)
Context (set_order : gset Z → list Z) (id_order : gset string → list string)
  (keys_order : gmap string SRequest → list string) (seeded : Z → Rng) (entropy : nat → Rng).
Context (addr : string → Z) (deref : string → Request).
Context (should_advance : SRequest → bool) (accept_tokens : string → list Z → bool)
  (validate_tokens : string → list Z → list Z) (supported : SRequest → bool).
Context (cfg : SchedulerConfig) (use_spec_decode : bool).
#[local] Instance core_enc : EncCache EncoderCacheManager := encoder_cache set_order.
Abbreviation St := (SchedulerState KVCacheManager EncoderCacheManager Q).

(** [SchedulerInterface.has_unfinished_requests] and [has_requests]
    (src/vllm/vllm/v1/core/sched/interface.py) *)
Definition has_unfinished_requests (s : St) : bool := 0 <? get_num_unfinished_requests s.
Definition has_requests (s : St) : bool := has_unfinished_requests s || has_finished_requests s.

(** [scheduler.finish_requests(ids, FINISHED_ABORTED)] iterates over [set(ids)]. *)
Definition abort_requests (request_ids : list string) : M St (list (string * Z)) :=
  finish_requests set_order cfg (id_order (list_to_set request_ids)) FINISHED_ABORTED.

(** [add_request]; the type check and the warning are left out. *)
Definition engine_add_request (request : SRequest) (abort_immediately : bool) : M St unit :=
  (if bool_decide (pooling_params (sr_req request) ≠ None) && negb (supported request) then raise ValueError else ret tt) ;;;
  sched_add_request request ;;;
  if abort_immediately then
    let* _ := abort_requests [Request.request_id (sr_req request)] in ret tt
  else ret tt.

(** [_process_aborts_queue]: the batches that arrived, all at once. *)
Definition process_aborts_queue (batches : list (list string)) : M St unit :=
  match batches with
  | [] => ret tt
  | _ => let* _ := abort_requests (concat batches) in ret tt
  end.

(** [step]: the outputs, if there was anything to do, and whether the model was
    executed.  [execute] stands for the model executor, [aborts] for the abort
    messages that arrived meanwhile. *)
Definition step (execute : SchedulerOutput → ModelRunnerOutput) (aborts : list (list string))
  : M St (option UpdateOutput * bool) :=
  let* pending := gets has_requests in
  if negb pending then ret (None, false)
  else
    let* scheduler_output := schedule addr deref cfg in
    let model_output := execute scheduler_output in
    process_aborts_queue aborts ;;;
    let* outputs := update_from_output set_order seeded entropy should_advance accept_tokens cfg scheduler_output model_output in
    ret (Some outputs, 0 <? total_num_scheduled_tokens scheduler_output).

(** [draft_token_ids] is [model_executor.take_draft_token_ids()]. *)
Definition post_step (model_executed : bool) (draft_token_ids : option (list (string * list Z))) : M St unit :=
  if negb (async_scheduling cfg) && use_spec_decode && model_executed then
    match draft_token_ids with
    | Some drafts => update_draft_token_ids should_advance validate_tokens drafts
    | None => ret tt
    end
  else ret tt.

Definition engine_reset_prefix_cache (reset_running_requests : bool) : M St bool :=
  sched_reset_prefix_cache set_order reset_running_requests.

(** [_reset_caches]; the multimodal caches are not part of the state. *)
Definition reset_caches (reset_running_requests : bool) : M St unit :=
  let* _ := engine_reset_prefix_cache reset_running_requests in
  reset_encoder_cache set_order.

(** [pause_scheduler] of the engine core in the client's process. *)
Definition pause_scheduler (mode : PauseMode) (clear_cache : bool) : M St unit :=
  match mode with
  | PauseWait => raise ValueError
  | _ =>
      (match mode with
       | PauseAbort =>
           let* rs := gets st_requests in
           let* _ := finish_requests set_order cfg (keys_order rs) FINISHED_ABORTED in ret tt
       | _ => ret tt
       end) ;;;
      set_pause_state (match mode with PauseKeep => PAUSED_ALL | _ => PAUSED_NEW end) ;;;
      if clear_cache then reset_caches true else ret tt
  end.
Definition resume_scheduler : M St unit := set_pause_state UNPAUSED.
Definition is_scheduler_paused (s : St) : bool := negb (bool_decide (pause_state s = UNPAUSED)).
End engine.
