(* ===== verification/SchedSpec.v ===== *)
(** * What the scheduler relies on

    The promises of the KV cache and of the encoder cache to the scheduler, as
    classes: the scheduler's theorems are proved against them, and the modelled
    managers are instances ([KVLaws], [EncLaws]). *)

From stdpp Require Import gmap sets sorting.
From S2P Require Import Prelude Arith PowerSMC FreeQueue BlockHash Request BlockPool KVCacheSpec SingleType CacheHit Coordinator KVCacheManager EncoderCache SMCScheduler Heapq RequestQueue EncoderInputs SchedState Schedule.
Open Scope Z_scope.

(** ** The KV cache *)

(** How the scheduler sees a KV cache: [covers k rid n] when the blocks of [rid]
    have room for its first [n] tokens, [blank k rid] when it has none, [hit k r
    b n] when [b] are the cached blocks of the first [n] tokens of [r]. *)
Class KVView (K : Type) : Type := {
  kv_ok : K → Prop;
  covers : K → string → Z → Prop;
  blank : K → string → Prop;
  hit : K → Request → KVCacheBlocks → Z → Prop;
  suits : Request → Prop (** the token and hash lists a request may have *);
  readable : KVCacheBlocks → Prop
}.

Section kv_views.
Context {K : Type} `{!KVCache K, !KVView K}.

(** Requests other than those in [X] keep what they have. *)
Definition kept_but (X : string → Prop) (k k' : K) : Prop :=
  ∀ x, ¬ X x → (blank k x → blank k' x) ∧ ∀ n, covers k x n → covers k' x n.
Abbreviation kept := (kept_but (λ _, False)).

(** [nc] more tokens of [r] are computed, in the blocks [o]: none are, or [o] is
    a cache hit of a request without blocks. *)
Definition offers (k : K) (r : Request) (nc : Z) (o : option KVCacheBlocks) : Prop :=
  (nc = 0 ∧ 0 ≤ num_computed_tokens r ∧ covers k (Request.request_id r) (num_computed_tokens r) ∧
     (o = None ∨ o = Some (kvc_empty_blocks k))) ∨
  (num_computed_tokens r = 0 ∧ 0 ≤ nc ∧ ∃ b, o = Some b ∧ hit k r b nc).
End kv_views.
Notation kept := (kept_but (λ _, False)).

(** [mml] is the maximal length of a request, [la] the lookahead tokens. *)
Class KVCacheLaws (K : Type) `{!KVCache K, !KVView K} (mml la : Z) : Prop := {
  suits_same r r' : Request.request_id r' = Request.request_id r → all_token_ids r' = all_token_ids r →
    Request.block_hashes r' = Request.block_hashes r → suits r → suits r';
  step_law k : kv_ok k → ok kvc_new_step_starts k (λ _ k', kv_ok k' ∧ kept k k');
  lookup_law k r : kv_ok k → suits r → blank k (Request.request_id r) → 0 < num_tokens r →
    ok (kvc_get_computed_blocks r) k (λ x k', kv_ok k' ∧ kept k k' ∧ 0 ≤ x.2 < num_tokens r ∧ hit k' r x.1 x.2);
  allocate_law k r nn nc o enc full : kv_ok k → suits r → 0 < nn → num_tokens r ≤ mml →
    num_computed_tokens r + nc + nn ≤ mml → offers k r nc o →
    ok (kvc_allocate_slots r nn nc o la enc full) k (λ res k', kv_ok k' ∧
      match res with
      | None => kept k k'
      | Some b => kept_but (.= Request.request_id r) k k' ∧ readable b ∧
          covers k' (Request.request_id r) (num_computed_tokens r + nc + nn)
      end);
  free_law k r : kv_ok k → ok (kvc_free r) k (λ _ k',
    kv_ok k' ∧ kept_but (.= Request.request_id r) k k' ∧ blank k' (Request.request_id r));
  get_blocks_law k rid : kv_ok k → ok (kvc_get_blocks rid) k (λ b k', kv_ok k' ∧ kept k k' ∧ readable b);
  block_ids_law k b allow_none : kv_ok k → readable b →
    ok (kvc_block_ids allow_none b) k (λ _ k', kv_ok k' ∧ kept k k');
  common_law k rid n : kv_ok k → covers k rid n → ok (kvc_get_num_common_prefix_blocks rid) k (λ _ k', kv_ok k' ∧ kept k k');
  take_ids_law k : kv_ok k → ok kvc_take_new_block_ids k (λ _ k', kv_ok k' ∧ kept k k')
}.

(** ** The encoder cache *)

(** [room c r l]: the inputs [l] of [r] can be allocated one after the other. *)
Class EncView (C : Type) : Type := {
  enc_ok : C → Prop;
  enc_suits : Request → Prop;
  room : C → Request → list Z → Prop
}.

(** [ed] is whether the model is an encoder-decoder. *)
Class EncCacheLaws (C : Type) `{!EncCache C, !EncView C} (ed : bool) : Prop := {
  enc_suits_same r r' : Request.request_id r' = Request.request_id r → mm_features r' = mm_features r →
    enc_suits r → enc_suits r';
  try_law c r chunked computed shift n budget : enc_ok c → enc_suits r → 0 ≤ computed → 0 ≤ shift → 0 ≤ n →
    ok (try_schedule_encoder_inputs ed chunked r computed shift n budget) c (λ x c',
      enc_ok c' ∧ 0 ≤ x.1.2 ≤ n ∧ room c' r x.1.1);
  room_nil c r : room c r [];
  room_inputs c r l : room c r l → ∀ i, i ∈ l → 0 ≤ i < len (mm_features r);
  room_same c r r' l : Request.request_id r' = Request.request_id r → mm_features r' = mm_features r →
    room c r l → room c r' l;
  enc_allocate_law c r l : enc_ok c → enc_suits r → room c r l →
    ok (for_each l (ec_allocate r)) c (λ _ c', enc_ok c');
  enc_free_law c r : enc_ok c → enc_suits r →
    ok (ec_free r) c (λ _ c', enc_ok c' ∧ ∀ r' l, room c r' l → room c' r' l);
  freed_law c : enc_ok c → ok ec_get_freed_mm_hashes c (λ _ c', enc_ok c')
}.
