(* ===== verification/KVLaws.v ===== *)
(** * The KV-cache manager keeps its promises to the scheduler

    The instance of [KVCacheLaws] for the modelled KV-cache manager: every
    supported configuration (any number of groups of full, sliding-window and
    chunked-local attention, with any coordinator) keeps the invariant under
    every call of the scheduler. *)

From stdpp Require Import gmap sets sorting.
From S2P Require Import Prelude FreeQueue BlockHash Request BlockPool PoolProps KVCacheSpec SingleType Ownership SingleTypeProps CachingProps CacheHit CacheHitProps HitSpec Coordinator CacheLookup KVCacheManager CoordinatorProps SlotProps SlotPhases KVProps KVReach KVInvariant Arith PowerSMC EncoderCache SMCScheduler SMCBlocks EncoderInputs SchedState SchedSpec.
Open Scope Z_scope.

Section laws.
Context `{HashEnv} (caching : bool) (hbs nblocks mml la : Z).

(** ** Supported configurations *)

(** The lookup of this coordinator returns. *)
Definition lookup_shape (cs : cstate) : Prop :=
  let p := cs_pool cs in
  match kind (cs_co cs) with
  | NoPrefixCache => True
  | Unitary bs dcp pcp =>
      dcp = 1 ∧ pcp = 1 ∧ bs = hash_block_size p ∧ 0 < bs ∧
      ∃ m g, cs_mgrs cs = [m] ∧ kv_cache_groups (kv_cache_config (cs_co cs)) !! 0%nat = Some g ∧
        kv_cache_group_id m = 0 ∧ block_size m = bs ∧ spec_block_size (group_spec g) = bs ∧
        searchable (cls m) (group_spec g) (bool_decide (0 ∈ eagle_group_ids (cs_co cs))) bs
  | Hybrid h sgs =>
      h = hash_block_size p ∧ length (kv_cache_groups (kv_cache_config (cs_co cs))) = length (cs_mgrs cs) ∧
      0 < co_scheduler_block_size (cs_co cs) ∧
      Forall (sg_ok p (length (cs_mgrs cs)) (co_scheduler_block_size (cs_co cs))) sgs ∧
      NoDup (ids_of sgs) ∧ one_full sgs ∧ sgs ≠ [] ∧
      ∀ i m, cs_mgrs cs !! i = Some m → kv_cache_group_id m = Z.of_nat i ∧
        ∃ sg, sg ∈ sgs ∧ Z.of_nat i ∈ sg_group_ids sg ∧ block_size m = spec_block_size (sg_spec sg)
  end.

Definition mgr_shape (m : Manager) : Prop :=
  cls m ≠ MambaManager ∧ cls m ≠ CrossAttentionManager ∧ window_ok m ∧ mask_config m.

Record kv_shape (kv : KVCacheManager) : Prop := {
  ks_len : kv_max_model_len kv = mml;
  ks_caching : kv_enable_caching kv = caching ∧ enable_caching (cs_pool (coordinator kv)) = caching;
  ks_pool : hash_block_size (cs_pool (coordinator kv)) = hbs ∧ num_gpu_blocks (cs_pool (coordinator kv)) = nblocks;
  ks_align : caching = true → 0 < hbs ∧ 0 < co_scheduler_block_size (cs_co (coordinator kv));
  ks_mgrs : ∀ m, m ∈ cs_mgrs (coordinator kv) → mgr_shape m;
  ks_lookup : caching = true → lookup_shape (coordinator kv)
}.

(** ** The view *)

Definition co_hit (cs : cstate) (h : gmap Z bytes) (r : Request) (n : Z) (computed : list (list loc)) : Prop :=
  length computed = length (cs_mgrs cs) ∧ ∀ i m, cs_mgrs cs !! i = Some m →
  ∃ c, computed !! i = Some c ∧
    covered_by (cs_pool cs) (MkAPool [] [] h) (Request.block_hashes r) n (block_size m) (kv_cache_group_id m) c.

Definition distinct_hashes (hs : list bytes) : Prop := NoDup hs ∧ ∃ k, ∀ x, x ∈ hs → length x = k.

Definition kv_blank (kv : KVCacheManager) (rid : string) : Prop :=
  ∀ m, m ∈ cs_mgrs (coordinator kv) → is_fresh rid m = true.
Definition kv_covers (kv : KVCacheManager) (rid : string) (n : Z) : Prop :=
  ∀ m, m ∈ cs_mgrs (coordinator kv) → n ≤ len (blocks_at rid m) * block_size m.

#[export] Instance kv_view : KVView KVCacheManager := {
  kv_ok kv := kv_shape kv ∧ ∃ l h, kv_rep kv l h;
  covers := kv_covers;
  blank := kv_blank;
  hit kv r b n := 0 ≤ n ≤ num_tokens r ∧ kv_blank kv (Request.request_id r) ∧ (caching = false → n = 0) ∧
    (n = 0 → b = empty_kv_cache_blocks kv) ∧ (n ≠ 0 → shared_empty b = false) ∧
    ∃ l h, kv_rep kv l h ∧ co_hit (coordinator kv) h r n (kb_blocks b);
  suits r := caching = true → num_tokens r / hbs ≤ len (Request.block_hashes r) ∧
    distinct_hashes (Request.block_hashes r);
  readable b := ∀ g x, g ∈ kb_blocks b → x ∈ g → 0 ≤ x < nblocks
}.

(** ** What the calls keep *)

Lemma lookup_shape_keep cs cs' :
  lookup_shape cs → same_config (cs_pool cs) (cs_pool cs') → mgrs_rel (λ _, same_static) cs cs' → lookup_shape cs'.
Proof.
  intros Hl (Hn & Hec & Hh & _) (Hco & Hlen & Hrel). unfold lookup_shape in *. rewrite Hco.
  destruct (kind (cs_co cs)) as [|bs dcp pcp|h sgs]; [done| |].
  - destruct Hl as (? & ? & -> & ? & m & g & Hm & Hg & Hid & Hb & Hs & Hsr).
    destruct (Hrel 0%nat m ltac:(by rewrite Hm)) as (m' & Hm' & (Hc & _ & _ & Hbs & _ & _ & Hgid & _)).
    rewrite Hh. split_and!; [done..|]. exists m', g. rewrite Hgid, Hbs, Hc. split_and!; [|done..].
    rewrite Hm in Hlen. destruct (cs_mgrs cs') as [|m1 [|]]; try done. by injection Hm' as ->.
  - destruct Hl as (-> & Hg & Hs & Hok & Hnd & Hone & Hne & Hall). rewrite Hh, Hlen. split_and!; try done.
    + eapply Forall_impl; [exact Hok|]. intros sg [[? Hsz] ? ? ? ?]. split; try done. split; [done|]. by rewrite Hh.
    + intros i m' Hm'. destruct (mgrs_rel_backwards (λ _, same_static) cs cs' i m' (conj Hco (conj Hlen Hrel)) Hm')
        as (m & Hm & (_ & _ & _ & Hbs & _ & _ & Hgid & _)).
      destruct (Hall i m Hm) as (Hi & sg & ?). rewrite Hgid, Hbs. split; [done|]. by exists sg.
Qed.

Lemma mgr_shape_keep m m' : same_static m m' → mgr_shape m → mgr_shape m'.
Proof.
  intros Hst (H1 & H2 & H3 & H4). pose proof Hst as (Hc & Hs & Hsb & _). unfold mgr_shape. rewrite Hc.
  split_and!; [done..|by eapply window_ok_static|]. unfold mask_config in *. by rewrite Hc, Hs, Hsb.
Qed.

Lemma kv_shape_keep kv kv' :
  kv_shape kv → same_config (cs_pool (coordinator kv)) (cs_pool (coordinator kv')) →
  mgrs_rel (λ _, same_static) (coordinator kv) (coordinator kv') → kv_max_model_len kv' = kv_max_model_len kv →
  kv_enable_caching kv' = kv_enable_caching kv → kv_shape kv'.
Proof.
  intros [Hl [Hc1 Hc2] [Hp1 Hp2] Ha Hm Hlk] Hcfg Hrel Hl' Hc'. pose proof Hcfg as (Hn & Hec & Hh & _).
  split; rewrite ?Hl', ?Hc', ?Hec, ?Hh, ?Hn; [done..| | |].
  - pose proof (proj1 Hrel) as ->. exact Ha.
  - intros m' [i Hi]%list_elem_of_lookup. destruct (mgrs_rel_backwards _ _ _ _ _ Hrel Hi) as (m & Hm' & Hst).
    eapply mgr_shape_keep; [exact Hst|]. apply Hm. by apply (list_elem_of_lookup_2 _ _ _ Hm').
  - intros Hc. by eapply lookup_shape_keep; [apply Hlk| |].
Qed.

(** The requests outside [X] have the same tables. *)
Definition others_same (X : string → Prop) (m m' : Manager) : Prop :=
  same_static m m' ∧ ∀ rid, ¬ X rid → len (blocks_at rid m') = len (blocks_at rid m) ∧
    num_cached_block m' !! rid = num_cached_block m !! rid.

Lemma fresh_same rid m m' :
  len (blocks_at rid m') = len (blocks_at rid m) → num_cached_block m' !! rid = num_cached_block m !! rid →
  is_fresh rid m' = is_fresh rid m.
Proof.
  intros Hlen Hc. unfold is_fresh. rewrite Hc. f_equal. apply bool_decide_ext. unfold len in Hlen.
  split; intros Hn; rewrite Hn in Hlen; apply nil_length_inv; cbn in Hlen; lia.
Qed.

Lemma kept_intro kv cs' (X : string → Prop) l h l' h' :
  kv_shape kv → kv_rep kv l h → coord_rep cs' [] l' h' → same_config (cs_pool (coordinator kv)) (cs_pool cs') →
  mgrs_rel (λ _, others_same X) (coordinator kv) cs' →
  kv_ok (set_coordinator cs' kv) ∧ kept_but X kv (set_coordinator cs' kv).
Proof.
  intros Hs Hrep Hr Hcfg Hrel. split; [split|]; [|exists l', h'|].
  - eapply kv_shape_keep; [exact Hs|exact Hcfg| |done|done].
    eapply mgrs_rel_weaken; [exact Hrel|]. by intros i m0 m1 _ [? _].
  - destruct Hrep as (_ & Hg & Hst). split; [exact Hr|]. split; [|exact Hst]. cbn. by rewrite Hg, (proj1 (proj2 Hrel)).
  - intros x Hx. unfold blank, covers. cbn [kv_view]. split.
    + intros Hb m' [i Hi]%list_elem_of_lookup. destruct (mgrs_rel_backwards _ _ _ _ _ Hrel Hi) as (m0 & Hm0 & [_ Hsame]).
      destruct (Hsame x Hx). rewrite (fresh_same x m0) by done. apply Hb. by apply (list_elem_of_lookup_2 _ _ _ Hm0).
    + intros n Hn m' [i Hi]%list_elem_of_lookup.
      destruct (mgrs_rel_backwards _ _ _ _ _ Hrel Hi) as (m0 & Hm0 & [(_ & _ & _ & Hbs & _) Hsame]).
      rewrite (proj1 (Hsame x Hx)), Hbs. apply Hn. by apply (list_elem_of_lookup_2 _ _ _ Hm0).
Qed.

(** A call on the coordinator that keeps its representation. *)
Lemma kv_kept {A} (m : M cstate A) kv (X : string → Prop) (P : A → KVCacheManager → Prop) l h :
  kv_shape kv → kv_rep kv l h →
  ok m (coordinator kv) (λ a cs', ∃ l' h', coord_rep cs' [] l' h' ∧
    same_config (cs_pool (coordinator kv)) (cs_pool cs') ∧ mgrs_rel (λ _, others_same X) (coordinator kv) cs' ∧
    P a (set_coordinator cs' kv)) →
  ok (on_co m) kv (λ a kv', kv_ok kv' ∧ kept_but X kv kv' ∧ P a kv').
Proof.
  intros Hs Hrep Hm. apply ok_on_co. eapply ok_mono; [exact Hm|]. intros a cs' (l' & h' & Hr & Hcfg & Hrel & HP).
  destruct (kept_intro kv cs' X l h l' h' Hs Hrep Hr Hcfg Hrel). by split_and!.
Qed.

Lemma others_same_tables X m m' : same_tables m m' → others_same X m m'.
Proof. intros (Hst & Hb & Hc). split; [done|]. intros rid _. by rewrite Hb, Hc. Qed.

(** ** The simple calls *)

Lemma quiet_kept {A} (f : nat → M mstate A) kv l h :
  (∀ i s R l h, mgr_rep s R l h → ok (f i) s (λ _ s', mgr_rep s' R l h ∧ ms_pool s' = ms_pool s ∧
     same_tables (ms_mgr s) (ms_mgr s'))) →
  kv_shape kv → kv_rep kv l h → ok (on_co (map_mgrs f)) kv (λ _ kv', kv_ok kv' ∧ kept kv kv').
Proof.
  intros Hf Hs Hrep. eapply ok_mono.
  - apply (kv_kept (map_mgrs f) kv (λ _, False) (λ _ _, True) l h Hs Hrep).
    eapply ok_mono; [by apply (co_quiet_ok f (coordinator kv) [] l h Hf), Hrep|].
    intros a cs' (Hr & Hev & Hrel). exists l, h. split_and!; [done|apply Hev| |done].
    eapply mgrs_rel_weaken; [exact Hrel|]. intros i m m' _. apply others_same_tables.
  - by intros a kv' (? & ? & _).
Qed.

Lemma step_kept kv l h : kv_shape kv → kv_rep kv l h → ok kv_new_step_starts kv (λ _ kv', kv_ok kv' ∧ kept kv kv').
Proof.
  intros Hs Hrep. eapply ok_mono.
  - apply (kv_kept co_new_step_starts kv (λ _, False) (λ _ _, True) l h Hs Hrep).
    unfold co_new_step_starts, for_mgrs. ok_steps. apply for_each_map_each.
    pose proof (co_quiet_ok _ _ [] l h (λ i, step_starts_quiet i) (proj1 Hrep)) as Hok.
    unfold map_mgrs in Hok. apply ok_bind_inv in Hok. cbn [ok gets] in Hok.
    eapply ok_mono; [exact Hok|]. intros _ cs' (Hr' & Hev & Hrel). exists l, h.
    split_and!; [done|apply Hev| |done].
    eapply mgrs_rel_weaken; [exact Hrel|]. intros i m m' _. apply others_same_tables.
  - by intros a kv' (? & ? & _).
Qed.

Lemma free_kept kv l h r : kv_shape kv → kv_rep kv l h → ok (kv_free r) kv (λ _ kv',
  kv_ok kv' ∧ kept_but (.= Request.request_id r) kv kv' ∧ blank kv' (Request.request_id r)).
Proof.
  intros Hs Hrep. unfold kv_free. apply (kv_kept _ kv _ (λ _ kv', blank kv' (Request.request_id r)) l h Hs Hrep).
  eapply ok_mono; [by apply (co_free_ok _ [] l h), Hrep|]. intros _ cs' (l' & Hr & Hev & Hrel).
  exists l', h. split_and!; [done|apply Hev| |].
  - eapply mgrs_rel_weaken; [exact Hrel|]. intros i m m' _ (Hst & Hb & Hc). split; [done|]. intros rid Hne.
    unfold blocks_at. by rewrite Hb, Hc, !lookup_delete_ne by congruence.
  - intros m' [i Hi]%list_elem_of_lookup. destruct (mgrs_rel_backwards _ _ _ _ _ Hrel Hi) as (m & _ & _ & Hb & Hc).
    unfold is_fresh, blocks_at. by rewrite Hb, Hc, !lookup_delete_eq.
Qed.

Lemma take_ids_kept kv l h : kv_shape kv → kv_rep kv l h →
  ok kv_take_new_block_ids kv (λ _ kv', kv_ok kv' ∧ kept kv kv').
Proof.
  intros Hs Hrep. unfold kv_take_new_block_ids. ok_step.
  eapply ok_mono; [by apply (quiet_kept _ kv l h (λ i, take_ids_quiet i))|]. intros ids kv' Hk. by ok_step.
Qed.

Lemma count_shared_reads p os l h n bs acc :
  own_rep p os l h → (∀ b, b ∈ bs → 0 ≤ b < num_gpu_blocks p) → ∃ k, count_shared n bs acc p = (Ok k, p).
Proof.
  intros Hown. revert acc. induction bs as [|b bs IH]; intros acc Hr; [by eexists|]. cbn [count_shared].
  destruct (onq_read_eq _ _ _ b (pr_core _ _ (ow_pool _ _ _ _ Hown)) (Hr b ltac:(by left))) as (blk & Hrd & _).
  rewrite (bind_eq _ _ _ _ _ Hrd). destruct (_ =? _); [|by eexists]. apply IH. intros b' Hb'. apply Hr. by right.
Qed.

Lemma table_range s R l h rid b :
  mgr_rep s R l h → b ∈ blocks_at rid (ms_mgr s) → 0 ≤ b < num_gpu_blocks (ms_pool s).
Proof.
  intros [Hown _ _] Hb. apply (owners_focus rid) in Hown. eapply own_rep_range; [exact Hown|by left|done].
Qed.

Lemma common_quiet rid (i : nat) s R l h :
  mgr_rep s R l h → ok (get_num_common_prefix_blocks rid) s (λ _ s', mgr_rep s' R l h ∧ ms_pool s' = ms_pool s ∧
    same_tables (ms_mgr s) (ms_mgr s')).
Proof.
  intros Hrep. unfold get_num_common_prefix_blocks. mgr_step. mgr_step.
  assert (ok (let* bs := req_blocks rid in let* n := getm (λ m, Z.of_nat (size (req_to_blocks m))) in
    onp (count_shared n bs 0)) s (λ _ s', mgr_rep s' R l h ∧ ms_pool s' = ms_pool s ∧
    same_tables (ms_mgr s) (ms_mgr s'))) as Hscan.
  { mgr_steps. apply ok_onp. cbn [ms_pool ms_mgr].
    destruct (count_shared_reads (ms_pool s) (mgr_owners (ms_mgr s) ++ R) l h
      (Z.of_nat (size (<[rid := blocks_at rid (ms_mgr s)]> (req_to_blocks (ms_mgr s))))) (blocks_at rid (ms_mgr s)) 0)
      as [k Hk]; [apply Hrep|intros b; by eapply table_range|]. eapply ok_eq; [exact Hk|]. split; [|split; [done|split; [done|split; [|done]]]].
    - eapply (mgr_rep_refocus rid); [exact Hrep|done|apply touch_entry_only_changes|intros n; by apply (mg_cached _ _ _ _ Hrep)|].
      tables. apply owners_focus, Hrep.
    - intros x. unfold blocks_at. cbn [req_to_blocks set_req_to_blocks set_tables].
      destruct (decide (x = rid)) as [->|]; [by rewrite lookup_insert_eq|by rewrite lookup_insert_ne]. }
  assert (mgr_rep s R l h ∧ ms_pool s = ms_pool s ∧ same_tables (ms_mgr s) (ms_mgr s)) as Hnone by (by split_and!).
  destruct (cls (ms_mgr s)); [exact Hscan|by mgr_steps..|exact Hscan].
Qed.

Lemma common_kept kv l h rid : kv_shape kv → kv_rep kv l h →
  ok (kv_get_num_common_prefix_blocks rid) kv (λ _ kv', kv_ok kv' ∧ kept kv kv').
Proof.
  intros Hs Hrep. unfold kv_get_num_common_prefix_blocks, co_get_num_common_prefix_blocks.
  assert (∀ {A} (m : M cstate A) a, m (coordinator kv) = (Ok a, coordinator kv) →
    ok (on_co m) kv (λ _ kv', kv_ok kv' ∧ kept kv kv')) as Hread.
  { intros A m a Hm. eapply ok_eq; [by apply on_co_eq|]. split; [split; [done|by exists l, h]|by intros x _]. }
  pose proof (quiet_kept (λ _, get_num_common_prefix_blocks rid) kv l h (λ i, common_quiet rid i) Hs Hrep) as Hq.
  unfold on_co, zoom, ok, bind, gets in *. destruct (kind (cs_co (coordinator kv))); [|exact Hq..].
  eapply (Hread _ (ret _) _ eq_refl).
Qed.

Lemma get_blocks_kept kv l h rid : kv_shape kv → kv_rep kv l h →
  ok (kv_get_blocks rid) kv (λ b kv', kv_ok kv' ∧ kept kv kv' ∧ readable b).
Proof.
  intros Hs Hrep. destruct (kv_get_blocks_eq kv l h rid Hrep) as (b & Hb & Hkb). eapply ok_eq; [exact Hb|].
  split; [split; [done|by exists l, h]|]. split; [by intros x _|]. intros g x Hg Hx. rewrite Hkb in Hg.
  apply list_elem_of_fmap in Hg as (m & -> & Hm). apply list_elem_of_lookup in Hm as [i Hi].
  rewrite <-(proj2 (ks_pool _ Hs)). pose proof (coord_rep_focus _ _ _ _ _ _ (proj1 Hrep) Hi) as Hf.
  by apply (table_range _ _ _ _ rid x Hf).
Qed.

Lemma read_id_eq p os l h b : own_rep p os l h → 0 ≤ b < num_gpu_blocks p → read_id b p = (Ok b, p).
Proof.
  intros Hown Hb. unfold read_id.
  destruct (onq_read_eq _ _ _ b (pr_core _ _ (ow_pool _ _ _ _ Hown)) Hb) as (blk & Hrd & Hid & _).
  rewrite (bind_eq _ _ _ _ _ Hrd). by rewrite Hid.
Qed.

Lemma block_ids_kept kv l h allow_none b : kv_shape kv → kv_rep kv l h → readable b →
  ok (on_kv_pool (get_block_ids allow_none b)) kv (λ _ kv', kv_ok kv' ∧ kept kv kv').
Proof.
  intros Hs Hrep Hb.
  assert (∃ x, get_block_ids allow_none b (cs_pool (coordinator kv)) = (Ok x, cs_pool (coordinator kv))) as [x Hx].
  { unfold get_block_ids. destruct (allow_none && _); [by eexists|].
    erewrite bind_eq; [by eexists|]. apply (map_each_pure _ (λ g, (λ x, x) <$> g)). intros g Hg.
    apply map_each_pure. intros x Hx. eapply (read_id_eq _ _ l h), (eq_ind_r (λ n, 0 ≤ x < n) (Hb g x Hg Hx)), Hs.
    apply (co_own _ _ _ _ (proj1 Hrep)). }
  eapply ok_eq.
  - apply on_co_eq. unfold on_pool, zoom. rewrite Hx. by destruct (coordinator kv).
  - split; [split; [done|by exists l, h]|by intros y _].
Qed.

(** *** Calls on the pool alone *)

Lemma pool_kept {A} (m : M BlockPool A) kv l h :
  kv_shape kv → kv_rep kv l h →
  ok m (cs_pool (coordinator kv)) (λ a p', ∃ h',
    pool_rep p' (MkAPool l (refs (all_owners (cs_mgrs (coordinator kv)) ++ [])) h') ∧
    same_config (cs_pool (coordinator kv)) p' ∧ h' ⊆ h) →
  ok (on_kv_pool m) kv (λ _ kv', kv_ok kv' ∧ kept kv kv').
Proof.
  intros Hs Hrep Hok. eapply ok_mono; [apply (kv_kept _ kv (λ _, False) (λ _ _, True) l h Hs Hrep)|by intros a kv' (? & ? & _)].
  unfold on_pool. apply ok_zoom. eapply ok_mono; [exact Hok|]. intros a p' (h' & Hp & Hc & Hsub). exists l, h'.
  split; [by eapply coord_rep_pool; [apply Hrep|..]|]. split; [done|]. split; [|done]. split; [done|]. split; [done|].
  intros i m0 Hm. exists m0. split; [done|]. split; [done|]. done.
Qed.

Lemma take_events_kept kv l h : kv_shape kv → kv_rep kv l h → ok kv_take_events kv (λ _ kv', kv_ok kv' ∧ kept kv kv').
Proof.
  intros Hs Hrep. unfold kv_take_events. ok_step. eapply ok_mono; [apply (pool_kept _ kv l h Hs Hrep)|].
  - unfold take_events. ok_steps. pose proof (ow_pool _ _ _ _ (co_own _ _ _ _ (proj1 Hrep))) as Hp.
    destruct (enable_kv_cache_events _); cbn [negb]; ok_steps; exists h;
      (split; [by try apply pool_rep_set_events|by split]).
  - intros evs kv' Hk. by ok_steps.
Qed.

(** No request holds a block. *)
Lemma blank_refs kv : (∀ rid, kv_blank kv rid) → refs (all_owners (cs_mgrs (coordinator kv))) = [].
Proof.
  intros Hb. rewrite <-table_entries_refs. unfold table_entries, kv_blank in *. set (ms := cs_mgrs (coordinator kv)) in *. clearbody ms.
  assert (∀ m, m ∈ ms → concat (map_to_list (req_to_blocks m)).*2 = []) as Hm.
  { intros m Hm. apply concat_nil_Forall, Forall_forall. intros bs ([rid bs'] & -> & Hin%elem_of_map_to_list)%list_elem_of_fmap.
    specialize (Hb rid m Hm). unfold is_fresh, blocks_at in Hb. rewrite Hin in Hb.
    apply andb_prop in Hb as [_ Hb]. by apply bool_decide_eq_true in Hb. }
  clear Hb. induction ms as [|m ms IH]; [done|]. rewrite fmap_cons. cbn [concat]. rewrite Hm by left. apply IH. intros x Hx. apply Hm. by right.
Qed.

(** The prefix cache is cleared when no request holds a block. *)
Lemma kv_reset_ok kv l h : kv_shape kv → kv_rep kv l h → ok kv_reset_prefix_cache kv (λ b kv',
  kv_ok kv' ∧ kept kv kv' ∧ ((∀ rid, kv_blank kv rid) → b = true)).
Proof.
  intros Hs Hrep. pose proof (ow_pool _ _ _ _ (co_own _ _ _ _ (proj1 Hrep))) as Hp. unfold kv_reset_prefix_cache. apply ok_bind.
  eapply ok_mono; [eapply (ok_conj _ _ _ (λ b _, (∀ rid, kv_blank kv rid) → b = true)); [apply (pool_kept _ kv l h Hs Hrep)|]|].
  - eapply ok_mono; [by apply (reset_prefix_cache_ok _ _ Hp)|]. intros b p' (_ & Hp' & Hev). eexists. split; [exact Hp'|]. split; [apply Hev|].
    cbn. destruct b; [apply map_empty_subseteq|done].
  - apply ok_on_co. unfold on_pool. apply ok_zoom.
    eapply ok_mono; [by apply (reset_prefix_cache_ok _ _ Hp)|]. intros b p' (-> & _) Hb. apply bool_decide_eq_true_2.
    apply (all_free_iff _ _ Hp). cbn. rewrite app_nil_r, blank_refs by done. constructor.
  - intros b kv' [[[Hs' (l' & h' & Hrep')] Hk] Hb]. destruct b; cbn [negb]; [|by apply ok_ret; split; [split; [done|by exists l', h']|]; split].
    ok_steps. destruct (kv_log_stats kv') eqn:Hl; ok_steps; [|by split; [split; [done|by exists l', h']|split]].
    apply ok_assert; [apply bool_decide_eq_true; apply Hrep'; exact Hl|]. ok_steps. split; [split|by split].
    + destruct Hs'. by split.
    + exists l', h'. destruct Hrep' as (H1 & H2 & H3). split; [done|]. split; [done|].
      intros _. cbn. specialize (H3 Hl). by destruct (prefix_cache_stats kv').
Qed.

(** ** Cache hits *)

Lemma block_hash_head hs scale i x :
  0 ≤ i → 0 < scale → hs !! Z.to_nat (i * scale) = Some x →
  ∃ rest, block_hash_at hs scale i = x ++ rest.
Proof.
  intros Hi Hs Hx. unfold block_hash_at, bhl_get_value_at. cbn [scale_factor bhl_block_hashes].
  rewrite slice_nonneg by lia. apply drop_S in Hx. rewrite Hx.
  destruct (Z.to_nat (i * scale + scale) - Z.to_nat (i * scale))%nat eqn:He; [lia|]. cbn. by eexists.
Qed.

(** Blocks at different positions carry different hashes. *)
Lemma block_hash_inj hs scale i j :
  distinct_hashes hs → 0 < scale → 0 ≤ i → 0 ≤ j → (i + 1) * scale ≤ len hs → (j + 1) * scale ≤ len hs →
  block_hash_at hs scale i = block_hash_at hs scale j → i = j.
Proof.
  intros [Hnd [k Hk]] Hs Hi Hj Hil Hjl Heq. unfold len in *.
  destruct (lookup_lt_is_Some_2 hs (Z.to_nat (i * scale)) ltac:(nia)) as [x Hx].
  destruct (lookup_lt_is_Some_2 hs (Z.to_nat (j * scale)) ltac:(nia)) as [y Hy].
  destruct (block_hash_head hs scale i x Hi Hs Hx) as [xs Hxs], (block_hash_head hs scale j y Hj Hs Hy) as [ys Hys].
  rewrite Hxs, Hys in Heq. apply app_inj_1 in Heq as [-> _].
  - pose proof (NoDup_lookup _ _ _ _ Hnd Hx Hy). nia.
  - rewrite (Hk x), (Hk y); [done|by apply (list_elem_of_lookup_2 _ _ _ Hy)|by apply (list_elem_of_lookup_2 _ _ _ Hx)].
Qed.

Lemma real_nodup (c : list loc) :
  (∀ i j b, c !! i = Some b → c !! j = Some b → b ≠ 0 → i = j) → NoDup (real c).
Proof.
  induction c as [|x c IH]; intros Hc; [constructor|]. unfold real. rewrite filter_cons.
  assert (NoDup (real c)) as Hnd.
  { apply IH. intros i j b Hi Hj Hb. by injection (Hc (S i) (S j) b Hi Hj Hb). }
  destruct (decide (x ≠ 0)) as [Hx|]; [|exact Hnd]. apply NoDup_cons. split; [|exact Hnd].
  intros [_ [i Hi]%list_elem_of_lookup]%list_elem_of_filter. by pose proof (Hc 0%nat (S i) x eq_refl Hi Hx).
Qed.

(** A hit is what [allocate_slots] may attach. *)
Lemma covered_lookup_result p os l h hs n bs g c nt :
  own_rep p os l h → enable_caching p = true → 0 < hash_block_size p → 0 < bs → bs mod hash_block_size p = 0 →
  0 ≤ g < 2 ^ 32 → distinct_hashes hs → nt / hash_block_size p ≤ len hs → n ≤ nt →
  covered_by p (MkAPool [] [] h) hs n bs g c → lookup_result p h c.
Proof.
  intros [Hp _ _] He Hh Hb Hm Hg Hd Hnt Hn [Hlen Hc]. pose proof (cr_pos _ _ _ (pr_core _ _ Hp)) as Hpos.
  assert (∀ b, b ∈ c → b = 0 ∨ ∃ key, h !! b = Some key) as Hin.
  { intros b [j Hj]%list_elem_of_lookup. destruct (Hc j b Hj) as [Hf|[-> _]]; [right; by eexists|by left]. }
  split.
  - intros b [->|[key Hk]]%Hin; [lia|]. pose proof (cr_hash_dom _ _ _ (pr_core _ _ Hp) b key Hk). lia.
  - apply real_nodup. intros i j b Hi Hj Hb0.
    destruct (Hc i b Hi) as [Hfi|[? _]]; [|done]. destruct (Hc j b Hj) as [Hfj|[? _]]; [|done].
    unfold filed_at in Hfi, Hfj. cbn [a_hash] in Hfi, Hfj. rewrite Hfi in Hfj. injection Hfj as Hkey.
    apply block_key_inj in Hkey as [Hkey _]; [|done|done].
    apply Z.mod_divide in Hm as [k ->]; [|lia]. rewrite Z.div_mul in Hkey by lia.
    assert (0 < k) as Hk by nia.
    assert (∀ i, (i < length c)%nat → (Z.of_nat i + 1) * k ≤ len hs) as Hle.
    { intros i' Hi'. etransitivity; [|exact Hnt]. apply Z.div_le_lower_bound; [done|]. unfold len in Hlen. nia. }
    apply Nat2Z.inj. eapply (block_hash_inj hs k); [done|done|lia|lia|apply Hle; by apply lookup_lt_Some in Hi|apply Hle; by apply lookup_lt_Some in Hj|exact Hkey].
  - intros b Hbin Hb0. by destruct (Hin b Hbin) as [->|[key ->]].
  - congruence.
Qed.

(** The search of a single group, whose blocks have the size of the hashes. *)
Lemma unitary_search p a hs gids c spec drop mx :
  pool_rep p a → spec_block_size spec = hash_block_size p → 0 < hash_block_size p →
  searchable c spec drop (hash_block_size p) → 0 ≤ mx → mx / hash_block_size p ≤ len hs →
  search_config p [0] (spec_block_size spec) → gids = [0] →
  ∃ n l, find_longest_cache_hit c (PlainHashes hs) mx gids spec drop (hash_block_size p) 1 1 p = (Ok [l], p) ∧
    Z.of_nat n * hash_block_size p ≤ mx ∧ length l = n ∧
    ∀ j b, l !! j = Some b → found_at p a hs (hash_block_size p) 0 j b.
Proof.
  intros Hp Hsz Hb Hsr Hmx Hlen Hcfg ->.
  destruct (search_ok p a Hp hs [0] c spec drop (hash_block_size p) mx Hcfg Hsr Hb Hmx Hlen)
    as (n & computed & Heq & Hrows & Hn & _). rewrite Hsz in Heq, Hrows, Hn.
  unfold hash_list in Heq. rewrite Z.eqb_refl in Heq. unfold rows in Hrows.
  apply Forall2_cons_inv_l in Hrows as (l & ls & [Hl Hc] & Hnil%Forall2_nil_inv_l & ->). subst ls.
  exists n, l. split_and!; [exact Heq| |exact Hl|exact Hc].
  pose proof (Z.mul_div_le mx (hash_block_size p) Hb). assert (0 ≤ mx / hash_block_size p) by (by apply Z.div_pos).
  destruct drop; nia.
Qed.

(** The lookup of every coordinator returns a hit. *)
Lemma co_search_ok cs R l h hs mx :
  coord_rep cs R l h → enable_caching (cs_pool cs) = true → lookup_shape cs → 0 < hash_block_size (cs_pool cs) →
  0 ≤ mx → mx / hash_block_size (cs_pool cs) ≤ len hs →
  ∃ computed n, co_find_longest_cache_hit hs mx cs = (Ok (computed, n), cs) ∧ 0 ≤ n ≤ mx ∧
    (cs_mgrs cs = [] → n = 0) ∧ length computed = length (cs_mgrs cs) ∧ ∀ i m, cs_mgrs cs !! i = Some m →
    ∃ c, computed !! i = Some c ∧ covered_by (cs_pool cs) (MkAPool [] [] h) hs n (block_size m) (kv_cache_group_id m) c.
Proof.
  intros [[Hp _ _] Hst _] He Hl Hh Hmx Hlen. unfold lookup_shape in Hl. unfold co_find_longest_cache_hit.
  erewrite bind_eq by done. destruct (kind (cs_co cs)) as [|bs dcp pcp|hb sgs].
  - exists (replicate (length (cs_mgrs cs)) []), 0. split_and!; [done|lia|lia|done|apply length_replicate|].
    intros i m Hi. exists []. split; [apply lookup_replicate_2; by eapply lookup_lt_Some|]. split; [done|].
    intros j b Hj. done.
  - destruct Hl as (-> & -> & -> & Hb & m & g & Hm & Hg & Hid & Hbs & Hsz & Hsr).
    assert (gets (λ s, cls <$> cs_mgrs s !! 0%nat) cs = (Ok (Some (cls m)), cs)) as E1 by (unfold gets; by rewrite Hm).
    assert (search_config (cs_pool cs) [0] (spec_block_size (group_spec g))) as Hcfg.
    { split; [split; [done|by repeat constructor]|]. rewrite Hsz. split_and!; [done..|by apply Z.mod_same; lia]. }
    unfold Unitary_find_longest_cache_hit. erewrite bind_eq by done.
    rewrite (bind_eq _ _ _ _ _ E1). erewrite bind_eq by done. rewrite Hg. erewrite bind_eq by done.
    destruct (unitary_search _ _ hs [0] (cls m) (group_spec g) _ mx Hp Hsz Hb Hsr Hmx Hlen Hcfg eq_refl) as (n & c & Hs & Hle & Hlc & Hc).
    assert (on_pool (find_longest_cache_hit (cls m) (PlainHashes hs) mx [0] (group_spec g)
      (bool_decide (0 ∈ eagle_group_ids (cs_co cs))) (hash_block_size (cs_pool cs)) 1 1) cs = (Ok [c], cs)) as E2.
    { unfold on_pool, zoom. rewrite Hs. by destruct cs. }
    rewrite (bind_eq _ _ _ _ _ E2). eexists [c], _. split; [reflexivity|].
    unfold len. rewrite Hlc. split_and!; [lia|exact Hle|by rewrite Hm|by rewrite Hm|].
    intros [|i] m' Hi; rewrite Hm in Hi; [|done]. injection Hi as <-. exists c. split; [done|].
    rewrite Hid, Hbs. split; [by unfold len; rewrite Hlc|exact Hc].
  - destruct Hl as (-> & Hg & Hs & Hok & Hnd & Hone & Hne & Hall). rewrite Hg.
    destruct (Hybrid_search_ok (cs_pool cs) _ Hp hs (length (cs_mgrs cs)) (co_scheduler_block_size (cs_co cs)) mx Hs Hlen sgs)
      as (n & computed & Heq & Hn & Hcl & Hc); [done..|].
    exists computed, n. split; [|split_and!; [lia|lia| |done|]].
    + unfold on_pool, zoom. rewrite Heq. by destruct cs.
    + intros Hnil. destruct sgs as [|sg sgs]; [done|]. apply Forall_inv in Hok as [[[Hg0 _] _] _ _ Hr _].
      destruct (sg_group_ids sg) as [|g ?]; [done|]. rewrite Hnil in Hr. pose proof (Hr g ltac:(by left)). cbn in *. lia.
    + intros i m Hi. destruct (Hall i m Hi) as (-> & sg & Hsg & Hin & ->).
      destruct (Hc sg _ Hsg Hin) as (c & Hci & Hcov). exists c. rewrite Nat2Z.id in Hci. by split.
Qed.

Lemma create_hit kv computed n :
  num_kv_cache_groups kv = length (cs_mgrs (coordinator kv)) → length computed = length (cs_mgrs (coordinator kv)) →
  (cs_mgrs (coordinator kv) = [] → n = 0) → (∀ m, m ∈ cs_mgrs (coordinator kv) → 0 < block_size m) →
  (∀ i m, cs_mgrs (coordinator kv) !! i = Some m → ∃ c, computed !! i = Some c ∧ len c * block_size m = n) →
  ∃ b, create_kv_cache_blocks computed kv = (Ok b, kv) ∧ kb_blocks b = computed ∧
    (n = 0 → b = empty_kv_cache_blocks kv) ∧ (n ≠ 0 → shared_empty b = false).
Proof.
  intros Hg Hl Hnil Hbs Hc. destruct (create_blocks_eq computed kv ltac:(congruence)) as (b & Hb & Hkb & _).
  exists b. split_and!; [done|done| |].
  - intros ->. unfold create_kv_cache_blocks in Hb.
    assert (existsb (λ g : list loc, negb (length g =? 0)%nat) computed = false) as Hex.
    { apply not_true_iff_false. intros (g & Hin & Hne)%existsb_exists. apply list_elem_of_In, list_elem_of_lookup in Hin as [i Hi].
      destruct (lookup_lt_is_Some_2 (cs_mgrs (coordinator kv)) i) as [m Hm]; [rewrite <-Hl; by eapply lookup_lt_Some|].
      destruct (Hc i m Hm) as (c & Hci & H0). assert (c = g) as -> by congruence.
      pose proof (Hbs m (list_elem_of_lookup_2 _ _ _ Hm)). destruct g; [done|]. unfold len in H0. cbn in H0. nia. }
    rewrite Hex in Hb. by injection Hb as <-.
  - intros Hn. unfold create_kv_cache_blocks in Hb.
    assert (existsb (λ g : list loc, negb (length g =? 0)%nat) computed = true) as Hex; [|rewrite Hex in Hb; by injection Hb as <-].
    destruct (cs_mgrs (coordinator kv)) as [|m ms] eqn:Hms; [by destruct Hn; apply Hnil|].
    destruct (Hc 0%nat m eq_refl) as (c & Hci & Hlc). apply existsb_exists. exists c. split.
    + apply list_elem_of_In. by apply (list_elem_of_lookup_2 _ 0%nat).
    + destruct c; [destruct Hn; by rewrite <-Hlc|done].
Qed.

Lemma lookup_kept kv l h r : kv_shape kv → kv_rep kv l h → suits r → blank kv (Request.request_id r) →
  0 < num_tokens r →
  ok (get_computed_blocks r) kv (λ x k', kv_ok k' ∧ kept kv k' ∧ 0 ≤ x.2 < num_tokens r ∧ hit k' r x.1 x.2).
Proof.
  intros Hs Hrep Hsuits Hblank Hnt. pose proof Hrep as (Hr & Hg & Hst). unfold get_computed_blocks. ok_steps.
  destruct (negb (kv_enable_caching kv) || skip_reading_prefix_cache r) eqn:Hskip.
  { ok_steps. cbn [fst snd]. split; [split; [done|by exists l, h]|]. split; [by intros x _|]. split; [lia|].
    cbn [hit kv_view]. split_and!; [lia|lia|done|done|done|done|]. exists l, h. split; [done|]. split.
    - by rewrite <-Hg; apply length_replicate.
    - intros i m Hi. exists []. split; [|split; [done|by intros j b Hj]].
      apply lookup_replicate_2. rewrite Hg. by eapply lookup_lt_Some. }
  apply orb_false_iff in Hskip as [Hec%negb_false_iff _]. pose proof (ks_caching _ Hs) as [Hc1 Hc2].
  assert (caching = true) as Hcach by congruence. destruct (Hsuits Hcach) as [Hlen Hdist].
  pose proof (ks_pool _ Hs) as [Hp _]. destruct (ks_align _ Hs Hcach) as [Hh _].
  destruct (co_search_ok (coordinator kv) [] l h (Request.block_hashes r) (num_tokens r - 1) Hr ltac:(congruence)
    (ks_lookup _ Hs Hcach)) as (computed & n & Heq & Hn & Hnil & Hcl & Hhit); [by rewrite Hp|lia| |].
  { etransitivity; [|exact Hlen]. rewrite Hp. apply Z.div_le_mono; lia. }
  ok_step. eapply ok_eq; [by apply on_co_eq|]. cbn beta iota. ok_steps.
  eapply (ok_mono _ _ (λ _ k', ∃ st, k' = set_stats st kv ∧ (kv_log_stats kv = true → st ≠ None))).
  { destruct (kv_log_stats kv) eqn:Hlog.
    - specialize (Hst eq_refl). ok_step. ok_step. ok_step. apply ok_assert; [by apply bool_decide_eq_true|]. ok_steps. eexists. split; [done|].
      intros _. by destruct (prefix_cache_stats kv).
    - ok_step. exists (prefix_cache_stats kv). split; [by destruct kv|done]. }
  intros _ k' (st & -> & Hst').
  destruct (create_hit (set_stats st kv) computed n Hg Hcl Hnil) as (b & Hb & Hkb & He0 & Hne).
  { intros m Hm. apply (st_bs _ _ (co_static _ _ _ _ Hr m Hm)). }
  { intros i m Hi. destruct (Hhit i m Hi) as (c & ? & ? & _). eauto. }
  ok_step. eapply ok_eq; [exact Hb|]. ok_steps. cbn [fst snd].
  assert (kv_rep (set_stats st kv) l h) as Hrep' by (split_and!; [exact Hr|exact Hg|exact Hst']).
  split; [split; [by destruct Hs|by exists l, h]|]. split; [by intros x _|]. split; [lia|].
  cbn [hit kv_view]. split; [lia|]. split; [exact Hblank|]. split; [congruence|]. split; [done|]. split; [done|].
  exists l, h. split; [exact Hrep'|]. split; [by rewrite Hkb|]. by rewrite Hkb.
Qed.

(** ** Allocation *)

Lemma hits_none kv i : hits_of (kb_blocks (empty_kv_cache_blocks kv)) i = [].
Proof.
  unfold hits_of. cbn. destruct (replicate (num_kv_cache_groups kv) [] !! i) as [x|] eqn:Hx; [|done].
  by apply lookup_replicate in Hx as [-> _].
Qed.

(** Without hits, the request's blocks cover what it has computed. *)
Lemma ready_running kv l h rid total :
  kv_shape kv → kv_rep kv l h → 0 ≤ total → kv_covers kv rid total →
  all_ready false (coordinator kv) h rid (kb_blocks (empty_kv_cache_blocks kv)) total.
Proof.
  intros Hs (Hr & Hg & _) Ht Hcov. split; [rewrite <-Hg; apply length_replicate|]. intros i m Hi.
  pose proof (list_elem_of_lookup_2 _ _ _ Hi) as Hm. destruct (ks_mgrs _ Hs m Hm) as (Hc1 & Hc2 & Hw & _).
  split; [done|]. split; [done|]. split; [done|]. cbn [attaches andb]. rewrite hits_none. split; [done|]. right. right.
  split; [done|]. unfold skipped_count. pose proof (skipped_le m total Hw Ht). pose proof (st_bs _ _ (co_static _ _ _ _ Hr m Hm)).
  apply Z.div_le_upper_bound; [done|]. specialize (Hcov m Hm). lia.
Qed.

Lemma ready_hit kv l h r b n :
  kv_shape kv → kv_rep kv l h → caching = true → suits r → kv_blank kv (Request.request_id r) → 0 ≤ n ≤ num_tokens r →
  co_hit (coordinator kv) h r n (kb_blocks b) →
  all_ready true (coordinator kv) h (Request.request_id r) (kb_blocks b) n.
Proof.
  intros Hs (Hr & Hg & _) Hcach Hsuits Hb Hn [Hl Hhit]. split; [done|]. intros i m Hi.
  pose proof (list_elem_of_lookup_2 _ _ _ Hi) as Hm. destruct (ks_mgrs _ Hs m Hm) as (Hc1 & Hc2 & Hw & _).
  split; [done|]. split; [done|]. split; [lia|]. unfold attaches. rewrite (Hb m Hm).
  assert (is_cross (cls m) = false) as -> by (by destruct (cls m)). cbn [andb negb].
  destruct (Hhit i m Hi) as (c & Hci & Hcov). unfold hits_of. rewrite Hci. change (default [] (Some c)) with c.
  destruct (Hsuits Hcach) as [Hlen Hd]. pose proof (co_static _ _ _ _ Hr m Hm) as Hst.
  pose proof (ks_caching _ Hs) as [_ He]. rewrite Hcach in He. destruct (st_hash _ _ Hst He) as [Hh Hmod].
  split; [|rewrite (proj1 Hcov); lia].
  eapply (covered_lookup_result _ _ l); [apply Hr|exact He|exact Hh|apply Hst|exact Hmod|apply Hst|exact Hd| |apply Hn|exact Hcov].
  by rewrite (proj1 (ks_pool _ Hs)).
Qed.

Lemma filing_legal kv r t :
  kv_shape kv → suits r → 0 ≤ t ≤ num_tokens r → kv_enable_caching kv = true → filing_ready (coordinator kv) r t.
Proof.
  intros Hs Hsuits Ht Hc. pose proof (ks_caching _ Hs) as [Hc1 Hc2]. assert (caching = true) as Hcach by congruence.
  destruct (ks_align _ Hs Hcach) as [Hh Hal]. destruct (Hsuits Hcach) as [Hlen _]. pose proof (ks_pool _ Hs) as [Hp _].
  split_and!; [congruence|lia|done| |].
  - rewrite Hp. etransitivity; [|exact Hlen]. apply Z.div_le_mono; lia.
  - intros m Hm. destruct (ks_mgrs _ Hs m Hm) as (_ & ? & _ & ?). done.
Qed.

Lemma slots_legal kv r nn nc o :
  kv_ok kv → suits r → 0 < nn → 0 ≤ la → num_tokens r ≤ mml → num_computed_tokens r + nc + nn ≤ mml →
  offers kv r nc o → ∃ l h, slots_callable kv l h r nn nc o la false.
Proof.
  intros [Hs (l0 & h0 & Hrep0)] Hsuits Hnn Hla Hmml Hroom Hoff.
  assert (∃ l h, kv_rep kv l h ∧ 0 ≤ local_tokens r nc ∧
    all_ready (attach_flag kv o) (coordinator kv) h (Request.request_id r) (kb_blocks (hits_given kv o)) (local_tokens r nc))
    as (l & h & Hrep & Hlt & Hready).
  { assert (0 ≤ local_tokens r nc → kv_covers kv (Request.request_id r) (local_tokens r nc) →
      o = None ∨ o = Some (empty_kv_cache_blocks kv) → ∃ l h, kv_rep kv l h ∧ 0 ≤ local_tokens r nc ∧
      all_ready (attach_flag kv o) (coordinator kv) h (Request.request_id r) (kb_blocks (hits_given kv o)) (local_tokens r nc)) as Hnone.
    { intros Hl Hcov Ho. exists l0, h0. split; [done|]. split; [done|].
      assert (attach_flag kv o = false ∧ hits_given kv o = empty_kv_cache_blocks kv) as [-> ->] by (by destruct Ho as [-> | ->]).
      by apply (ready_running kv l0). }
    destruct Hoff as [(-> & Hc0 & Hcov & Ho)|(Hc0 & Hnc & b & -> & Hhit)].
    - apply Hnone; [unfold local_tokens; lia| |done]. unfold local_tokens. by rewrite Z.add_0_r.
    - cbn [hit kv_view] in Hhit. destruct Hhit as (Hn & Hb & Hoff0 & He0 & Hne & l & h & Hrep & Hhit).
      assert (local_tokens r nc = nc) as Hloc by (unfold local_tokens; lia). rewrite Hloc in *.
      destruct (decide (nc = 0)) as [->|Hnz].
      + apply Hnone; [done| |right; f_equal; by apply He0]. intros m Hm.
        pose proof (st_bs _ _ (co_static _ _ _ _ (proj1 Hrep0) m Hm)). unfold len. nia.
      + exists l, h. split; [done|]. split; [done|]. unfold attach_flag. cbn [hits_given default from_option].
        change (id b) with b. rewrite (Hne Hnz). cbn [negb]. apply (ready_hit kv l); try done.
        destruct (Bool.bool_dec caching true) as [|Hc%not_true_is_false]; [done|]. by specialize (Hoff0 Hc). }
  exists l, h. pose proof Hrep as (Hr & Hg & _). pose proof (ks_len _ Hs) as Hlen. split; [done|done| |done|].
  - unfold local_tokens in *. rewrite Hlen. lia.
  - intros Hc _. apply filing_legal; [done|done| |done]. unfold tokens_final, num_tokens, len in *. lia.
Qed.

Lemma only_changes_others rid m m' : only_changes rid m m' → others_same (.= rid) m m'.
Proof.
  intros (Hb & Hc & Hst). split; [done|]. intros x Hx. unfold blocks_at.
  rewrite <-(lookup_delete_ne (req_to_blocks m') rid x), <-(lookup_delete_ne (num_cached_block m') rid x) by congruence.
  by rewrite Hb, Hc, !lookup_delete_ne by congruence.
Qed.

Lemma thinned_others rid m m' : thinned rid m m' → others_same (λ _, False) m m'.
Proof.
  intros (Hoc & Hlen & Hc). pose proof (only_changes_others _ _ _ Hoc) as [Hst Ho]. split; [done|]. intros x _.
  destruct (decide (x = rid)) as [->|Hx]; [by rewrite Hc|by apply Ho].
Qed.

Lemma allocated_covers attach r nb local slots enc m new m' :
  0 < block_size m → is_cross (cls m) = false → KVProps.allocated attach r nb local slots enc m new m' →
  slots ≤ len (blocks_at (Request.request_id r) m') * block_size m'.
Proof.
  intros Hb Hcr ((_ & _ & (_ & _ & _ & Hbs & _)) & _ & Hlen). rewrite Hlen, Hbs. unfold slot_tokens. rewrite Hcr.
  assert (slots ≤ cdiv slots (block_size m) * block_size m) by (by apply cdiv_le_iff). nia.
Qed.

Lemma allocate_kept kv r nn nc o enc full :
  kv_ok kv → suits r → 0 < nn → 0 ≤ la → num_tokens r ≤ mml → num_computed_tokens r + nc + nn ≤ mml →
  offers kv r nc o →
  ok (allocate_slots r nn nc o la 0 false enc full 0) kv (λ res kv', kv_ok kv' ∧
    match res with
    | None => kept kv kv'
    | Some b => kept_but (.= Request.request_id r) kv kv' ∧ readable b ∧
        covers kv' (Request.request_id r) (num_computed_tokens r + nc + nn)
    end).
Proof.
  intros Hok Hsuits Hnn Hla Hmml Hroom Hoff. pose proof Hok as [Hs (l0 & h0 & Hrep0)].
  destruct (slots_legal kv r nn nc o Hok Hsuits Hnn Hla Hmml Hroom Hoff) as (l & h & Hcall).
  pose proof (sc_rep _ _ _ _ _ _ _ _ _ Hcall) as Hr.
  eapply ok_mono; [by apply (allocate_slots_correct kv l h r nn nc o la false enc full 0 Hcall)|].
  intros res kv' (kv1 & l1 & l' & h' & _ & Hr' & Hev & Hkv & _ & _ & Hres). rewrite Hkv.
  destruct res as [b|]; cbn [slots_result] in Hres.
  - destruct Hres as [Hlb Hrel].
    destruct (kept_intro kv (coordinator kv') (.= Request.request_id r) l0 h0 l' h' Hs Hrep0 Hr' (proj1 Hev)) as [Hok' Hk'].
    { eapply mgrs_rel_weaken; [exact Hrel|]. intros i m m' _ (new & _ & Ha & _). by apply only_changes_others. }
    split; [exact Hok'|]. split; [exact Hk'|]. split.
    + intros g x [i Hi]%list_elem_of_lookup Hx.
      destruct (lookup_lt_is_Some_2 (cs_mgrs (coordinator kv)) i) as [m Hm]; [rewrite <-Hlb; by eapply lookup_lt_Some|].
      destruct (proj2 (proj2 Hrel) i m Hm) as (m' & Hm' & new & Hnew & _ & Hsuf & _). assert (new = g) as -> by congruence.
      rewrite <-(proj2 (ks_pool _ (proj1 Hok'))).
      eapply (table_range (MkMS _ m')); [exact (coord_rep_focus _ _ _ _ _ _ Hr' Hm')|].
      destruct Hsuf as [k Hk]. cbn [ms_mgr]. rewrite Hk. apply elem_of_app. by right.
    + intros m' [i Hi]%list_elem_of_lookup. destruct (mgrs_rel_backwards _ _ _ _ _ Hrel Hi) as (m & Hm & new & _ & Ha).
      pose proof (list_elem_of_lookup_2 _ _ _ Hm) as Hin. destruct (ks_mgrs _ Hs m Hin) as (_ & Hc & _).
      etransitivity; [|eapply allocated_covers; [apply (st_bs _ _ (co_static _ _ _ _ Hr m Hin))|by destruct (cls m)|exact Ha]].
      unfold slots_wanted, local_tokens. rewrite (ks_len _ Hs). lia.
  - destruct (kept_intro kv (coordinator kv') (λ _, False) l0 h0 l' h' Hs Hrep0 Hr' (proj1 Hev)) as [Hok' Hk']; [|by split].
    eapply mgrs_rel_weaken; [exact Hres|]. intros i m m' _. apply thinned_others.
Qed.

(** ** The instance *)

Context (Hla : 0 ≤ la).

#[export] Instance kv_laws : KVCacheLaws KVCacheManager mml la.
Proof.
  split.
  - intros r r' _ Ht Hb Hs Hc. unfold num_tokens. rewrite Ht, Hb. by apply Hs.
  - intros k [Hs (l & h & Hr)]. by apply (step_kept k l h).
  - intros k r [Hs (l & h & Hr)]. by apply (lookup_kept k l h).
  - intros k r nn nc o enc full. intros. by apply allocate_kept.
  - intros k r [Hs (l & h & Hr)]. by apply (free_kept k l h).
  - intros k rid [Hs (l & h & Hr)]. by apply (get_blocks_kept k l h).
  - intros k b allow [Hs (l & h & Hr)]. by apply (block_ids_kept k l h).
  - intros k rid n [Hs (l & h & Hr)] _. by apply (common_kept k l h).
  - intros k [Hs (l & h & Hr)]. by apply (take_ids_kept k l h).
Qed.
End laws.
