(* ===== verification/EncLaws.v ===== *)
(** * The encoder cache keeps its promises to the scheduler

    The search for the features of a window is exact on sorted features, the
    choice of encoder inputs never raises and can be allocated, and so the
    modelled encoder cache is an instance of [EncCacheLaws]. *)

From stdpp Require Import gmap sets sorting.
From S2P Require Import Prelude FreeQueue BlockHash Request EncoderCache EncoderProps KVCacheSpec SingleType CacheHit Coordinator KVCacheManager Arith PowerSMC SMCScheduler EncoderInputs SchedState SchedSpec.
Open Scope Z_scope.

(** ** Binary search *)

(** [a] ascends along [key]. *)
Definition ascending {A} (key : A → Z) (a : list A) : Prop :=
  ∀ i j x y, a !! i = Some x → a !! j = Some y → (i ≤ j)%nat → key x ≤ key y.

(** [k] splits [a] at [x]. *)
Definition splits {A} (key : A → Z) (a : list A) (x k : Z) : Prop :=
  0 ≤ k ≤ len a ∧ ∀ i y, a !! i = Some y → if decide (Z.of_nat i < k) then key y < x else x ≤ key y.

Lemma bisect_loop_ok {A} (key : A → Z) a x fuel lo hi :
  ascending key a → 0 ≤ lo ≤ hi → hi ≤ len a → hi - lo ≤ Z.of_nat fuel →
  (∀ i y, a !! i = Some y → Z.of_nat i < lo → key y < x) →
  (∀ i y, a !! i = Some y → hi ≤ Z.of_nat i → x ≤ key y) →
  ∃ k, bisect_loop fuel key a x lo hi = Ok k ∧ splits key a x k.
Proof.
  intros Hasc. revert lo hi. induction fuel as [|fuel IH]; intros lo hi Hlo Hhi Hf Hl Hh; cbn [bisect_loop].
  all: assert (hi ≤ lo → splits key a x lo) as Hstop
    by (intros Hge; split; [lia|]; intros i y Hi; case_decide; [by eapply Hl|apply (Hh i y Hi); lia]).
  { rewrite (proj2 (Z.ltb_ge _ _)) by lia. exists lo. split; [done|]. apply Hstop. lia. }
  destruct (Z.ltb_spec lo hi); [|by exists lo; split; [|apply Hstop]].
  assert (lo ≤ (lo + hi) / 2 < hi) as Hmid.
  { split; [apply Z.div_le_lower_bound|apply Z.div_lt_upper_bound]; lia. }
  set (mid := (lo + hi) / 2) in *. rewrite py_nth_nonneg by lia.
  destruct (lookup_lt_is_Some_2 a (Z.to_nat mid)) as [y Hy]; [unfold len in *; lia|]. rewrite Hy.
  destruct (Z.ltb_spec (key y) x).
  - apply IH; [lia|lia|lia| |done]. intros i z Hi Hlt. pose proof (Hasc i _ z y Hi Hy ltac:(lia)). lia.
  - apply IH; [lia|lia|lia|done|]. intros i z Hi Hge. pose proof (Hasc _ i y z Hy Hi ltac:(lia)). lia.
Qed.

Lemma bisect_left_ok {A} (key : A → Z) a x :
  ascending key a → ∃ k, bisect_left key a x = Ok k ∧ splits key a x k.
Proof.
  intros Hasc. apply bisect_loop_ok; [done|unfold len; lia|done|unfold len; lia|lia|].
  intros i y Hi Hge. apply lookup_lt_Some in Hi. unfold len in Hge. lia.
Qed.

(** Features in the order of their positions. *)
Definition in_order (fs : list MultiModalFeatureSpec) : Prop :=
  ascending end_pos fs ∧ ascending (λ f, mm_offset (mm_position f)) fs.

Lemma window_exact fs start_ end_ : in_order fs →
  ∃ lo hi, get_mm_features_in_window fs start_ end_ = Ok (lo, hi) ∧ 0 ≤ lo ∧ hi ≤ len fs ∧
    ∀ i f, fs !! i = Some f →
      lo ≤ Z.of_nat i < hi ↔ mm_offset (mm_position f) < end_ ∧ start_ < end_pos f.
Proof.
  intros [He Ho]. unfold get_mm_features_in_window.
  destruct (bisect_left_ok _ _ (start_ + 1) He) as (lo & -> & Hlo & Hl).
  destruct (bisect_left_ok _ _ end_ Ho) as (hi & Heq & Hhi & Hh). cbn [rbind]. rewrite Heq. cbn [rbind].
  exists lo, hi. split_and!; [done|lia|lia|]. intros i f Hi. specialize (Hl i f Hi). specialize (Hh i f Hi).
  cbn beta in Hh. destruct (decide (Z.of_nat i < lo)), (decide (Z.of_nat i < hi)); lia.
Qed.

(** C39: With the features of a request sorted by position, the window search
    returns exactly the indices of the features that overlap the window. *)
Theorem window_search_spec fs start_ end_ : in_order fs →
  ∃ lo hi, get_mm_features_in_window fs start_ end_ = Ok (lo, hi) ∧ 0 ≤ lo ∧ hi ≤ len fs ∧
    ∀ i f, fs !! i = Some f →
      lo ≤ Z.of_nat i < hi ↔ mm_offset (mm_position f) < end_ ∧ start_ < end_pos f.
Proof. apply window_exact. Qed.

Definition two_images : list MultiModalFeatureSpec :=
  [MkMMFeature "a" (MkPlaceholder 3 4 None); MkMMFeature "b" (MkPlaceholder 8 5 None)].

Lemma window_search_spec_witness :
  in_order two_images ∧ get_mm_features_in_window two_images 5 8 = Ok (0, 1).
Proof.
  assert (in_order two_images) as Ho.
  { split; intros [|[|i]] [|[|j]] x y Hi Hj Hle; simplify_eq/=; unfold end_pos; cbn; try lia. }
  split; [done|]. destruct (window_search_spec two_images 5 8 Ho) as (lo & hi & Heq & _). vm_compute in Heq |- *. reflexivity.
Defined.

(** ** Choosing the encoder inputs *)

Lemma length_cumsum acc mask : length (cumsum acc mask) = length mask.
Proof. revert acc. induction mask as [|b mask IH]; intros acc; [done|]. cbn. by rewrite IH. Qed.

(** A mask has a bit for every token of its placeholder. *)
Definition mask_fits (f : MultiModalFeatureSpec) : Prop :=
  ∀ mask, mm_is_embed (mm_position f) = Some mask → len mask = mm_length (mm_position f).

Lemma embeds_indices_eq {S} f a b (s : S) : mask_fits f →
  (0 ≤ mm_length (mm_position f) → a ≤ mm_length (mm_position f) ∧ b ≤ mm_length (mm_position f)) →
  ∃ x, get_embeds_indices_in_range (mm_position f) a b s = (Ok x, s).
Proof.
  intros Hf Hab. unfold get_embeds_indices_in_range, embeds_cumsum. unfold mask_fits in Hf.
  destruct (mm_is_embed (mm_position f)) as [mask|]; cbn [fmap option_fmap option_map]; [|by eexists].
  specialize (Hf mask eq_refl). destruct Hab as [Ha Hb]; [unfold len in Hf; lia|].
  assert (∀ i, i ≤ mm_length (mm_position f) →
    ∃ y, (if 0 <? i then or_raise IndexError (py_nth (cumsum 0 mask) (i - 1)) else ret 0) s = (Ok y, s)) as Hget.
  { intros i Hi. destruct (Z.ltb_spec 0 i); [|by eexists]. rewrite py_nth_nonneg by lia.
    destruct (lookup_lt_is_Some_2 (cumsum 0 mask) (Z.to_nat (i - 1))) as [y Hy].
    { rewrite length_cumsum. unfold len in Hf. lia. } rewrite Hy. by eexists. }
  destruct (Hget a Ha) as [x Hx], (Hget b Hb) as [y Hy].
  rewrite (bind_eq _ _ _ _ _ Hx), (bind_eq _ _ _ _ _ Hy). by eexists.
Qed.

Section laws.
Context (sz : string → Z) (num_inputs : string → Z) (set_order : gset Z → list Z).
Context (sz_nonneg : ∀ h, 0 ≤ sz h) (set_order_perm : ∀ s, set_order s ≡ₚ elements s).
#[local] Instance cache_here : EncCache EncoderCacheManager := encoder_cache set_order.

Definition sizes_of (r : Request) (l : list Z) : Z := foldr (λ i n, sz (hash_of r i) + n) 0 l.
#[local] Arguments sizes_of : simpl never.

(** The inputs [l] are new to the cache, differ and fit. *)
Record fits_room (c : EncoderCacheManager) (r : Request) (l : list Z) : Prop := {
  fr_range : ∀ i, i ∈ l → 0 ≤ i < len (mm_features r);
  fr_nodup : NoDup (hash_of r <$> l);
  fr_new : ∀ i, i ∈ l → cached c !! hash_of r i = None;
  fr_fit : sizes_of r l ≤ num_free_slots c
}.

#[export] Instance enc_view : EncView EncoderCacheManager := {
  enc_ok := enc_inv sz num_inputs;
  enc_suits r := fitting sz num_inputs r ∧ in_order (mm_features r) ∧ ∀ f, f ∈ mm_features r → mask_fits f;
  room c r l := l = [] ∨ fits_room c r l
}.

Lemma sizes_app r l1 l2 : sizes_of r (l1 ++ l2) = sizes_of r l1 + sizes_of r l2.
Proof. unfold sizes_of. induction l1 as [|i l1 IH]; [done|]. cbn. rewrite IH. lia. Qed.
Lemma sizes_nonneg_of r l : 0 ≤ sizes_of r l.
Proof. unfold sizes_of. induction l as [|i l IH]; [done|]. cbn [foldr]. pose proof (sz_nonneg (hash_of r i)). lia. Qed.

(** Room stays when no entry is added and no slot taken. *)
Lemma fits_room_mono c c' r l :
  (∀ h, cached c !! h = None → cached c' !! h = None) → num_free_slots c ≤ num_free_slots c' →
  fits_room c r l → fits_room c' r l.
Proof. intros Hk Hn [? ? Hnew ?]. split; [done..| |lia]. intros i Hi. by apply Hk, Hnew. Qed.

Lemma allocate_inputs l c r : enc_inv sz num_inputs c → fitting sz num_inputs r → fits_room c r l →
  ok (for_each l (allocate r)) c (λ _ c', enc_inv sz num_inputs c').
Proof.
  intros Hc Hr. revert c Hc. induction l as [|i l IH]; intros c Hc [Hrange Hnd Hnew Hfit]; [by apply ok_ret|].
  cbn [for_each]. rewrite fmap_cons in Hnd. apply NoDup_cons in Hnd as [Hi Hnd].
  change (sizes_of r (i :: l)) with (sz (hash_of r i) + sizes_of r l) in Hfit. pose proof (sizes_nonneg_of r l). ok_step.
  eapply ok_mono; [apply (allocate_ok sz num_inputs sz_nonneg); [done|split; [done|by apply Hrange; left]|by apply Hnew; left|lia]|].
  intros _ c' (Hc' & Hca & Hn & _). apply IH; [done|]. split; [|done| |lia].
  - intros j Hj. apply Hrange. by right.
  - intros j Hj. rewrite Hca, lookup_insert_ne; [apply Hnew; by right|]. intros Heq. apply Hi. rewrite Heq.
    by apply list_elem_of_fmap_2.
Qed.

(** ** The loop *)

Section loop.
Context (chunked : bool) (r : Request) (computed shift n : Z).
Hypothesis Hr : fitting sz num_inputs r.
Hypothesis Hmasks : ∀ f, f ∈ mm_features r → mask_fits f.
Hypothesis Hn : 0 ≤ n.

(** The loop's variables while inputs are chosen. *)
Record choosing (c : EncoderCacheManager) (v : EncoderVars) : Prop := {
  ch_inv : enc_inv sz num_inputs c;
  ch_room : encoder_inputs_to_schedule v = [] ∨ fits_room c r (encoder_inputs_to_schedule v);
  ch_hashes : ∀ h, h ∈ mm_hashes_to_schedule v ↔ h ∈ hash_of r <$> encoder_inputs_to_schedule v;
  ch_embeds : num_embeds_to_schedule v = sizes_of r (encoder_inputs_to_schedule v);
  ch_tokens : ev_num_new_tokens v = n
}.

Definition chosen (c : EncoderCacheManager) (v : EncoderVars) : Prop :=
  enc_inv sz num_inputs c ∧ 0 ≤ ev_num_new_tokens v ≤ n ∧
  (encoder_inputs_to_schedule v = [] ∨ fits_room c r (encoder_inputs_to_schedule v)).

Lemma choosing_keep c c' v :
  enc_inv sz num_inputs c' → (∀ h, cached c !! h = None → cached c' !! h = None) → num_free_slots c ≤ num_free_slots c' →
  choosing c v → choosing c' v.
Proof.
  intros Hc' Hk Hle [_ Hroom Hh He Ht]. split; [done| |done..]. destruct Hroom as [?|Hroom]; [by left|right].
  by eapply fits_room_mono.
Qed.

Lemma choosing_take c v i b :
  choosing c v → 0 ≤ i < len (mm_features r) → hash_of r i ∉ mm_hashes_to_schedule v → cached c !! hash_of r i = None →
  sz (hash_of r i) + num_embeds_to_schedule v ≤ num_free_slots c → b = sz (hash_of r i) →
  choosing c (take_input i (hash_of r i) b v).
Proof.
  intros [Hc Hroom Hh He Ht] Hi Hnot Hnew Hfit ->. split; cbn; [done| | | |done].
  - right. split.
    + intros j [Hj|Hj]%elem_of_app; [|apply list_elem_of_singleton in Hj as ->; done].
      destruct Hroom as [Hnil|Hroom]; [by rewrite Hnil in Hj; apply elem_of_nil in Hj|by apply (fr_range _ _ _ Hroom)].
    + rewrite fmap_app. apply NoDup_app. split_and!; [|intros h Hin Hin2|by apply NoDup_singleton].
      * destruct Hroom as [->|Hroom]; [constructor|apply Hroom].
      * apply list_elem_of_singleton in Hin2 as ->. by apply Hnot, Hh.
    + intros j [Hj|Hj]%elem_of_app; [|apply list_elem_of_singleton in Hj as ->; done].
      destruct Hroom as [Hnil|Hroom]; [by rewrite Hnil in Hj; apply elem_of_nil in Hj|by apply (fr_new _ _ _ Hroom)].
    + rewrite sizes_app, <-He. unfold sizes_of. cbn. lia.
  - intros h. rewrite fmap_app, elem_of_app, elem_of_union, Hh, elem_of_singleton. cbn. by rewrite list_elem_of_singleton.
  - rewrite sizes_app, He. unfold sizes_of. cbn. lia.
Qed.

(** The feature overlaps the tokens of the step. *)
Definition in_window (i : Z) : Prop := ∃ f, 0 ≤ i ∧ mm_features r !! Z.to_nat i = Some f ∧
  mm_offset (mm_position f) < computed + n + shift ∧ computed < end_pos f.

Lemma encoder_loop_ok idxs c v :
  (∀ i, i ∈ idxs → in_window i) → choosing c v →
  ok (encoder_loop false chunked r computed shift idxs v) c (λ v' c', chosen c' v').
Proof.
  revert c v. induction idxs as [|i idxs IH]; intros c v Hw Hv; cbn [encoder_loop].
  { apply ok_ret. destruct Hv as [? ? ? ? Ht]. split_and!; [done|lia|lia|done]. }
  destruct (Hw i ltac:(by left)) as (f & Hi & Hf & Hoff & Hend).
  assert (∀ j, j ∈ idxs → in_window j) as Hw' by (intros j Hj; apply Hw; by right).
  specialize (λ c v, IH c v Hw').
  assert (hash_of r i = identifier f) as Hhash by (unfold hash_of; by rewrite py_nth_nonneg, Hf).
  assert (good_input sz num_inputs r i) as Hgood by (split; [done|apply lookup_lt_Some in Hf; unfold len; lia]).
  pose proof (list_elem_of_lookup_2 _ _ _ Hf) as Hin.
  ok_step. rewrite py_nth_nonneg, Hf by done. cbn [or_raise]. ok_step. cbn [andb]. rewrite <-Hhash.
  ok_step. case_bool_decide as Hseen; [ok_step; by apply IH|].
  eapply ok_mono; [exact (check_ok sz num_inputs sz_nonneg c r i (ch_inv _ _ Hv) Hgood)|].
  intros b c' (Hc' & _ & Hfree & Hb). destruct (cached c !! hash_of r i) as [refs|] eqn:Hcached.
  { destruct Hb as [-> Hca]. apply IH. eapply (choosing_keep c); [done| |lia|done].
    intros h Hnone. rewrite Hca, lookup_insert_ne; [done|]. congruence. }
  destruct Hb as [-> ->]. rewrite (ch_tokens _ _ Hv).
  destruct (chunked && (computed <? mm_offset (mm_position f)) && (computed + n <? _)) eqn:Hchunk.
  { apply ok_ret. destruct Hv. split_and!; cbn; [done|lia|lia|done]. }
  ok_step. eapply ok_mono; [exact (can_allocate_ok sz num_inputs sz_nonneg c r i _ _ (ch_inv _ _ Hv) Hgood)|].
  intros fits c1 (Hc1 & _ & Hroom & k & (_ & _ & Hca & Hslots & _) & _).
  assert (choosing c1 v) as Hv1.
  { eapply (choosing_keep c); [done| | |exact Hv].
    - intros h Hnone. rewrite Hca. apply map_lookup_filter_None. by left.
    - rewrite Hslots. pose proof (ei_entries _ _ _ (ch_inv _ _ Hv)).
      assert (0 ≤ total (take k (freeable c))); [|lia]. apply (total_nonneg sz sz_nonneg).
      intros h m Hhm. eapply ei_entries; [apply (ch_inv _ _ Hv)|].
      by apply (subseteq_take k (freeable c)). }
  destruct fits; cbn [negb]; last first.
  { apply ok_ret. destruct Hv1. split_and!; cbn; [done|by destruct (Z.ltb_spec (computed + shift) (mm_offset (mm_position f))); lia..|done]. }
  destruct (embeds_indices_eq f (Z.max 0 (computed - mm_offset (mm_position f)))
    (Z.min (mm_length (mm_position f)) (computed + n - mm_offset (mm_position f))) c1 (Hmasks f Hin)) as [x Hx].
  { unfold end_pos in Hend. lia. }
  ok_step. eapply ok_eq; [exact Hx|]. destruct (x.2 - x.1 =? 0); [by apply IH|].
  apply IH. eapply choosing_take; [exact Hv1|apply Hgood|exact Hseen| |by apply Hroom|].
  - rewrite Hca. apply map_lookup_filter_None. by left.
  - rewrite Hhash. by apply Hr.
Qed.
End loop.

(** ** The instance *)

Lemma try_ok c r chunked computed shift n budget :
  enc_inv sz num_inputs c → fitting sz num_inputs r → in_order (mm_features r) →
  (∀ f, f ∈ mm_features r → mask_fits f) → 0 ≤ computed → 0 ≤ shift → 0 ≤ n →
  ok (try_schedule_encoder_inputs false chunked r computed shift n budget) c (λ x c',
    enc_inv sz num_inputs c' ∧ 0 ≤ x.1.2 ≤ n ∧ (x.1.1 = [] ∨ fits_room c' r x.1.1)).
Proof.
  intros Hc Hr Ho Hm Hcomp Hshift Hn. unfold try_schedule_encoder_inputs.
  destruct ((n =? 0) || negb (has_encoder_inputs r)) eqn:Hnone; [ok_step; cbn; split_and!; [done|lia|lia|by left]|].
  apply orb_false_iff in Hnone as [_ Hhas%negb_false_iff].
  ok_step. apply ok_assert; [exact Hhas|].
  destruct (window_exact (mm_features r) computed (computed + n + shift) Ho) as (lo & hi & Hw & Hlo & Hhi & Hex).
  rewrite Hw. ok_step. apply ok_ret. cbn beta iota. ok_step.
  eapply ok_mono; [apply (encoder_loop_ok chunked r computed shift n Hr Hm Hn)|].
  - intros i Hi%elem_of_range. destruct (lookup_lt_is_Some_2 (mm_features r) (Z.to_nat i)) as [f Hf]; [unfold len in Hhi; lia|].
    exists f. split; [lia|]. split; [done|]. apply (Hex _ f Hf). lia.
  - split; cbn; [done|by left| |done|done]. intros h. split; intros Hh; [by apply not_elem_of_empty in Hh|by apply elem_of_nil in Hh].
  - intros v c' (Hc' & Ht & Hroom). ok_step. cbn. split; [exact Hc'|]. split; [exact Ht|exact Hroom].
Qed.

(** Freeing the inputs that are computed keeps the invariant. *)
Lemma free_inputs_ok ed c r : enc_inv sz num_inputs c → fitting sz num_inputs r →
  ok (free_encoder_inputs ed r) c (λ _ c', enc_inv sz num_inputs c').
Proof.
  intros Hc Hr. unfold free_encoder_inputs. apply ok_bind, ok_gets. cbn [ec_get_cached_input_ids cache_here encoder_cache].
  assert (∀ i, i ∈ set_order (get_cached_input_ids r c) → good_input sz num_inputs r i) as Hids.
  { intros i Hi. split; [done|]. rewrite (proj1 Hr). rewrite set_order_perm, elem_of_elements in Hi.
    unfold get_cached_input_ids in Hi. destruct (_ !! _) as [ids0|] eqn:Hm; [by eapply (ei_ids _ _ c Hc)|by apply elem_of_empty in Hi]. }
  apply (ok_for_each _ (λ l c', (∀ i, i ∈ l → good_input sz num_inputs r i) ∧ enc_inv sz num_inputs c'));
    [done| |by intros s (_ & ?)].
  intros i l' c' (Hl & Hc'). pose proof (Hl i ltac:(left)) as Hi. pose proof (proj2 Hi) as [H0 Hlt].
  destruct (lookup_lt_is_Some_2 (mm_features r) (Z.to_nat i)) as [f Hf]; [unfold len in Hlt; lia|].
  apply ok_bind, (ok_or_raise _ _ f); [by rewrite py_nth_nonneg|].
  assert (∀ j, j ∈ l' → good_input sz num_inputs r j) as Hl' by (intros; apply Hl; by right).
  assert (ok (ec_free_encoder_input r i) c' (λ _ c'', (∀ j, j ∈ l' → good_input sz num_inputs r j) ∧ enc_inv sz num_inputs c'')) as Hfree.
  { eapply ok_mono; [by apply (free_input_ok sz num_inputs sz_nonneg)|]. by intros _ c'' (? & _). }
  cbv zeta. destruct (ed && _); [exact Hfree|]. destruct (_ <=? _); [exact Hfree|by apply ok_ret].
Qed.

Lemma enc_laws : @EncCacheLaws EncoderCacheManager (encoder_cache set_order) enc_view false.
Proof.
  split.
  - intros r r' Hid Hf (Hfit & Ho & Hm). unfold enc_suits; cbn. unfold fitting in *. rewrite Hf, Hid. done.
  - intros c r chunked computed shift n budget Hc (Hr & Ho & Hm). by apply try_ok.
  - intros c r. by left.
  - intros c r l [->|Hroom] i Hi; [by apply elem_of_nil in Hi|by apply (fr_range _ _ _ Hroom)].
  - intros c r r' l _ Hf [->|[Hrange Hnd Hnew Hfit]]; [by left|right].
    assert (hash_of r' = hash_of r) as Hh by (unfold hash_of; by rewrite Hf).
    split; unfold sizes_of; rewrite ?Hh, ?Hf; done.
  - intros c r l Hc (Hr & _) [->|Hroom]; [by apply ok_ret|]. by apply allocate_inputs.
  - intros c r Hc (Hr & _). eapply ok_mono; [apply (enc_free_ok sz num_inputs sz_nonneg set_order set_order_perm c r Hc Hr)|].
    intros _ c' (Hc' & Hn & _ & Hk). split; [done|]. intros r' l [->|Hroom]; [by left|right].
    eapply fits_room_mono; [intros h; apply Hk|lia|exact Hroom].
  - intros c Hc. cbn. unfold get_freed_mm_hashes. ok_steps. by destruct Hc.
Qed.
End laws.
