(* ===== verification/ScheduleInv.v ===== *)
(** * The invariant of a scheduling step

    What holds of the scheduler's state between steps, and of its state and the
    local variables of [schedule] within one. *)

From stdpp Require Import gmap sets sorting.
From S2P Require Import Prelude Arith PowerSMC FreeQueue BlockHash Request BlockPool KVCacheSpec SingleType CacheHit Coordinator KVCacheManager EncoderCache EncoderProps SMCScheduler Heapq RequestQueue EncoderInputs SchedState Schedule SchedSpec.
Open Scope Z_scope.

Section invariant.
Context {A : Arith} {K C Q : Type} `{!KVCache K, !KVView K, !EncCache C, !EncView C, !RequestQueue string Q, !QueueSpec string Q}.
Context (cfg : SchedulerConfig).
Abbreviation St := (SchedulerState K C Q).
Abbreviation mml := (sc_max_model_len cfg).

(** ** Requests *)

Record live (rid : string) (r : SRequest) : Prop := {
  live_id : Request.request_id (sr_req r) = rid;
  live_suits : suits (sr_req r);
  live_enc : enc_suits (sr_req r);
  live_tokens : 0 < num_tokens (sr_req r) < mml;
  live_placeholders : 0 ≤ num_output_placeholders r ∧ (async_scheduling cfg = false → num_output_placeholders r = 0);
  live_stats : prefill_stats r = true → num_tokens (sr_req r) ≤ num_prompt_tokens (sr_req r)
}.

(** No more tokens than these can be computed; [drafts] are the draft tokens
    scheduled in the last step, of which the model may reject some. *)
Definition horizon (drafts : gmap string (list Z)) (rid : string) (r : SRequest) : Z :=
  num_tokens (sr_req r) + num_output_placeholders r + len (default [] (drafts !! rid)).

(** Draft tokens are scheduled up to the horizon. *)
Definition drafts_end (drafts : gmap string (list Z)) (rid : string) (computed : Z) (r : SRequest) : Prop :=
  ∀ d, drafts !! rid = Some d → computed = num_tokens (sr_req r) + num_output_placeholders r + len d.

Record running_ok (drafts : gmap string (list Z)) (k : K) (rid : string) (r : SRequest) : Prop := {
  ro_live : live rid r;
  ro_status : status (sr_req r) = RUNNING;
  ro_computed : 0 ≤ num_computed_tokens (sr_req r) < mml;
  ro_horizon : num_computed_tokens (sr_req r) ≤ horizon drafts rid r;
  ro_drafts : drafts_end drafts rid (num_computed_tokens (sr_req r)) r;
  ro_covers : covers k rid (num_computed_tokens (sr_req r))
}.

Record waiting_ok (k : K) (rid : string) (r : SRequest) : Prop := {
  wo_live : live rid r;
  wo_status : status (sr_req r) = WAITING ∨ status (sr_req r) = PREEMPTED ∨
    is_blocked_waiting_status (status (sr_req r)) = true ∧ status (sr_req r) ≠ WAITING_FOR_REMOTE_KVS;
  wo_computed : num_computed_tokens (sr_req r) = 0 ∧ blank k rid ∨
    0 < num_computed_tokens (sr_req r) < num_tokens (sr_req r) ∧ covers k rid (num_computed_tokens (sr_req r))
}.

(** A running request within a step: scheduled for [n] tokens, or not yet. *)
Definition in_step (k : K) (v : StepVars) (rid : string) (r : SRequest) : Prop :=
  match od_lookup rid (num_scheduled_tokens v) with
  | None => running_ok ∅ k rid r
  | Some n =>
      live rid r ∧ status (sr_req r) = RUNNING ∧ 0 ≤ num_computed_tokens (sr_req r) ∧
      num_computed_tokens (sr_req r) + n < mml ∧ covers k rid (num_computed_tokens (sr_req r) + n) ∧
      num_computed_tokens (sr_req r) + n ≤ horizon (scheduled_spec_decode_tokens v) rid r ∧
      drafts_end (scheduled_spec_decode_tokens v) rid (num_computed_tokens (sr_req r) + n) r
  end.

(** ** The state *)

Definition waiting_ids (s : St) : list string := content (waiting (queues s)) ++ content (skipped_waiting (queues s)).
Definition all_ids (s : St) : list string := running s ++ waiting_ids s.

Record sched_inv (drafts : gmap string (list Z)) (s : St) : Prop := {
  si_kv : kv_ok (kv s);
  si_enc : enc_ok (enc s);
  si_queues : good (waiting (queues s)) ∧ good (skipped_waiting (queues s));
  si_nodup : NoDup (all_ids s);
  si_running : ∀ rid, rid ∈ running s → ∃ r, st_requests s !! rid = Some r ∧ running_ok drafts (kv s) rid r;
  si_waiting : ∀ rid, rid ∈ waiting_ids s → ∃ r, st_requests s !! rid = Some r ∧ waiting_ok (kv s) rid r ∧
    (status (sr_req r) = PREEMPTED → rid ∉ prev_step_scheduled_req_ids s);
  si_max : len (running s) ≤ max_num_running_reqs cfg
}.

(** The LoRAs of the running requests fit. *)
Definition loras_fit (s : St) : Prop :=
  match max_loras cfg with
  | None => True
  | Some n => ∃ X : gset Z, Z.of_nat (size X) ≤ n ∧
      ∀ rid r i, rid ∈ running s → st_requests s !! rid = Some r → lora_of (sr_req r) = Some i → 0 < i → i ∈ X
  end.

(** ** Within a step *)

Definition step_ids (v : StepVars) : list string := (num_scheduled_tokens v).*1.

(** The rest of the state, which a step leaves alone until its end. *)
Definition rest (s : St) :=
  (smc_groups s, smc_children s, current_step s, pause_state s, finished_req_ids s, finished_req_ids_dict s,
   prev_step_scheduled_req_ids s, st_entropy s).

(** A request keeps its tokens, their hashes and what it was made from. *)
Definition text_of (request : SRequest) :=
  let r := sr_req request in
  (all_token_ids r, output_token_ids r, Request.block_hashes r, block_hasher r, prompt_embeds r,
   prompt_embeds_per_block_hashes r, mm_features r, lora_request r, cache_salt r, sampling_params r,
   pooling_params r, num_prompt_tokens r, max_tokens r, power_smc_config request).
Definition same_text (r r' : SRequest) : Prop := text_of r' = text_of r.
Definition same_computed (r r' : SRequest) : Prop := num_computed_tokens (sr_req r') = num_computed_tokens (sr_req r).

(** [s0] is the state the step started in, [B] its token budget, [aside] are the
    requests set aside in the waiting phase. *)
Record mid (s0 : St) (B : Z) (aside : list string) (s : St) (v : StepVars) : Prop := {
  mi_kv : kv_ok (kv s);
  mi_enc : enc_ok (enc s);
  mi_queues : good (waiting (queues s)) ∧ good (skipped_waiting (queues s));
  mi_rest : rest s = rest s0;
  mi_dom : dom (st_requests s) = dom (st_requests s0);
  mi_unknown : ∀ rid, rid ∉ dom (st_requests s0) → blank (kv s0) rid → blank (kv s) rid;
  mi_same : ∀ rid r0, st_requests s0 !! rid = Some r0 → ∃ r, st_requests s !! rid = Some r ∧ same_text r0 r;
  mi_total : all_ids s ++ aside ≡ₚ all_ids s0;
  mi_running : ∀ rid, rid ∈ running s → ∃ r, st_requests s !! rid = Some r ∧ in_step (kv s) v rid r;
  mi_waiting : ∀ rid, rid ∈ waiting_ids s ++ aside → ∃ r, st_requests s !! rid = Some r ∧ waiting_ok (kv s) rid r ∧
    (status (sr_req r) = PREEMPTED → rid ∈ preempted_reqs v ∨ rid ∉ prev_step_scheduled_req_ids s);
  mi_max : len (running s) ≤ max_num_running_reqs cfg;
  mi_budget : sum_tokens (num_scheduled_tokens v) + token_budget v = B ∧ 0 ≤ token_budget v;
  mi_ids : step_ids v ≡ₚ scheduled_running_reqs v ++ scheduled_resumed_reqs v ++ scheduled_new_reqs v;
  mi_positive : ∀ rid n, (rid, n) ∈ num_scheduled_tokens v → 0 < n;
  mi_scheduled : ∀ rid, rid ∈ step_ids v → rid ∈ running s;
  mi_nodup : NoDup (step_ids v);
  mi_drafts : ∀ rid d, scheduled_spec_decode_tokens v !! rid = Some d → rid ∈ step_ids v;
  mi_blocks : ∀ rid, rid ∈ step_ids v → ∃ b, req_to_new_blocks v !! rid = Some b ∧ readable b;
  mi_inputs : ∀ rid l r, scheduled_encoder_inputs v !! rid = Some l → st_requests s !! rid = Some r →
    ∀ i, i ∈ l → 0 ≤ i < len (mm_features (sr_req r));
  mi_from : ∀ rid, rid ∈ running s → rid ∈ scheduled_resumed_reqs v ++ scheduled_new_reqs v ∨
    rid ∈ running s0 ∧ ∃ r0 r, st_requests s0 !! rid = Some r0 ∧ st_requests s !! rid = Some r ∧ same_computed r0 r;
  mi_left : ∀ rid, rid ∈ running s0 → rid ∈ running s ∨ rid ∈ preempted_reqs v;
  mi_new : ∀ rid, rid ∈ scheduled_resumed_reqs v ++ scheduled_new_reqs v → rid ∉ running s0;
  mi_resumed : ∀ rid, rid ∈ scheduled_resumed_reqs v → rid ∉ prev_step_scheduled_req_ids s;
  mi_preempted : ∀ rid, rid ∈ preempted_reqs v → rid ∈ running s0 ∧ rid ∈ waiting_ids s ++ aside ∧
    ∃ r, st_requests s !! rid = Some r ∧ status (sr_req r) = PREEMPTED ∧ num_computed_tokens (sr_req r) = 0
}.
End invariant.
