(* ===== verification/ScheduleMid.v ===== *)
(** * The invariant within a step is preserved

    What the single actions of a scheduling step do to the invariant [mid]:
    calls of the two caches, bookkeeping in the local variables, preempting a
    running request and scheduling one. *)

From stdpp Require Import gmap sets sorting.
From S2P Require Import Prelude Arith PowerSMC FreeQueue BlockHash Request BlockPool KVCacheSpec SingleType CacheHit Coordinator KVCacheManager EncoderCache EncoderProps SMCScheduler Heapq RequestQueue EncoderInputs SchedState Schedule SchedSpec ScheduleInv.
Open Scope Z_scope.

(** ** The dictionary of scheduled tokens *)

Lemma sum_tokens_snoc l rid n : sum_tokens (l ++ [(rid, n)]) = sum_tokens l + n.
Proof. change (total (l ++ [(rid, n)]) = total l + n). rewrite total_app, total_cons. change (total []) with 0. lia. Qed.
Lemma sum_tokens_delete rid n l : NoDup l.*1 → od_lookup rid l = Some n → sum_tokens l = n + sum_tokens (od_delete rid l).
Proof. intros Hnd Hl. apply total_delete; [done|]. by apply od_lookup_elem. Qed.

Lemma od_lookup_Some {V} k (d : list (string * V)) : k ∈ d.*1 → ∃ v, od_lookup k d = Some v.
Proof.
  induction d as [|[k' v] d IH]; [by intros ?%elem_of_nil|]. cbn [fmap list_fmap fst od_lookup].
  intros [->|Hk]%elem_of_cons; [exists v; by rewrite decide_True|]. destruct (decide _); [by eexists|]. by apply IH.
Qed.
Lemma od_lookup_in {V} k v (d : list (string * V)) : od_lookup k d = Some v → k ∈ d.*1.
Proof.
  induction d as [|[k' v'] d IH]; [done|]. cbn [fmap list_fmap fst od_lookup].
  destruct (decide (k = k')) as [->|Hne]; [by left|]. intros ?. right. by apply IH.
Qed.
Lemma od_lookup_app_ne {V} k k' v (d : list (string * V)) : k ≠ k' → od_lookup k (d ++ [(k', v)]) = od_lookup k d.
Proof.
  intros Hne. induction d as [|[k1 v1] d IH]; cbn; [by rewrite decide_False|]. destruct (decide _); done.
Qed.
Lemma od_lookup_app_eq {V} k v (d : list (string * V)) : k ∉ d.*1 → od_lookup k (d ++ [(k, v)]) = Some v.
Proof.
  induction d as [|[k1 v1] d IH]; cbn; [by rewrite decide_True|]. intros [Hne Hk]%not_elem_of_cons.
  rewrite decide_False by done. by apply IH.
Qed.
Lemma od_delete_keys {V} k (d : list (string * V)) : (od_delete k d).*1 = filter (λ x, x ≠ k) d.*1.
Proof.
  unfold od_delete. induction d as [|[k1 v1] d IH]; [done|]. rewrite filter_cons. cbn [fmap list_fmap fst].
  rewrite filter_cons. destruct (decide (k1 ≠ k)); cbn [fmap list_fmap fst]; by rewrite IH.
Qed.
Lemma od_lookup_delete_ne {V} k k' (d : list (string * V)) : k ≠ k' → od_lookup k (od_delete k' d) = od_lookup k d.
Proof.
  intros Hne. unfold od_delete. induction d as [|[k1 v1] d IH]; [done|]. rewrite filter_cons. cbn [fst].
  destruct (decide (k1 ≠ k')) as [Hk|Hk%dec_stable]; cbn [od_lookup]; [by rewrite IH|]. subst. by rewrite decide_False.
Qed.
Lemma len_perm {X} (l l' : list X) : l ≡ₚ l' → len l = len l'.
Proof. intros Hp. unfold len. by rewrite (Permutation_length Hp). Qed.
Lemma filter_ne_perm (x : string) (l l' : list string) : NoDup l → l ≡ₚ x :: l' → filter (λ y, y ≠ x) l ≡ₚ l'.
Proof.
  intros Hnd Hp. rewrite Hp in Hnd |- *. apply NoDup_cons in Hnd as [Hx _].
  rewrite filter_cons_False by (intros Hn; by apply Hn). rewrite filter_id; [done|]. by intros y Hy ->.
Qed.

Section mid.
Context {A : Arith} {K C Q : Type} `{!KVCache K, !KVView K, !EncCache C, !EncView C, !RequestQueue string Q, !QueueSpec string Q}.
Context (cfg : SchedulerConfig) {la : Z} {ed : bool}.
Context `{!KVCacheLaws K (sc_max_model_len cfg) la, !EncCacheLaws C ed}.
Abbreviation St := (SchedulerState K C Q).
Abbreviation mid := (mid (K := K) (C := C) (Q := Q) cfg).
Implicit Types (s : St) (v : StepVars) (k : K).

(** ** What the other requests see *)

Lemma kept_but_weaken (X : string → Prop) k k' : kept k k' → kept_but X k k'.
Proof. intros Hk x _. exact (Hk x (λ f, f)). Qed.

Lemma running_ok_kept D X k k' rid r : kept_but X k k' → ¬ X rid → running_ok cfg D k rid r → running_ok cfg D k' rid r.
Proof. intros Hk Hx [? ? ? ? ? Hc]. split; try done. by apply (Hk rid Hx). Qed.
Lemma in_step_kept X k k' v rid r : kept_but X k k' → ¬ X rid → in_step cfg k v rid r → in_step cfg k' v rid r.
Proof.
  intros Hk Hx. unfold in_step. destruct (od_lookup _ _); [|by apply running_ok_kept with X].
  intros (?&?&?&?&Hc&?&?). split_and!; try done. by apply (Hk rid Hx).
Qed.
Lemma waiting_ok_kept X k k' rid r : kept_but X k k' → ¬ X rid → waiting_ok cfg k rid r → waiting_ok cfg k' rid r.
Proof.
  intros Hk Hx [? ? Hc]. split; try done. destruct (Hk rid Hx) as [Hb Hcov].
  destruct Hc as [[? ?]|[? ?]]; [left|right]; split; auto.
Qed.

(** [in_step] reads the variables at the request only. *)
Lemma in_step_vars k v v' rid r :
  od_lookup rid (num_scheduled_tokens v') = od_lookup rid (num_scheduled_tokens v) →
  scheduled_spec_decode_tokens v' !! rid = scheduled_spec_decode_tokens v !! rid →
  in_step cfg k v rid r → in_step cfg k v' rid r.
Proof. unfold in_step, horizon, drafts_end. intros -> ->. done. Qed.

Lemma get_req_eq s rid r : st_requests s !! rid = Some r → get_req rid s = (Ok r, s).
Proof. unfold get_req, bind. cbn. by intros ->. Qed.

Lemma ok_get_req s rid r (P : SRequest → St → Prop) : st_requests s !! rid = Some r → P r s → ok (get_req rid) s P.
Proof. intros Hr. unfold ok. by rewrite (get_req_eq s rid r Hr). Qed.

(** ** Calls of the caches *)

Lemma mid_caches s0 B aside s s' v : mid s0 B aside s v →
  kv_ok (kv s') → enc_ok (enc s') → kept (kv s) (kv s') →
  running s' = running s → queues s' = queues s → st_requests s' = st_requests s → rest s' = rest s →
  mid s0 B aside s' v.
Proof.
  intros Hm Hkv Henc Hk Hr Hq Hs Hrest. destruct Hm.
  assert (prev_step_scheduled_req_ids s' = prev_step_scheduled_req_ids s) as Hprev by (unfold rest in Hrest; congruence).
  assert (waiting_ids s' = waiting_ids s) as Hw by (unfold waiting_ids; by rewrite Hq).
  assert (all_ids s' = all_ids s) as Ha by (unfold all_ids; by rewrite Hr, Hw).
  split; rewrite ?Hr, ?Hw, ?Hq, ?Hs, ?Ha, ?Hrest, ?Hprev; try done.
  - intros rid Hrid Hb. apply (Hk rid (λ f, f)). by apply mi_unknown.
  - intros rid Hrid. destruct (mi_running rid Hrid) as (r & ? & ?). exists r. split; [done|].
    by apply (in_step_kept _ _ _ _ _ _ Hk (λ f, f)).
  - intros rid Hrid. destruct (mi_waiting rid Hrid) as (r & ? & ? & ?). exists r. split; [done|]. split; [|done].
    by apply (waiting_ok_kept _ _ _ _ _ Hk (λ f, f)).
Qed.

Lemma mid_cache s0 B aside s v {X} (m : M K X) (P : X → K → Prop) : mid s0 B aside s v →
  ok m (kv s) (λ x k', P x k' ∧ kv_ok k' ∧ kept (kv s) k') →
  ok (on_cache m) s (λ x s', P x (kv s') ∧ mid s0 B aside s' v ∧ s' = put_kv (kv s') s).
Proof.
  intros Hm Hok. apply ok_zoom. eapply ok_mono; [exact Hok|]. cbn. intros x k' (HP & Hkv & Hk).
  split_and!; [done| |done]. eapply mid_caches; try done. by destruct Hm.
Qed.

Lemma mid_encoder s0 B aside s v {X} (m : M C X) (P : X → C → Prop) : mid s0 B aside s v →
  ok m (enc s) (λ x c', P x c' ∧ enc_ok c') →
  ok (on_encoder m) s (λ x s', P x (enc s') ∧ mid s0 B aside s' v ∧ s' = put_enc (enc s') s).
Proof.
  intros Hm Hok. apply ok_zoom. eapply ok_mono; [exact Hok|]. cbn. intros x c' (HP & Henc).
  split_and!; [done| |done]. eapply mid_caches; try done. by destruct Hm.
Qed.

(** ** Bookkeeping in the local variables *)

Lemma mid_encoder_inputs s0 B aside s v rid inputs b r : mid s0 B aside s v →
  st_requests s !! rid = Some r → (∀ i, i ∈ inputs → 0 ≤ i < len (mm_features (sr_req r))) →
  mid s0 B aside s (record_encoder rid inputs b v).
Proof.
  intros Hm Hr Hi. destruct Hm. split; try done.
  cbn. intros x l r' Hl Hr'. destruct (decide (x = rid)) as [->|Hne].
  - rewrite lookup_insert_eq in Hl. injection Hl as <-. rewrite Hr in Hr'. by injection Hr' as <-.
  - rewrite lookup_insert_ne in Hl by done. by eapply mi_inputs.
Qed.

Lemma mid_loras s0 B aside s v X : mid s0 B aside s v → mid s0 B aside s (record_loras X v).
Proof. intros []. by split. Qed.

(** ** Requests are queued once *)

Section step.
Context (s0 : St) (B : Z) (Hnd : NoDup (all_ids s0)).
Abbreviation mid := (mid s0 B).
Implicit Types (aside : list string).

Lemma mid_disjoint aside s v : mid aside s v → NoDup (running s ++ (waiting_ids s ++ aside)).
Proof. intros Hm. rewrite app_assoc. by rewrite (mi_total _ _ _ _ _ _ Hm). Qed.
Lemma mid_running_nodup aside s v : mid aside s v → NoDup (running s).
Proof. intros Hm%mid_disjoint. by apply NoDup_app in Hm as [? _]. Qed.
Lemma mid_running_waiting aside s v rid : mid aside s v → rid ∈ running s → rid ∉ waiting_ids s ++ aside.
Proof. intros Hm%mid_disjoint. apply NoDup_app in Hm as (_ & Hd & _). apply Hd. Qed.
Lemma mid_waiting_running aside s v rid : mid aside s v → rid ∈ waiting_ids s ++ aside → rid ∉ running s.
Proof. intros Hm Hw Hr. by eapply mid_running_waiting. Qed.

(** The tables of unknown requests stay empty. *)
Lemma unknown_kept aside s v k' x r : mid aside s v → st_requests s !! x = Some r → kept_but (.= x) (kv s) k' →
  ∀ y, y ∉ dom (st_requests s0) → blank (kv s0) y → blank k' y.
Proof.
  intros Hm Hr Hk y Hy Hb. apply (Hk y); [|by apply (mi_unknown _ _ _ _ _ _ Hm)]. intros ->. apply Hy.
  rewrite <-(mi_dom _ _ _ _ _ _ Hm). by apply elem_of_dom_2 in Hr.
Qed.

(** ** A running request is scheduled *)

(** [r'] is [r] but for its draft tokens. *)
Definition only_spec (r r' : SRequest) : Prop :=
  r' = r ∨ r' = on_req (put_spec_token_ids []) r.

Lemma live_spec rid r r' : only_spec r r' → live cfg rid r → live cfg rid r'.
Proof.
  intros [->| ->] Hl; [done|]. destruct Hl. split; try done.
  - by eapply suits_same; [.. |exact live_suits].
  - by eapply enc_suits_same; [.. |exact live_enc].
Qed.

Definition record_drafts (rid : string) (l : option (list Z)) (v : StepVars) : StepVars :=
  match l with Some l => record_spec rid l v | None => v end.

Lemma in_step_recorded k v rid blocks n l x r : x ≠ rid →
  in_step cfg k v x r → in_step cfg k (record_drafts rid l (record_running rid blocks n v)) x r.
Proof.
  intros Hne. apply in_step_vars.
  - unfold record_drafts. assert (od_lookup x (od_set rid n (num_scheduled_tokens v)) = od_lookup x (num_scheduled_tokens v)) as He.
    { unfold od_set. destruct (od_lookup rid (num_scheduled_tokens v)) eqn:Hl; [|by apply od_lookup_app_ne].
      clear Hl. induction (num_scheduled_tokens v) as [|[k1 n1] d IH]; [done|]. cbn. destruct (decide (k1 = rid)) as [->|Hk]; cbn.
      - by rewrite !(decide_False (P := x = rid)).
      - destruct (decide (x = k1)); done. }
    by destruct l.
  - unfold record_drafts. destruct l; [|done]. cbn. by rewrite lookup_insert_ne.
Qed.

(** The drafts [l] reach the end of [n] more tokens. *)
Definition drafted (r : SRequest) (n : Z) (l : option (list Z)) : Prop :=
  num_computed_tokens (sr_req r) + n ≤ num_tokens (sr_req r) + num_output_placeholders r + len (default [] l) ∧
  ∀ d, l = Some d → num_computed_tokens (sr_req r) + n = num_tokens (sr_req r) + num_output_placeholders r + len d.

Lemma in_step_scheduled k v rid r r' blocks n l : rid ∉ step_ids v → only_spec r r' → live cfg rid r →
  status (sr_req r) = RUNNING → 0 ≤ num_computed_tokens (sr_req r) →
  num_computed_tokens (sr_req r) + n < sc_max_model_len cfg →
  drafted r n l → scheduled_spec_decode_tokens v !! rid = None →
  covers k rid (num_computed_tokens (sr_req r) + n) →
  in_step cfg k (record_drafts rid l (record_running rid blocks n v)) rid r'.
Proof.
  intros Hn Ho Hl Hst H0 Hlt [Hle Hend] Hnone Hc. unfold in_step.
  assert (num_scheduled_tokens (record_drafts rid l (record_running rid blocks n v)) = num_scheduled_tokens v ++ [(rid, n)]) as ->.
  { destruct l; cbn; by apply od_set_new. }
  rewrite od_lookup_app_eq by done. split; [by eapply live_spec|].
  assert (scheduled_spec_decode_tokens (record_drafts rid l (record_running rid blocks n v)) !! rid = l) as Hd.
  { destruct l as [l|]; cbn; [by rewrite lookup_insert_eq|done]. }
  unfold horizon, drafts_end. rewrite Hd. by destruct Ho as [->| ->].
Qed.

(** A change of a running request's draft tokens, of the other requests' none. *)
Lemma text_spec r r' : only_spec r r' → same_text r r' ∧ same_computed r r' ∧ mm_features (sr_req r') = mm_features (sr_req r).
Proof. intros [->| ->]; done. Qed.

Lemma mid_scheduled aside s v rid r r' n blocks l k' : mid aside s v →
  rid ∈ running s → rid ∉ step_ids v → st_requests s !! rid = Some r → only_spec r r' →
  0 < n ≤ token_budget v → num_computed_tokens (sr_req r) + n < sc_max_model_len cfg →
  drafted r n l → kv_ok k' → kept_but (.= rid) (kv s) k' → covers k' rid (num_computed_tokens (sr_req r) + n) → readable blocks →
  mid aside (put_st_requests (<[rid := r']> (st_requests s)) (put_kv k' s))
    (record_drafts rid l (record_running rid blocks n v)).
Proof.
  intros Hm Hrun Hnew Hr Ho Hn Hlt Hle Hkv Hk Hc Hb.
  pose proof (mid_running_waiting _ _ _ _ Hm Hrun) as Hnw. pose proof (unknown_kept _ _ _ k' _ _ Hm Hr Hk) as Hunk.
  destruct (text_spec r r' Ho) as (Htext & Hcomp & Hmm).
  set (v' := record_drafts _ _ _).
  assert (num_scheduled_tokens v' = num_scheduled_tokens v ++ [(rid, n)]) as Hnum by (unfold v'; destruct l; cbn; by apply od_set_new).
  assert (step_ids v' = step_ids v ++ [rid]) as Hids by (unfold step_ids; by rewrite Hnum, fmap_app).
  assert (token_budget v' = token_budget v - n) as Hbud by (unfold v'; by destruct l).
  assert (scheduled_running_reqs v' = scheduled_running_reqs v ++ [rid] ∧ scheduled_resumed_reqs v' = scheduled_resumed_reqs v ∧
    scheduled_new_reqs v' = scheduled_new_reqs v ∧ preempted_reqs v' = preempted_reqs v ∧
    scheduled_encoder_inputs v' = scheduled_encoder_inputs v ∧ req_to_new_blocks v' = <[rid := blocks]> (req_to_new_blocks v))
    as (H1 & H2 & H3 & H4 & H5 & H6) by (unfold v'; by destruct l).
  assert (∀ x, x ≠ rid → <[rid := r']> (st_requests s) !! x = st_requests s !! x) as Hother
    by (intros; by rewrite lookup_insert_ne).
  destruct (mi_running _ _ _ _ _ _ Hm rid Hrun) as (r1 & Hr1 & Hin). rewrite Hr in Hr1. injection Hr1 as <-.
  assert (running_ok cfg ∅ (kv s) rid r) as Hro by (unfold in_step in Hin; by rewrite od_lookup_none in Hin).
  destruct Hm. split; try done.
  - cbn. by rewrite dom_insert_lookup_L by (by eexists).
  - intros x r0 Hx. destruct (mi_same x r0 Hx) as (r1 & Hr1 & Ht). cbn. destruct (decide (x = rid)) as [->|Hne].
    + rewrite Hr in Hr1. injection Hr1 as <-. exists r'. rewrite lookup_insert_eq. split; [done|]. unfold same_text in *. congruence.
    + exists r1. by rewrite Hother.
  - intros x Hx. cbn in Hx |- *. destruct (decide (x = rid)) as [->|Hne].
    + exists r'. rewrite lookup_insert_eq. split; [done|]. destruct Hro as [? ? [? _] ? ? ?].
      apply in_step_scheduled with r; try done. apply eq_None_not_Some. by intros [d ?%mi_drafts].
    + destruct (mi_running x Hx) as (r1 & Hr1 & Hi). exists r1. rewrite Hother by done. split; [done|].
      apply in_step_recorded; [done|]. by apply (in_step_kept _ _ _ _ _ _ Hk).
  - intros x Hx. change (waiting_ids _) with (waiting_ids s) in Hx. assert (x ≠ rid) as Hne by congruence.
    destruct (mi_waiting x Hx) as (r1 & Hr1 & Hi & Hp). exists r1. cbn. rewrite Hother by done. split; [done|].
    rewrite H4. split; [|done]. by apply (waiting_ok_kept _ _ _ _ _ Hk).
  - rewrite Hnum, Hbud, sum_tokens_snoc. lia.
  - rewrite Hids, H1, H2, H3, mi_ids. solve_Permutation.
  - intros x m. rewrite Hnum, elem_of_app, list_elem_of_singleton. intros [?|[= -> ->]]; [by eapply mi_positive|lia].
  - intros x. rewrite Hids, elem_of_app, list_elem_of_singleton. intros [?| ->]; [by apply mi_scheduled|done].
  - rewrite Hids. apply NoDup_app. split_and!; [done| |apply NoDup_singleton]. intros x Hx ->%list_elem_of_singleton. done.
  - intros x d Hd. rewrite Hids, elem_of_app, list_elem_of_singleton. destruct (decide (x = rid)) as [->|Hne]; [by right|left].
    apply (mi_drafts x d). unfold v' in Hd. destruct l; [|done]. cbn in Hd. by rewrite lookup_insert_ne in Hd.
  - intros x. rewrite Hids, H6, elem_of_app, list_elem_of_singleton. destruct (decide (x = rid)) as [->|Hne].
    + intros _. exists blocks. by rewrite lookup_insert_eq.
    + intros [?|?]; [|done]. rewrite lookup_insert_ne by done. by apply mi_blocks.
  - intros x li ri. rewrite H5. cbn. intros Hl Hri. destruct (decide (x = rid)) as [->|Hne].
    + rewrite lookup_insert_eq in Hri. injection Hri as <-. rewrite Hmm. by eapply mi_inputs.
    + rewrite Hother in Hri by done. by eapply mi_inputs.
  - intros x Hx. rewrite H2, H3. destruct (mi_from x Hx) as [?|(Hx0 & ra & rb & Ha & Hbb & Hs)]; [by left|right]. split; [done|].
    cbn. destruct (decide (x = rid)) as [->|Hne].
    + exists ra, r'. rewrite lookup_insert_eq. rewrite Hr in Hbb. injection Hbb as <-. split_and!; try done. unfold same_computed in *. congruence.
    + exists ra, rb. by rewrite Hother.
  - by rewrite H4.
  - by rewrite H2, H3.
  - by rewrite H2.
  - intros x. rewrite H4. intros Hx. destruct (mi_preempted x Hx) as (? & Hw & r1 & Hr1 & ? & ?). split; [done|]. split; [done|].
    exists r1. cbn. rewrite Hother; [done|]. congruence.
Qed.

(** ** A running request is preempted *)

(** [v'] is [v] without what was recorded for [x]. *)
Record taken (x : string) (v v' : StepVars) : Prop := {
  tk_tokens : num_scheduled_tokens v' = od_delete x (num_scheduled_tokens v);
  tk_budget : sum_tokens (num_scheduled_tokens v') + token_budget v' = sum_tokens (num_scheduled_tokens v) + token_budget v;
  tk_more : token_budget v ≤ token_budget v';
  tk_running : filter (λ y, y ≠ x) (scheduled_running_reqs v) ≡ₚ scheduled_running_reqs v';
  tk_rest : scheduled_resumed_reqs v' = scheduled_resumed_reqs v ∧ scheduled_new_reqs v' = scheduled_new_reqs v ∧
    preempted_reqs v' = preempted_reqs v;
  tk_dicts : ∀ y, y ≠ x → req_to_new_blocks v' !! y = req_to_new_blocks v !! y ∧
    scheduled_spec_decode_tokens v' !! y = scheduled_spec_decode_tokens v !! y;
  tk_drafts : scheduled_spec_decode_tokens v' !! x = None;
  tk_inputs : ∀ y l, scheduled_encoder_inputs v' !! y = Some l → scheduled_encoder_inputs v !! y = Some l
}.

(** The state after [preempt_request x], taken off the running list. *)
Definition after_preemption (x : string) (r : SRequest) (k' : K) (e' : C) (fl : gset string) (q' : Q) (rs' : list string) (s : St) : St :=
  put_queues (MkWaiting q' (skipped_waiting (queues s)) (step_skipped_waiting (queues s)))
    (put_st_requests (<[x := on_req preempted r]> (st_requests s))
      (put_in_flight fl (put_enc e' (put_kv k' (put_running rs' s))))).

Lemma preempted_waiting k x r : live cfg x r → blank k x → waiting_ok cfg k x (on_req preempted r).
Proof.
  intros Hl Hb. destruct Hl. split; [|by right; left|by left]. split; try done.
  - by eapply suits_same; [.. |exact live_suits].
  - by eapply enc_suits_same; [.. |exact live_enc].
Qed.

Lemma in_step_live k v x r : in_step cfg k v x r →
  live cfg x r ∧ status (sr_req r) = RUNNING ∧ 0 ≤ num_computed_tokens (sr_req r).
Proof. unfold in_step. destruct (od_lookup _ _); [intros (?&?&?&_); done|]. by intros [? ? [? _] ? ? ?]. Qed.

Lemma taken_vars x v v' : taken x v v' → NoDup (step_ids v) →
  (∀ y, y ∈ step_ids v' ↔ y ≠ x ∧ y ∈ step_ids v) ∧ NoDup (step_ids v') ∧
  (∀ k y r, y ≠ x → in_step cfg k v y r → in_step cfg k (record_preempted x v') y r) ∧
  (∀ y n, (y, n) ∈ num_scheduled_tokens v' → (y, n) ∈ num_scheduled_tokens v).
Proof.
  intros [Ht _ _ _ _ Hd _ _] Hn. unfold step_ids. rewrite Ht, od_delete_keys. split_and!.
  - intros y. by rewrite list_elem_of_filter.
  - by apply NoDup_filter.
  - intros k y r Hne. destruct (Hd y Hne) as [_ Hs]. apply in_step_vars; cbn; [|done]. rewrite Ht. by apply od_lookup_delete_ne.
  - intros y n. rewrite od_delete_elem. tauto.
Qed.

Lemma mid_preempt aside s v x r rs' k' e' fl q' v' : mid aside s v →
  running s ≡ₚ x :: rs' → st_requests s !! x = Some r → taken x v v' →
  scheduled_resumed_reqs v = [] → scheduled_new_reqs v = [] →
  kv_ok k' → kept_but (.= x) (kv s) k' → blank k' x → enc_ok e' →
  good q' → content q' ≡ₚ x :: content (waiting (queues s)) →
  mid aside (after_preemption x r k' e' fl q' rs' s) (record_preempted x v').
Proof.
  intros Hm Hp Hr Htk Hres Hnew Hkv Hk Hb He Hq Hcq.
  assert (x ∈ running s) as Hx by (rewrite Hp; left).
  pose proof (mid_running_nodup _ _ _ Hm) as Hnr. rewrite Hp in Hnr. apply NoDup_cons in Hnr as [Hxr Hnr].
  destruct (taken_vars x v v' Htk (mi_nodup _ _ _ _ _ _ Hm)) as (Hids & Hnd' & Hstep & Htok).
  destruct (tk_rest _ _ _ Htk) as (E1 & E2 & E3).
  assert (∀ y, y ≠ x → <[x := on_req preempted r]> (st_requests s) !! y = st_requests s !! y) as Hother
    by (intros; by rewrite lookup_insert_ne).
  assert (∀ y, y ∈ rs' → y ≠ x ∧ y ∈ running s) as Hrs by (intros y Hy; split; [congruence|rewrite Hp; by right]).
  set (s' := after_preemption _ _ _ _ _ _ _ _).
  assert (waiting_ids s' ≡ₚ x :: waiting_ids s) as Hw by (unfold waiting_ids; cbn; by rewrite Hcq).
  destruct (mi_running _ _ _ _ _ _ Hm x Hx) as (r1 & Hr1 & Hin). rewrite Hr in Hr1. injection Hr1 as <-.
  destruct (in_step_live _ _ _ _ Hin) as (Hlive & _ & _).
  pose proof (preempted_waiting k' x r Hlive Hb) as Hxw. pose proof (mid_running_waiting _ _ _ _ Hm Hx) as Hnw.
  pose proof (unknown_kept _ _ _ k' _ _ Hm Hr Hk) as Hunk. destruct Hm. destruct Htk. split; try done.
  - split; [done|]. by destruct mi_queues.
  - cbn. by rewrite dom_insert_lookup_L by (by eexists).
  - intros y r0 Hy. destruct (mi_same y r0 Hy) as (r1 & Hr1 & Ht). cbn. destruct (decide (y = x)) as [->|Hne].
    + exists (on_req preempted r). rewrite lookup_insert_eq. rewrite Hr in Hr1. by injection Hr1 as <-.
    + exists r1. by rewrite Hother.
  - unfold all_ids. cbn [running s' after_preemption]. rewrite Hw, <-mi_total. unfold all_ids. cbn. rewrite Hp. solve_Permutation.
  - intros y Hy. destruct (Hrs y Hy) as [Hne Hy']. destruct (mi_running y Hy') as (r1 & Hr1 & Hi). exists r1. cbn.
    rewrite Hother by done. split; [done|]. apply Hstep; [done|]. by apply (in_step_kept _ _ _ _ _ _ Hk).
  - intros y. rewrite Hw. cbn [app]. intros [->|Hy]%elem_of_cons.
    + exists (on_req preempted r). cbn. rewrite lookup_insert_eq. split; [done|]. split; [done|]. intros _. left. apply elem_of_app. by right; left.
    + assert (y ≠ x) as Hne by congruence. destruct (mi_waiting y Hy) as (r1 & Hr1 & Hi & Hpr). exists r1. cbn. rewrite Hother by done.
      split; [done|]. split; [by apply (waiting_ok_kept _ _ _ _ _ Hk)|]. intros H1. destruct (Hpr H1) as [?|?]; [left|by right].
      rewrite E3. apply elem_of_app. by left.
  - cbn. rewrite (len_perm _ _ Hp), len_cons in mi_max. lia.
  - cbn [num_scheduled_tokens token_budget record_preempted]. lia.
  - cbn. unfold step_ids. cbn. rewrite tk_tokens0, od_delete_keys, <-tk_running0, E1, E2, Hres, Hnew, app_nil_r.
    rewrite Hres, Hnew, app_nil_r in mi_ids. unfold step_ids in mi_ids. by rewrite mi_ids.
  - intros y n Hy. by eapply mi_positive, Htok.
  - intros y [Hne Hy]%Hids. cbn. apply mi_scheduled in Hy. rewrite Hp in Hy. by apply elem_of_cons in Hy as [?|?].
  - intros y d Hd. cbn in Hd. destruct (decide (y = x)) as [->|Hne]; [by rewrite tk_drafts0 in Hd|].
    change (y ∈ step_ids v'). apply Hids. split; [done|]. apply (mi_drafts y d). by rewrite <-(proj2 (tk_dicts0 y Hne)).
  - intros y [Hne Hy]%Hids. cbn. destruct (tk_dicts0 y Hne) as [-> _]. by apply mi_blocks.
  - intros y l ri Hl Hri. cbn in Hl, Hri. apply tk_inputs0 in Hl. destruct (decide (y = x)) as [->|Hne].
    + rewrite lookup_insert_eq in Hri. injection Hri as <-. cbn. by eapply mi_inputs.
    + rewrite Hother in Hri by done. by eapply mi_inputs.
  - intros y Hy. destruct (Hrs y Hy) as [Hne Hy']. cbn. rewrite E1, E2. destruct (mi_from y Hy') as [?|(? & ra & rb & ? & ? & ?)]; [by left|right].
    split; [done|]. exists ra, rb. by rewrite Hother.
  - intros y Hy. cbn. rewrite E3, elem_of_app, list_elem_of_singleton. destruct (mi_left y Hy) as [Hy'|?]; [|tauto].
    rewrite Hp in Hy'. apply elem_of_cons in Hy' as [->|?]; tauto.
  - cbn. by rewrite E1, E2.
  - cbn. by rewrite E1.
  - intros y. cbn. rewrite E3, elem_of_app, list_elem_of_singleton. intros [Hy| ->].
    + destruct (mi_preempted y Hy) as (? & Hyw & r1 & Hr1 & ? & ?). split; [done|]. split; [rewrite Hw; by right|].
      exists r1. rewrite Hother; [done|congruence].
    + split; [|split; [rewrite Hw; left|]].
      * destruct (mi_from x Hx) as [Hf|[? _]]; [|done]. rewrite Hres, Hnew in Hf. by apply elem_of_nil in Hf.
      * exists (on_req preempted r). by rewrite lookup_insert_eq.
Qed.

(** ** Encoder inputs are allocated *)

Lemma for_each_encoder r l s :
  for_each l (λ i, on_encoder (ec_allocate r i)) s = on_encoder (K := K) (Q := Q) (for_each l (ec_allocate r)) s.
Proof.
  revert s. induction l as [|i l IH]; intros s; [by destruct s|]. cbn [for_each]. unfold bind at 1.
  unfold on_encoder at 1, zoom. destruct (ec_allocate r i (enc s)) as [[[]|e] c] eqn:Ha.
  - rewrite IH. unfold on_encoder, zoom, bind. rewrite Ha. cbn [enc put_enc]. by destruct (for_each l (ec_allocate r) c) as [? ?].
  - unfold on_encoder, zoom, bind. by rewrite Ha.
Qed.

Lemma allocate_inputs_ok aside s v rid r r' inputs b : mid aside s v →
  st_requests s !! rid = Some r' → mm_features (sr_req r') = mm_features r → enc_suits r → room (enc s) r inputs →
  ok (match inputs with [] => ret v | _ => allocate_inputs r inputs ;;; ret (record_encoder rid inputs b v) end) s
    (λ v' s', mid aside s' v' ∧ s' = put_enc (enc s') s ∧ (v' = v ∨ v' = record_encoder rid inputs b v)).
Proof.
  intros Hm Hr Hmm Hs Hroom. destruct inputs as [|i0 l0] eqn:Hl.
  { apply ok_ret. split_and!; [done|by destruct s|by left]. }
  rewrite <-Hl in *. clear Hl i0 l0. apply ok_bind. unfold allocate_inputs.
  eapply ok_cong; [apply for_each_encoder|].
  eapply ok_mono; [apply (mid_encoder s0 B aside s v _ (λ _ _, True) Hm)|].
  - eapply ok_mono; [by apply enc_allocate_law; [apply Hm|..]|]. done.
  - intros _ s' (_ & Hm' & He). apply ok_ret. split_and!; [|done|by right].
    apply mid_encoder_inputs with r'; [done|by rewrite He|]. rewrite Hmm. by apply room_inputs with (enc s).
Qed.

(** ** The tokens of a step *)

Lemma capped_bounds threshold n : 0 ≤ n → 0 ≤ capped threshold n ≤ n.
Proof. intros Hn. unfold capped. destruct (Z.ltb_spec 0 threshold), (Z.ltb_spec threshold n); cbn [andb]; lia. Qed.
Lemma capped_pos threshold n : 0 < n → 0 < capped threshold n.
Proof. intros Hn. unfold capped. destruct (Z.ltb_spec 0 threshold), (Z.ltb_spec threshold n); cbn [andb]; lia. Qed.

Lemma mamba_split_bounds r n local : 0 < sc_block_size cfg → 0 ≤ n → 0 ≤ mamba_block_aligned_split cfg r n local ≤ n.
Proof.
  intros Hb Hn. unfold mamba_block_aligned_split.
  destruct (Z.ltb_spec (num_computed_tokens r + local) (Z.max (num_prompt_tokens r) (num_tokens r - 1))); [|lia].
  set (last := if sc_use_eagle cfg then _ else _).
  destruct (Z.ltb_spec (num_computed_tokens r + local + n) last).
  - pose proof (Z.div_pos n (sc_block_size cfg) Hn Hb). pose proof (Z.mul_div_le n (sc_block_size cfg) Hb). nia.
  - destruct (Z.ltb_spec (num_computed_tokens r + local) last), (Z.ltb_spec last (num_computed_tokens r + local + n)); cbn [andb]; lia.
Qed.

Lemma encoder_part_ok aside s v r computed n budget : mid aside s v → enc_suits r → 0 ≤ computed → 0 ≤ n →
  ed = is_encoder_decoder cfg →
  ok (encoder_part cfg r computed n budget) s (λ x s', mid aside s' v ∧ s' = put_enc (enc s') s ∧
    0 ≤ x.1.2 ≤ n ∧ room (enc s') r x.1.1 ∧ (has_encoder_inputs r = false → x.1.2 = n)).
Proof.
  intros Hm Hs Hc Hn Hed. unfold encoder_part. destruct (has_encoder_inputs r).
  - eapply ok_mono; [apply (mid_encoder s0 B aside s v _ (λ x c', 0 ≤ x.1.2 ≤ n ∧ room c' r x.1.1) Hm)|].
    + rewrite <-Hed. eapply ok_mono; [apply try_law; [apply Hm|done|done| |done]|].
      * by destruct (sc_use_eagle cfg).
      * cbn. tauto.
    + intros x s' ((? & ?) & ? & ?). split_and!; done || lia.
  - apply ok_ret. cbn. split_and!; try done; try lia; [by destruct s|apply room_nil].
Qed.

End step.
End mid.
