(* ===== verification/ScheduleRunning.v ===== *)
(** * Scheduling the running requests

    The first phase of [schedule]: the loop over the running requests returns,
    keeps the invariant [mid] and never preempts a request it then schedules,
    whatever the policy. *)

From stdpp Require Import gmap sets sorting.
From S2P Require Import Prelude Arith PowerSMC FreeQueue BlockHash Request BlockPool KVCacheSpec SingleType CacheHit Coordinator KVCacheManager EncoderCache EncoderProps SMCScheduler Heapq RequestQueue EncoderInputs SchedState Schedule SchedSpec ScheduleInv ScheduleMid.
Open Scope Z_scope.

(** ** Lists *)

Lemma list_remove_split (x : string) l l' : list_remove x l = Some l' →
  ∃ l1 l2, l = l1 ++ x :: l2 ∧ l' = l1 ++ l2 ∧ x ∉ l1.
Proof.
  revert l'. induction l as [|y l IH]; intros l'; [done|]. cbn. destruct (decide (y = x)) as [->|Hne].
  - intros [= ->]. exists [], l'. split_and!; [done|done|]. apply not_elem_of_nil.
  - destruct (list_remove x l) as [l0|]; [|done]. intros [= <-]. destruct (IH l0 eq_refl) as (l1 & l2 & -> & -> & Hx).
    exists (y :: l1), l2. split_and!; [done|done|]. by apply not_elem_of_cons.
Qed.
Lemma list_remove_None (x : string) l : list_remove x l = None → x ∉ l.
Proof. intros Hn. pose proof (list_remove_perm x l) as Hp. by rewrite Hn in Hp. Qed.
Lemma list_remove_Some (x : string) l : x ∈ l → ∃ l', list_remove x l = Some l'.
Proof. intros Hx. destruct (list_remove x l) eqn:Hr; [by eexists|]. by apply list_remove_None in Hr. Qed.

(** Removing one element moves the others by at most one place. *)
Lemma drop_remove {X} (l1 l2 : list X) x n y : y ∈ drop n (l1 ++ l2) → y ∈ drop n (l1 ++ x :: l2).
Proof.
  destruct (decide (n ≤ length l1)%nat) as [Hle|Hgt].
  - rewrite !drop_app_le by done. rewrite !elem_of_app. intros [?|?]; [by left|right; by right].
  - rewrite !drop_app_ge by lia. replace (n - length l1)%nat with (S (n - length l1 - 1)) by lia. cbn [drop].
    intros Hy. replace (n - length l1 - 1)%nat with (n - length l1 - 1)%nat by done.
    assert (∀ m (l : list X), y ∈ drop (S m) l → y ∈ drop m l) as Hd.
    { intros m l. revert m. induction l as [|z l IH]; intros [|m]; cbn; try done; [intros ?; by right|apply IH]. }
    by apply Hd.
Qed.
Lemma drop_remove_before {X} (l1 l2 : list X) x n : (length l1 ≤ n)%nat → drop n (l1 ++ l2) = drop (S n) (l1 ++ x :: l2).
Proof.
  intros Hn. rewrite !drop_app_ge by lia. by replace (S n - length l1)%nat with (S (n - length l1)) by lia.
Qed.
Lemma removelast_last {X} (l : list X) x : last l = Some x → l = removelast l ++ [x].
Proof.
  induction l as [|y l IH]; [done|]. destruct l as [|z l]; [by intros [= ->]|]. intros Hl. cbn [removelast app].
  f_equal. by apply IH.
Qed.

Lemma alter_insert_eq {V} (f : V → V) (m : gmap string V) k v : m !! k = Some v → alter f k m = <[k := f v]> m.
Proof.
  intros Hk. apply map_eq. intros j. destruct (decide (j = k)) as [->|Hne].
  - by rewrite lookup_alter_eq, lookup_insert_eq, Hk.
  - by rewrite lookup_alter_ne, lookup_insert_ne by done.
Qed.

Section running.
Context {A : Arith} {K C Q : Type} `{!KVCache K, !KVView K, !EncCache C, !EncView C, !RequestQueue string Q, !QueueSpec string Q}.
Context (cfg : SchedulerConfig).
Context `{!KVCacheLaws K (sc_max_model_len cfg) (num_lookahead_tokens cfg), !EncCacheLaws C (is_encoder_decoder cfg)}.
Abbreviation St := (SchedulerState K C Q).
Implicit Types (s : St) (v : StepVars) (k : K).

(** ** Preempting a request *)

Lemma preempt_request_ok s x r : st_requests s !! x = Some r → live cfg x r → status (sr_req r) = RUNNING →
  kv_ok (kv s) → enc_ok (enc s) → good (waiting (queues s)) →
  ok (preempt_request x) s (λ _ s', ∃ k' e' fl q', s' = after_preemption x r k' e' fl q' (running s) s ∧
    kv_ok k' ∧ kept_but (.= x) (kv s) k' ∧ blank k' x ∧
    enc_ok e' ∧ (∀ r' l, room (enc s) r' l → room e' r' l) ∧
    good q' ∧ content q' ≡ₚ x :: content (waiting (queues s))).
Proof.
  intros Hr [Hid Hsuits Hesuits _ _ _] Hst Hkv Henc Hq. unfold preempt_request.
  apply ok_bind, (ok_get_req _ _ _ _ Hr), ok_bind, ok_assert; [by apply bool_decide_eq_true|].
  apply ok_bind, ok_zoom. eapply ok_mono; [by apply free_law|]. cbn. rewrite Hid. intros _ k' (Hk' & Hkept & Hblank).
  apply ok_bind, ok_zoom. eapply ok_mono; [by apply enc_free_law|]. cbn. intros _ e' (He' & Hroom).
  apply ok_bind, ok_modify, ok_bind, ok_modify, ok_zoom, ok_zoom. cbn.
  eapply ok_mono; [by apply prepend_spec|]. intros _ q' (Hq' & Hc).
  exists k', e', (in_flight s ∖ {[x]}), q'. split_and!; try done; [by rewrite (alter_insert_eq _ _ _ _ Hr)|]. by rewrite Hc, replace_front_perm.
Qed.

(** ** Choosing a victim *)

(** [i] is [req_index] while [rid] is being scheduled: no request after it is
    scheduled, and [rid] is not. *)
Record at_index (rid : string) (rs : list string) (i : Z) (v : StepVars) : Prop := {
  ai_range : 0 ≤ i ∧ len (scheduled_running_reqs v) ≤ i;
  ai_running : rid ∈ rs;
  ai_fresh : rid ∉ step_ids v;
  ai_after : ∀ y, y ∈ drop (S (Z.to_nat i)) rs → y ≠ rid ∧ y ∉ step_ids v;
  ai_fcfs : sc_policy cfg = FCFS → rs !! Z.to_nat i = Some rid
}.

(** In the first phase only running requests are scheduled. *)
Definition first_phase (v : StepVars) : Prop := scheduled_resumed_reqs v = [] ∧ scheduled_new_reqs v = [].

Lemma map_each_get_req (f : SRequest → Request) rids s : (∀ rid, rid ∈ rids → ∃ r, st_requests s !! rid = Some r) →
  ok (map_each (λ rid, let* r := get_req rid in ret (rid, f r)) rids) s (λ l s', s' = s ∧ l.*1 = rids).
Proof.
  induction rids as [|rid rids IH]; intros Hr; [done|]. cbn [map_each].
  destruct (Hr rid ltac:(left)) as [r Hrid]. apply ok_bind, ok_bind, (ok_get_req _ _ _ _ Hrid), ok_ret, ok_bind.
  eapply ok_mono; [apply IH; intros; apply Hr; by right|]. intros l s' [-> <-]. by apply ok_ret.
Qed.

Lemma max_first_elem best l : max_first best l ∈ best.1 :: l.*1.
Proof.
  revert best. induction l as [|x l IH]; intros best; cbn [max_first]; [left|].
  specialize (IH (if key_lt best.2 x.2 then x else best)). destruct (key_lt _ _); cbn in *; [by right|].
  apply elem_of_cons in IH as [->|?]; [left|right; by right].
Qed.

Lemma lowest_priority_ok rs s : rs ≠ [] → (∀ rid, rid ∈ rs → ∃ r, st_requests s !! rid = Some r) →
  ok (lowest_priority rs) s (λ x s', s' = s ∧ x ∈ rs).
Proof.
  intros Hne Hr. unfold lowest_priority. apply ok_bind. eapply ok_mono; [by apply map_each_get_req|].
  intros [|x l] s' [-> <-]; [done|]. apply ok_ret. split; [done|]. apply max_first_elem.
Qed.

Lemma num_embeds_ok r l s : (∀ i, i ∈ l → 0 ≤ i < len (mm_features r)) → ok (num_embeds r l) s (λ _ s', s' = s).
Proof.
  intros Hl. unfold num_embeds. apply ok_bind. eapply ok_mono with (P := λ _ s', s' = s).
  2: { intros l' s' ->. by apply ok_ret. }
  induction l as [|i l IH]; [done|]. cbn [map_each]. apply ok_bind.
  assert (∃ n, (get_num_encoder_embeds r i tt).1 = Ok n) as [n Hn].
  { destruct (Hl i ltac:(left)) as [H0 Hi]. unfold get_num_encoder_embeds. rewrite (proj2 (Z.ltb_lt _ _) Hi). cbn.
    rewrite py_nth_nonneg by done. unfold len in Hi. destruct (lookup_lt_is_Some_2 (mm_features r) (Z.to_nat i) ltac:(lia)) as [f ->].
    cbn. by eexists. }
  eapply (ok_eq _ _ n s); [unfold of_res; by rewrite Hn|]. apply ok_bind.
  eapply ok_mono; [apply IH; intros; apply Hl; by right|]. intros l' s' ->. by apply ok_ret.
Qed.
Section phase.
Context (s0 : St) (B : Z) (Hnd : NoDup (all_ids s0)).
Abbreviation mid := (mid (K := K) (C := C) (Q := Q) cfg s0 B []).

Lemma mid_known s v rid : mid s v → rid ∈ running s → ∃ r, st_requests s !! rid = Some r ∧
  live cfg rid r ∧ status (sr_req r) = RUNNING ∧ 0 ≤ num_computed_tokens (sr_req r).
Proof.
  intros Hm Hr. destruct (mi_running _ _ _ _ _ _ Hm rid Hr) as (r & ? & Hi). exists r. split; [done|].
  exact (in_step_live cfg _ _ _ _ Hi).
Qed.
Lemma first_phase_ids s v : mid s v → first_phase v → step_ids v ≡ₚ scheduled_running_reqs v.
Proof. intros Hm [H1 H2]. rewrite (mi_ids _ _ _ _ _ _ Hm), H1, H2. by rewrite !app_nil_r. Qed.

Lemma taken_unscheduled s v x : mid s v → first_phase v → x ∉ step_ids v → taken x v v.
Proof.
  intros Hm Hf Hx. split; try done.
  - by rewrite od_delete_none.
  - rewrite filter_id; [done|]. intros y Hy ->. apply Hx. by rewrite (first_phase_ids _ _ Hm Hf).
  - apply eq_None_not_Some. by intros [d ?%(mi_drafts _ _ _ _ _ _ Hm)].
Qed.

Lemma taken_scheduled s v x l n e : mid s v → first_phase v →
  list_remove x (scheduled_running_reqs v) = Some l → od_lookup x (num_scheduled_tokens v) = Some n →
  taken x v (unrecord x l n e v).
Proof.
  intros Hm Hf Hl Hn. pose proof (mi_nodup _ _ _ _ _ _ Hm) as Hnodup.
  pose proof (list_remove_perm x (scheduled_running_reqs v)) as Hp. rewrite Hl in Hp.
  pose proof (sum_tokens_delete x n _ Hnodup Hn) as Hsum.
  split; cbn [num_scheduled_tokens token_budget scheduled_running_reqs unrecord]; try done.
  - lia.
  - apply od_lookup_elem in Hn; [|done]. pose proof (mi_positive _ _ _ _ _ _ Hm x n Hn). lia.
  - apply filter_ne_perm; [|done]. by rewrite <-(first_phase_ids _ _ Hm Hf).
  - intros y Hne. cbn. by rewrite !lookup_delete_ne.
  - cbn. by rewrite lookup_delete_eq.
  - intros y li. cbn. destruct (decide (y = x)) as [->|Hne]; [by rewrite lookup_delete_eq|]. by rewrite lookup_delete_ne.
Qed.

(** The victim [x] with the index and variables after it: as before if it is
    [rid] itself. *)
Definition victim_ok (rid : string) (s : St) (i : Z) (v : StepVars) (x : string) (i' : Z) (v' : StepVars) (s' : St) : Prop :=
  ∃ rs', s' = put_running rs' s ∧ running s ≡ₚ x :: rs' ∧ taken x v v' ∧ first_phase v' ∧
    len rs' - i' ≤ len (running s) - i ∧ (x ≠ rid → at_index rid rs' i' v').

Lemma first_phase_taken x v v' : taken x v v' → first_phase v → first_phase v'.
Proof. intros Ht [H1 H2]. destruct (tk_rest _ _ _ Ht) as (E1 & E2 & _). split; congruence. Qed.

Lemma at_index_removed rid l1 l2 x i v v' : at_index rid (l1 ++ x :: l2) i v → x ≠ rid → sc_policy cfg ≠ FCFS →
  len (scheduled_running_reqs v') ≤ len (scheduled_running_reqs v) → (∀ y, y ∈ step_ids v' → y ∈ step_ids v) →
  at_index rid (l1 ++ l2) i v'.
Proof.
  intros [[H0 Hl] Hr Hf Ha _] Hne Hpol Hlen Hsub. split; [lia| |by intros ?%Hsub| |done].
  - rewrite elem_of_app in Hr |- *. destruct Hr as [?|[->|?]%elem_of_cons]; [by left|done|by right].
  - intros y Hy%(drop_remove l1 l2 x). destruct (Ha y Hy) as [? Hn]. split; [done|]. by intros ?%Hsub.
Qed.

Lemma victim_unscheduled rid s v i x rs' : mid s v → first_phase v → at_index rid (running s) i v →
  list_remove x (running s) = Some rs' → x ∉ step_ids v → sc_policy cfg ≠ FCFS →
  victim_ok rid s i v x i v (put_running rs' s).
Proof.
  intros Hm Hf Hi Hrm Hx Hpol. pose proof (list_remove_perm x (running s)) as Hp. rewrite Hrm in Hp.
  exists rs'. split_and!; try done; [by apply taken_unscheduled with s| |].
  - rewrite (len_perm _ _ Hp), len_cons. lia.
  - intros Hne. destruct (list_remove_split _ _ _ Hrm) as (l1 & l2 & He & -> & _). rewrite He in Hi. by apply at_index_removed with x v.
Qed.

Lemma victim_scheduled rid s v i x rs' l n e : mid s v → first_phase v → at_index rid (running s) i v →
  list_remove x (running s) = Some rs' → list_remove x (scheduled_running_reqs v) = Some l →
  od_lookup x (num_scheduled_tokens v) = Some n → sc_policy cfg ≠ FCFS →
  victim_ok rid s i v x (i - 1) (unrecord x l n e v) (put_running rs' s).
Proof.
  intros Hm Hf Hi Hrm Hl Hn Hpol. pose proof (list_remove_perm x (running s)) as Hp. rewrite Hrm in Hp.
  pose proof (list_remove_perm x (scheduled_running_reqs v)) as Hpl. rewrite Hl in Hpl.
  pose proof (taken_scheduled s v x l n e Hm Hf Hl Hn) as Ht.
  exists rs'. split_and!; try done; [rewrite (len_perm _ _ Hp), len_cons; lia|].
  intros Hne. destruct (list_remove_split _ _ _ Hrm) as (l1 & l2 & He & -> & _). rewrite He in Hi.
  destruct (taken_vars cfg x v _ Ht (mi_nodup _ _ _ _ _ _ Hm)) as (Hids & _).
  pose proof (od_lookup_in _ _ _ Hn) as Hxs. destruct Hi as [[H0 Hle] Hr Hfr Ha _].
  rewrite (len_perm _ _ Hpl), len_cons in Hle. pose proof (len_nonneg l).
  assert (length l1 ≤ Z.to_nat i)%nat as Hpos.
  { destruct (decide (length l1 ≤ Z.to_nat i)%nat) as [|Hgt]; [done|exfalso]. destruct (Ha x) as [_ []]; [|done].
    rewrite drop_app_le by lia. apply elem_of_app. right. left. }
  split; [cbn; lia| |by intros [_ ?]%Hids| |done].
  - rewrite elem_of_app in Hr |- *. destruct Hr as [?|[->|?]%elem_of_cons]; [by left|done|by right].
  - intros y. replace (S (Z.to_nat (i - 1))) with (Z.to_nat i) by lia. rewrite (drop_remove_before l1 l2 x) by done.
    intros Hy. destruct (Ha y Hy) as [? Hny]. split; [done|]. by intros [_ ?]%Hids.
Qed.

Lemma victim_last rid s v i x : mid s v → first_phase v → at_index rid (running s) i v →
  last (running s) = Some x → sc_policy cfg = FCFS →
  victim_ok rid s i v x i v (put_running (removelast (running s)) s).
Proof.
  intros Hm Hf Hi Hl Hpol. pose proof (removelast_last _ _ Hl) as He. destruct Hi as [[H0 Hle] Hr Hfr Ha Hat].
  specialize (Hat Hpol). pose proof (mid_running_nodup cfg s0 B Hnd _ _ _ Hm) as Hnr.
  remember (removelast (running s)) as rs'. assert (length (running s) = S (length rs')) as Hlen by (rewrite He, length_app; cbn; lia).
  assert (x ≠ rid → (Z.to_nat i < length rs')%nat) as Hbefore.
  { intros Hne. apply lookup_lt_Some in Hat as Hlt. destruct (decide (Z.to_nat i = length rs')) as [Heq|]; [|lia].
    rewrite He, Heq, list_lookup_middle in Hat by done. congruence. }
  exists rs'. split_and!; try done.
  - rewrite He at 1. by rewrite Permutation_app_comm.
  - apply taken_unscheduled with s; [done..|]. destruct (decide (x = rid)) as [->|Hne]; [done|].
    apply Ha. rewrite He, drop_app_le by (specialize (Hbefore Hne); lia). apply elem_of_app. right. left.
  - unfold len in *. lia.
  - intros Hne. specialize (Hbefore Hne). rewrite He in Hr, Ha, Hat. split; try done.
    + apply elem_of_app in Hr as [?|?%list_elem_of_singleton]; [done|congruence].
    + intros y Hy. apply Ha. rewrite drop_app_le by lia. apply elem_of_app. by left.
    + intros _. by rewrite lookup_app_l in Hat.
Qed.

Lemma take_victim_ok rid s v i : mid s v → first_phase v → at_index rid (running s) i v →
  ok (take_victim cfg i v) s (λ r s', victim_ok rid s i v r.1.1 r.1.2 r.2 s').
Proof.
  intros Hm Hf Hi. unfold take_victim. apply ok_bind, ok_gets.
  assert (running s ≠ []) as Hne by (intros He; pose proof (ai_running _ _ _ _ Hi) as Hr; rewrite He in Hr; by apply elem_of_nil in Hr).
  destruct (sc_policy cfg) eqn:Hpol.
  - destruct (last (running s)) as [x|] eqn:Hl; [|by apply last_None in Hl]. apply ok_bind, ok_ret, ok_bind, ok_modify, ok_ret.
    by apply victim_last.
  - assert (∀ y, y ∈ running s → ∃ r, st_requests s !! y = Some r) as Hknown
      by (intros y Hy; destruct (mid_known s v y Hm Hy) as (r & ? & _); by exists r).
    apply ok_bind. eapply ok_mono; [by apply lowest_priority_ok|]. intros x s' [-> Hx].
    destruct (list_remove_Some _ _ Hx) as [rs' Hrm]. apply ok_bind, (ok_or_raise _ _ _ _ _ Hrm), ok_bind, ok_modify.
    destruct (list_remove x (scheduled_running_reqs v)) as [l|] eqn:Hl.
    + assert (x ∈ step_ids v) as Hxs.
      { rewrite (first_phase_ids _ _ Hm Hf). pose proof (list_remove_perm x (scheduled_running_reqs v)) as Hp. rewrite Hl in Hp. rewrite Hp. left. }
      destruct (od_lookup_Some _ _ Hxs) as [n Hn]. destruct (mi_blocks _ _ _ _ _ _ Hm x Hxs) as (b & Hb & _).
      destruct (Hknown x Hx) as [r Hr].
      apply ok_bind, (ok_or_raise _ _ _ _ _ Hn), ok_bind, (ok_or_raise _ _ _ _ _ Hb), ok_bind.
      apply (ok_get_req (put_running rs' s) x r); [done|]. apply ok_bind. eapply ok_mono; [apply num_embeds_ok|].
      * intros j Hj. destruct (scheduled_encoder_inputs v !! x) as [li|] eqn:Hli; [|by apply elem_of_nil in Hj].
        by apply (mi_inputs _ _ _ _ _ _ Hm x li r Hli Hr).
      * intros e s' ->. apply ok_ret. apply victim_scheduled; try done. by rewrite Hpol.
    + apply ok_ret. apply victim_unscheduled; try done; [|by rewrite Hpol].
      rewrite (first_phase_ids _ _ Hm Hf). by apply list_remove_None.
Qed.
(** ** Allocating blocks, if need be by preempting others *)

Lemma mid_unscheduled s v rid r : mid s v → rid ∈ running s → rid ∉ step_ids v → st_requests s !! rid = Some r →
  running_ok cfg ∅ (kv s) rid r.
Proof.
  intros Hm Hr Hn Hs. destruct (mi_running _ _ _ _ _ _ Hm rid Hr) as (r1 & Hr1 & Hi). rewrite Hs in Hr1. injection Hr1 as <-.
  unfold in_step in Hi. by rewrite od_lookup_none in Hi.
Qed.

(** While [rid] is being scheduled, from [s], [i] and [v] on. *)
Record trying (rid : string) (r : SRequest) (s : St) (i : Z) (v : StepVars) (s' : St) (i' : Z) (v' : StepVars) : Prop := {
  ty_mid : mid s' v';
  ty_first : first_phase v';
  ty_index : at_index rid (running s') i' v';
  ty_request : st_requests s' !! rid = Some r;
  ty_measure : len (running s') - i' ≤ len (running s) - i;
  ty_budget : token_budget v ≤ token_budget v';
  ty_room : ∀ x l, room (enc s) x l → room (enc s') x l
}.

(** [rid] got its blocks in the cache [k']. *)
Definition got_blocks (rid : string) (r : SRequest) (n : Z) (b : KVCacheBlocks) (s1 : St) (k' : K) : Prop :=
  kv_ok k' ∧ kept_but (.= rid) (kv s1) k' ∧ covers k' rid (num_computed_tokens (sr_req r) + n) ∧ readable b.

Lemma after_victim rid r s i v s1 i1 v1 x i2 v2 s2 s3 : trying rid r s i v s1 i1 v1 →
  victim_ok rid s1 i1 v1 x i2 v2 s2 → (∃ k' e' fl q' rx, s3 = after_preemption x rx k' e' fl q' (running s2) s2 ∧
    st_requests s1 !! x = Some rx ∧ kv_ok k' ∧ kept_but (.= x) (kv s1) k' ∧ blank k' x ∧ enc_ok e' ∧
    (∀ r' l, room (enc s1) r' l → room e' r' l) ∧ good q' ∧ content q' ≡ₚ x :: content (waiting (queues s1))) →
  mid s3 (record_preempted x v2) ∧ first_phase (record_preempted x v2) ∧
  (x ≠ rid → trying rid r s i v s3 i2 (record_preempted x v2) ∧ (length (running s3) < length (running s1))%nat).
Proof.
  intros [Hm Hf Hi Hr Hms Hb Hroom] (rs' & -> & Hp & Htk & Hf2 & Hme & Hidx)
    (k' & e' & fl & q' & rx & -> & Hrx & Hk & Hkept & Hbl & He & Hrm & Hq & Hc).
  pose proof (mid_preempt cfg s0 B Hnd _ _ _ _ _ rs' k' e' fl q' v2 Hm Hp Hrx Htk (proj1 Hf) (proj2 Hf) Hk Hkept Hbl He Hq Hc) as Hm3.
  split; [exact Hm3|]. split; [exact Hf2|]. intros Hne. split.
  - split; [exact Hm3|exact Hf2| | | | |].
    + destruct (Hidx Hne) as [? ? ? ? ?]. by split.
    + cbn. by rewrite lookup_insert_ne.
    + cbn in *. lia.
    + cbn. pose proof (tk_more _ _ _ Htk). lia.
    + intros y l Hy. by apply Hrm, Hroom.
  - cbn. rewrite (Permutation_length Hp). cbn. lia.
Qed.

Lemma allocate_or_preempt_ok fuel rid r n s i v s1 i1 v1 : trying rid r s i v s1 i1 v1 →
  (length (running s1) ≤ fuel)%nat → 0 < n → num_computed_tokens (sr_req r) + n < sc_max_model_len cfg →
  ok (allocate_or_preempt cfg fuel rid (sr_req r) n i1 v1) s1 (λ res s',
    match res.1.1 with
    | None => mid s' res.2 ∧ first_phase res.2
    | Some b => ∃ s2 k', s' = put_kv k' s2 ∧ trying rid r s i v s2 res.1.2 res.2 ∧ got_blocks rid r n b s2 k'
    end).
Proof.
  revert s1 i1 v1. induction fuel as [|fuel IH]; intros s1 i1 v1 Ht Hfuel Hn Hmax.
  { destruct Ht as [_ _ Hi _ _ _ _]. pose proof (ai_running _ _ _ _ Hi) as Hr. destruct (running s1); [by apply elem_of_nil in Hr|cbn in Hfuel; lia]. }
  cbn [allocate_or_preempt]. pose proof Ht as [Hm Hf Hi Hr Hms Hbud Hroom].
  pose proof (mid_unscheduled s1 v1 rid r Hm (ai_running _ _ _ _ Hi) (ai_fresh _ _ _ _ Hi) Hr) as [[Hid Hsuits _ Htoks _ _] Hst [H0 _] _ _ Hcov].
  apply ok_bind, ok_zoom. eapply ok_mono.
  { apply (allocate_law (kv s1) (sr_req r) n 0 None 0 false); [apply Hm|done|done|lia|lia|].
    left. rewrite Hid. split_and!; try done. by left. }
  cbn. rewrite Hid. intros [b|] k' [Hk' Hres].
  - apply ok_ret. cbn. destruct Hres as (Hkept & Hread & Hc). exists s1, k'. split; [done|]. split; [done|]. split_and!; try done. by rewrite Z.add_0_r in Hc.
  - assert (trying rid r s i v (put_kv k' s1) i1 v1) as Ht1.
    { split; try done. eapply mid_caches; try done. by apply (mi_enc _ _ _ _ _ _ Hm). }
    clear Ht Hm Hi Hf Hr Hms Hbud Hroom. remember (put_kv k' s1) as s2 eqn:Hs2.
    assert (length (running s2) ≤ S fuel)%nat as Hfuel2 by (by rewrite Hs2). clear Hs2 Hfuel.
    destruct (Ht1) as [Hm Hf Hi Hr Hms Hbud Hroom].
    apply ok_bind. eapply ok_mono; [by apply take_victim_ok|]. intros [[x i2] v2] s3 Hv. cbn [fst snd] in Hv |- *.
    pose proof Hv as (rs' & -> & Hp & _). assert (x ∈ running s2) as Hx by (rewrite Hp; left).
    destruct (mid_known s2 v1 x Hm Hx) as (rx & Hrx & Hlx & Hstx & _).
    apply ok_bind. eapply ok_mono.
    { apply (preempt_request_ok (put_running rs' s2) x rx); try done; cbn; apply Hm. }
    intros _ s4 (k2 & e2 & fl & q2 & -> & Hk2 & Hkept2 & Hbl & He2 & Hrm2 & Hq2 & Hc2). cbn in Hkept2, Hrm2, Hc2.
    edestruct (after_victim rid r s i v s2 i1 v1 x i2 v2 (put_running rs' s2)) as (Hm4 & Hf4 & Hgo); [exact Ht1|exact Hv|by exists k2, e2, fl, q2, rx|].
    destruct (bool_decide (x = rid)) eqn:Hd.
    + apply ok_ret. done.
    + apply bool_decide_eq_false in Hd. destruct (Hgo Hd) as [Ht4 Hlen]. apply IH; try done. lia.
Qed.

(** ** Recording a scheduled request *)

Lemma put_same_request s rid r : st_requests s !! rid = Some r → put_st_requests (<[rid := r]> (st_requests s)) s = s.
Proof. intros Hr. rewrite insert_id by done. by destruct s. Qed.

(** The draft tokens that are scheduled. *)
Definition drafts_of (r : SRequest) (n : Z) : option (list Z) :=
  let j := n + num_computed_tokens (sr_req r) - num_tokens (sr_req r) - num_output_placeholders r in
  match spec_token_ids (sr_req r) with
  | [] => None
  | spec => if 0 <? j then Some (slice_to spec j) else None
  end.
Lemma drafts_of_drafted r n : num_computed_tokens (sr_req r) + n ≤ num_tokens_with_spec (sr_req r) + num_output_placeholders r →
  drafted r n (drafts_of r n).
Proof.
  unfold drafted, drafts_of, num_tokens_with_spec. unfold num_tokens. intros Hle.
  destruct (spec_token_ids (sr_req r)) as [|t l] eqn:Hs; cbn [default]; [rewrite len_nil in *; split; [lia|done]|].
  destruct (Z.ltb_spec 0 (n + num_computed_tokens (sr_req r) - len (all_token_ids (sr_req r)) - num_output_placeholders r)); cbn [default];
    [|rewrite len_nil; split; [lia|done]].
  rewrite slice_to_nonneg by lia. split; [|intros d [= <-]]; unfold id, len in *; rewrite length_take; lia.
Qed.

(** What the outer loop keeps. *)
Definition outer (rs : list string) (i : Z) (v : StepVars) : Prop :=
  0 ≤ i ∧ len (scheduled_running_reqs v) ≤ i ∧ ∀ y, y ∈ drop (Z.to_nat i) rs → y ∉ step_ids v.

Lemma settle_running_ok rid r s i v s2 i2 v2 n b k' inputs nb : trying rid r s i v s2 i2 v2 → got_blocks rid r n b s2 k' →
  0 < n ≤ token_budget v2 → num_computed_tokens (sr_req r) + n < sc_max_model_len cfg →
  num_computed_tokens (sr_req r) + n ≤ num_tokens_with_spec (sr_req r) + num_output_placeholders r → room (enc s2) (sr_req r) inputs →
  ok (settle_running rid r n inputs nb b v2) (put_kv k' s2) (λ v3 s3,
    mid s3 v3 ∧ first_phase v3 ∧ running s3 = running s2 ∧ outer (running s3) (i2 + 1) v3).
Proof.
  intros [Hm Hf Hi Hr _ _ _] (Hk & Hkept & Hc & Hb) Hn Hmax Hh Hroom. unfold settle_running.
  pose proof (mid_unscheduled s2 v2 rid r Hm (ai_running _ _ _ _ Hi) (ai_fresh _ _ _ _ Hi) Hr) as [[Hid _ Hes _ _ _] _ _ _ _ _].
  pose proof (drafts_of_drafted r n Hh) as Hd.
  set (r' := match spec_token_ids (sr_req r) with [] => r | _ => on_req (put_spec_token_ids []) r end).
  assert (only_spec r r') as Ho by (unfold r'; destruct (spec_token_ids (sr_req r)); [by left|by right]).
  set (v3 := record_drafts rid (drafts_of r n) (record_running rid b n v2)).
  pose proof (mid_scheduled cfg s0 B Hnd [] s2 v2 rid r r' n b (drafts_of r n) k' Hm (ai_running _ _ _ _ Hi) (ai_fresh _ _ _ _ Hi)
    Hr Ho Hn Hmax Hd Hk Hkept Hc Hb) as Hm3. fold v3 in Hm3.
  destruct (text_spec r r' Ho) as (_ & _ & Hmm).
  apply ok_bind. eapply (ok_eq _ _ v3 (put_st_requests (<[rid := r']> (st_requests s2)) (put_kv k' s2))).
  { unfold v3, drafts_of, r'. destruct (spec_token_ids (sr_req r)) as [|t l] eqn:Hs.
    - unfold ret. by rewrite (put_same_request (put_kv k' s2)).
    - unfold bind, update_req, modify. cbn [st_requests put_kv]. rewrite (alter_insert_eq _ _ _ _ Hr). unfold ret. by destruct (0 <? _). }
  eapply ok_mono.
  { eapply (allocate_inputs_ok cfg s0 B [] _ v3 rid (sr_req r) r' inputs nb Hm3); [by cbn; rewrite lookup_insert_eq|done|done|done]. }
  assert (scheduled_running_reqs v3 = scheduled_running_reqs v2 ++ [rid] ∧ step_ids v3 = step_ids v2 ++ [rid]) as [E1 E2].
  { unfold v3, step_ids. pose proof (ai_fresh _ _ _ _ Hi). destruct (drafts_of r n); cbn; by rewrite od_set_new, fmap_app. }
  intros v4 s4 (Hm4 & He & Hv4). split; [done|]. assert (running s4 = running s2) as Hrun by (by rewrite He).
  split; [|split; [done|]].
  { destruct Hf. unfold v3 in Hv4. destruct Hv4 as [->| ->]; destruct (drafts_of r n); by split. }
  destruct Hi as [[H0 Hl] Hri Hfr Ha _]. unfold outer.
  assert (scheduled_running_reqs v4 = scheduled_running_reqs v2 ++ [rid] ∧ step_ids v4 = step_ids v2 ++ [rid]) as [-> ->] by (by destruct Hv4 as [->| ->]).
  rewrite Hrun. split; [lia|]. rewrite len_app, len_cons, len_nil. split; [lia|]. intros y.
  replace (Z.to_nat (i2 + 1)) with (S (Z.to_nat i2)) by lia. intros Hy. destruct (Ha y Hy). rewrite elem_of_app, list_elem_of_singleton. tauto.
Qed.

(** ** One running request, and the loop *)

Lemma at_index_start s v i rid : mid s v → outer (running s) i v → running s !! Z.to_nat i = Some rid →
  at_index rid (running s) i v.
Proof.
  intros Hm (H0 & Hl & Ha) Hat.
  assert (drop (Z.to_nat i) (running s) = rid :: drop (S (Z.to_nat i)) (running s)) as Hd by (by apply drop_S).
  assert (rid ∉ drop (S (Z.to_nat i)) (running s)) as Hn.
  { pose proof (mid_running_nodup cfg s0 B Hnd _ _ _ Hm) as Hnr. rewrite <-(take_drop (Z.to_nat i) (running s)), Hd in Hnr.
    apply NoDup_app in Hnr as (_ & _ & Hnr). by apply NoDup_cons in Hnr as [? _]. }
  split; try done; [by eapply list_elem_of_lookup_2| |].
  - apply Ha. rewrite Hd. left.
  - intros y Hy. split; [congruence|]. apply Ha. rewrite Hd. by right.
Qed.

Lemma outer_skip rs i v : outer rs i v → outer rs (i + 1) v.
Proof.
  intros (H0 & Hl & Ha). split; [lia|]. split; [lia|]. intros y Hy. apply Ha.
  replace (Z.to_nat (i + 1)) with (Z.to_nat i + 1)%nat in Hy by lia. rewrite <-drop_drop in Hy. rewrite <-(take_drop 1 (drop _ rs)). apply elem_of_app. by right.
Qed.

(** How far the loop got. *)
Definition progress (s : St) (i : Z) (o : running_result) (v : StepVars) (s' : St) : Prop :=
  match o with
  | RSkip => mid s' v ∧ running s' = running s
  | RStop v' => mid s' v' ∧ first_phase v'
  | RScheduled i' v' => mid s' v' ∧ first_phase v' ∧ outer (running s') i' v' ∧ len (running s') - i' < len (running s) - i
  end.

Context (Hmamba : need_mamba_block_aligned_split cfg = true → 0 < sc_block_size cfg).

Lemma schedule_running_ok s v i rid : mid s v → first_phase v → outer (running s) i v →
  running s !! Z.to_nat i = Some rid → 0 < token_budget v →
  ok (schedule_running cfg rid i v) s (λ o s', progress s i o v s').
Proof.
  intros Hm Hf Ho Hat Hbud. pose proof (at_index_start s v i rid Hm Ho Hat) as Hi.
  destruct (mid_known s v rid Hm (ai_running _ _ _ _ Hi)) as (r & Hr & _).
  pose proof (mid_unscheduled s v rid r Hm (ai_running _ _ _ _ Hi) (ai_fresh _ _ _ _ Hi) Hr) as [[_ _ Hes _ _ _] _ [H0 Hlt] Hh _ _].
  unfold schedule_running. apply ok_bind, (ok_get_req _ _ _ _ Hr), ok_bind, ok_gets, ok_bind, ok_gets.
  destruct (max_tokens_in_flight r); [by apply ok_ret|]. destruct (_ <? next_decode_eligible_step r); [by apply ok_ret|].
  destruct (_ && _); [by apply ok_ret|]. cbv zeta.
  set (h := num_tokens_with_spec (sr_req r) + num_output_placeholders r - num_computed_tokens (sr_req r)).
  assert (0 ≤ h) as Hh0.
  { unfold horizon, num_tokens in Hh. rewrite lookup_empty in Hh. cbn [default] in Hh. rewrite len_nil in Hh.
    pose proof (len_nonneg (spec_token_ids (sr_req r))). unfold h, num_tokens_with_spec. lia. }
  pose proof (capped_bounds (long_prefill_token_threshold cfg) h Hh0) as Hcap.
  set (n0 := Z.min (Z.min _ _) _). assert (0 ≤ n0) as Hn0 by (unfold n0; lia).
  apply ok_bind. eapply ok_mono; [by eapply (encoder_part_ok cfg s0 B [] s v)|]. intros [[inputs n1] nb] s1 (Hm1 & He1 & Hn1 & Hroom & _).
  cbn [fst snd] in Hn1, Hroom. assert (running s1 = running s ∧ st_requests s1 = st_requests s) as [Hrun1 Hreq1] by (by rewrite He1).
  set (n := if need_mamba_block_aligned_split cfg then _ else _).
  assert (0 ≤ n ≤ n1) as Hn by (unfold n; destruct (need_mamba_block_aligned_split cfg); [apply mamba_split_bounds; [by apply Hmamba|lia]|lia]).
  destruct (Z.eqb_spec n 0) as [|Hnz]; [by apply ok_ret|]. apply ok_bind, ok_gets.
  assert (trying rid r s1 i v s1 i v) as Ht by (split; try done; [by rewrite Hrun1|by rewrite Hreq1]).
  apply ok_bind. eapply ok_mono; [apply (allocate_or_preempt_ok _ _ _ _ _ _ _ _ _ _ Ht); [done|lia|lia]|].
  intros [[[b|] i2] v2] s3; cbn [fst snd].
  - intros (s2 & k' & -> & Ht2 & Hg). apply ok_bind. eapply ok_mono.
    { apply (settle_running_ok rid r s1 i v s2 i2 v2); try done.
      - pose proof (ty_budget _ _ _ _ _ _ _ _ Ht2). unfold n0 in *. lia.
      - unfold n0 in *. lia.
      - unfold n0, h in *. lia.
      - by apply (ty_room _ _ _ _ _ _ _ _ Ht2). }
    intros v3 s3 (Hm3 & Hf3 & Hrun3 & Ho3). apply ok_ret. cbn. split_and!; try done.
    pose proof (ty_measure _ _ _ _ _ _ _ _ Ht2) as Hms. rewrite Hrun3. rewrite Hrun1 in Hms. lia.
  - intros [Hm3 Hf3]. by apply ok_ret.
Qed.

Lemma running_loop_ok fuel s v i : mid s v → first_phase v → outer (running s) i v → len (running s) - i ≤ Z.of_nat fuel →
  ok (running_loop cfg fuel i v) s (λ v' s', mid s' v' ∧ first_phase v').
Proof.
  revert s v i. induction fuel as [|fuel IH]; intros s v i Hm Hf Ho Hfuel; cbn [running_loop]; apply ok_bind, ok_gets.
  { rewrite (proj2 (Z.ltb_ge i (len (running s)))) by lia. by apply ok_ret. }
  destruct (Z.ltb_spec i (len (running s))) as [Hlt|]; [|by apply ok_ret].
  destruct (Z.ltb_spec 0 (token_budget v)); [|by apply ok_ret]. cbn [andb].
  destruct (lookup_lt_is_Some_2 (running s) (Z.to_nat i)) as [rid Hrid]; [destruct Ho as [? _]; unfold len in Hlt; lia|].
  apply ok_bind, (ok_or_raise _ _ rid); [by rewrite py_nth_nonneg by (by destruct Ho)|].
  apply ok_bind. eapply ok_mono; [by apply schedule_running_ok|]. intros [|v'|i' v'] s' Hp; cbn in Hp.
  - destruct Hp as [Hm' Hrun]. apply IH; try done; rewrite Hrun; [by apply outer_skip|lia].
  - by apply ok_ret.
  - destruct Hp as (Hm' & Hf' & Ho' & Hms). apply IH; try done. lia.
Qed.

End phase.
End running.
