(* ===== verification/ScheduleWaiting.v ===== *)
(** * Scheduling the waiting requests

    The second phase of [schedule]: the loop over the waiting requests returns
    and keeps the invariant [mid]; a request joins the running ones with the
    blocks of its cache hit, waits on, or is set aside and queued again. *)

From stdpp Require Import gmap sets sorting.
From S2P Require Import Prelude Arith PowerSMC FreeQueue BlockHash Request BlockPool KVCacheSpec SingleType CacheHit Coordinator KVCacheManager EncoderCache EncoderProps SMCScheduler Heapq RequestQueue EncoderInputs SchedState Schedule SchedSpec ScheduleInv ScheduleMid ScheduleRunning.
Open Scope Z_scope.

Section waiting_phase.
Context {A : Arith} {K C Q : Type} `{!KVCache K, !KVView K, !EncCache C, !EncView C, !RequestQueue string Q, !QueueSpec string Q}.
Context (addr : string → Z) (deref : string → Request) (cfg : SchedulerConfig).
Context `{!KVCacheLaws K (sc_max_model_len cfg) (num_lookahead_tokens cfg), !EncCacheLaws C (is_encoder_decoder cfg)}.
Abbreviation St := (SchedulerState K C Q).
Implicit Types (s : St) (v : StepVars) (k : K).

(** ** The queues *)

Definition queue_of (w : which_queue) (qs : WaitingQueues Q) : Q :=
  match w with Waiting => waiting qs | Skipped => skipped_waiting qs end.

(** The head of a queue that is not empty is next. *)
Lemma select_ok (qs : WaitingQueues Q) policy : good (waiting qs) → good (skipped_waiting qs) →
  queue_bool (waiting qs) || queue_bool (skipped_waiting qs) = true →
  ok (select_waiting_queue_for_scheduling addr deref policy) qs (λ o qs', qs' = qs ∧
    ∃ w x l, o = Some w ∧ content (queue_of w qs) = x :: l).
Proof.
  intros Hw Hk Hne. rewrite !bool_spec in Hne by done. unfold select_waiting_queue_for_scheduling. apply ok_bind, ok_gets.
  rewrite !bool_spec by done. pose proof (peek_spec _ Hw) as Hpw. pose proof (peek_spec _ Hk) as Hpk.
  destruct (content (waiting qs)) as [|a la] eqn:Hcw, (content (skipped_waiting qs)) as [|b lb] eqn:Hck; try done; destruct policy; cbn in *.
  1-4: apply ok_ret; split; [done|]; first [exists Skipped; by exists b, lb|exists Waiting; by exists a, la].
  - apply ok_ret. split; [done|]. exists Skipped. by exists b, lb.
  - apply ok_bind, ok_zoom. eapply ok_eq; [exact Hpw|]. apply ok_bind, ok_zoom. eapply ok_eq; [exact Hpk|]. apply ok_ret.
    split; [by destruct qs|]. destruct (Request_lt addr deref a b); [exists Waiting; by exists a, la|exists Skipped; by exists b, lb].
Qed.

Lemma peek_ok (qs : WaitingQueues Q) w x l : good (queue_of w qs) → content (queue_of w qs) = x :: l →
  on_queue w peek_request qs = (Ok x, qs).
Proof.
  intros Hg Hc. pose proof (peek_spec _ Hg) as Hp. rewrite Hc in Hp.
  destruct qs, w; unfold on_queue, on_waiting, on_skipped, zoom; cbn in *; by rewrite Hp.
Qed.

(** The queue's head is taken off. *)
Lemma pop_head_ok (qs : WaitingQueues Q) w x l : good (waiting qs) → good (skipped_waiting qs) → content (queue_of w qs) = x :: l →
  ok (on_queue w pop_request) qs (λ y qs', y = x ∧ good (waiting qs') ∧ good (skipped_waiting qs') ∧
    content (waiting qs) ++ content (skipped_waiting qs) ≡ₚ x :: content (waiting qs') ++ content (skipped_waiting qs') ∧
    step_skipped_waiting qs' = step_skipped_waiting qs).
Proof.
  intros Hw Hk Hc. destruct w; cbn in Hc; apply ok_zoom.
  - pose proof (pop_spec _ Hw) as Hp. rewrite Hc in Hp. eapply ok_mono; [exact Hp|]. cbn. intros y q' (-> & Hg & Hc').
    split_and!; try done. by rewrite Hc, Hc'.
  - pose proof (pop_spec _ Hk) as Hp. rewrite Hc in Hp. eapply ok_mono; [exact Hp|]. cbn. intros y q' (-> & Hg & Hc').
    split_and!; try done. rewrite Hc, Hc'. by rewrite Permutation_middle.
Qed.

Section phase.
Context (s0 : St) (B : Z) (Hnd : NoDup (all_ids s0)).
Abbreviation mid := (mid (K := K) (C := C) (Q := Q) cfg s0 B).
Implicit Types (aside : list string).

(** ** Requests move between the queues *)

Lemma mid_requeue aside aside' s s' v : mid aside s v →
  good (waiting (queues s')) ∧ good (skipped_waiting (queues s')) → waiting_ids s ++ aside ≡ₚ waiting_ids s' ++ aside' →
  running s' = running s → st_requests s' = st_requests s → kv s' = kv s → enc s' = enc s → rest s' = rest s →
  mid aside' s' v.
Proof.
  intros Hm Hq Hp Hr Hs Hk He Hrest. assert (prev_step_scheduled_req_ids s' = prev_step_scheduled_req_ids s) as Hprev by (unfold rest in Hrest; congruence).
  destruct Hm. split; rewrite ?Hr, ?Hs, ?Hk, ?He, ?Hrest, ?Hprev; try done.
  - rewrite <-mi_total. unfold all_ids. rewrite Hr, <-!app_assoc. by rewrite Hp.
  - intros rid Hrid. rewrite <-Hp in Hrid. by apply mi_waiting.
  - intros rid Hrid. rewrite <-Hp. by apply mi_preempted.
Qed.

(** A blocked request becomes schedulable. *)
Lemma mid_promote aside s v rid r : mid aside s v → preempted_reqs v = [] → rid ∈ waiting_ids s → st_requests s !! rid = Some r →
  mid aside (put_st_requests (<[rid := on_req (set_status WAITING) r]> (st_requests s)) s) v.
Proof.
  intros Hm Hpre Hw Hr.
  assert (rid ∉ running s) as Hn by (eapply mid_waiting_running; [done..|apply elem_of_app; by left]).
  assert (∀ x, x ≠ rid → <[rid := on_req (set_status WAITING) r]> (st_requests s) !! x = st_requests s !! x) as Hother
    by (intros; by rewrite lookup_insert_ne).
  destruct Hm. split; try done.
  - cbn. by rewrite dom_insert_lookup_L by (by eexists).
  - intros x r0 Hx. destruct (mi_same x r0 Hx) as (r1 & Hr1 & Ht). cbn. destruct (decide (x = rid)) as [->|Hne].
    + rewrite lookup_insert_eq. rewrite Hr in Hr1. injection Hr1 as <-. by eexists.
    + rewrite Hother by done. by exists r1.
  - intros x Hx. cbn in Hx |- *. rewrite Hother by congruence. by apply mi_running.
  - intros x Hx. change (waiting_ids _) with (waiting_ids s) in Hx. destruct (mi_waiting x Hx) as (r1 & Hr1 & Hi & Hp). cbn.
    destruct (decide (x = rid)) as [->|Hne]; [|rewrite Hother by done; by exists r1].
    rewrite lookup_insert_eq. rewrite Hr in Hr1. injection Hr1 as <-. eexists. split; [done|]. split; [|done].
    destruct Hi as [[Hid H1 H2 H3 H4 H5] _ Hc]. split; [|by left|done]. split; try done.
    + by eapply suits_same; [.. |exact H1].
    + by eapply enc_suits_same; [.. |exact H2].
  - intros x l rx Hl. cbn. destruct (decide (x = rid)) as [->|Hne]; [|rewrite Hother by done; by apply mi_inputs].
    rewrite lookup_insert_eq. intros [= <-]. cbn. by apply (mi_inputs rid l r).
  - intros x Hx. cbn in Hx. destruct (mi_from x Hx) as [?|(? & ra & rb & ? & ? & ?)]; [by left|right]. split; [done|].
    exists ra, rb. cbn. by rewrite Hother by congruence.
  - intros x. rewrite Hpre. by intros ?%elem_of_nil.
Qed.
(** ** A waiting request joins the running ones *)

Definition started (computed : Z) (r : SRequest) : SRequest :=
  on_req (λ r, put_num_computed_tokens computed (set_status RUNNING r)) r.

Lemma live_started rid computed r : live cfg rid r → live cfg rid (started computed r).
Proof.
  intros [? H1 H2 ? ? ?]. split; try done.
  - by eapply suits_same; [.. |exact H1].
  - by eapply enc_suits_same; [.. |exact H2].
Qed.

Lemma in_step_waiting k v rid resumed blocks n x r : x ≠ rid →
  in_step cfg k v x r → in_step cfg k (record_waiting resumed rid blocks n v) x r.
Proof. intros Hne Hi. exact (in_step_recorded cfg k v rid blocks n None x r Hne Hi). Qed.

Lemma mid_started aside s s' v rid r computed n resumed blocks : mid aside s v → preempted_reqs v = [] →
  waiting_ids s ≡ₚ rid :: waiting_ids s' → st_requests s !! rid = Some r →
  (resumed = true → status (sr_req r) = PREEMPTED) →
  0 ≤ computed → 0 < n ≤ token_budget v → computed + n ≤ num_tokens (sr_req r) →
  len (running s) < max_num_running_reqs cfg →
  kv_ok (kv s') → kept_but (.= rid) (kv s) (kv s') → covers (kv s') rid (computed + n) → readable blocks → enc_ok (enc s') →
  good (waiting (queues s')) ∧ good (skipped_waiting (queues s')) → running s' = running s ++ [rid] →
  st_requests s' = <[rid := started computed r]> (st_requests s) → rest s' = rest s →
  mid aside s' (record_waiting resumed rid blocks n v).
Proof.
  intros Hm Hpre Hw Hr Hres Hc Hn Hle Hmax Hkv Hk Hcov Hb He Hq Hrun Hs Hrest.
  assert (prev_step_scheduled_req_ids s' = prev_step_scheduled_req_ids s) as Hprev by (unfold rest in Hrest; congruence).
  assert (rid ∈ waiting_ids s) as Hin by (rewrite Hw; left).
  assert (rid ∉ running s) as Hnr by (eapply mid_waiting_running; [done..|apply elem_of_app; by left]).
  assert (∀ x, x ≠ rid → st_requests s' !! x = st_requests s !! x) as Hother by (intros; rewrite Hs; by rewrite lookup_insert_ne).
  assert (st_requests s' !! rid = Some (started computed r)) as Hself by (by rewrite Hs, lookup_insert_eq).
  pose proof (mid_disjoint cfg s0 B Hnd _ _ _ Hm) as Hdis. rewrite Hw in Hdis.
  assert (∀ x, x ∈ waiting_ids s' ++ aside → x ≠ rid ∧ x ∈ waiting_ids s ++ aside) as Hws.
  { intros x Hx. apply NoDup_app in Hdis as (_ & _ & Hd). cbn in Hd. apply NoDup_cons in Hd as [Hd _]. split; [by intros ->|].
    rewrite Hw. by right. }
  pose proof (unknown_kept cfg s0 B _ _ _ (kv s') _ _ Hm Hr Hk) as Hunk.
  set (v' := record_waiting _ _ _ _ _).
  destruct Hm. assert (rid ∉ step_ids v) as Hnew by (by intros ?%mi_scheduled).
  assert (num_scheduled_tokens v' = num_scheduled_tokens v ++ [(rid, n)]) as Hnum by (by apply od_set_new).
  assert (step_ids v' = step_ids v ++ [rid]) as Hids by (unfold step_ids; by rewrite Hnum, fmap_app).
  destruct (mi_waiting rid) as (r1 & Hr1 & [Hlive _ _] & Hp); [apply elem_of_app; by left|]. rewrite Hr in Hr1. injection Hr1 as <-.
  split; try done; rewrite ?Hrun, ?Hprev.
  - by rewrite Hrest.
  - by rewrite Hs, dom_insert_lookup_L by (by eexists).
  - intros x rx Hx. destruct (mi_same x rx Hx) as (r1 & Hr1 & Ht). destruct (decide (x = rid)) as [->|Hne].
    + rewrite Hr in Hr1. injection Hr1 as <-. by eexists.
    + rewrite Hother by done. by exists r1.
  - rewrite <-mi_total. unfold all_ids. rewrite Hrun, Hw. solve_Permutation.
  - intros x. rewrite elem_of_app, list_elem_of_singleton. intros Hx. destruct (decide (x = rid)) as [->|Hne].
    + eexists. split; [done|]. unfold in_step. rewrite Hnum, od_lookup_app_eq by done. split; [by apply live_started|].
      pose proof (live_tokens _ _ _ Hlive). pose proof (live_placeholders _ _ _ Hlive) as [? _].
      assert (scheduled_spec_decode_tokens v' !! rid = None) as Hnone
        by (apply eq_None_not_Some; by intros [d ?%mi_drafts]).
      unfold horizon, drafts_end. rewrite Hnone. change (len (default [] None)) with 0. unfold num_tokens in *.
      split_and!; try done; cbn; lia.
    + destruct Hx as [Hx|?]; [|done]. destruct (mi_running x Hx) as (r1 & Hr1 & Hi). rewrite Hother by done. exists r1. split; [done|].
      apply in_step_waiting; [done|]. by apply (in_step_kept _ _ _ _ _ _ _ Hk).
  - intros x Hx. destruct (Hws x Hx) as [Hne Hx']. destruct (mi_waiting x Hx') as (r1 & ? & ? & ?). rewrite Hother by done.
    exists r1. split; [done|]. split; [|done]. by apply (waiting_ok_kept _ _ _ _ _ _ Hk).
  - rewrite len_app, len_cons, len_nil. lia.
  - rewrite Hnum, sum_tokens_snoc. change (token_budget v') with (token_budget v - n). lia.
  - rewrite Hids, mi_ids. unfold v'. destruct resumed; cbn; solve_Permutation.
  - intros x m. rewrite Hnum, elem_of_app, list_elem_of_singleton. intros [?|[= -> ->]]; [by eapply mi_positive|lia].
  - intros x. rewrite Hids, !elem_of_app. intros [?|?]; [left; by apply mi_scheduled|by right].
  - rewrite Hids. apply NoDup_app. split_and!; [done| |apply NoDup_singleton]. by intros x Hx ->%list_elem_of_singleton.
  - intros x d Hd. rewrite Hids. apply elem_of_app. left. by apply (mi_drafts x d).
  - intros x. rewrite Hids, elem_of_app, list_elem_of_singleton. change (req_to_new_blocks v') with (<[rid := blocks]> (req_to_new_blocks v)).
    destruct (decide (x = rid)) as [->|Hne]; [intros _; exists blocks; by rewrite lookup_insert_eq|].
    intros [?|?]; [|done]. rewrite lookup_insert_ne by done. by apply mi_blocks.
  - intros x l rx Hl. destruct (decide (x = rid)) as [->|Hne]; [|rewrite Hother by done; by apply mi_inputs].
    rewrite Hself. intros [= <-]. by apply (mi_inputs rid l r).
  - intros x. rewrite elem_of_app, list_elem_of_singleton. intros Hx. destruct (decide (x = rid)) as [->|Hne].
    + left. unfold v'. destruct resumed; cbn; set_solver.
    + destruct Hx as [Hx|?]; [|done]. rewrite (Hother x Hne).
      destruct (mi_from x Hx) as [Hf|?]; [left|by right]. unfold v'. destruct resumed; cbn; set_solver.
  - intros x Hx. rewrite elem_of_app. destruct (mi_left x Hx) as [?|?]; [left; by left|by right].
  - intros x Hx. assert (x = rid ∨ x ∈ scheduled_resumed_reqs v ++ scheduled_new_reqs v) as [->|?]
      by (revert Hx; unfold v'; destruct resumed; cbn; set_solver); [|by apply mi_new].
    intros Hx0. destruct (mi_left rid Hx0) as [?|Hx1]; [done|]. rewrite Hpre in Hx1. by apply elem_of_nil in Hx1.
  - intros x. unfold v'. destruct resumed; cbn; [|by apply mi_resumed]. rewrite elem_of_app, list_elem_of_singleton.
    intros [?| ->]; [by apply mi_resumed|]. destruct (Hp (Hres eq_refl)) as [Hx|?]; [|done]. rewrite Hpre in Hx. by apply elem_of_nil in Hx.
  - intros x. change (preempted_reqs v') with (preempted_reqs v). rewrite Hpre. by intros ?%elem_of_nil.
Qed.

(** ** A waiting request *)

Definition schedulable (r : SRequest) : Prop := status (sr_req r) = WAITING ∨ status (sr_req r) = PREEMPTED.

Lemma promote_ok aside s v rid r : mid aside s v → preempted_reqs v = [] → rid ∈ waiting_ids s → st_requests s !! rid = Some r →
  ok (if is_blocked_waiting_status (status (sr_req r)) then try_promote_blocked_waiting_request rid else ret true) s
    (λ b s', mid aside s' v ∧ queues s' = queues s ∧ running s' = running s ∧
      (b = true → ∃ r', st_requests s' !! rid = Some r' ∧ schedulable r')).
Proof.
  intros Hm Hpre Hw Hr. destruct (is_blocked_waiting_status (status (sr_req r))) eqn:Hb.
  - unfold try_promote_blocked_waiting_request. apply ok_bind, (ok_get_req _ _ _ _ Hr).
    destruct (status (sr_req r)) eqn:Hst; try done; try by apply ok_ret.
    destruct (_ && _); [|by apply ok_ret]. apply ok_bind, ok_modify, ok_ret.
    rewrite (alter_insert_eq _ _ _ _ Hr). split; [by apply mid_promote|]. split; [done|]. split; [done|]. intros _.
    cbn. rewrite lookup_insert_eq. eexists. split; [done|]. by left.
  - apply ok_ret. split_and!; try done. intros _. exists r. split; [done|].
    destruct (mi_waiting _ _ _ _ _ _ Hm rid) as (r1 & Hr1 & [_ Hst _] & _); [apply elem_of_app; by left|].
    rewrite Hr in Hr1. injection Hr1 as <-. destruct Hst as [?|[?|[Hs _]]]; [by left|by right|congruence].
Qed.

Lemma computed_part_ok aside s v rid r : mid aside s v → rid ∈ waiting_ids s → st_requests s !! rid = Some r →
  ok (computed_part r) s (λ x s', mid aside s' v ∧ s' = put_kv (kv s') s ∧
    x.2 = num_computed_tokens (sr_req r) + x.1.2 ∧ 0 ≤ x.2 < num_tokens (sr_req r) ∧
    offers (kv s') (sr_req r) x.1.2 (Some x.1.1)).
Proof.
  intros Hm Hw Hr. destruct (mi_waiting _ _ _ _ _ _ Hm rid) as (r1 & Hr1 & [Hl _ Hc] & _); [apply elem_of_app; by left|].
  rewrite Hr in Hr1. injection Hr1 as <-. destruct Hl as [Hid Hsuits _ Htok _ Hstats]. unfold computed_part.
  destruct (Z.eqb_spec (num_computed_tokens (sr_req r)) 0) as [H0|H0].
  - destruct Hc as [[_ Hb]|[? _]]; [|lia]. rewrite <-Hid in Hb. apply ok_bind.
    eapply ok_mono; [apply (mid_cache cfg s0 B aside s v _ (λ x k', 0 ≤ x.2 < num_tokens (sr_req r) ∧ hit k' (sr_req r) x.1 x.2) Hm)|].
    + eapply ok_mono; [apply lookup_law; [apply Hm|done|done|lia]|]. cbn. intros x k' (?&?&?&?). split_and!; done || lia.
    + intros [b n] s' ([Hn Hh] & Hm' & He). cbn [fst snd] in Hn, Hh.
      apply ok_bind, ok_assert; [apply Z.leb_le; lia|]. apply ok_bind. destruct (prefill_stats r) eqn:Hp.
      * apply ok_assert; [apply Z.leb_le; specialize (Hstats eq_refl); lia|]. apply ok_ret. cbn. split_and!; try done; try lia.
        right. split_and!; [done|lia|]. by exists b.
      * apply ok_ret, ok_ret. cbn. split_and!; try done; try lia. right. split_and!; [done|lia|]. by exists b.
  - destruct Hc as [[? _]|[Hn Hcov]]; [done|]. apply ok_bind, ok_gets, ok_ret. cbn. split_and!; try done; try lia; [by destruct s|].
    left. rewrite Hid. split_and!; try done; [lia|]. by right.
Qed.

Context (Hmamba : need_mamba_block_aligned_split cfg = true → 0 < sc_block_size cfg).

Lemma waiting_tokens_ok aside s v rid r local computed : mid aside s v → live cfg rid r → 0 ≤ computed < num_tokens (sr_req r) →
  0 < token_budget v →
  ok (waiting_tokens cfg r local computed v) s (λ o s', mid aside s' v ∧ s' = put_enc (enc s') s ∧
    match o with
    | None => True
    | Some (inputs, n, _) => 0 < n ≤ token_budget v ∧ computed + n ≤ num_tokens (sr_req r) ∧ room (enc s') (sr_req r) inputs
    end).
Proof.
  intros Hm Hl Hc Hb. unfold waiting_tokens. cbv zeta.
  pose proof (capped_pos (long_prefill_token_threshold cfg) (num_tokens (sr_req r) - computed) ltac:(lia)) as Hpos.
  pose proof (capped_bounds (long_prefill_token_threshold cfg) (num_tokens (sr_req r) - computed) ltac:(lia)) as Hcap.
  destruct (_ && _); [apply ok_ret; split_and!; [done|by destruct s|done]|].
  set (n0 := Z.min _ _). apply ok_bind, ok_assert; [apply Z.ltb_lt; unfold n0; lia|].
  apply ok_bind. eapply ok_mono; [eapply (encoder_part_ok cfg s0 B aside s v); [exact Hm|apply Hl|lia|unfold n0; lia|done]|].
  intros [[inputs n1] nb] s1 (Hm1 & He1 & Hn1 & Hroom & Hsame). cbn [fst snd] in *.
  destruct (has_encoder_inputs (sr_req r) && (n1 =? 0)) eqn:Hz; [by apply ok_ret|].
  assert (0 < n1) as Hn1'.
  { destruct (has_encoder_inputs (sr_req r)); [cbn in Hz; apply Z.eqb_neq in Hz; lia|]. rewrite (Hsame eq_refl). unfold n0. lia. }
  destruct (need_mamba_block_aligned_split cfg) eqn:Hmb.
  - pose proof (mamba_split_bounds cfg (sr_req r) n1 local (Hmamba eq_refl) ltac:(lia)) as Hs.
    destruct (Z.eqb_spec (mamba_block_aligned_split cfg (sr_req r) n1 local) 0); [by apply ok_ret|].
    apply ok_ret. unfold n0 in *. split_and!; try done; lia.
  - apply ok_ret. unfold n0 in *. split_and!; try done; lia.
Qed.

Lemma cross_attention_ok s r inputs c : room c r inputs → ok (cross_attention_tokens cfg r inputs) s (λ _ s', s' = s).
Proof.
  intros Hroom. unfold cross_attention_tokens. destruct (_ && _); [|by apply ok_ret]. apply num_embeds_ok.
  by apply room_inputs with c.
Qed.

Lemma kept_but_trans (X : string → Prop) k1 k2 k3 : kept_but X k1 k2 → kept k2 k3 → kept_but X k1 k3.
Proof. intros H1 H2 x Hx. destruct (H1 x Hx) as [Hb Hc], (H2 x (λ f, f)) as [Hb' Hc']. split; auto. Qed.

(** From the state [s] in which the request still waits to [s1], in which it has
    its blocks and is off its queue. *)
Lemma start_running_ok aside s s1 v rid r computed n inputs nb : mid aside s v → preempted_reqs v = [] →
  st_requests s !! rid = Some r → schedulable r → waiting_ids s ≡ₚ rid :: waiting_ids s1 →
  0 ≤ computed → 0 < n ≤ token_budget v → computed + n ≤ num_tokens (sr_req r) → len (running s) < max_num_running_reqs cfg →
  room (enc s1) (sr_req r) inputs →
  kv_ok (kv s1) → kept_but (.= rid) (kv s) (kv s1) → covers (kv s1) rid (computed + n) →
  good (waiting (queues s1)) ∧ good (skipped_waiting (queues s1)) →
  running s1 = running s → st_requests s1 = st_requests s → enc s1 = enc s → rest s1 = rest s →
  ok (start_running cfg rid r computed n inputs nb v) s1 (λ v' s', mid aside s' v' ∧ preempted_reqs v' = [] ∧ queues s' = queues s1).
Proof.
  intros Hm Hpre Hr Hst Hw Hc Hn Hle Hmax Hroom Hkv Hkept Hcov Hq Hrun Hreq He Hrest. unfold start_running.
  apply ok_bind, ok_modify, ok_bind.
  assert (∃ resumed : bool, (match status (sr_req r) with WAITING => ret false | PREEMPTED => ret true | _ => raise RuntimeError end : M St bool)
    (put_running (running s1 ++ [rid]) s1) = (Ok resumed, put_running (running s1 ++ [rid]) s1) ∧
    (resumed = true → status (sr_req r) = PREEMPTED)) as (resumed & Hres & Hp).
  { destruct Hst as [->| ->]; [by exists false|by exists true]. }
  eapply ok_eq; [exact Hres|]. cbv zeta.
  set (v1 := match max_loras cfg with Some _ => _ | None => _ end).
  assert (mid aside s v1 ∧ preempted_reqs v1 = [] ∧ token_budget v1 = token_budget v) as (Hm1 & Hpre1 & Hb1).
  { unfold v1. destruct (max_loras cfg), (lora_of (sr_req r)); try done. split; [by apply mid_loras|done]. }
  apply ok_bind, ok_zoom. eapply ok_mono; [by apply get_blocks_law|]. cbn. intros b k2 (Hk2 & Hkept2 & Hread).
  apply ok_bind, ok_modify, ok_bind.
  set (s2 := put_st_requests _ _).
  assert (st_requests s2 = <[rid := started computed r]> (st_requests s)) as Hs2
    by (cbn; rewrite Hreq; by rewrite (alter_insert_eq _ _ _ _ Hr)).
  set (fin := λ fl, put_in_flight fl s2).
  assert (∀ fl, mid aside (fin fl) (record_waiting resumed rid b n v1)) as Hfin.
  { intros fl. eapply (mid_started aside s (fin fl) v1 rid r computed n resumed b Hm1 Hpre1 Hw Hr Hp); try done; cbn.
    - by rewrite Hb1.
    - by apply kept_but_trans with (kv s1).
    - by apply (Hkept2 rid (λ f, f)).
    - rewrite He. apply Hm.
    - by rewrite Hrun. }
  assert (∀ fl, ok (match inputs with [] => ret (record_waiting resumed rid b n v1)
      | _ => allocate_inputs (sr_req r) inputs ;;; ret (record_encoder rid inputs nb (record_waiting resumed rid b n v1)) end) (fin fl)
      (λ v' s', mid aside s' v' ∧ preempted_reqs v' = [] ∧ queues s' = queues s1)) as Hend.
  { intros fl. eapply ok_mono.
    - eapply (allocate_inputs_ok cfg s0 B aside _ _ rid (sr_req r) (started computed r) inputs nb (Hfin fl)); try done.
      + cbn [st_requests fin put_in_flight]. by rewrite Hs2, lookup_insert_eq.
      + destruct (mi_waiting _ _ _ _ _ _ Hm rid) as (r1 & Hr1 & [Hl _ _] & _); [apply elem_of_app; left; rewrite Hw; left|].
        rewrite Hr in Hr1. injection Hr1 as <-. by destruct Hl.
    - intros v' s' (Hm' & He2 & Hv'). split; [exact Hm'|]. split; [by destruct Hv' as [->| ->]|]. by rewrite He2. }
  destruct (_ <? _).
  - apply ok_modify. apply Hend.
  - apply ok_ret. replace s2 with (fin (in_flight s2)) by done. apply Hend.
Qed.

Lemma head_waiting s w rid l : content (queue_of w (queues s)) = rid :: l → rid ∈ waiting_ids s.
Proof. unfold waiting_ids. destruct w; cbn; intros ->; apply elem_of_app; [left|right]; left. Qed.

Definition waiting_progress aside (s : St) (o : waiting_result) (v : StepVars) (s' : St) : Prop :=
  match o with
  | WSkip => mid aside s' v ∧ queues s' = queues s ∧ running s' = running s
  | WStop => mid aside s' v ∧ queues s' = queues s
  | WAdmitted v' => mid aside s' v' ∧ preempted_reqs v' = [] ∧ length (waiting_ids s) = S (length (waiting_ids s')) ∧
      step_skipped_waiting (queues s') = step_skipped_waiting (queues s)
  end.

Lemma schedule_waiting_ok aside s v w rid l : mid aside s v → preempted_reqs v = [] → 0 < token_budget v →
  len (running s) < max_num_running_reqs cfg → content (queue_of w (queues s)) = rid :: l →
  ok (schedule_waiting cfg w rid v) s (λ o s', waiting_progress aside s o v s').
Proof.
  intros Hm Hpre Hb Hmax Hhead. pose proof (head_waiting s w rid l Hhead) as Hw. unfold schedule_waiting.
  destruct (mi_waiting _ _ _ _ _ _ Hm rid) as (r & Hr & _); [apply elem_of_app; by left|].
  apply ok_bind, (ok_get_req _ _ _ _ Hr), ok_bind. eapply ok_mono; [by apply (promote_ok aside s v rid r)|].
  intros sch s1 (Hm1 & Hq1 & Hrun1 & Hs1). destruct sch; cbn [negb]; [|by apply ok_ret].
  clear Hr r. destruct (Hs1 eq_refl) as (r & Hr & Hst). clear Hs1. apply ok_bind, (ok_get_req _ _ _ _ Hr).
  destruct (too_many_loras cfg (sr_req r) v); [by apply ok_ret|].
  assert (rid ∈ waiting_ids s1) as Hw1 by (unfold waiting_ids; by rewrite Hq1).
  destruct (mi_waiting _ _ _ _ _ _ Hm1 rid) as (r1 & Hr1 & [Hl _ _] & _); [apply elem_of_app; by left|].
  rewrite Hr in Hr1. injection Hr1 as <-.
  apply ok_bind. eapply ok_mono; [by apply (computed_part_ok aside s1 v rid r)|]. intros [[blocks local] computed] s2 (Hm2 & He2 & Hcomp & Hc & Hoff).
  cbn [fst snd] in *. apply ok_bind. eapply ok_mono; [by apply (waiting_tokens_ok aside s2 v rid)|].
  intros [[[inputs n] nb]|] s3 (Hm3 & He3 & Hn); [|apply ok_ret; split; [done|by rewrite He3, He2]].
  destruct Hn as (Hn & Hle & Hroom).
  apply ok_bind. eapply ok_mono; [by eapply cross_attention_ok|]. intros ne s' ->.
  pose proof (live_tokens _ _ _ Hl) as Htok. pose proof (live_id _ _ _ Hl) as Hid.
  assert (kv s3 = kv s2) as Hkv3 by (by rewrite He3). rewrite <-Hkv3 in Hoff.
  assert (st_requests s3 !! rid = Some r) as Hr3 by (by rewrite He3, He2).
  assert (queues s3 = queues s ∧ running s3 = running s) as [Hq3 Hrun3] by (by rewrite He3, He2).
  clear Hm1 Hm2 He2 He3 Hkv3 Hw1 Hr Hq1 Hrun1.
  apply ok_bind, ok_zoom. eapply ok_mono; [apply (allocate_law (kv s3) (sr_req r) n local (Some blocks)); [apply Hm3|apply Hl|lia|lia|lia|done]|].
  cbn. rewrite Hid. intros [b|] k' [Hk' Hres].
  - destruct Hres as (Hkept & _ & Hcov). apply ok_bind, ok_zoom. cbn [queues put_kv]. rewrite Hq3.
    destruct (mi_queues _ _ _ _ _ _ Hm) as [Hgw Hgk].
    eapply ok_mono; [by apply (pop_head_ok (queues s) w rid l)|]. intros y qs' (-> & Hgw' & Hgk' & Hperm & Hstep).
    assert (waiting_ids s3 ≡ₚ rid :: waiting_ids (put_queues qs' (put_kv k' s3))) as Hperm3 by (unfold waiting_ids; by rewrite Hq3).
    apply ok_bind. eapply ok_mono.
    { eapply (start_running_ok aside s3 (put_queues qs' (put_kv k' s3)) v rid r computed n inputs nb Hm3); try done; [lia|by rewrite Hrun3|].
      cbn. by rewrite Hcomp. }
    intros v' s' (Hm' & Hpre' & Hq'). apply ok_ret. cbn. split_and!; try done.
    + assert (waiting_ids s' = waiting_ids (put_queues qs' (put_kv k' s3))) as -> by (unfold waiting_ids; by rewrite Hq').
      assert (waiting_ids s = waiting_ids s3) as -> by (unfold waiting_ids; by rewrite Hq3). exact (Permutation_length Hperm3).
    + by rewrite Hq'.
  - assert (mid aside (put_kv k' s3) v) as Hm4 by (eapply mid_caches; try done; apply Hm3).
    apply ok_bind. destruct (has_encoder_inputs (sr_req r)).
    + eapply ok_mono; [apply (mid_encoder cfg s0 B aside (put_kv k' s3) v _ (λ _ _, True) Hm4)|].
      * eapply ok_mono; [apply enc_free_law; [apply Hm4|apply Hl]|]. cbn. tauto.
      * intros [] s' (_ & Hm' & He'). apply ok_ret. split; [done|]. by rewrite He'.
    + apply ok_ret, ok_ret. by split.
Qed.

(** ** The loop *)

(** The requests set aside wait in a queue of their own. *)
Definition second_phase aside (s : St) (v : StepVars) : Prop :=
  mid aside s v ∧ preempted_reqs v = [] ∧
  good (step_skipped_waiting (queues s)) ∧ content (step_skipped_waiting (queues s)) ≡ₚ aside.

Lemma set_aside_ok aside s v w rid l : second_phase aside s v → content (queue_of w (queues s)) = rid :: l →
  ok (on_queues (on_queue w pop_request)) s (λ _ s1, ok (on_queues (on_step_skipped (prepend_request rid))) s1 (λ _ s2,
    second_phase (rid :: aside) s2 v ∧ length (waiting_ids s) = S (length (waiting_ids s2)))).
Proof.
  intros (Hm & Hpre & Hg & Hc) Hhead. destruct (mi_queues _ _ _ _ _ _ Hm) as [Hgw Hgk].
  apply ok_zoom. eapply ok_mono; [by apply (pop_head_ok (queues s) w rid l)|]. intros _ qs (_ & Hgw1 & Hgk1 & Hp & Hstep).
  apply ok_zoom, ok_zoom. cbn [queues put_queues]. rewrite Hstep. eapply ok_mono; [by apply prepend_spec|].
  cbn. intros _ q' [Hg' Hc']. set (s2 := put_queues _ _).
  assert (waiting_ids s ≡ₚ rid :: waiting_ids s2) as Hp2 by exact Hp.
  split; [|by rewrite (Permutation_length Hp2)]. split_and!; try done.
  - apply (mid_requeue aside _ s); try done. rewrite Hp2. solve_Permutation.
  - cbn. rewrite Hc', replace_front_perm. by rewrite Hc.
Qed.

Lemma waiting_loop_ok fuel aside s v : second_phase aside s v → (length (waiting_ids s) ≤ fuel)%nat →
  ok (waiting_loop addr deref cfg fuel v) s (λ v' s', ∃ aside', second_phase aside' s' v').
Proof.
  revert aside s v. induction fuel as [|fuel IH]; intros aside s v Hs Hfuel; pose proof Hs as (Hm & Hpre & Hg & Hc);
    destruct (mi_queues _ _ _ _ _ _ Hm) as [Hgw Hgk]; cbn [waiting_loop]; apply ok_bind, ok_gets.
  { rewrite !bool_spec by done. unfold waiting_ids in Hfuel. rewrite length_app in Hfuel.
    destruct (content (waiting (queues s))), (content (skipped_waiting (queues s))); cbn in Hfuel; try lia. apply ok_ret. by exists aside. }
  destruct (queue_bool _ || _) eqn:Hq; [|apply ok_ret; by exists aside].
  destruct (Z.ltb_spec 0 (token_budget v)); [|apply ok_ret; by exists aside]. cbn [andb].
  apply ok_bind, ok_gets. destruct (Z.eqb_spec (len (running s)) (max_num_running_reqs cfg)) as [|Hne]; [apply ok_ret; by exists aside|].
  pose proof (mi_max _ _ _ _ _ _ Hm) as Hmax.
  apply ok_bind, ok_zoom. eapply ok_mono; [by apply select_ok|]. intros o qs (-> & w & rid & l & -> & Hhead). cbn [or_raise].
  assert (put_queues (queues s) s = s) as -> by (by destruct s).
  apply ok_bind, ok_ret, ok_bind, ok_zoom. eapply ok_eq; [eapply peek_ok; [|exact Hhead]; by destruct w|].
  assert (put_queues (queues s) s = s) as -> by (by destruct s).
  apply ok_bind. eapply ok_mono; [eapply (schedule_waiting_ok aside s v w rid l); try done; lia|].
  intros [| |v'] s' Hp; cbn in Hp.
  - destruct Hp as (Hm' & Hq' & Hrun'). apply ok_bind. eapply ok_mono.
    { eapply (set_aside_ok aside s' v w rid l); [|by rewrite Hq']. split; [done|]. by rewrite Hq'. }
    intros y s1 Hs1. apply ok_bind. eapply ok_mono; [exact Hs1|]. intros [] s2 [Hs2 Hlen]. apply (IH (rid :: aside)); [done|].
    unfold waiting_ids in Hlen at 1. rewrite Hq' in Hlen. unfold waiting_ids in Hfuel at 1. lia.
  - apply ok_ret. exists aside. destruct Hp as [Hm' Hq']. split; [done|]. by rewrite Hq'.
  - destruct Hp as (Hm' & Hpre' & Hlen & Hstep). apply (IH aside); [|lia]. split; [done|]. by rewrite Hstep.
Qed.

Lemma foldl_front_perm (l l' : list string) : foldl (flip (replace_front (Q := Q))) l' l ≡ₚ l ++ l'.
Proof.
  revert l'. induction l as [|x l IH]; intros l'; [done|]. cbn [foldl flip]. rewrite IH. unfold flip. rewrite replace_front_perm.
  cbn [app]. by rewrite Permutation_middle.
Qed.

Lemma waiting_phase_ok s v : mid [] s v → preempted_reqs v = [] →
  ok (waiting_phase addr deref cfg v) s (λ v' s', mid [] s' v' ∧ preempted_reqs v' = []).
Proof.
  intros Hm Hpre. unfold waiting_phase. pose proof (empty_spec (Q := Q)) as [Hge Hce].
  destruct (mi_queues _ _ _ _ _ _ Hm) as [Hgw Hgk].
  apply ok_bind, ok_modify. set (s1 := put_queues _ s).
  assert (second_phase [] s1 v) as Hs1.
  { split_and!; [|done|done|by cbn; rewrite Hce]. by apply (mid_requeue [] [] s). }
  apply ok_bind, ok_gets, ok_bind. eapply ok_mono.
  { apply (waiting_loop_ok _ [] s1 v Hs1). cbn [queues put_queues s1 waiting skipped_waiting]. rewrite !len_spec by done.
    unfold waiting_ids. cbn. rewrite length_app. unfold len. lia. }
  intros v' s2 (aside & Hm2 & Hpre2 & Hg2 & Hc2). destruct (mi_queues _ _ _ _ _ _ Hm2) as [Hgw2 Hgk2].
  apply ok_bind, ok_gets, ok_bind. rewrite bool_spec by done.
  destruct (bool_decide _) eqn:Hb.
  - apply ok_bind. rewrite iter_spec by done. apply ok_zoom, ok_zoom. eapply ok_mono; [by apply prepend_all_spec|].
    cbn. intros _ q' [Hg' Hc']. apply ok_ret. split; [|done]. apply (mid_requeue aside [] s2); try done.
    unfold waiting_ids. cbn. rewrite Hc', foldl_front_perm, Hc2, app_nil_r. solve_Permutation.
  - apply bool_decide_eq_false, dec_stable in Hb. apply ok_ret, ok_ret. split; [|done]. apply (mid_requeue aside [] s2); try done.
    rewrite Hb in Hc2. by rewrite <-Hc2.
Qed.

End phase.
End waiting_phase.
