(* ===== verification/ScheduleSafe.v ===== *)
(** * A scheduling step as a whole

    [schedule] returns from every state that satisfies the invariant, within the
    token budget and without losing a request, and leaves the invariant. *)

From stdpp Require Import gmap sets sorting.
From S2P Require Import Prelude Arith PowerSMC FreeQueue BlockHash Request BlockPool KVCacheSpec SingleType CacheHit Coordinator KVCacheManager EncoderCache EncoderProps SMCScheduler Heapq RequestQueue EncoderInputs SchedState Schedule SchedSpec ScheduleInv ScheduleMid ScheduleRunning ScheduleWaiting.
Open Scope Z_scope.

Section safe.
Context {A : Arith} {K C Q : Type} `{!KVCache K, !KVView K, !EncCache C, !EncView C, !RequestQueue string Q, !QueueSpec string Q}.
Context (addr : string → Z) (deref : string → Request) (cfg : SchedulerConfig).
Context `{!KVCacheLaws K (sc_max_model_len cfg) (num_lookahead_tokens cfg), !EncCacheLaws C (is_encoder_decoder cfg)}.
Abbreviation St := (SchedulerState K C Q).
Implicit Types (s : St) (v : StepVars) (k : K).

(** ** What a step reports *)

(** The requests the workers are told about and from which token on. *)
Definition sent (o : SchedulerOutput) : list (string * Z) :=
  ((λ d, (nr_req_id d, nr_num_computed_tokens d)) <$> out_new_reqs o) ++
  zip (cr_req_ids (out_cached_reqs o)) (cr_num_computed_tokens (out_cached_reqs o)).

Definition step_budget (s : St) : Z := if bool_decide (pause_state s = PAUSED_ALL) then 0 else max_num_scheduled_tokens cfg.

Record step_report (s : St) (o : SchedulerOutput) (s' : St) : Prop := {
  (** the tokens: positive, within the budget, from where the request is on *)
  sp_total : total_num_scheduled_tokens o = sum_tokens (out_num_scheduled_tokens o);
  sp_budget : sum_tokens (out_num_scheduled_tokens o) ≤ step_budget s;
  sp_positive : ∀ rid n, (rid, n) ∈ out_num_scheduled_tokens o → 0 < n;
  sp_sent : (sent o).*1 ≡ₚ (out_num_scheduled_tokens o).*1;
  sp_advance : ∀ rid c, (rid, c) ∈ sent o → ∃ r n, st_requests s' !! rid = Some r ∧
    (rid, n) ∈ out_num_scheduled_tokens o ∧ num_computed_tokens (sr_req r) = c + n ∧
    (rid ∈ running s → ∃ r0, st_requests s !! rid = Some r0 ∧ c = num_computed_tokens (sr_req r0));
  (** a running request that is not scheduled stays where it is *)
  sp_idle : ∀ rid r r', rid ∈ running s → rid ∈ running s' → rid ∉ (out_num_scheduled_tokens o).*1 →
    st_requests s !! rid = Some r → st_requests s' !! rid = Some r' → same_computed r r';
  (** the requests: none is lost or changed, only running ones are scheduled,
      and only preempted ones stop running *)
  sp_requests : all_ids s' ≡ₚ all_ids s;
  sp_known : dom (st_requests s') = dom (st_requests s);
  sp_unknown : ∀ rid, rid ∉ dom (st_requests s) → blank (kv s) rid → blank (kv s') rid;
  sp_text : ∀ rid r, st_requests s !! rid = Some r → ∃ r', st_requests s' !! rid = Some r' ∧ same_text r r';
  sp_scheduled : NoDup (out_num_scheduled_tokens o).*1 ∧ ∀ rid, rid ∈ (out_num_scheduled_tokens o).*1 → rid ∈ running s';
  sp_drafts : ∀ rid d, out_spec_decode_tokens o !! rid = Some d → rid ∈ (out_num_scheduled_tokens o).*1;
  sp_left : ∀ rid, rid ∈ running s → rid ∈ running s' ∨ rid ∈ preempted_req_ids o;
  sp_preempted : ∀ rid, rid ∈ preempted_req_ids o → rid ∈ running s ∧ rid ∈ waiting_ids s' ∧
    ∃ r, st_requests s' !! rid = Some r ∧ status (sr_req r) = PREEMPTED ∧ num_computed_tokens (sr_req r) = 0;
  (** nothing starts in a step that preempts or while the scheduler is paused *)
  sp_started : pause_state s ≠ UNPAUSED ∨ preempted_req_ids o ≠ ∅ → ∀ rid, rid ∈ running s' → rid ∈ running s;
  (** the finished requests are reported once *)
  sp_finished : out_finished_req_ids o = finished_req_ids s ∧ finished_req_ids s' = ∅;
  sp_prev : prev_step_scheduled_req_ids s' = list_to_set (out_num_scheduled_tokens o).*1
}.

(** The draft tokens of a synchronous step may still be rejected; an
    asynchronous step has output placeholders for them. *)
Definition open_drafts (o : SchedulerOutput) : gmap string (list Z) :=
  if async_scheduling cfg then ∅ else out_spec_decode_tokens o.

Section phase.
Context (s0 : St) (B : Z) (Hnd : NoDup (all_ids s0)).
Abbreviation mid := (mid (K := K) (C := C) (Q := Q) cfg s0 B []).

Lemma mid_known_step s v rid : mid s v → rid ∈ step_ids v → ∃ r, st_requests s !! rid = Some r.
Proof. intros Hm Hr. destruct (mi_running _ _ _ _ _ _ Hm rid) as (r & ? & _); [by apply Hm|by exists r]. Qed.

(** ** LoRAs *)

Lemma running_loras_ok s rids : (∀ rid, rid ∈ rids → ∃ r, st_requests s !! rid = Some r) →
  ok (running_loras rids) s (λ X s', s' = s ∧ ∀ i, i ∈ X → 0 < i ∧
    ∃ rid r, rid ∈ rids ∧ st_requests s !! rid = Some r ∧ lora_of (sr_req r) = Some i).
Proof.
  intros Hr. unfold running_loras. apply ok_bind.
  eapply ok_mono with (P := λ l s', s' = s ∧ ∀ i, Some i ∈ l → ∃ rid r, rid ∈ rids ∧ st_requests s !! rid = Some r ∧ lora_of (sr_req r) = Some i).
  - induction rids as [|rid rids IH]; [apply ok_ret; split; [done|]; by intros i ?%elem_of_nil|]. cbn [map_each].
    destruct (Hr rid ltac:(left)) as [r Hrid]. apply ok_bind, ok_bind, (ok_get_req _ _ _ _ Hrid), ok_ret, ok_bind.
    eapply ok_mono; [apply IH; intros; apply Hr; by right|]. intros l s' [-> Hl]. apply ok_ret. split; [done|].
    intros i [Hi|Hi]%elem_of_cons; [exists rid, r; split_and!; [left|done|done]|].
    destruct (Hl i Hi) as (rid' & r' & ? & ?). exists rid', r'. split; [by right|done].
  - intros l s' [-> Hl]. apply ok_ret. split; [done|]. intros i. rewrite elem_of_list_to_set, list_elem_of_filter, list_elem_of_omap.
    intros [Hi (o & Ho & Hoi)]. cbn in Hoi. subst o. split; [done|by apply Hl].
Qed.

(** The LoRAs of the scheduled requests are among those of the running ones. *)
Lemma scheduled_loras_fit s v n (L : gset Z) : mid s v → first_phase v → loras_fit cfg s0 → max_loras cfg = Some n →
  (∀ i, i ∈ L → 0 < i ∧ ∃ rid r, rid ∈ scheduled_running_reqs v ∧ st_requests s !! rid = Some r ∧ lora_of (sr_req r) = Some i) →
  Z.of_nat (size L) ≤ n.
Proof.
  intros Hm Hf Hfit Hn HL. unfold loras_fit in Hfit. rewrite Hn in Hfit. destruct Hfit as (X & HX & Hfit).
  assert (L ⊆ X) as HLX; [|pose proof (subseteq_size _ _ HLX); lia]. intros i Hi.
  destruct (HL i Hi) as (H0 & rid & r & Hrid & Hr & Hlora).
  destruct (mi_from _ _ _ _ _ _ Hm rid) as [Hn0|(Hrun & r0 & r' & Hr0 & Hr' & _)].
  - apply Hm. by rewrite (first_phase_ids cfg s0 B s v Hm Hf).
  - destruct Hf as [Hf1 Hf2]. rewrite Hf1, Hf2 in Hn0. by apply elem_of_nil in Hn0.
  - destruct (mi_same _ _ _ _ _ _ Hm rid r0 Hr0) as (r1 & Hr1 & Ht). rewrite Hr in Hr1. injection Hr1 as <-.
    apply (Hfit rid r0 i Hrun Hr0); [|done]. unfold lora_of in *. unfold same_text, text_of in Ht. congruence.
Qed.

Lemma record_scheduled_loras_ends s v : mid s v → first_phase v →
  ends (record_scheduled_loras cfg v) s
    (λ v' s', mid s' v' ∧ first_phase v' ∧ preempted_reqs v' = preempted_reqs v ∧ s' = s)
    (λ e _, e = AssertionError ∧ ¬ loras_fit cfg s0).
Proof.
  intros Hm Hf. unfold record_scheduled_loras. destruct (max_loras cfg) as [n|] eqn:Hn; [|done].
  assert (∀ rid, rid ∈ scheduled_running_reqs v → rid ∈ step_ids v) as Hsub
    by (intros rid; by rewrite (first_phase_ids cfg s0 B s v Hm Hf)).
  apply ends_bind, ok_ends. eapply ok_mono; [apply running_loras_ok; intros rid Hr; apply (mid_known_step s v rid Hm); by apply Hsub|].
  intros L s' [-> HL]. destruct (Z.of_nat (size L) <=? n) eqn:Hle; cbn.
  - split; [by apply mid_loras|]. done.
  - split; [done|]. intros Hfit. apply Z.leb_gt in Hle. pose proof (scheduled_loras_fit s v n L Hm Hf Hfit Hn HL). lia.
Qed.

(** ** The constraints *)

Lemma check_constraints_ok s v : mid s v → B ≤ max_num_scheduled_tokens cfg → ok (check_constraints cfg v) s (λ _ s', s' = s).
Proof.
  intros Hm HB. destruct (mi_budget _ _ _ _ _ _ Hm) as [Hsum H0]. unfold check_constraints.
  apply ok_bind, ok_assert; [apply Z.leb_le; lia|]. apply ok_bind, ok_assert; [by apply Z.leb_le|].
  apply ok_bind, ok_gets, ok_bind, ok_assert; [apply Z.leb_le, Hm|]. apply ok_assert; [|done]. apply Z.leb_le.
  pose proof (len_perm _ _ (mi_ids _ _ _ _ _ _ Hm)) as Hl. rewrite !len_app in Hl.
  assert (step_ids v ⊆+ running s) as Hs by (apply NoDup_submseteq; [apply Hm|apply Hm]).
  apply submseteq_length in Hs. unfold len in *. lia.
Qed.
(** ** The output *)

Definition computed_of (s : St) (rid : string) : Z := default 0 ((λ r, num_computed_tokens (sr_req r)) <$> st_requests s !! rid).
Definition starts (s : St) (rids : list string) : list (string * Z) := (λ rid, (rid, computed_of s rid)) <$> rids.

(** Only the KV cache changes. *)
Definition kv_only s s' : Prop := s' = put_kv (kv s') s.
Lemma kv_only_trans s1 s2 s3 : kv_only s1 s2 → kv_only s2 s3 → kv_only s1 s3.
Proof. unfold kv_only. intros H1 H2. rewrite H2 at 1. rewrite H1. done. Qed.
Lemma kv_only_refl s : kv_only s s.
Proof. by destruct s. Qed.
Lemma kv_only_requests s s' : kv_only s s' → st_requests s' = st_requests s.
Proof. by intros ->. Qed.
Lemma kv_only_computed s s' : kv_only s s' → computed_of s' = computed_of s.
Proof. by intros ->. Qed.

Lemma mid_kv s v {X} (m : M K X) (P : X → Prop) : mid s v →
  ok m (kv s) (λ x k', P x ∧ kv_ok k' ∧ kept (kv s) k') → ok (on_cache m) s (λ x s', P x ∧ mid s' v ∧ kv_only s s').
Proof. intros Hm Hok. by apply (mid_cache cfg s0 B [] s v m (λ x _, P x) Hm). Qed.

Lemma block_ids_of_ok s v allow rid : mid s v → rid ∈ step_ids v →
  ok (block_ids_of allow v rid) s (λ _ s', mid s' v ∧ kv_only s s').
Proof.
  intros Hm Hr. destruct (mi_blocks _ _ _ _ _ _ Hm rid Hr) as (b & Hb & Hread). unfold block_ids_of.
  apply ok_bind, (ok_or_raise _ _ _ _ _ Hb). eapply ok_mono; [apply (mid_kv s v _ (λ _, True) Hm)|by intros x s' (_ & ? & ?)].
  eapply ok_mono; [by apply block_ids_law; [apply Hm|]|]. cbn. tauto.
Qed.

Lemma new_request_data_ok s v rid : mid s v → rid ∈ step_ids v →
  ok (new_request_data cfg v rid) s (λ d s', mid s' v ∧ kv_only s s' ∧ (nr_req_id d, nr_num_computed_tokens d) = (rid, computed_of s rid)).
Proof.
  intros Hm Hr. destruct (mid_known_step s v rid Hm Hr) as [r Hrid]. unfold new_request_data.
  apply ok_bind, (ok_get_req _ _ _ _ Hrid), ok_bind. eapply ok_mono; [by apply block_ids_of_ok|].
  intros ids s' [Hm' Hk]. apply ok_ret. split; [done|]. split; [done|]. cbn. unfold computed_of. by rewrite Hrid.
Qed.

Lemma new_data_ok rids s v : mid s v → (∀ rid, rid ∈ rids → rid ∈ step_ids v) →
  ok (map_each (new_request_data cfg v) rids) s (λ l s', mid s' v ∧ kv_only s s' ∧
    (λ d, (nr_req_id d, nr_num_computed_tokens d)) <$> l = starts s rids).
Proof.
  revert s. induction rids as [|rid rids IH]; intros s Hm Hsub; cbn [map_each].
  { apply ok_ret. split; [done|]. split; [apply kv_only_refl|done]. }
  apply ok_bind. eapply ok_mono; [apply new_request_data_ok; [done|apply Hsub; left]|]. intros d s1 (Hm1 & Hk1 & Hd).
  apply ok_bind. eapply ok_mono; [apply IH; [done|intros; apply Hsub; by right]|]. intros l s2 (Hm2 & Hk2 & Hl).
  apply ok_ret. split; [done|]. split; [by apply kv_only_trans with s1|]. cbn [fmap list_fmap]. unfold starts in *. cbn [fmap list_fmap].
  rewrite Hd, Hl. by rewrite (kv_only_computed _ _ Hk1).
Qed.

Lemma cached_request_data_ok s v running_reqs acc rid : mid s v → rid ∈ step_ids v →
  (len running_reqs ≤ len (cr_req_ids acc) → rid ∈ scheduled_resumed_reqs v) →
  ok (cached_request_data cfg v running_reqs acc rid) s (λ acc' s', mid s' v ∧ kv_only s s' ∧
    cr_req_ids acc' = cr_req_ids acc ++ [rid] ∧ cr_num_computed_tokens acc' = cr_num_computed_tokens acc ++ [computed_of s rid]).
Proof.
  intros Hm Hr Hres. destruct (mid_known_step s v rid Hm Hr) as [r Hrid]. unfold cached_request_data.
  apply ok_bind, (ok_get_req _ _ _ _ Hrid), ok_bind, ok_gets, ok_bind.
  eapply ok_mono with (P := λ _ s', s' = s).
  { destruct (_ && _); [|by apply ok_ret]. destruct (od_lookup_Some _ _ Hr) as [n Hn].
    apply ok_bind, (ok_or_raise _ _ _ _ _ Hn). by apply ok_ret. }
  intros toks s' ->. apply ok_bind. eapply ok_mono with (P := λ _ s', s' = s).
  { destruct (Z.leb_spec (len running_reqs) (len (cr_req_ids acc))) as [Hle|]; [|by apply ok_ret]. apply ok_assert; [|done].
    apply negb_true_iff, bool_decide_eq_false. by apply (mi_resumed _ _ _ _ _ _ Hm), Hres. }
  intros _ s' ->. apply ok_bind. eapply ok_mono; [by apply block_ids_of_ok|]. intros ids s' [Hm' Hk]. apply ok_ret.
  split; [done|]. split; [done|]. split; [done|]. cbn. unfold computed_of. by rewrite Hrid.
Qed.

Lemma cached_data_ok rids s v running_reqs acc : mid s v → (∀ rid, rid ∈ rids → rid ∈ step_ids v) →
  (∀ i rid, rids !! i = Some rid → len running_reqs ≤ len (cr_req_ids acc) + Z.of_nat i → rid ∈ scheduled_resumed_reqs v) →
  ok (fold_each (cached_request_data cfg v running_reqs) rids acc) s (λ acc' s', mid s' v ∧ kv_only s s' ∧
    cr_req_ids acc' = cr_req_ids acc ++ rids ∧ cr_num_computed_tokens acc' = cr_num_computed_tokens acc ++ (computed_of s <$> rids)).
Proof.
  revert s acc. induction rids as [|rid rids IH]; intros s acc Hm Hsub Hres; cbn [fold_each].
  { apply ok_ret. split; [done|]. split; [apply kv_only_refl|]. by rewrite !app_nil_r. }
  apply ok_bind. eapply ok_mono.
  { apply cached_request_data_ok; [done|apply Hsub; left|]. intros Hle. apply (Hres 0%nat); [done|lia]. }
  intros acc1 s1 (Hm1 & Hk1 & Hi1 & Hc1). eapply ok_mono.
  { apply (IH s1 acc1); [done|intros; apply Hsub; by right|]. intros i x Hx Hle. apply (Hres (S i) x Hx).
    rewrite Hi1, len_app, len_cons, len_nil in Hle. lia. }
  intros acc2 s2 (Hm2 & Hk2 & Hi2 & Hc2). split; [done|]. split; [by apply kv_only_trans with s1|].
  rewrite Hi2, Hc2, Hi1, Hc1, (kv_only_computed _ _ Hk1), <-!app_assoc. done.
Qed.

Lemma make_cached_ok s v resumed : mid s v → resumed = [] ∨ resumed = scheduled_resumed_reqs v →
  ok (make_cached_request_data cfg v (scheduled_running_reqs v) resumed) s (λ d s', mid s' v ∧ kv_only s s' ∧
    zip (cr_req_ids d) (cr_num_computed_tokens d) = starts s (scheduled_running_reqs v ++ resumed)).
Proof.
  intros Hm Hres. unfold make_cached_request_data. eapply ok_mono; [apply cached_data_ok; [done| |]|].
  - intros rid Hrid. rewrite (mi_ids _ _ _ _ _ _ Hm). rewrite !elem_of_app in *.
    destruct Hres as [->| ->]; [|tauto]. destruct Hrid as [?|[]%elem_of_nil]. tauto.
  - intros i rid Hi Hle. cbn in Hle. rewrite lookup_app_r in Hi by (unfold len in Hle; cbn in Hle; lia).
    apply list_elem_of_lookup_2 in Hi. destruct Hres as [->| ->]; [by apply elem_of_nil in Hi|done].
  - cbn. intros d s' (Hm' & Hk & Hi & Hc). split; [done|]. split; [done|]. rewrite Hi, Hc. unfold starts.
    generalize (scheduled_running_reqs v ++ resumed). intros l. induction l as [|x l IH]; [done|]. cbn. by rewrite IH.
Qed.

Definition new_sent v : list string := if use_v2_model_runner cfg then scheduled_new_reqs v ++ scheduled_resumed_reqs v else scheduled_new_reqs v.
Definition cached_sent v : list string := scheduled_running_reqs v ++ (if use_v2_model_runner cfg then [] else scheduled_resumed_reqs v).
Lemma all_sent s v : mid s v → new_sent v ++ cached_sent v ≡ₚ step_ids v.
Proof.
  intros Hm. rewrite (mi_ids _ _ _ _ _ _ Hm). unfold new_sent, cached_sent. destruct (use_v2_model_runner cfg); solve_Permutation.
Qed.

Lemma common_prefix_ok s v : mid s v →
  ok (match running s with
      | [] => ret (replicate (sc_num_groups cfg) 0)
      | any_request_id :: _ => on_cache (kvc_get_num_common_prefix_blocks any_request_id)
      end) s (λ _ s', mid s' v ∧ kv_only s s').
Proof.
  intros Hm. destruct (running s) as [|rid rs] eqn:Hrs; [apply ok_ret; split; [done|apply kv_only_refl]|].
  destruct (mi_running _ _ _ _ _ _ Hm rid) as (r & _ & Hi); [rewrite Hrs; left|].
  assert (∃ n, covers (kv s) rid n) as [n Hc] by (unfold in_step in Hi; destruct (od_lookup _ _); [by destruct Hi as (_&_&_&_&?&_); eexists|by destruct Hi; eexists]).
  eapply ok_mono; [apply (mid_kv s v _ (λ _, True) Hm)|by intros x s' (_ & ? & ?)].
  eapply ok_mono; [by apply (common_law _ _ n); [apply Hm|]|]. cbn. tauto.
Qed.

Lemma zeroed_ok s v : mid s v →
  ok (if needs_kv_cache_zeroing cfg then
        let* ids := on_cache kvc_take_new_block_ids in ret (match ids with [] => None | _ => Some ids end)
      else ret None) s (λ _ s', mid s' v ∧ kv_only s s').
Proof.
  intros Hm. destruct (needs_kv_cache_zeroing cfg); [|apply ok_ret; split; [done|apply kv_only_refl]].
  apply ok_bind. eapply ok_mono; [apply (mid_kv s v _ (λ _, True) Hm)|intros x s' (_ & ? & ?); by apply ok_ret].
  eapply ok_mono; [by apply take_ids_law, Hm|]. cbn. tauto.
Qed.

Lemma freed_ok s v : mid s v → ok (on_encoder ec_get_freed_mm_hashes) s (λ _ s', mid s' v ∧ s' = put_enc (enc s') s).
Proof.
  intros Hm. eapply ok_mono; [apply (mid_encoder cfg s0 B [] s v _ (λ _ _, True) Hm)|by intros x s' (_ & ? & ?)].
  eapply ok_mono; [by apply freed_law, Hm|]. done.
Qed.

(** Recording the scheduled ids commutes with the calls that follow. *)
Lemma ok_put_prev {X} (m : M St X) P ids s :
  (∀ s, m (put_prev_step_scheduled_req_ids ids s) = let '(r, s') := m s in (r, put_prev_step_scheduled_req_ids ids s')) →
  ok m s P → ok m (put_prev_step_scheduled_req_ids ids s) (λ x s', ∃ s1, s' = put_prev_step_scheduled_req_ids ids s1 ∧ P x s1).
Proof. unfold ok. intros Hc. rewrite Hc. destruct (m s) as [[x|e] s1]; [|done]. intros HP. by exists s1. Qed.

Lemma make_output_ok s v : mid s v →
  ok (make_output cfg v) s (λ o s', ∃ s1, s' = put_prev_step_scheduled_req_ids (list_to_set (step_ids v)) s1 ∧ mid s1 v ∧
    st_requests s1 = st_requests s ∧
    out_num_scheduled_tokens o = num_scheduled_tokens v ∧ total_num_scheduled_tokens o = sum_tokens (num_scheduled_tokens v) ∧
    out_spec_decode_tokens o = scheduled_spec_decode_tokens v ∧ preempted_req_ids o = list_to_set (preempted_reqs v) ∧
    out_finished_req_ids o = finished_req_ids s0 ∧ sent o = starts s (new_sent v ++ cached_sent v)).
Proof.
  intros Hm. set (ids := list_to_set (step_ids v) : gset string). unfold make_output. cbv zeta.
  apply ok_bind, ok_gets, ok_bind. eapply ok_mono; [by apply common_prefix_ok|]. intros common s1 [Hm1 Hk1].
  fold (new_sent v). apply ok_bind. eapply ok_mono.
  { apply (new_data_ok (new_sent v) s1 v Hm1). intros rid Hr. rewrite <-(all_sent s v Hm). apply elem_of_app. by left. }
  intros news s2 (Hm2 & Hk2 & Hnews). apply ok_bind. eapply ok_mono.
  { apply make_cached_ok; [exact Hm2|]. destruct (use_v2_model_runner cfg); [by left|by right]. }
  intros cached s3 (Hm3 & Hk3 & Hcached). apply ok_bind, ok_modify, ok_bind.
  change (list_to_set (num_scheduled_tokens v).*1) with ids.
  eapply ok_mono; [apply ok_put_prev; [|exact (zeroed_ok s3 v Hm3)]|].
  { clear. intros s. destruct (needs_kv_cache_zeroing cfg); [|done]. unfold on_cache, zoom, bind. cbn.
    by destruct (kvc_take_new_block_ids (kv s)) as [[x|e] k]. }
  intros zero s' (s4 & -> & Hm4 & Hk4). apply ok_bind, ok_gets, ok_bind.
  eapply ok_mono; [apply ok_put_prev; [|exact (freed_ok s4 v Hm4)]|].
  { clear. intros s. unfold on_encoder, zoom. cbn. by destruct (ec_get_freed_mm_hashes (enc s)) as [x c]. }
  intros freed s' (s5 & -> & Hm5 & He5). apply ok_ret. exists s5. split; [done|]. split; [done|].
  assert (kv_only s s4) as Hk by (eapply kv_only_trans; [|exact Hk4]; eapply kv_only_trans; [|exact Hk3]; by apply kv_only_trans with s1).
  split; [rewrite He5; by rewrite Hk|]. cbn. split_and!; try done.
  - pose proof (mi_rest _ _ _ _ _ _ Hm4) as Hr. unfold rest in Hr. congruence.
  - unfold sent. cbn. rewrite Hnews, Hcached. unfold starts, cached_sent.
    rewrite (kv_only_computed _ _ Hk2), (kv_only_computed _ _ Hk1). by rewrite !fmap_app.
Qed.

(** ** The computed tokens advance *)

Lemma fold_requests_ok (f : bool → string * Z → M St bool) (g : string → Z → SRequest → SRequest) (I : St → Prop) l b s :
  (∀ b rid n s r, I s → st_requests s !! rid = Some r →
    ok (f b (rid, n)) s (λ _ s', ∃ fl, s' = put_st_requests (<[rid := g rid n r]> (st_requests s)) (put_in_flight fl s))) →
  (∀ m fl s, I s → I (put_st_requests m (put_in_flight fl s))) →
  I s → NoDup l.*1 → (∀ rid, rid ∈ l.*1 → is_Some (st_requests s !! rid)) →
  ok (fold_each f l b) s (λ _ s', ∃ m fl, s' = put_st_requests m (put_in_flight fl s) ∧
    ∀ rid, m !! rid = match od_lookup rid l with Some n => g rid n <$> st_requests s !! rid | None => st_requests s !! rid end).
Proof.
  intros Hf HI. revert b s. induction l as [|[rid n] l IH]; intros b s Hs Hn Hin; cbn [fold_each].
  { apply ok_ret. exists (st_requests s), (in_flight s). split; [by destruct s|done]. }
  cbn [fmap list_fmap fst] in Hn, Hin. apply NoDup_cons in Hn as [Hr Hn]. destruct (Hin rid ltac:(left)) as [r Hrid].
  apply ok_bind. eapply ok_mono; [by apply Hf|]. intros b' s1 (fl & ->). eapply ok_mono.
  { apply IH; [by apply HI|done|]. intros x Hx. cbn. rewrite lookup_insert_ne by congruence. apply Hin. by right. }
  intros b2 s2 (m & fl2 & -> & Hm). exists m, fl2. split; [done|]. intros x. rewrite Hm. cbn.
  destruct (decide (x = rid)) as [->|Hne].
  - rewrite (od_lookup_none rid l) by done. by rewrite lookup_insert_eq, Hrid.
  - by rewrite lookup_insert_ne.
Qed.

Definition advanced (n : Z) (r : SRequest) : SRequest :=
  let computed := num_computed_tokens (sr_req r) + n in
  put_is_prefill_chunk (computed <? num_tokens (sr_req r) + num_output_placeholders r)
    (on_req (put_num_computed_tokens computed) r).
Definition advanced_async (spec : gmap string (list Z)) (step : Z) (rid : string) (r : SRequest) : SRequest :=
  if is_prefill_chunk r then r
  else
    let r := on_req (put_spec_token_ids (replicate (Z.to_nat (num_spec_tokens cfg)) (-1)))
      (put_num_output_placeholders (num_output_placeholders r + (1 + len (default [] (spec !! rid)))) r) in
    if use_v2_model_runner cfg then put_next_decode_eligible_step (step + pp_size cfg) r else r.
Definition after_step (spec : gmap string (list Z)) (step : Z) (rid : string) (n : Z) (r : SRequest) : SRequest :=
  if async_scheduling cfg then advanced_async spec step rid (advanced n r) else advanced n r.

Lemma advance_scheduled_ok b rid n s r : st_requests s !! rid = Some r →
  ok (advance_scheduled b (rid, n)) s (λ _ s', ∃ fl, s' = put_st_requests (<[rid := advanced n r]> (st_requests s)) (put_in_flight fl s)).
Proof.
  intros Hr. unfold advance_scheduled. apply ok_bind, (ok_get_req _ _ _ _ Hr), ok_bind, ok_modify, ok_bind.
  rewrite (alter_insert_eq _ _ _ _ Hr). destruct (_ <? _) eqn:Hc.
  - apply ok_ret, ok_ret. exists (in_flight s). unfold advanced. rewrite Hc. by destruct s.
  - apply ok_modify, ok_ret. eexists. unfold advanced. by rewrite Hc.
Qed.

Lemma advance_async_ok spec step b rid n s r : current_step s = step → st_requests s !! rid = Some r →
  ok (advance_async cfg spec b (rid, n)) s (λ _ s', ∃ fl,
    s' = put_st_requests (<[rid := advanced_async spec step rid r]> (st_requests s)) (put_in_flight fl s)).
Proof.
  intros Hst Hr. unfold advance_async. apply ok_bind, (ok_get_req _ _ _ _ Hr). unfold advanced_async.
  destruct (is_prefill_chunk r).
  { apply ok_ret. exists (in_flight s). rewrite insert_id by done. by destruct s. }
  apply ok_bind, ok_gets, ok_bind, ok_modify, ok_bind. rewrite (alter_insert_eq _ _ _ _ Hr). rewrite Hst.
  destruct (use_v2_model_runner cfg).
  - apply ok_modify, ok_ret. exists (in_flight s). cbn [st_requests put_st_requests].
    erewrite alter_insert_eq by apply lookup_insert_eq. rewrite insert_insert_eq. by destruct s.
  - apply ok_ret, ok_ret. exists (in_flight s). by destruct s.
Qed.

Lemma update_after_schedule_ok o s : NoDup (out_num_scheduled_tokens o).*1 →
  (∀ rid, rid ∈ (out_num_scheduled_tokens o).*1 → is_Some (st_requests s !! rid)) →
  ok (update_after_schedule cfg o) s (λ o' s', ∃ m fl h p,
    o' = set_structured h p o ∧ s' = put_finished_req_ids ∅ (put_st_requests m (put_in_flight fl s)) ∧
    ∀ rid, m !! rid = match od_lookup rid (out_num_scheduled_tokens o) with
      | Some n => after_step (out_spec_decode_tokens o) (current_step s) rid n <$> st_requests s !! rid
      | None => st_requests s !! rid end).
Proof.
  intros Hn Hin. unfold update_after_schedule, after_step. apply ok_bind. eapply ok_mono.
  { apply (fold_requests_ok advance_scheduled (λ _, advanced) (λ _, True)); try done. intros. by apply advance_scheduled_ok. }
  intros h s1 (m1 & fl1 & -> & Hm1). apply ok_bind, ok_modify, ok_bind. destruct (async_scheduling cfg).
  - eapply ok_mono.
    { apply (fold_requests_ok (advance_async cfg (out_spec_decode_tokens o)) (λ rid _, advanced_async (out_spec_decode_tokens o) (current_step s) rid)
        (λ s', current_step s' = current_step s)); try done; [intros; by apply advance_async_ok|].
      intros rid Hr. cbn. rewrite Hm1. destruct (od_lookup_Some _ _ Hr) as [n ->]. destruct (Hin rid Hr) as [r ->]. by eexists. }
    intros p s2 (m2 & fl2 & -> & Hm2). apply ok_ret. exists m2, fl2, h, p. split; [done|]. split; [done|]. intros rid. rewrite Hm2. cbn. rewrite Hm1.
    destruct (od_lookup rid (out_num_scheduled_tokens o)); [|done]. by destruct (st_requests s !! rid).
  - apply ok_ret, ok_ret. exists m1, fl1, h, (pending_structured_output_tokens o). split; [done|]. split; [done|]. done.
Qed.

Lemma live_after_step spec step rid n r : live cfg rid r → live cfg rid (after_step spec step rid n r).
Proof.
  intros [Hid Hs He Ht [Hp Hsync] Hst]. unfold after_step, advanced_async.
  assert (0 ≤ len (default [] (spec !! rid))) as Hl by apply len_nonneg.
  destruct (async_scheduling cfg) eqn:Ha; [destruct (is_prefill_chunk (advanced n r)); [|destruct (use_v2_model_runner cfg)]|];
    (split; [done|by eapply suits_same; [.. |exact Hs]|by eapply enc_suits_same; [.. |exact He]|done|by rewrite Ha; cbn; (split; [lia|])|done]).
Qed.

Lemma running_after_step o k v step rid n r : out_spec_decode_tokens o = scheduled_spec_decode_tokens v →
  od_lookup rid (num_scheduled_tokens v) = Some n → 0 < n → in_step cfg k v rid r →
  running_ok cfg (open_drafts o) k rid (after_step (scheduled_spec_decode_tokens v) step rid n r).
Proof.
  intros Hspec Hn Hpos Hi. unfold in_step in Hi. rewrite Hn in Hi. destruct Hi as (Hl & Hst & H0 & Hlt & Hc & Hle & Hend).
  assert (0 ≤ len (default [] (scheduled_spec_decode_tokens v !! rid))) as Hd by apply len_nonneg.
  assert (num_computed_tokens (sr_req (after_step (scheduled_spec_decode_tokens v) step rid n r)) = num_computed_tokens (sr_req r) + n ∧
    status (sr_req (after_step (scheduled_spec_decode_tokens v) step rid n r)) = RUNNING) as [Hcomp Hst'].
  { unfold after_step, advanced_async. destruct (async_scheduling cfg); [|done]. destruct (is_prefill_chunk _); [done|]. by destruct (use_v2_model_runner cfg). }
  split; rewrite ?Hcomp; try done; [by apply live_after_step|lia| |].
  - unfold horizon, open_drafts, num_tokens in *. rewrite Hspec.
    unfold after_step, advanced_async. destruct (async_scheduling cfg); [|exact Hle].
    rewrite lookup_empty. change (len (default [] None)) with 0. destruct (is_prefill_chunk (advanced n r)) eqn:Hch.
    + unfold advanced in Hch. cbn in Hch. apply Z.ltb_lt in Hch. unfold num_tokens in Hch. cbn. lia.
    + destruct (use_v2_model_runner cfg); cbn; lia.
  - unfold drafts_end, open_drafts in *. rewrite Hspec. unfold after_step. destruct (async_scheduling cfg); [|exact Hend].
    intros d. by rewrite lookup_empty.
Qed.

(** ** The end of a step *)

(** The state after [update_after_schedule], from [s1] on. *)
Definition settled (m : gmap string SRequest) (fl : gset string) (ids : gset string) (s1 : St) : St :=
  put_finished_req_ids ∅ (put_st_requests m (put_in_flight fl (put_prev_step_scheduled_req_ids ids s1))).

Section finish.
Context (s1 : St) (v : StepVars) (o : SchedulerOutput) (m : gmap string SRequest) (fl : gset string).
Context (Hm : mid s1 v) (Hspec : out_spec_decode_tokens o = scheduled_spec_decode_tokens v).
Context (Hmap : ∀ rid, m !! rid = match od_lookup rid (num_scheduled_tokens v) with
  | Some n => after_step (scheduled_spec_decode_tokens v) (current_step s1) rid n <$> st_requests s1 !! rid
  | None => st_requests s1 !! rid end).
Abbreviation s' := (settled m fl (list_to_set (step_ids v)) s1).

Lemma waiting_not_scheduled rid : rid ∈ waiting_ids s1 → od_lookup rid (num_scheduled_tokens v) = None.
Proof.
  intros Hw. apply od_lookup_none. intros Hs. apply (mid_running_waiting cfg s0 B Hnd [] s1 v rid Hm); [by apply Hm|].
  by rewrite app_nil_r.
Qed.

Lemma inv_after_step : sched_inv cfg (open_drafts o) s'.
Proof.
  split; try apply Hm.
  - pose proof (mid_disjoint cfg s0 B Hnd _ _ _ Hm) as Hd. by rewrite app_nil_r in Hd.
  - intros rid Hr. destruct (mi_running _ _ _ _ _ _ Hm rid Hr) as (r & Hrid & Hi). cbn. rewrite Hmap.
    destruct (od_lookup rid (num_scheduled_tokens v)) as [n|] eqn:Hn; rewrite Hrid; cbn.
    + eexists. split; [done|]. apply running_after_step with (v := v); try done.
      apply (mi_positive _ _ _ _ _ _ Hm rid). apply od_lookup_elem; [apply Hm|done].
    + exists r. split; [done|]. unfold in_step in Hi. rewrite Hn in Hi. destruct Hi as [? ? ? Hh ? ?]. split; try done.
      * unfold horizon in *. rewrite lookup_empty in Hh. change (len (default [] None)) with 0 in Hh.
        pose proof (len_nonneg (default [] (open_drafts o !! rid))). lia.
      * intros d Hd. unfold open_drafts in Hd. destruct (async_scheduling cfg); [by rewrite lookup_empty in Hd|].
        rewrite Hspec in Hd. apply (mi_drafts _ _ _ _ _ _ Hm), od_lookup_Some in Hd as [n' Hn']. congruence.
  - intros rid Hr. change (waiting_ids s') with (waiting_ids s1) in Hr.
    destruct (mi_waiting _ _ _ _ _ _ Hm rid) as (r & Hrid & Hi & _); [by rewrite app_nil_r|]. cbn. rewrite Hmap, (waiting_not_scheduled rid Hr).
    exists r. split; [done|]. split; [done|]. intros _ Hp%elem_of_list_to_set.
    destruct (od_lookup_Some _ _ Hp) as [n Hn]. by rewrite (waiting_not_scheduled rid Hr) in Hn.
Qed.

Lemma report_after_step s :
  running s = running s0 → st_requests s = st_requests s0 → kv s = kv s0 → waiting_ids s = waiting_ids s0 → finished_req_ids s = finished_req_ids s0 →
  step_budget s = B → (pause_state s ≠ UNPAUSED ∨ preempted_reqs v ≠ [] → first_phase v) →
  out_num_scheduled_tokens o = num_scheduled_tokens v → total_num_scheduled_tokens o = sum_tokens (num_scheduled_tokens v) →
  preempted_req_ids o = list_to_set (preempted_reqs v) → out_finished_req_ids o = finished_req_ids s0 →
  sent o = starts s1 (new_sent v ++ cached_sent v) → step_report s o s'.
Proof.
  intros Hrun Hreq Hkv Hwait Hfin HB Hphase Hnum Htot Hpre Hout Hsent.
  assert ((sent o).*1 ≡ₚ step_ids v) as Hids.
  { rewrite Hsent, <-(all_sent s1 v Hm). unfold starts. rewrite <-list_fmap_compose. by rewrite list_fmap_id. }
  split; rewrite ?Hnum, ?Hpre; try done.
  - rewrite HB. destruct (mi_budget _ _ _ _ _ _ Hm). lia.
  - apply Hm.
  - intros rid c Hc. assert (rid ∈ step_ids v) as Hs by (rewrite <-Hids; apply list_elem_of_fmap; by exists (rid, c)).
    assert (c = computed_of s1 rid) as -> by (rewrite Hsent in Hc; apply list_elem_of_fmap in Hc as (x & [= -> ->] & _); done).
    destruct (mid_known_step s1 v rid Hm Hs) as [r Hr]. destruct (od_lookup_Some _ _ Hs) as [n Hn].
    assert (computed_of s1 rid = num_computed_tokens (sr_req r)) as Hcomp by (unfold computed_of; by rewrite Hr).
    exists (after_step (scheduled_spec_decode_tokens v) (current_step s1) rid n r), n. cbn. rewrite Hmap, Hn, Hr. split; [done|].
    split; [by apply od_lookup_elem; [apply Hm|]|]. split.
    { rewrite Hcomp. unfold after_step, advanced_async. destruct (async_scheduling cfg); [|done]. destruct (is_prefill_chunk _); [done|]. by destruct (use_v2_model_runner cfg). }
    rewrite Hrun, Hreq, Hcomp. intros Hr0. destruct (mi_from _ _ _ _ _ _ Hm rid) as [Hn0|(_ & r0 & r1 & H0 & H1 & Hs1)]; [by apply Hm| |].
    + by destruct (mi_new _ _ _ _ _ _ Hm rid Hn0).
    + exists r0. split; [done|]. rewrite Hr in H1. by injection H1 as <-.
  - intros rid r r' Hr0 Hr1 Hns Hr Hr'. rewrite Hrun in Hr0. rewrite Hreq in Hr.
    destruct (mi_from _ _ _ _ _ _ Hm rid Hr1) as [Hn0|(_ & r0 & r1 & H0 & H1 & Hs1)]; [by destruct (mi_new _ _ _ _ _ _ Hm rid Hn0)|].
    cbn in Hr'. rewrite Hmap, (od_lookup_none _ _ Hns), H1 in Hr'. rewrite H0 in Hr. by injection Hr' as <-; injection Hr as <-.
  - pose proof (mi_total _ _ _ _ _ _ Hm) as Ht. rewrite app_nil_r in Ht. unfold all_ids. rewrite Hrun, Hwait. exact Ht.
  - rewrite Hreq, <-(mi_dom _ _ _ _ _ _ Hm). apply set_eq. intros rid. cbn. rewrite !elem_of_dom, Hmap.
    destruct (od_lookup rid (num_scheduled_tokens v)); [|done]. by rewrite fmap_is_Some.
  - rewrite Hreq, Hkv. apply (mi_unknown _ _ _ _ _ _ Hm).
  - intros rid r Hr. rewrite Hreq in Hr. destruct (mi_same _ _ _ _ _ _ Hm rid r Hr) as (r1 & Hr1 & Ht). cbn. rewrite Hmap, Hr1.
    destruct (od_lookup rid (num_scheduled_tokens v)) as [n|]; cbn; [|by eexists]. eexists. split; [done|].
    unfold after_step, advanced_async. destruct (async_scheduling cfg); [|done]. destruct (is_prefill_chunk _); [done|]. by destruct (use_v2_model_runner cfg).
  - split; [apply Hm|]. intros rid Hr. by apply Hm.
  - rewrite Hspec. apply Hm.
  - intros rid Hr. rewrite Hrun in Hr. rewrite elem_of_list_to_set. by apply (mi_left _ _ _ _ _ _ Hm).
  - intros rid. rewrite elem_of_list_to_set. intros Hr. destruct (mi_preempted _ _ _ _ _ _ Hm rid Hr) as (H0 & Hw & r & Hr1 & ?).
    rewrite app_nil_r in Hw. split; [by rewrite Hrun|]. split; [exact Hw|]. exists r. cbn. by rewrite Hmap, waiting_not_scheduled.
  - intros Hp rid Hr. rewrite Hrun. destruct Hphase as [H1 H2]; [destruct Hp as [?|Hp]; [by left|right; by intros He; apply Hp; rewrite He]|].
    destruct (mi_from _ _ _ _ _ _ Hm rid Hr) as [Hn0|[? _]]; [|done]. rewrite H1, H2 in Hn0. by apply elem_of_nil in Hn0.
  - by rewrite Hfin.
Qed.
End finish.

End phase.
(** ** The step *)

Lemma mid_start s k' e : sched_inv cfg ∅ s → 0 ≤ step_budget s → kv_ok k' → kept (kv s) k' →
  ScheduleInv.mid cfg s (step_budget s) [] (put_kv k' s) (step_start (step_budget s) e).
Proof.
  intros [H1 H2 H3 H4 H5 H6 H7] HB Hk Hkept. split; try done.
  - intros rid _. apply (Hkept rid (λ f, f)).
  - intros rid r Hr. by exists r.
  - by rewrite app_nil_r.
  - intros rid Hr. destruct (H5 rid Hr) as (r & Hrid & Hi). exists r. split; [done|].
    by apply (running_ok_kept _ _ _ _ _ _ _ Hkept (λ f, f)).
  - intros rid Hr. rewrite app_nil_r in Hr. destruct (H6 rid Hr) as (r & Hrid & Hi & Hp). exists r. split; [done|].
    split; [by apply (waiting_ok_kept _ _ _ _ _ _ Hkept (λ f, f))|]. intros Hst. right. by apply Hp.
  - by intros rid n ?%elem_of_nil.
  - by intros rid ?%elem_of_nil.
  - constructor.
  - by intros rid ?%elem_of_nil.
  - intros rid Hr. right. split; [done|]. destruct (H5 rid Hr) as (r & Hrid & _). by exists r, r.
  - intros rid Hr. by left.
  - by intros rid ?%elem_of_nil.
  - by intros rid ?%elem_of_nil.
  - by intros rid ?%elem_of_nil.
Qed.

Context (Hmamba : need_mamba_block_aligned_split cfg = true → 0 < sc_block_size cfg) (Htokens : 0 ≤ max_num_scheduled_tokens cfg).

Lemma step_budget_range s : 0 ≤ step_budget s ≤ max_num_scheduled_tokens cfg.
Proof. unfold step_budget. destruct (bool_decide _); lia. Qed.

Lemma schedule_ends s : sched_inv cfg ∅ s →
  ends (schedule addr deref cfg) s (λ o s', sched_inv cfg (open_drafts o) s' ∧ step_report s o s')
    (λ e _, e = AssertionError ∧ ¬ loras_fit cfg s).
Proof.
  intros Hinv. unfold schedule. apply ends_bind, ok_ends, ok_modify. set (s0 := put_current_step _ s).
  assert (sched_inv cfg ∅ s0) as Hinv0 by (destruct Hinv; by split).
  pose proof (step_budget_range s0) as HB. pose proof (si_nodup _ _ _ Hinv0) as Hnd. pose proof (si_kv _ _ _ Hinv0) as Hk0.
  apply ends_bind, ok_ends, ok_gets. cbv zeta. change (if bool_decide (pause_state s0 = PAUSED_ALL) then 0 else _) with (step_budget s0).
  apply ends_bind, ok_ends, ok_zoom. eapply ok_mono; [by apply step_law|]. intros _ k1 [Hk1 Hkept].
  pose proof (mid_start s0 k1 (max_num_encoder_input_tokens cfg) Hinv0 (proj1 HB) Hk1 Hkept) as Hm1.
  apply ends_bind, ok_ends, ok_gets, ends_bind, ok_ends. eapply ok_mono.
  { eapply (running_loop_ok cfg s0 (step_budget s0) Hnd Hmamba _ _ _ 0 Hm1); [done|split_and!; try done; by intros y _ ?%elem_of_nil|].
    unfold len. lia. }
  intros v2 s2 [Hm2 Hf2]. apply ends_bind. eapply ends_mono; [by apply (record_scheduled_loras_ends s0 (step_budget s0))|].
  intros v3 s3 (Hm3 & Hf3 & Hpre & ->). apply ok_ends.
  apply ok_bind. eapply ok_mono with (P := λ v4 s4, ScheduleInv.mid cfg s0 (step_budget s0) [] s4 v4 ∧
    (pause_state s ≠ UNPAUSED ∨ preempted_reqs v4 ≠ [] → first_phase v4)).
  { destruct (decide (preempted_reqs v3 = [])) as [Hp|Hp], (decide (pause_state s0 = UNPAUSED)) as [Hu|Hu].
    - rewrite !bool_decide_eq_true_2 by done. cbn [andb]. eapply ok_mono; [by apply (waiting_phase_ok addr deref cfg s0 (step_budget s0))|].
      intros v4 s4 [Hm4 Hp4]. split; [done|]. by intros [?|?].
    - rewrite (bool_decide_eq_false_2 (pause_state s0 = UNPAUSED)) by done. rewrite andb_false_r. by apply ok_ret.
    - rewrite bool_decide_eq_false_2 by done. by apply ok_ret.
    - rewrite bool_decide_eq_false_2 by done. by apply ok_ret. }
  intros v4 s4 [Hm4 Hphase]. apply ok_bind. eapply ok_mono; [by apply (check_constraints_ok s0 (step_budget s0)); [|lia]|]. intros _ s' ->.
  apply ok_bind. eapply ok_mono; [by apply (make_output_ok s0 (step_budget s0))|].
  intros o s5 (s6 & -> & Hm6 & Hreq6 & Hnum & Htot & Hspec & Hpreo & Hout & Hsent).
  eapply ok_mono.
  { apply update_after_schedule_ok; rewrite Hnum; [apply Hm6|]. intros rid Hr. cbn.
    destruct (mid_known_step s0 (step_budget s0) s6 v4 rid Hm6 Hr) as [r ->]. by eexists. }
  intros o' s7 (m & fl & h & p & -> & -> & Hmap). rewrite Hnum, Hspec in Hmap.
  assert (starts s6 (new_sent v4 ++ cached_sent v4) = starts s4 (new_sent v4 ++ cached_sent v4)) as Hst
    by (unfold starts, computed_of; by rewrite Hreq6).
  split; [by apply (inv_after_step s0 (step_budget s0) Hnd s6 v4 o m fl)|].
  eapply (report_after_step s0 (step_budget s0) Hnd s6 v4 (set_structured h p o) m fl); try done. by rewrite Hst.
Qed.

Corollary schedule_ok s : sched_inv cfg ∅ s → loras_fit cfg s →
  ok (schedule addr deref cfg) s (λ o s', sched_inv cfg (open_drafts o) s' ∧ step_report s o s').
Proof. intros Hinv Hfit. eapply ends_ok; [by apply schedule_ends|]. by intros e s' [_ []]. Qed.

End safe.
