(* ===== verification/ScheduleProps.v ===== *)
(** * A scheduling step of the engine

    The scheduler with the modelled KV-cache manager and encoder cache:
    [schedule] returns from every state of the invariant and reports what it
    did; a first step from the start is evaluated. *)

From stdpp Require Import gmap sets sorting.
From S2P Require Import Prelude Arith PowerSMC FreeQueue BlockHash Request BlockPool KVCacheSpec SingleType SingleTypeProps CacheHit CacheHitProps HitSpec Coordinator CacheLookup KVCacheManager KVReach KVInvariant EncoderCache EncoderProps EncoderSafety SMCScheduler Heapq RequestQueue EncoderInputs SchedState Schedule SchedSpec KVLaws EncLaws ScheduleInv ScheduleMid ScheduleSafe.
Open Scope Z_scope.

Section step.
Context `{HashEnv} {A : Arith} {Q : Type} `{!RequestQueue string Q, !QueueSpec string Q}.
Context (sz num_inputs : string → Z) (set_order : gset Z → list Z) (caching : bool) (hbs nblocks : Z).
Context (cfg : SchedulerConfig).
#[local] Instance step_enc : EncCache EncoderCacheManager := encoder_cache set_order.
#[local] Instance step_enc_view : EncView EncoderCacheManager := enc_view sz num_inputs.
#[local] Instance step_kv_view : KVView KVCacheManager := kv_view caching hbs nblocks (sc_max_model_len cfg).

(** C2: One step of the scheduler of a decoder over the KV-cache manager (groups
    without Mamba and cross attention) and the encoder cache, for any queue and
    policy, prefix caching on or off, chunked prefill,
    speculative decoding, LoRA, asynchronous scheduling and paused states.  From
    every state of the invariant [schedule] returns, with one exception: if the
    running requests use more LoRAs than [max_loras], it may fail with the
    AssertionError of the check on their number; no other assertion and no index,
    key or value error is reached in the scheduler or in what it calls.  When it
    returns it has kept the invariant, and its report holds: the tokens are positive, within the budget
    and start where each request is, a running request without tokens stays
    where it is; every scheduled request runs and has blocks
    for its tokens; a running request stops running only by preemption, which
    queues it again from its first token; nothing starts in a step that
    preempts; no request is lost, duplicated or changed in its tokens. *)
Theorem schedule_safe addr deref (s : SchedulerState KVCacheManager EncoderCacheManager Q) :
  (∀ h, 0 ≤ sz h) → (∀ x, set_order x ≡ₚ elements x) → 0 ≤ num_lookahead_tokens cfg →
  is_encoder_decoder cfg = false → (need_mamba_block_aligned_split cfg = true → 0 < sc_block_size cfg) →
  0 ≤ max_num_scheduled_tokens cfg → sched_inv cfg ∅ s →
  match schedule addr deref cfg s with
  | (Ok o, s') => sched_inv cfg (open_drafts cfg o) s' ∧ step_report cfg s o s'
  | (Err e, _) => e = AssertionError ∧ ¬ loras_fit cfg s
  end.
Proof.
  intros Hsz Hord Hla Hed Hmamba Htokens Hinv.
  pose proof (kv_laws caching hbs nblocks (sc_max_model_len cfg) (num_lookahead_tokens cfg) Hla) as Hkv.
  assert (EncCacheLaws EncoderCacheManager (is_encoder_decoder cfg)) as Henc by (rewrite Hed; by apply enc_laws).
  by apply (schedule_ends addr deref cfg Hmamba Htokens).
Qed.
End step.

(** ** A first step *)

Section demo.
Let env : HashEnv := injective_env.
Existing Instance env.
Let arith : Arith := exact_reals.
Existing Instance arith.

Definition step_config : SchedulerConfig :=
  MkSchedConfig 4 16 0 64 0 true false FCFS false 0 false 4 false true None false false false false 2 4 [4; 4] 0 1.


(** A request with ten prompt tokens waits; nothing runs. *)
Definition waiting_request : SRequest := MkSRequest ten_tokens 0 0 false None None None 0 false false 0 true.
Definition first_state : SchedulerState KVCacheManager EncoderCacheManager (FCFSRequestQueue string) :=
  MkState {["r"%string := waiting_request]} [] (MkWaiting ["r"%string] [] []) demo_kv (EncoderCacheManager_init 16)
    ∅ ∅ ∅ 0 UNPAUSED ∅ None ∅ 0%nat.

Lemma demo_group_ok p spec g c : hash_block_size p = 4 → spec_block_size spec = 4 → searchable c spec false 4 →
  0 ≤ g < 2 → sg_ok p 2 4 (MkSpecGroup spec [g] c false).
Proof.
  intros Hp Hs Hc Hg. split; cbn [sg_spec sg_group_ids sg_manager_cls sg_use_eagle]; rewrite ?Hs; [|done| | |done].
  - split; [split; [done|apply Forall_singleton; lia]|]. by rewrite Hp.
  - by apply NoDup_singleton.
  - by intros g' ->%list_elem_of_singleton.
Qed.

Lemma demo_kv_shape : kv_shape true 4 12 64 demo_kv.
Proof.
  split; [done|by split|by split|by split| |].
  - intros m Hm. cbn in Hm.
    apply elem_of_cons in Hm as [->|Hm]; [|apply list_elem_of_singleton in Hm as ->]; by split_and!.
  - intros _. split; [done|]. split; [done|]. split; [done|]. split; [constructor; [by apply demo_group_ok|constructor; [by apply demo_group_ok|constructor]]|].
    split; [|split; [by intros [|[|i]] sg Hsg; simplify_eq/=|split; [done|]]].
    + by apply (bool_decide_unpack (NoDup [0; 1])).
    + intros [|[|i]] m Hm; simplify_eq/=; (split; [done|]); eexists.
      * split; [by left|]. split; [by left|done].
      * split; [by right; left|]. split; [by left|done].
Qed.

Lemma demo_waiting_ok (k := demo_kv) :
  waiting_ok (KVView0 := kv_view true 4 12 64) (EncView0 := enc_view (λ _, 0) (λ _, 0)) step_config k "r" waiting_request.
Proof.
  split.
  - split; [done| | |done|done|done].
    + intros _. split; [done|]. split; [by apply (bool_decide_unpack (NoDup [[1; 2]; [3; 4]]))|]. exists 2%nat.
      intros x Hx. apply elem_of_cons in Hx as [->|Hx]; [done|]. by apply list_elem_of_singleton in Hx as ->.
    + split; [split; [done|by intros f ?%elem_of_nil]|]. split; [split; by intros i j x y Hx|by intros f ?%elem_of_nil].
  - by left.
  - left. split; [done|]. intros m Hm. cbn in Hm.
    apply elem_of_cons in Hm as [->|Hm]; [|apply list_elem_of_singleton in Hm as ->]; done.
Qed.

Lemma first_state_inv :
  sched_inv (KVView0 := kv_view true 4 12 64) (EncView0 := enc_view (λ _, 0) (λ _, 0)) step_config ∅ first_state.
Proof.
  split.
  - split; [exact demo_kv_shape|]. exists (range 1 12), ∅. exact demo_kv_rep.
  - by apply (init_inv (λ _, 0) (λ _, 0) 16).
  - done.
  - by apply NoDup_singleton.
  - by intros rid ?%elem_of_nil.
  - intros rid Hr. cbn in Hr. apply list_elem_of_singleton in Hr as ->. exists waiting_request.
    split; [done|]. split; [exact demo_waiting_ok|done].
  - done.
Qed.

Lemma schedule_safe_witness :
  match schedule (EncCache0 := encoder_cache elements) (λ _, 0) (λ _, ten_tokens) step_config first_state with
  | (Ok o, s') => sched_inv (KVView0 := kv_view true 4 12 64) (EncView0 := enc_view (λ _, 0) (λ _, 0)) step_config
      (open_drafts step_config o) s' ∧ step_report (KVView0 := kv_view true 4 12 64) step_config first_state o s'
  | (Err e, _) => e = AssertionError ∧ ¬ loras_fit step_config first_state
  end.
Proof.
  apply (schedule_safe (λ _, 0) (λ _, 0) elements true 4 12 step_config); try done.
  exact first_state_inv.
Defined.

End demo.
