(* ===== verification/UpdateProps.v ===== *)
(** * The requests of the engine between and within its steps

    The invariant of the engine, which is that of a scheduling step together
    with what every request brings along, and what [free_request] and the tokens
    of one request ([take_tokens]) do to it. *)

From stdpp Require Import gmap sets sorting.
From S2P Require Import Prelude Arith PowerSMC FreeQueue BlockHash Request HashChain BlockPool KVCacheSpec SingleType SingleTypeProps CacheHit Coordinator KVCacheManager KVReach EncoderCache EncoderProps StopCheck StopProps SMCScheduler SMCParent Heapq RequestQueue EncoderInputs SchedState Schedule SchedUpdate SchedSpec KVLaws EncLaws ScheduleInv ScheduleMid ScheduleRunning ScheduleSafe.
Open Scope Z_scope.

Section hashes.
Context `{HashEnv} `{!CollisionFree} (hash_len : nat) (Hlen : ∀ x, length (caching_hash_fn x) = hash_len).
Context (caching : bool) (hbs : Z) (Hhbs : caching = true → 0 < hbs).

(** With prefix caching a request carries the hashes of its full blocks, and has
    no multimodal inputs; without it nothing is hashed. *)
Definition hashing (r : Request) : Prop :=
  if caching then hashed hbs r ∧ mm_features r = [] else block_hasher r = None.

Lemma hashing_append r t : hashing r → ∃ r' m hs, append_output_token_ids [t] r = (Ok tt, r') ∧ hashing r' ∧
  r' = set_hashes hs (set_embed_memo m (with_output r [t])).
Proof.
  unfold hashing. destruct caching eqn:Hc; intros Hr.
  - destruct Hr as [Hh Hm]. destruct (append_output_ok hbs r [t] (Hhbs eq_refl) Hh) as (r' & Hrun & _ & _ & _ & _ & Hh' & m & Hr').
    { intros _. rewrite Hm. constructor. }
    exists r', m, (Request.block_hashes r'). split; [done|]. split; [|done]. split; [done|]. by rewrite Hr'.
  - exists (with_output r [t]), (prompt_embeds_per_block_hashes r), (Request.block_hashes r). split; [|split; [done|by destruct r]].
    unfold append_output_token_ids, update_block_hashes, bind, modify, gets. cbn. by rewrite Hr.
Qed.

Lemma hashed_distinct r : hashed hbs r → distinct_hashes (Request.block_hashes r).
Proof.
  intros (_ & _ & _ & ->). split.
  - apply NoDup_alt. intros i j h Hi Hj. by destruct (hash_chain_inj _ _ _ _ _ Hi Hj).
  - exists hash_len. intros x Hx. apply list_elem_of_lookup in Hx as [i Hi].
    destruct (hash_chain_lookup _ _ _ _ Hi) as (c & _ & ->). apply Hlen.
Qed.

Lemma hashing_suits nblocks mml r : hashing r → suits (KVView := kv_view caching hbs nblocks mml) r.
Proof.
  cbn. unfold hashing. intros Hr Hc. rewrite Hc in Hr. destruct Hr as [Hh _]. split; [|by apply hashed_distinct].
  destruct Hh as (_ & _ & _ & ->). unfold len. rewrite length_hash_chain. unfold full_blocks. rewrite length_fmap.
  unfold range. rewrite length_seqZ. lia.
Qed.
End hashes.

(** ** The invariant *)

Section engine.
Context `{HashEnv} `{!CollisionFree} {A : Arith} {Q : Type} `{!RequestQueue string Q, !QueueSpec string Q}.
Context (hash_len : nat) (Hlen : ∀ x, length (caching_hash_fn x) = hash_len).
Context (sz num_inputs : string → Z) (set_order : gset Z → list Z) (caching : bool) (hbs nblocks : Z) (cfg : SchedulerConfig).
Context (sz_nonneg : ∀ h, 0 ≤ sz h) (set_order_perm : ∀ x, set_order x ≡ₚ elements x) (Hhbs : caching = true → 0 < hbs).
#[local] Instance engine_enc : EncCache EncoderCacheManager := encoder_cache set_order.
#[local] Instance engine_enc_view : EncView EncoderCacheManager := enc_view sz num_inputs.
#[local] Instance engine_kv_view : KVView KVCacheManager := kv_view caching hbs nblocks (sc_max_model_len cfg).
Abbreviation St := (SchedulerState KVCacheManager EncoderCacheManager Q).
Abbreviation mml := (sc_max_model_len cfg).
Implicit Types (s : St) (drafts : gmap string (list Z)).

(** What a request brings along: it samples, and its minimal number of tokens
    fits into the model's length. *)
Record sound (r : SRequest) : Prop := {
  so_smc : power_smc_config r = None;
  so_params : pooling_params (sr_req r) = None ∧
    ∃ sp, sampling_params (sr_req r) = Some sp ∧ num_prompt_tokens (sr_req r) + sp_min_tokens sp ≤ mml;
  so_length : num_tokens (sr_req r) = num_prompt_tokens (sr_req r) + num_output_tokens (sr_req r);
  so_hashes : hashing caching hbs (sr_req r)
}.

Lemma sound_text r r' : same_text r r' → sound r → sound r'.
Proof.
  destruct r as [q], r' as [q']. destruct q, q'. unfold same_text, text_of. cbn. intros Ht. simplify_eq.
  intros [H1 H2 H3 H4]. split; [done..|]. unfold hashing in *. by destruct caching.
Qed.

(** [run] run and [wait] wait. *)
Record table_ok drafts (run wait : list string) s : Prop := {
  ta_kv : kv_ok (kv s);
  ta_enc : enc_ok (enc s);
  ta_nodup : NoDup (run ++ wait);
  ta_known : dom (st_requests s) = list_to_set (run ++ wait);
  ta_unknown : ∀ rid, rid ∉ run ++ wait → blank (kv s) rid;
  ta_running : ∀ rid, rid ∈ run → ∃ r, st_requests s !! rid = Some r ∧ running_ok cfg drafts (kv s) rid r;
  ta_waiting : ∀ rid, rid ∈ wait → ∃ r, st_requests s !! rid = Some r ∧ waiting_ok cfg (kv s) rid r ∧
    (status (sr_req r) = PREEMPTED → rid ∉ prev_step_scheduled_req_ids s);
  ta_sound : ∀ rid r, st_requests s !! rid = Some r → sound r
}.

Record engine_inv drafts s : Prop := {
  en_table : table_ok drafts (running s) (waiting_ids s) s;
  en_queues : good (waiting (queues s)) ∧ good (skipped_waiting (queues s));
  en_max : len (running s) ≤ max_num_running_reqs cfg
}.

Lemma engine_sched drafts s : engine_inv drafts s → sched_inv cfg drafts s.
Proof. intros [[] ? ?]. by split. Qed.

Lemma table_request drafts run wait s rid : table_ok drafts run wait s → rid ∈ run ++ wait → ∃ r, st_requests s !! rid = Some r.
Proof. intros Ht Hr. apply elem_of_dom. rewrite (ta_known _ _ _ _ Ht). by apply elem_of_list_to_set. Qed.
Lemma table_in drafts run wait s rid r : table_ok drafts run wait s → st_requests s !! rid = Some r → rid ∈ run ++ wait.
Proof. intros Ht Hr%elem_of_dom_2. rewrite (ta_known _ _ _ _ Ht) in Hr. by apply elem_of_list_to_set in Hr. Qed.
Lemma table_live drafts run wait s rid r : table_ok drafts run wait s → st_requests s !! rid = Some r →
  live cfg rid r ∧ is_finished (sr_req r) = false.
Proof.
  intros Ht Hr. pose proof (table_in _ _ _ _ _ _ Ht Hr) as Hin. apply elem_of_app in Hin as [Hin|Hin].
  - destruct (ta_running _ _ _ _ Ht rid Hin) as (r1 & Hr1 & [Hl Hst _ _ _ _]). rewrite Hr in Hr1. injection Hr1 as <-.
    split; [done|]. unfold is_finished. by rewrite Hst.
  - destruct (ta_waiting _ _ _ _ Ht rid Hin) as (r1 & Hr1 & [Hl Hst _] & _). rewrite Hr in Hr1. injection Hr1 as <-.
    split; [done|]. unfold is_finished. destruct Hst as [->|[->|[Hb _]]]; [done|done|]. by destruct (status (sr_req r)).
Qed.

(** A scheduling step keeps what requests bring along. *)
Lemma engine_after_step s o s' drafts :
  engine_inv ∅ s → sched_inv cfg drafts s' → step_report cfg s o s' → engine_inv drafts s'.
Proof.
  intros [Ht Hq Hmax] [H1 H2 H3 H4 H5 H6 H7] Hrep. split; [|done|done].
  assert (∀ rid, rid ∈ running s' ++ waiting_ids s' ↔ rid ∈ running s ++ waiting_ids s) as Hids
    by (intros rid; by rewrite (sp_requests _ _ _ _ Hrep)).
  split; try done.
  - rewrite (sp_known _ _ _ _ Hrep), (ta_known _ _ _ _ Ht). apply set_eq. intros rid. by rewrite !elem_of_list_to_set, Hids.
  - intros rid Hrid. rewrite Hids in Hrid. apply (sp_unknown _ _ _ _ Hrep); [|by apply Ht].
    by rewrite (ta_known _ _ _ _ Ht), elem_of_list_to_set.
  - intros rid r' Hr'. assert (rid ∈ dom (st_requests s)) as [r Hr]%elem_of_dom
      by (rewrite <-(sp_known _ _ _ _ Hrep); by apply elem_of_dom_2 in Hr').
    destruct (sp_text _ _ _ _ Hrep rid r Hr) as (r1 & Hr1 & Hsame). rewrite Hr' in Hr1. injection Hr1 as <-.
    eapply sound_text; [exact Hsame|]. by eapply ta_sound.
Qed.

(** ** A request is released *)

Lemma elem_filter_ne (rid x : string) (l : list string) : x ∈ filter (λ y, y ≠ rid) l ↔ x ≠ rid ∧ x ∈ l.
Proof. by rewrite list_elem_of_filter. Qed.

Lemma table_removed drafts run wait s s' rid : table_ok drafts run wait s →
  kv_ok (kv s') → kept_but (.= rid) (kv s) (kv s') → blank (kv s') rid → enc_ok (enc s') →
  st_requests s' = delete rid (st_requests s) → prev_step_scheduled_req_ids s' = prev_step_scheduled_req_ids s →
  table_ok drafts (filter (λ x, x ≠ rid) run) (filter (λ x, x ≠ rid) wait) s'.
Proof.
  intros Ht Hkv Hkept Hb He Hs Hprev.
  assert (∀ x, x ≠ rid → st_requests s' !! x = st_requests s !! x) as Hother by (intros; rewrite Hs; by rewrite lookup_delete_ne).
  split; try done.
  - rewrite <-filter_app. apply NoDup_filter, Ht.
  - rewrite Hs, dom_delete_L, (ta_known _ _ _ _ Ht). apply set_eq. intros x.
    rewrite elem_of_difference, elem_of_singleton, !elem_of_list_to_set, <-filter_app, elem_filter_ne. tauto.
  - intros x. rewrite <-filter_app, elem_filter_ne. intros Hx. destruct (decide (x = rid)) as [->|Hne]; [done|].
    apply (Hkept x Hne), Ht. tauto.
  - intros x [Hne Hx]%elem_filter_ne. destruct (ta_running _ _ _ _ Ht x Hx) as (r & Hr & Hok). exists r. rewrite Hother by done.
    split; [done|]. eapply running_ok_kept; [exact Hkept|done|done].
  - intros x [Hne Hx]%elem_filter_ne. destruct (ta_waiting _ _ _ _ Ht x Hx) as (r & Hr & Hok & Hp). exists r. rewrite Hother, Hprev by done.
    split; [done|]. split; [|done]. eapply waiting_ok_kept; [exact Hkept|done|done].
  - intros x r Hr. rewrite Hs in Hr. apply lookup_delete_Some in Hr as [_ Hr]. by apply (ta_sound _ _ _ _ Ht x).
Qed.

(** What [free_request] leaves alone. *)
Definition steady s s' : Prop :=
  running s' = running s ∧ queues s' = queues s ∧ pause_state s' = pause_state s ∧
  prev_step_scheduled_req_ids s' = prev_step_scheduled_req_ids s.
Lemma steady_trans s1 s2 s3 : steady s1 s2 → steady s2 s3 → steady s1 s3.
Proof. unfold steady. intros (?&?&?&?) (?&?&?&?). split_and!; congruence. Qed.
Lemma steady_refl s : steady s s.
Proof. done. Qed.

(** The blocks of a finished request go, and its entry. *)
Lemma release_blocks_ok s rid r' : kv_ok (kv s) → st_requests s !! rid = Some r' →
  is_finished (sr_req r') = true → Request.request_id (sr_req r') = rid →
  ok (on_smc cfg (free_blocks r')) s (λ _ s', kv_ok (kv s') ∧ kept_but (.= rid) (kv s) (kv s') ∧ blank (kv s') rid ∧
    enc s' = enc s ∧ st_requests s' = delete rid (st_requests s) ∧ steady s s').
Proof.
  intros [Hshape (l & h & Hrep)] Hr Hfin Hid. apply ok_zoom. unfold free_blocks.
  apply ok_bind, ok_assert; [done|]. apply ok_bind, ok_zoom. cbn [kv_cache_manager smc_get].
  eapply ok_mono; [by apply (free_kept caching hbs nblocks mml (kv s) l h)|]. rewrite Hid.
  intros _ k' (Hk & Hkept & Hblank). apply ok_bind. set (sm := set_kv k' _).
  eapply ok_mono with (P := λ _ sm', kv_cache_manager sm' = k' ∧ encoder_cache_manager sm' = enc s ∧ requests sm' = st_requests s).
  { destruct (power_smc_child_info r') as [[parent_id particle_idx]|]; [|by apply ok_ret].
    apply ok_bind, ok_gets. destruct (power_smc_group_children sm !! parent_id) as [children|]; [|by apply ok_ret].
    cbv zeta. apply ok_bind, ok_modify. destruct (bool_decide _); [|by apply ok_ret]. by apply ok_bind, ok_modify, ok_modify. }
  intros _ sm' (<- & Hse & Hsr). cbv zeta. apply ok_bind, ok_gets, ok_bind. rewrite Hsr.
  eapply ok_or_raise; [done|]. by apply ok_modify.
Qed.

(** [rid], which [r'] now stands for, is finished and goes. *)
Lemma free_request_ok drafts run wait s rid r r' : table_ok drafts run wait s → st_requests s !! rid = Some r →
  is_finished (sr_req r') = true → Request.request_id (sr_req r') = rid → mm_features (sr_req r') = mm_features (sr_req r) →
  ok (free_request set_order cfg rid false) (put_st_requests (<[rid := r']> (st_requests s)) s)
    (λ _ s', table_ok drafts (filter (λ x, x ≠ rid) run) (filter (λ x, x ≠ rid) wait) s' ∧ steady s s' ∧
      st_requests s' = delete rid (st_requests s)).
Proof.
  intros Ht Hr Hfin Hid Hmm. destruct (table_live _ _ _ _ _ _ Ht Hr) as [Hlive _]. pose proof (live_id _ _ _ Hlive) as Hid0.
  assert (fitting sz num_inputs (sr_req r')) as Hes.
  { pose proof (live_enc _ _ _ Hlive) as (Hfit & _). unfold fitting in *. rewrite Hmm, Hid. by rewrite Hid0 in Hfit. }
  unfold free_request. apply ok_bind. eapply ok_get_req; [apply lookup_insert_eq|].
  apply ok_bind, ok_assert; [done|]. apply ok_bind, ok_modify, ok_bind, ok_zoom. cbn [enc put_in_flight put_st_requests].
  eapply ok_mono; [apply (enc_free_ok sz num_inputs sz_nonneg set_order set_order_perm); [apply Ht|apply Hes]|].
  intros _ e' (He & _). apply ok_bind, ok_modify, ok_bind, ok_modify. set (s1 := put_finished_req_ids_dict _ _).
  eapply ok_mono; [by apply (release_blocks_ok s1 rid r'); [apply Ht|apply lookup_insert_eq|..]|].
  intros _ s' (Hk & Hkept & Hblank & Hse & Hsr & Hst). cbn in Hsr. rewrite delete_insert_eq in Hsr. split; [|by split].
  destruct Hst as (_ & _ & _ & Hprev). eapply table_removed; try done. by rewrite Hse.
Qed.
End engine.
