(* ===== verification/UpdateStep.v ===== *)
(** * Taking in the model's output

    [update_from_output] after a synchronous step: it returns, the requests that
    go on have the sampled tokens and keep the invariant, the others are gone. *)

From stdpp Require Import gmap sets sorting.
From S2P Require Import Prelude Arith PowerSMC FreeQueue BlockHash Request HashChain BlockPool KVCacheSpec SingleType SingleTypeProps CacheHit Coordinator KVCacheManager KVReach EncoderCache EncoderProps StopCheck StopProps SMCScheduler SMCParent Heapq RequestQueue EncoderInputs SchedState Schedule SchedUpdate SchedSpec KVLaws EncLaws ScheduleInv ScheduleMid ScheduleRunning ScheduleSafe UpdateProps.
Open Scope Z_scope.

(** ** What the model may return *)

(** The tokens sampled for the request at index [i] of the batch. *)
Definition sampled {A : Arith} (mo : ModelRunnerOutput) (i : Z) : option (list Z) :=
  match sampled_token_ids mo with [] => Some [] | toks => py_nth toks i end.

(** A request whose prompt is computed to the end gets a token and at most one
    for each of its draft tokens [d]; another one gets none. *)
Definition emits (r : Request) (d g : list Z) : Prop :=
  if num_computed_tokens r <? num_tokens r then g = [] else 1 ≤ len g ≤ 1 + len d.

(** [r'] is [r] with the tokens [g]; without any it is where it was. *)
Definition grown {A : Arith} (g : list Z) (r r' : SRequest) : Prop :=
  all_token_ids (sr_req r') = all_token_ids (sr_req r) ++ g ∧
  (g = [] → num_computed_tokens (sr_req r') = num_computed_tokens (sr_req r)).

(** A text model ran the step [o]. *)
Record model_ran {A : Arith} {K C Q} (o : SchedulerOutput) (mo : ModelRunnerOutput) (s : SchedulerState K C Q) : Prop := {
  mr_pooler : pooler_output mo = [];
  mr_emits : ∀ rid r, rid ∈ (out_num_scheduled_tokens o).*1 → st_requests s !! rid = Some r →
    ∃ i g, req_id_to_index mo !! rid = Some i ∧ sampled mo i = Some g ∧
      emits (sr_req r) (default [] (out_spec_decode_tokens o !! rid)) g
}.

Section update.
Context `{HashEnv} `{!CollisionFree} {A : Arith} {Q : Type} `{!RequestQueue string Q, !QueueSpec string Q}.
Context (hash_len : nat) (Hlen : ∀ x, length (caching_hash_fn x) = hash_len).
Context (sz num_inputs : string → Z) (set_order : gset Z → list Z) (caching : bool) (hbs nblocks : Z) (cfg : SchedulerConfig).
Context (sz_nonneg : ∀ h, 0 ≤ sz h) (set_order_perm : ∀ x, set_order x ≡ₚ elements x) (Hhbs : caching = true → 0 < hbs).
Context (seeded : Z → Rng) (entropy : nat → Rng) (should_advance : SRequest → bool) (accept_tokens : string → list Z → bool).
Context (Hsync : async_scheduling cfg = false).
#[local] Instance update_enc : EncCache EncoderCacheManager := encoder_cache set_order.
#[local] Instance update_enc_view : EncView EncoderCacheManager := enc_view sz num_inputs.
#[local] Instance update_kv_view : KVView KVCacheManager := kv_view caching hbs nblocks (sc_max_model_len cfg).
Abbreviation St := (SchedulerState KVCacheManager EncoderCacheManager Q).
Abbreviation mml := (sc_max_model_len cfg).
Abbreviation sound := (sound caching hbs cfg).
Implicit Types (s : St) (drafts : gmap string (list Z)).

(** ** The tokens of one request *)

(** [r'] is [r] with the tokens [g] and their hashes. *)
Definition took (g : list Z) (r r' : SRequest) : Prop :=
  ∃ m hs, r' = on_req (λ q, set_hashes hs (set_embed_memo m (with_output q g))) r.

Lemma with_request_eq {B} s rid r (m : M Request B) a q : st_requests s !! rid = Some r → m (sr_req r) = (Ok a, q) →
  with_request rid m s = (Ok a, put_st_requests (<[rid := put_sr_req q r]> (st_requests s)) s).
Proof.
  intros Hr Hm. unfold with_request. erewrite bind_eq by (by eapply get_req_eq). rewrite Hm.
  unfold update_req, modify, bind, of_res, ret. cbn. by rewrite (alter_insert_eq _ _ _ _ Hr).
Qed.

Lemma stop_none_short sp r g : g ≠ [] → num_tokens r = num_prompt_tokens r + num_output_tokens r →
  num_prompt_tokens r + sp_min_tokens sp ≤ mml → stop_cause mml sp (with_output r g) = None → num_tokens r + len g < mml.
Proof.
  intros Hne Hlr Hmin Hnone. destruct (decide (num_tokens r + len g < mml)) as [|Hge]; [done|exfalso].
  apply (cap_is_cause mml sp r g Hne); [lia|left; lia|done].
Qed.

Lemma took_sound g r r1 m hs : sound r → hashing caching hbs r1 → r1 = set_hashes hs (set_embed_memo m (with_output (sr_req r) g)) →
  sound (put_sr_req r1 r).
Proof.
  intros [H1 H2 H3 H4] Hh ->. split; try done. cbn. unfold num_tokens, num_output_tokens in *. cbn. rewrite !len_app. lia.
Qed.

Lemma take_tokens_ok s rid r g : st_requests s !! rid = Some r → sound r → status (sr_req r) = RUNNING →
  num_tokens (sr_req r) < mml →
  ok (take_tokens should_advance accept_tokens cfg rid g false) s (λ x s', ∃ r',
    s' = put_st_requests (<[rid := r']> (st_requests s)) s ∧ power_smc_config r' = None ∧
    (if x.2 : bool
     then is_finished (sr_req r') = true ∧ Request.request_id (sr_req r') = Request.request_id (sr_req r) ∧
          mm_features (sr_req r') = mm_features (sr_req r)
     else x.1 = g ∧ took g r r' ∧ sound r' ∧ num_tokens (sr_req r') < mml)).
Proof.
  intros Hr Hs Hst Hlt. destruct (so_params _ _ _ _ Hs) as [Hp (sp & Hsp & Hmin)]. unfold take_tokens.
  apply ok_bind, (ok_get_req _ _ _ _ Hr), ok_bind.
  eapply ok_mono with (P := λ x s', ∃ r', s' = put_st_requests (<[rid := r']> (st_requests s)) s ∧ power_smc_config r' = None ∧
    Request.request_id (sr_req r') = Request.request_id (sr_req r) ∧ mm_features (sr_req r') = mm_features (sr_req r) ∧
    (if x.2 : bool then is_finished (sr_req r') = true else x.1 = g ∧ took g r r' ∧ sound r' ∧ num_tokens (sr_req r') < mml)).
  { destruct g as [|t g]; [|remember (t :: g) as g' eqn:Hg].
    - rewrite andb_false_r. apply ok_ret. exists r. rewrite put_same_request by done. split; [done|]. split; [apply Hs|]. do 2 (split; [done|]). cbn [fst snd]. split; [done|]. split; [|done].
      exists (prompt_embeds_per_block_hashes (sr_req r)), (Request.block_hashes (sr_req r)). unfold on_req. rewrite with_output_nil. by destruct r.
    - unfold sched_update_request_with_output. rewrite Hsync.
      destruct (update_loop (hashing caching hbs) (hashing_append caching hbs Hhbs) mml sp (sr_req r) g' (so_hashes _ _ _ _ Hs) Hp Hsp)
        as (kept & stopped & r1 & r2 & m & hs & Hrun & _ & Hh & Hr1 & Hnone & Hres).
      eapply ok_eq; [by eapply with_request_eq|]. eexists. split; [done|]. split; [apply Hs|]. cbn [sr_req put_sr_req fst snd]. destruct stopped.
      + destruct Hres as (_ & st & sr & Hc & ->). rewrite Hr1. split; [done|]. split; [done|]. cbn.
        unfold is_finished. cbn. by eapply stop_cause_finished.
      + destruct Hres as [-> ->]. split; [by rewrite Hr1|]. split; [by rewrite Hr1|]. split; [done|].
        split; [exists m, hs; unfold on_req; by rewrite Hr1|]. split; [by eapply took_sound|].
        rewrite Hr1. unfold num_tokens. cbn. rewrite len_app. eapply (stop_none_short sp); try done; [by rewrite Hg|apply Hs|].
        apply Hnone; [done|by rewrite Hg|by left]. }
  intros [toks stopped] s' (r' & -> & Hsmc & Hid & Hmm & Hres). cbn [fst snd] in *. apply ok_bind. eapply ok_get_req; [apply lookup_insert_eq|].
  destruct (_ && _).
  - apply ok_bind, ok_modify, ok_ret. cbn [st_requests put_st_requests]. erewrite alter_insert_eq by apply lookup_insert_eq.
    rewrite insert_insert_eq. eexists. split; [done|]. split; [exact Hsmc|]. cbn. done.
  - apply ok_ret. exists r'. split; [done|]. split; [done|]. by destruct stopped.
Qed.

(** ** A request goes on *)

Definition after_rejection (d g : list Z) (r : SRequest) : SRequest :=
  if negb (bool_decide (d = [])) && negb (bool_decide (g = [])) then reject_tokens (len d - (len g - 1)) r else r.

(** Rejected drafts leave at most the tokens that are kept computed. *)
Lemma rejection_ok drafts k rid r g : running_ok cfg drafts k rid r → emits (sr_req r) (default [] (drafts !! rid)) g →
  ∃ c, after_rejection (default [] (drafts !! rid)) g r = on_req (put_num_computed_tokens c) r ∧
    0 ≤ c ≤ num_computed_tokens (sr_req r) ∧ c ≤ num_tokens (sr_req r) + len g.
Proof.
  intros [Hl _ [Hc _] Hh Hd _] He. destruct (live_placeholders _ _ _ Hl) as [_ Hp]. specialize (Hp Hsync).
  pose proof (live_tokens _ _ _ Hl) as [Hpos _]. unfold emits in He. unfold horizon in Hh. rewrite Hp in Hh.
  assert (r = on_req (put_num_computed_tokens (num_computed_tokens (sr_req r))) r) as Hid by (destruct r as [q]; by destruct q).
  unfold after_rejection. pose proof (len_nonneg g). destruct (Z.ltb_spec (num_computed_tokens (sr_req r)) (num_tokens (sr_req r))).
  { subst g. rewrite andb_false_r. eexists. split; [exact Hid|]. change (len (@nil Z)) with 0. lia. }
  destruct (drafts !! rid) as [d|] eqn:Hdr; [cbn [default] in *|].
  2: { eexists. split; [exact Hid|]. change (len (default [] None)) with 0 in *. lia. }
  specialize (Hd d Hdr). rewrite Hp in Hd. unfold id in *.
  rewrite (bool_decide_eq_false_2 (g = [])) by (intros ->; change (len (@nil Z)) with 0 in He; lia). rewrite andb_true_r.
  destruct (bool_decide (d = [])) eqn:Hdn; cbn [negb].
  - apply bool_decide_eq_true in Hdn as ->. change (len (@nil Z)) with 0 in *. eexists. split; [exact Hid|]. lia.
  - unfold reject_tokens. rewrite (proj2 (Z.ltb_lt 0 (num_computed_tokens (sr_req r)))) by lia.
    cbn [num_output_placeholders on_req put_sr_req]. rewrite Hp. cbn [Z.ltb Z.compare]. eexists. split; [done|]. lia.
Qed.

(** The model is done with the prompt once there is an output. *)
Definition reported (r : SRequest) : SRequest :=
  MkSRequest (sr_req r) (num_output_placeholders r) (async_tokens_to_discard r)
    (is_prefill_chunk r) (sr_seed r) (power_smc_config r) (power_smc_child_info r)
    (next_decode_eligible_step r) (use_structured_output r) (grammar_ready r) (client_index r) false.

Lemma goes_on_ok drafts k rid r g c r' : running_ok cfg drafts k rid r → 0 ≤ c ≤ num_computed_tokens (sr_req r) →
  c ≤ num_tokens (sr_req r) + len g → took g (on_req (put_num_computed_tokens c) r) r' → sound r' → num_tokens (sr_req r') < mml →
  running_ok cfg (delete rid drafts) k rid (if bool_decide (g = []) then r' else reported r').
Proof.
  intros [Hl Hst Hc Hh Hd Hcov] Hc0 Hcn (m & hs & ->) Hs Hlt.
  set (r' := on_req (λ q, set_hashes hs (set_embed_memo m (with_output q g))) (on_req (put_num_computed_tokens c) r)) in *.
  assert (num_tokens (sr_req r') = num_tokens (sr_req r) + len g) as Hn by (unfold num_tokens; cbn; apply len_app).
  pose proof (len_nonneg g). destruct Hl as [Hid Hsu Hes Ht Hp Hstat].
  assert (live cfg rid (if bool_decide (g = []) then r' else reported r')) as Hlive.
  { destruct (bool_decide (g = [])) eqn:Hg; split; try done; try lia.
    - apply (hashing_suits hash_len Hlen). apply Hs.
    - intros Hps. specialize (Hstat Hps). apply bool_decide_eq_true in Hg as ->. rewrite Hn, len_nil, Z.add_0_r. exact Hstat.
    - apply (hashing_suits hash_len Hlen). apply Hs.
    - change (num_tokens (sr_req (reported r'))) with (num_tokens (sr_req r')). lia. }
  assert (∀ b : bool, num_computed_tokens (sr_req (if b then r' else reported r')) = c) as Hcomp by (by intros []).
  split; rewrite ?Hcomp; [done| | | | |].
  - by destruct (bool_decide _).
  - lia.
  - assert (horizon (delete rid drafts) rid (if bool_decide (g = []) then r' else reported r') = num_tokens (sr_req r') + num_output_placeholders r) as ->.
    { unfold horizon. rewrite lookup_delete_eq. change (len (default [] None)) with 0. destruct (bool_decide _); cbn; lia. }
    pose proof (proj1 Hp). lia.
  - intros d. by rewrite lookup_delete_eq.
  - intros m0 Hm0. specialize (Hcov m0 Hm0). lia.
Qed.

(** ** One entry of the step *)

Abbreviation table_ok := (table_ok sz num_inputs caching hbs nblocks cfg).
Abbreviation update_one := (update_one set_order seeded entropy should_advance accept_tokens cfg).

Lemma table_enc drafts run wait s e : table_ok drafts run wait s → enc_ok e → table_ok drafts run wait (put_enc e s).
Proof. intros [] He. by split. Qed.

Lemma running_ok_drafts drafts drafts' k rid r : drafts' !! rid = drafts !! rid → running_ok cfg drafts k rid r → running_ok cfg drafts' k rid r.
Proof. intros Hd [? ? ? Hh He ?]. split; try done; unfold horizon, drafts_end in *; by rewrite Hd. Qed.

Lemma table_drafts drafts drafts' run wait s : (∀ x, x ∈ run → drafts' !! x = drafts !! x) →
  table_ok drafts run wait s → table_ok drafts' run wait s.
Proof.
  intros Hd []. split; try done. intros x Hx. destruct (ta_running x Hx) as (r & ? & Hr). exists r. split; [done|].
  by apply (running_ok_drafts drafts); [apply Hd|].
Qed.

Lemma table_goes_on drafts run wait s rid r' : table_ok drafts run wait s → rid ∈ run →
  running_ok cfg (delete rid drafts) (kv s) rid r' → sound r' →
  table_ok (delete rid drafts) run wait (put_st_requests (<[rid := r']> (st_requests s)) s).
Proof.
  intros Ht Hrun Hok Hs. destruct (table_request _ _ _ _ _ _ _ _ _ _ _ Ht (proj2 (elem_of_app run wait rid) (or_introl Hrun))) as [r Hr].
  pose proof (ta_nodup _ _ _ _ _ _ _ _ _ _ Ht) as (_ & Hdis & _)%NoDup_app. destruct Ht.
  split; try done.
  - cbn. by rewrite dom_insert_lookup_L by (by eexists).
  - intros x Hx. cbn. destruct (decide (x = rid)) as [->|Hne]; [exists r'; by rewrite lookup_insert_eq|].
    destruct (ta_running x Hx) as (rx & Hrx & Hok'). exists rx. rewrite lookup_insert_ne by done. split; [done|].
    eapply running_ok_drafts; [by apply lookup_delete_ne|done].
  - intros x Hx. cbn. assert (x ≠ rid) as Hne by (intros ->; by apply (Hdis rid)). rewrite lookup_insert_ne by done. by apply ta_waiting.
  - intros x rx. cbn. destruct (decide (x = rid)) as [->|Hne]; [by rewrite lookup_insert_eq; intros [= <-]|].
    rewrite lookup_insert_ne by done. by apply ta_sound.
Qed.

Lemma table_kept drafts run wait s s' : table_ok drafts run wait s → kv_ok (kv s') → kept (kv s) (kv s') →
  enc s' = enc s → st_requests s' = st_requests s → prev_step_scheduled_req_ids s' = prev_step_scheduled_req_ids s →
  table_ok drafts run wait s'.
Proof.
  intros [] Hk Hkept He Hr Hp. split; rewrite ?He, ?Hr, ?Hp; try done.
  - intros x Hx. by apply (Hkept x (λ f, f)), ta_unknown.
  - intros x Hx. destruct (ta_running x Hx) as (r & ? & ?). exists r. split; [done|]. by apply (running_ok_kept _ _ _ _ _ _ _ Hkept (λ f, f)).
  - intros x Hx. destruct (ta_waiting x Hx) as (r & ? & ? & ?). exists r. split; [done|]. split; [|done].
    by apply (waiting_ok_kept _ _ _ _ _ _ Hkept (λ f, f)).
Qed.

(** The requests in [X] stopped. *)
Definition collected (v : UpdateVars) (X : gset string) (v' : UpdateVars) : Prop :=
  stopped_running_reqs v' = stopped_running_reqs v ∪ X ∧ stopped_preempted_reqs v' = stopped_preempted_reqs v ∧
  power_smc_parents_to_resample v' = power_smc_parents_to_resample v.

Lemma collected_refl v : collected v ∅ v.
Proof. by split; [rewrite union_empty_r_L|]. Qed.

(** [rid] has the tokens the model sampled for it, or is gone; the others are as
    they were. *)
Definition advanced_by (mo : ModelRunnerOutput) (rid : string) s s' : Prop :=
  (∀ x, x ≠ rid → st_requests s' !! x = st_requests s !! x) ∧
  (∀ r', st_requests s' !! rid = Some r' → ∃ r i g, st_requests s !! rid = Some r ∧ req_id_to_index mo !! rid = Some i ∧
     sampled mo i = Some g ∧ grown g r r').

Definition one_entry drafts run wait mo rid s v v' s' : Prop :=
  ∃ X, collected v X v' ∧ X ⊆ {[rid]} ∧ table_ok (delete rid drafts) (filter (λ x, x ∉ X) run) wait s' ∧ steady s s' ∧ advanced_by mo rid s s'.

Lemma entry_stopped drafts run wait mo rid s s' v v' : rid ∈ run → NoDup (run ++ wait) → collected v {[rid]} v' →
  table_ok drafts (filter (λ x, x ≠ rid) run) (filter (λ x, x ≠ rid) wait) s' → steady s s' →
  st_requests s' = delete rid (st_requests s) → one_entry drafts run wait mo rid s v v' s'.
Proof.
  intros Hrun Hnd Hv Ht Hst Hreq. exists {[rid]}. split; [done|]. split; [done|].
  apply NoDup_app in Hnd as (_ & Hd & _).
  assert (filter (λ x, x ≠ rid) wait = wait) as Hw by (apply filter_id; intros x Hx ->; by apply (Hd rid)).
  assert (filter (λ x, x ∉ ({[rid]} : gset string)) run = filter (λ x, x ≠ rid) run) as ->
    by (apply list_filter_iff; intros x; by rewrite not_elem_of_singleton).
  rewrite Hw in Ht. split; [|split; [done|]].
  - eapply table_drafts; [|exact Ht]. intros x [Hne _]%elem_filter_ne. by apply lookup_delete_ne.
  - split; [intros x Hx; rewrite Hreq; by apply lookup_delete_ne|]. intros r'. by rewrite Hreq, lookup_delete_eq.
Qed.

Lemma entry_goes_on drafts run wait mo rid i g s s' v v' r r' : rid ∈ run → collected v ∅ v' →
  table_ok (delete rid drafts) run wait s' → steady s s' → st_requests s !! rid = Some r →
  st_requests s' = <[rid := r']> (st_requests s) → req_id_to_index mo !! rid = Some i → sampled mo i = Some g →
  grown g r r' → one_entry drafts run wait mo rid s v v' s'.
Proof.
  intros Hrun Hv Ht Hst Hr Hreq Hi Hg Hall. exists ∅. split; [done|]. split; [apply empty_subseteq|]. split; [by rewrite filter_id by set_solver|]. split; [done|].
  split; [intros x Hx; rewrite Hreq; by apply lookup_insert_ne|]. intros r1. rewrite Hreq, lookup_insert_eq. intros [= <-].
  by exists r, i, g.
Qed.

Lemma entry_unknown drafts run wait mo rid s v : table_ok drafts run wait s → st_requests s !! rid = None →
  one_entry drafts run wait mo rid s v v s.
Proof.
  intros Ht Hr. exists ∅. split; [apply collected_refl|]. split; [apply empty_subseteq|]. rewrite filter_id by set_solver.
  split; [|split; [done|split; [done|by rewrite Hr]]]. eapply table_drafts; [|exact Ht]. intros x Hx. apply lookup_delete_ne.
  intros ->. destruct (ta_running _ _ _ _ _ _ _ _ _ _ Ht x Hx) as (r & Hr' & _). congruence.
Qed.

(** The tokens rejected, the encoder inputs freed. *)
Lemma before_tokens_ok drafts run wait s rid r g : table_ok drafts run wait s → st_requests s !! rid = Some r → rid ∈ run →
  emits (sr_req r) (default [] (drafts !! rid)) g →
  ∃ c, running_ok cfg drafts (kv s) rid r ∧ 0 ≤ c ≤ num_computed_tokens (sr_req r) ∧ c ≤ num_tokens (sr_req r) + len g ∧
    (g = [] → c = num_computed_tokens (sr_req r)) ∧
    let r1 := on_req (put_num_computed_tokens c) r in
    let d := default [] (drafts !! rid) in
    (if negb (bool_decide (d = [])) && negb (bool_decide (g = [])) then update_req rid (reject_tokens (len d - (len g - 1)))
     else ret tt) s = (Ok tt, put_st_requests (<[rid := r1]> (st_requests s)) s) ∧
    ok (if has_encoder_inputs (sr_req r1) then on_encoder (free_encoder_inputs (is_encoder_decoder cfg) (sr_req r1)) else ret tt)
      (put_st_requests (<[rid := r1]> (st_requests s)) s)
      (λ _ s', ∃ e, enc_ok e ∧ s' = put_st_requests (<[rid := r1]> (st_requests s)) (put_enc e s)).
Proof.
  intros Ht Hr Hrun He. destruct (ta_running _ _ _ _ _ _ _ _ _ _ Ht rid Hrun) as (r1 & Hr1 & Hok). rewrite Hr in Hr1. injection Hr1 as <-.
  destruct (rejection_ok _ _ _ _ _ Hok He) as (c & Hrej & Hc & Hcn). exists c. split; [done|]. split; [done|]. split; [done|].
  split; [intros ->; unfold after_rejection in Hrej; rewrite andb_false_r in Hrej; by apply (f_equal (λ x, num_computed_tokens (sr_req x))) in Hrej|].
  cbv zeta. split.
  - unfold after_rejection in Hrej. destruct (_ && _).
    + unfold update_req, modify. by rewrite (alter_insert_eq _ _ _ _ Hr), Hrej.
    + rewrite <-Hrej. by rewrite put_same_request.
  - destruct (has_encoder_inputs _); [|apply ok_ret; exists (enc s); split; [apply Ht|by destruct s]].
    apply ok_zoom. eapply ok_mono.
    + apply (free_inputs_ok sz num_inputs set_order sz_nonneg set_order_perm); [apply Ht|]. by destruct (live_enc _ _ _ (ro_live _ _ _ _ _ Hok)) as (Hf & _).
    + intros [] e1 He1. by exists e1.
Qed.

Lemma not_smc (r : SRequest) b : power_smc_config r = None → bool_decide (power_smc_config r ≠ None) && b = false.
Proof. intros ->. by rewrite bool_decide_eq_false_2 by (intros Hn; by apply Hn). Qed.

Lemma update_one_ok drafts run wait s v o mo rid n : table_ok drafts run wait s → 0 < n → pooler_output mo = [] →
  (∀ r, st_requests s !! rid = Some r → rid ∈ run ∧ out_spec_decode_tokens o !! rid = drafts !! rid ∧
    ∃ i g, req_id_to_index mo !! rid = Some i ∧ sampled mo i = Some g ∧ emits (sr_req r) (default [] (drafts !! rid)) g) →
  ok (update_one o mo v (rid, n)) s (λ v' s', one_entry drafts run wait mo rid s v v' s').
Proof.
  intros Ht Hn Hpool Hcase. unfold SchedUpdate.update_one. apply ok_bind, ok_assert; [by apply Z.ltb_lt|]. apply ok_bind, ok_gets.
  destruct (st_requests s !! rid) as [r|] eqn:Hr; [|by apply ok_ret, entry_unknown].
  destruct (table_live _ _ _ _ _ _ _ _ _ _ _ _ Ht Hr) as [Hl ->]. destruct (Hcase r eq_refl) as (Hrun & Hspec & i & g & Hi & Hg & He).
  apply ok_bind, (ok_or_raise _ _ _ _ _ Hi), ok_bind. eapply (ok_eq _ _ g s).
  { unfold sampled in Hg. destruct (sampled_token_ids mo); [by injection Hg as <-|]. by rewrite Hg. }
  cbv zeta. rewrite Hspec. destruct (before_tokens_ok _ _ _ _ _ _ g Ht Hr Hrun He) as (c & Hok & Hc & Hcn & Hsame & Hrej & Henc).
  cbv zeta in Hrej, Henc. set (r1 := on_req (put_num_computed_tokens c) r) in *.
  apply ok_bind. eapply ok_eq; [exact Hrej|]. apply ok_bind. eapply ok_get_req; [apply lookup_insert_eq|].
  apply ok_bind. eapply ok_mono; [exact Henc|]. intros _ s1 (e & He' & ->).
  pose proof (table_enc _ _ _ _ e Ht He') as Ht2. set (s2 := put_enc e s) in *.
  assert (sound r1) as Hs1 by (by apply (sound_text caching hbs cfg Hhbs r); [|eapply ta_sound]).
  apply ok_bind. rewrite Hpool. apply ok_ret, ok_bind. eapply ok_mono.
  { apply (take_tokens_ok (put_st_requests (<[rid := r1]> (st_requests s)) s2) rid r1 g); [apply lookup_insert_eq|done|apply Hok|apply Hl]. }
  intros [toks stopped] s3 (r' & -> & Hsmc & Hres). cbn [fst snd st_requests put_st_requests] in *. rewrite insert_insert_eq.
  apply ok_bind. eapply ok_get_req; [apply lookup_insert_eq|]. rewrite !(not_smc r' _ Hsmc). destruct stopped.
  - destruct Hres as (Hfin & Hid & Hmm). apply ok_bind. eapply ok_mono.
    { apply (free_request_ok sz num_inputs set_order caching hbs nblocks cfg sz_nonneg set_order_perm drafts run wait s2 rid r r'); try done.
      rewrite Hid. apply Hl. }
    intros _ s4 (Ht4 & Hst4 & Hreq4). apply ok_bind, ok_ret, ok_bind, ok_ret. rewrite orb_true_r. apply ok_bind, ok_modify, ok_ret.
    rewrite alter_id by (intros x; by rewrite Hreq4, lookup_delete_eq).
    replace (put_st_requests (st_requests s4) s4) with s4 by (by destruct s4).
    rewrite (bool_decide_eq_true_2 (status (sr_req r1) = RUNNING)) by apply Hok.
    by eapply entry_stopped; try done; apply Ht.
  - destruct Hres as (-> & Htook & Hs' & Hlt).
    pose proof (goes_on_ok drafts (kv s) rid r g c r' Hok Hc Hcn Htook Hs' Hlt) as Hok'.
    assert (grown g r r') as Hall by (destruct Htook as (m & hs & ->); by split; [|intros Hg0; exact (Hsame Hg0)]).
    apply ok_bind, ok_ret, ok_bind, ok_ret. cbn [andb]. apply ok_bind, ok_ret. rewrite !orb_false_r.
    destruct (bool_decide (g = [])); cbn [negb].
    + apply ok_ret. eapply (entry_goes_on drafts run wait mo rid i g s _ v _ r r'); [done|exact (collected_refl v)| |done..].
      by apply (table_goes_on drafts run wait s2).
    + apply ok_bind, ok_modify, ok_ret. cbn [st_requests put_st_requests]. erewrite alter_insert_eq by apply lookup_insert_eq.
      rewrite insert_insert_eq. fold (reported r').
      eapply (entry_goes_on drafts run wait mo rid i g s _ v _ r (reported r')); [done|exact (collected_refl v)| |done..].
      apply (table_goes_on drafts run wait s2); try done. destruct Hs'. by split.
Qed.

(** ** All entries *)

(** The requests [ids] that are left have the tokens sampled for them. *)
Definition fetched (mo : ModelRunnerOutput) (ids : list string) s s' : Prop :=
  ∀ x r', st_requests s' !! x = Some r' → ∃ r, st_requests s !! x = Some r ∧
    (x ∉ ids ∧ r' = r ∨ x ∈ ids ∧ ∃ i g, req_id_to_index mo !! x = Some i ∧ sampled mo i = Some g ∧ grown g r r').

(** What is known of an entry of the step before it is handled. *)
Definition entry_ready (o : SchedulerOutput) (mo : ModelRunnerOutput) drafts (run : list string) s (rid : string) : Prop :=
  ∀ r, st_requests s !! rid = Some r → rid ∈ run ∧ out_spec_decode_tokens o !! rid = drafts !! rid ∧
    ∃ i g, req_id_to_index mo !! rid = Some i ∧ sampled mo i = Some g ∧ emits (sr_req r) (default [] (drafts !! rid)) g.

Lemma entry_still_ready o mo drafts run run' wait rid x s s' : x ≠ rid → NoDup (run ++ wait) →
  (∀ y, y ∈ run' → y ∈ run) → table_ok (delete rid drafts) run' wait s' → advanced_by mo rid s s' →
  entry_ready o mo drafts run s x → entry_ready o mo (delete rid drafts) run' s' x.
Proof.
  intros Hne Hnd Hsub Ht [Hother _] Hx r Hr. pose proof (table_in _ _ _ _ _ _ _ _ _ _ _ _ Ht Hr) as Hin.
  rewrite Hother in Hr by done. destruct (Hx r Hr) as (Hrun & Hspec & Hi). rewrite lookup_delete_ne by done.
  split; [|by split]. apply elem_of_app in Hin as [?|Hw]; [done|]. apply NoDup_app in Hnd as (_ & Hd & _). by destruct (Hd x).
Qed.

Lemma fetched_cons mo rid ids s s1 s2 : rid ∉ ids → advanced_by mo rid s s1 → fetched mo ids s1 s2 → fetched mo (rid :: ids) s s2.
Proof.
  intros Hn [Hother Hself] Hf x r' Hr'. destruct (Hf x r' Hr') as (r1 & Hr1 & Hc). destruct (decide (x = rid)) as [->|Hne].
  - destruct Hc as [[_ ->]|[? _]]; [|done]. destruct (Hself r1 Hr1) as (r & i & g & Hr & ?). exists r. split; [done|].
    right. split; [left|]. by exists i, g.
  - rewrite Hother in Hr1 by done. exists r1. split; [done|]. destruct Hc as [[? ->]|[? ?]]; [left|right]; (split; [|done]).
    + by apply not_elem_of_cons.
    + by right.
Qed.

Lemma update_loop_ok o mo wait l drafts run s v : table_ok drafts run wait s → pooler_output mo = [] → NoDup l.*1 →
  (∀ rid n, (rid, n) ∈ l → 0 < n) → (∀ rid d, drafts !! rid = Some d → rid ∈ l.*1) →
  (∀ rid, rid ∈ l.*1 → entry_ready o mo drafts run s rid) →
  ok (fold_each (update_one o mo) l v) s (λ v' s', ∃ X, collected v X v' ∧ X ⊆ list_to_set l.*1 ∧
    table_ok ∅ (filter (λ x, x ∉ X) run) wait s' ∧ steady s s' ∧ fetched mo l.*1 s s').
Proof.
  intros Ht Hpool. revert drafts run s v Ht. induction l as [|[rid n] l IH]; intros drafts run s v Ht Hnd Hpos Hdr Hready; cbn [fold_each].
  { apply ok_ret. exists ∅. split; [apply collected_refl|]. split; [apply empty_subseteq|]. rewrite filter_id by set_solver. split; [|split; [done|]].
    - replace ∅ with drafts; [done|]. apply map_eq. intros x. rewrite lookup_empty. apply eq_None_not_Some.
      by intros [d ?%Hdr%elem_of_nil].
    - intros x r' Hr'. exists r'. split; [done|]. left. split; [apply not_elem_of_nil|done]. }
  cbn [fmap list_fmap fst] in *. apply NoDup_cons in Hnd as [Hrid Hnd].
  apply ok_bind. eapply ok_mono.
  { eapply (update_one_ok drafts run wait s v o mo rid n Ht); [by apply (Hpos rid); left|done|]. apply Hready. left. }
  intros v1 s1 (X1 & Hv1 & HX1 & Ht1 & Hst1 & Hadv). eapply ok_mono.
  { apply (IH _ _ s1 v1 Ht1 Hnd).
    - intros x m Hx. apply (Hpos x). by right.
    - intros x d [Hne Hd]%lookup_delete_Some. apply Hdr in Hd. by apply elem_of_cons in Hd as [->|?].
    - intros x Hx. eapply (entry_still_ready o mo drafts run _ wait rid x s s1); [congruence|apply Ht| |done|done|apply Hready; by right].
      by intros y [_ ?]%list_elem_of_filter. }
  intros v2 s2 (X2 & Hv2 & HX2 & Ht2 & Hst2 & Hf). exists (X1 ∪ X2). split; [|split; [cbn; set_solver|split; [|split]]].
  - destruct Hv1 as (E1 & E2 & E3), Hv2 as (F1 & F2 & F3). split; [|split; congruence]. rewrite F1, E1. by rewrite union_assoc_L.
  - rewrite list_filter_filter in Ht2. erewrite list_filter_iff; [exact Ht2|]. intros x. cbn. set_solver.
  - by eapply steady_trans.
  - by eapply fetched_cons.
Qed.

(** ** The call *)

(** The step [o] is under way: nothing of it changed but that requests may have
    been aborted. *)
Record under_way (o : SchedulerOutput) s : Prop := {
  uw_inv : engine_inv sz num_inputs caching hbs nblocks cfg (out_spec_decode_tokens o) s;
  uw_nodup : NoDup (out_num_scheduled_tokens o).*1;
  uw_positive : ∀ rid n, (rid, n) ∈ out_num_scheduled_tokens o → 0 < n;
  uw_drafts : ∀ rid d, out_spec_decode_tokens o !! rid = Some d → rid ∈ (out_num_scheduled_tokens o).*1;
  uw_running : ∀ rid, rid ∈ (out_num_scheduled_tokens o).*1 → is_Some (st_requests s !! rid) → rid ∈ running s
}.

Lemma on_smc_nothing s :
  on_smc cfg (resample_step set_order []) s = (Ok ([], []), s).
Proof. unfold on_smc, zoom. cbn. f_equal. by destruct s. Qed.

(** What a step leaves when the model's output is taken in. *)
Record output_taken (o : SchedulerOutput) (mo : ModelRunnerOutput) s s' : Prop := {
  ot_fetched : fetched mo (out_num_scheduled_tokens o).*1 s s';
  ot_running : ∃ X : gset string, running s' = filter (λ x, x ∉ X) (running s) ∧ X ⊆ list_to_set (out_num_scheduled_tokens o).*1;
  ot_waiting : waiting_ids s' = waiting_ids s;
  ot_paused : pause_state s' = pause_state s
}.

Lemma update_from_output_ok o mo s : under_way o s → model_ran o mo s →
  ok (update_from_output set_order seeded entropy should_advance accept_tokens cfg o mo) s (λ _ s',
    engine_inv sz num_inputs caching hbs nblocks cfg ∅ s' ∧ output_taken o mo s s').
Proof.
  intros [[Ht Hq Hmax] Hnd Hpos Hdr Hrun] [Hpool Hem]. unfold update_from_output. apply ok_bind. eapply ok_mono.
  { apply (update_loop_ok o mo (waiting_ids s) (out_num_scheduled_tokens o) _ _ s (MkUpdate ∅ ∅ [] [] ∅) Ht Hpool Hnd Hpos Hdr).
    intros rid Hin r Hr. split; [by apply Hrun|]. split; [done|]. by apply Hem. }
  intros v s1 (X & (Hv1 & Hv2 & Hv3) & HX & Ht1 & (Hr1 & Hq1 & Hp1 & _) & Hf). cbn [stopped_running_reqs stopped_preempted_reqs power_smc_parents_to_resample] in *.
  apply ok_bind. rewrite Hv3. eapply ok_eq; [apply on_smc_nothing|]. cbv zeta. apply ok_bind, ok_modify.
  rewrite Hv1, Hv2, union_empty_l_L, Hr1. rewrite bool_decide_eq_true_2 by done. apply ok_bind, ok_ret, ok_bind, ok_ret.
  rewrite remove_all_filter by (by destruct (proj1 (NoDup_app _ _) (ta_nodup _ _ _ _ _ _ _ _ _ _ Ht))). set (s2 := put_running _ s1).
  assert (waiting_ids s2 = waiting_ids s) as Hw by (unfold waiting_ids; cbn; by rewrite Hq1).
  assert (table_ok ∅ (running s2) (waiting_ids s) s2) as Ht2 by (by destruct Ht1).
  apply ok_bind, ok_zoom. destruct (ta_kv _ _ _ _ _ _ _ _ _ _ Ht2) as [Hshape (l & h & Hrep)].
  eapply ok_mono; [by apply (take_events_kept caching hbs nblocks mml (kv s2) l h)|]. intros evs k' [Hk Hkept].
  apply ok_bind, ok_gets, ok_bind, ok_modify, ok_ret. set (s3 := put_finished_req_ids_dict _ _).
  assert (table_ok ∅ (running s2) (waiting_ids s) s3) as Ht3 by (by eapply table_kept).
  split; [split|split].
  - change (waiting_ids s3) with (waiting_ids s2). by rewrite Hw.
  - cbn. by rewrite Hq1.
  - cbn. unfold len in *. pose proof (length_filter (λ x, x ∉ X) (running s)). lia.
  - exact Hf.
  - by exists X.
  - exact Hw.
  - exact Hp1.
Qed.
End update.
