(* ===== verification/UpdateCalls.v ===== *)
(** * Requests come and go between the steps

    Adding and finishing requests and taking draft tokens keep the invariant of
    the engine, also while a step is under way. *)

From stdpp Require Import gmap sets sorting.
From S2P Require Import Prelude Arith PowerSMC FreeQueue BlockHash Request HashChain BlockPool KVCacheSpec SingleType SingleTypeProps CacheHit Coordinator KVCacheManager KVReach EncoderCache EncoderProps StopCheck StopProps SMCScheduler SMCParent Heapq RequestQueue EncoderInputs SchedState Schedule SchedUpdate SchedSpec KVLaws EncLaws ScheduleInv ScheduleMid ScheduleRunning ScheduleSafe UpdateProps UpdateStep.
Open Scope Z_scope.

Section calls.
Context `{HashEnv} `{!CollisionFree} {A : Arith} {Q : Type} `{!RequestQueue string Q, !QueueSpec string Q}.
Context (hash_len : nat) (Hlen : ∀ x, length (caching_hash_fn x) = hash_len).
Context (sz num_inputs : string → Z) (set_order : gset Z → list Z) (caching : bool) (hbs nblocks : Z) (cfg : SchedulerConfig).
Context (sz_nonneg : ∀ h, 0 ≤ sz h) (set_order_perm : ∀ x, set_order x ≡ₚ elements x) (Hhbs : caching = true → 0 < hbs).
Context (should_advance : SRequest → bool) (validate_tokens : string → list Z → list Z).
#[local] Instance calls_enc : EncCache EncoderCacheManager := encoder_cache set_order.
#[local] Instance calls_enc_view : EncView EncoderCacheManager := enc_view sz num_inputs.
#[local] Instance calls_kv_view : KVView KVCacheManager := kv_view caching hbs nblocks (sc_max_model_len cfg).
Abbreviation St := (SchedulerState KVCacheManager EncoderCacheManager Q).
Abbreviation mml := (sc_max_model_len cfg).
Abbreviation sound := (sound caching hbs cfg).
Abbreviation table_ok := (table_ok sz num_inputs caching hbs nblocks cfg).
Abbreviation engine_inv := (engine_inv sz num_inputs caching hbs nblocks cfg).
Abbreviation under_way := (under_way sz num_inputs caching hbs nblocks cfg).
Implicit Types (s : St) (drafts : gmap string (list Z)).

(** ** Finishing *)

Lemma status_cases drafts run wait s rid r : table_ok drafts run wait s → st_requests s !! rid = Some r →
  is_finished (sr_req r) = false ∧ status (sr_req r) ≠ WAITING_FOR_REMOTE_KVS ∧
  (rid ∈ run ↔ status (sr_req r) = RUNNING).
Proof.
  intros Ht Hr. destruct (table_live _ _ _ _ _ _ _ _ _ _ _ _ Ht Hr) as [_ Hfin]. split; [done|].
  pose proof (table_in _ _ _ _ _ _ _ _ _ _ _ _ Ht Hr) as Hin.
  pose proof (ta_nodup _ _ _ _ _ _ _ _ _ _ Ht) as (_ & Hd & _)%NoDup_app. apply elem_of_app in Hin as [Hin|Hin].
  - destruct (ta_running _ _ _ _ _ _ _ _ _ _ Ht rid Hin) as (r1 & Hr1 & [_ Hst _ _ _ _]). rewrite Hr in Hr1. injection Hr1 as <-.
    by rewrite Hst.
  - destruct (ta_waiting _ _ _ _ _ _ _ _ _ _ Ht rid Hin) as (r1 & Hr1 & [_ Hst _] & _). rewrite Hr in Hr1. injection Hr1 as <-.
    assert (status (sr_req r) ≠ RUNNING ∧ status (sr_req r) ≠ WAITING_FOR_REMOTE_KVS) as [Hn1 Hn2].
    { destruct Hst as [->|[->|[Hb ?]]]; [done|done|]. split; [by intros E; rewrite E in Hb|done]. }
    split; [done|]. split; [intros ?; by destruct (Hd rid)|done].
Qed.

(** The requests in [l] are finished one after the other. *)
Lemma finish_loop_ok drafts st l run wait s : status_is_finished st = true → table_ok drafts run wait s → NoDup l.*1 →
  (∀ rid r, (rid, r) ∈ l → st_requests s !! rid = Some r) →
  ok (for_each l (λ x : string * SRequest,
    let '(rid, request) := x in
    update_req rid (on_req (set_status st)) ;;;
    free_request set_order cfg rid (bool_decide (status (sr_req request) = WAITING_FOR_REMOTE_KVS)))) s (λ _ s',
    table_ok drafts (filter (λ x, x ∉ l.*1) run) (filter (λ x, x ∉ l.*1) wait) s' ∧ steady s s' ∧
    ∀ x, st_requests s' !! x = if decide (x ∈ l.*1) then None else st_requests s !! x).
Proof.
  intros Hfin. revert run wait s. induction l as [|[rid r] l IH]; intros run wait s Ht Hnd Hl; cbn [for_each].
  { apply ok_ret. rewrite !filter_id by (intros x _; apply not_elem_of_nil). split; [done|]. split; [done|]. done. }
  cbn [fmap list_fmap fst] in *. apply NoDup_cons in Hnd as [Hrid Hnd]. pose proof (Hl rid r ltac:(left)) as Hr.
  destruct (status_cases _ _ _ _ _ _ Ht Hr) as (_ & Hremote & _). rewrite (bool_decide_eq_false_2 _ Hremote).
  apply ok_bind, ok_bind, ok_modify. rewrite (alter_insert_eq _ _ _ _ Hr). eapply ok_mono.
  { apply (free_request_ok sz num_inputs set_order caching hbs nblocks cfg sz_nonneg set_order_perm drafts run wait s rid r
      (on_req (set_status st) r) Ht Hr); [exact Hfin| |done].
    by destruct (table_live _ _ _ _ _ _ _ _ _ _ _ _ Ht Hr) as [[? _ _ _ _ _] _]. }
  intros _ s1 (Ht1 & Hst1 & Hreq1). eapply ok_mono.
  { apply (IH _ _ s1 Ht1 Hnd). intros x rx Hx. rewrite Hreq1, lookup_delete_ne; [apply Hl; by right|].
    intros <-. apply Hrid, list_elem_of_fmap. by exists (rid, rx). }
  intros _ s2 (Ht2 & Hst2 & Hreq2). split; [|split; [by eapply steady_trans|]].
  - rewrite !list_filter_filter in Ht2. erewrite (list_filter_iff _ _ run), (list_filter_iff _ _ wait); [exact Ht2|..];
      intros x; cbn; rewrite not_elem_of_cons; tauto.
  - intros x. rewrite Hreq2, Hreq1. destruct (decide (x = rid)) as [->|Hne].
    + rewrite lookup_delete_eq, (decide_True (P := rid ∈ rid :: l.*1)) by left. by destruct (decide _).
    + rewrite lookup_delete_ne by done. destruct (decide (x ∈ l.*1)) as [Hx|Hx].
      * by rewrite decide_True by (by right).
      * rewrite decide_False; [done|]. by apply not_elem_of_cons.
Qed.

(** The requests of [ids] that are there. *)
Definition valid_of (m : gmap string SRequest) (ids : list string) : list (string * SRequest) :=
  omap (λ rid, request ← m !! rid; if is_finished (sr_req request) then None else Some (rid, request)) ids.

Lemma valid_elem m ids rid r : (∀ x rx, m !! x = Some rx → is_finished (sr_req rx) = false) →
  (rid, r) ∈ valid_of m ids ↔ rid ∈ ids ∧ m !! rid = Some r.
Proof.
  intros Hfin. unfold valid_of. rewrite list_elem_of_omap. split.
  - intros (x & Hx & He). destruct (m !! x) as [rx|] eqn:Hm; [|done]. cbn in He. rewrite (Hfin x rx Hm) in He. by injection He as -> ->.
  - intros [Hx Hm]. exists rid. split; [done|]. rewrite Hm. cbn. by rewrite (Hfin rid r Hm).
Qed.
Lemma valid_keys m ids rid : (∀ x rx, m !! x = Some rx → is_finished (sr_req rx) = false) →
  rid ∈ (valid_of m ids).*1 ↔ rid ∈ ids ∧ is_Some (m !! rid).
Proof.
  intros Hfin. rewrite list_elem_of_fmap. split.
  - intros ([x r] & -> & Hx%valid_elem); [|done]. destruct Hx as [? Hm]. split; [done|]. by exists r.
  - intros [Hx [r Hr]]. exists (rid, r). split; [done|]. by apply valid_elem.
Qed.
Lemma valid_nodup m ids : NoDup ids → NoDup (valid_of m ids).*1.
Proof.
  induction 1 as [|x l Hx Hnd IH]; [constructor|]. unfold valid_of in *. cbn.
  destruct (m !! x) as [r|]; cbn; [|done]. destruct (is_finished _); cbn; [done|]. apply NoDup_cons. split; [|done].
  intros ([y ry] & -> & Hin)%list_elem_of_fmap. apply list_elem_of_omap in Hin as (z & Hz & He).
  destruct (m !! z); [|done]. cbn in He. destruct (is_finished _); [done|]. injection He as -> ->. done.
Qed.

Lemma keys_of_filter (b : string * SRequest → bool) (l : list (string * SRequest)) rid :
  rid ∈ (filter b l).*1 ↔ ∃ r, (rid, r) ∈ l ∧ b (rid, r).
Proof.
  rewrite list_elem_of_fmap. split.
  - intros ([x r] & -> & [? ?]%list_elem_of_filter). by exists r.
  - intros (r & Hr & Hb). exists (rid, r). split; [done|]. by apply list_elem_of_filter.
Qed.

(** Both queues lose the requests of [X]. *)
Lemma remove_waiting_ok s (X : gset string) : good (waiting (queues s)) ∧ good (skipped_waiting (queues s)) →
  ok (if bool_decide (X = ∅) then ret tt
      else on_queues (on_waiting (remove_requests X)) ;;; on_queues (on_skipped (remove_requests X))) s (λ _ s',
    ∃ qs, s' = put_queues qs s ∧ good (waiting qs) ∧ good (skipped_waiting qs) ∧
      waiting_ids s' = filter (λ x, x ∉ X) (waiting_ids s)).
Proof.
  intros [Hw Hk]. destruct (bool_decide (X = ∅)) eqn:HX.
  - apply bool_decide_eq_true in HX as ->. apply ok_ret. exists (queues s). split; [by destruct s|]. split; [done|]. split; [done|].
    by rewrite filter_id by set_solver.
  - apply ok_bind, ok_zoom, ok_zoom. eapply ok_mono; [by apply remove_all_spec|]. intros _ q1 [Hq1 Hc1].
    apply ok_zoom, ok_zoom. cbn. eapply ok_mono; [by apply remove_all_spec|]. intros _ q2 [Hq2 Hc2].
    eexists. split; [by destruct s|]. split; [done|]. split; [done|]. unfold waiting_ids. cbn. by rewrite Hc1, Hc2, filter_app.
Qed.

Lemma finish_requests_ok drafts ids st s : engine_inv drafts s → NoDup ids → status_is_finished st = true →
  ok (finish_requests set_order cfg ids st) s (λ _ s', engine_inv drafts s' ∧ pause_state s' = pause_state s ∧
    running s' = filter (λ x, x ∉ ids) (running s) ∧ waiting_ids s' = filter (λ x, x ∉ ids) (waiting_ids s) ∧
    ∀ x, st_requests s' !! x = if decide (x ∈ ids) then None else st_requests s !! x).
Proof.
  intros [Ht Hq Hmax] Hnd Hst. unfold finish_requests. apply ok_bind, ok_assert; [done|]. apply ok_bind, ok_gets. cbv zeta.
  change (omap _ ids) with (valid_of (st_requests s) ids). set (V := valid_of (st_requests s) ids).
  assert (∀ x rx, st_requests s !! x = Some rx → is_finished (sr_req rx) = false) as Hfin
    by (intros x rx Hx; by destruct (status_cases _ _ _ _ _ _ Ht Hx)).
  assert (∀ rid, rid ∈ V.*1 ↔ rid ∈ ids ∧ rid ∈ running s ++ waiting_ids s) as HV.
  { intros rid. unfold V. rewrite valid_keys by done. by rewrite <-elem_of_dom, (ta_known _ _ _ _ _ _ _ _ _ _ Ht), elem_of_list_to_set. }
  set (b := λ x : string * SRequest, bool_decide (status (sr_req x.2) = RUNNING)).
  assert (∀ rid, (rid ∈ running s → rid ∈ (filter b V).*1 ↔ rid ∈ V.*1) ∧
    (rid ∈ waiting_ids s → rid ∈ (filter (λ x, negb (b x)) V).*1 ↔ rid ∈ V.*1)) as Hsplit.
  { intros rid. split; intros Hin; rewrite keys_of_filter, list_elem_of_fmap; (split; [intros (r & Hr & _); by exists (rid, r)|]);
      intros ([x r] & -> & Hr); exists r; (split; [done|]); pose proof Hr as [_ Hx]%valid_elem; try done;
      destruct (status_cases _ _ _ _ _ _ Ht Hx) as (_ & _ & Hiff); unfold b; cbn.
    - rewrite bool_decide_eq_true_2; [done|by apply Hiff].
    - rewrite bool_decide_eq_false_2; [done|]. intros Hrun%Hiff.
      pose proof (ta_nodup _ _ _ _ _ _ _ _ _ _ Ht) as (_ & Hd & _)%NoDup_app. by destruct (Hd x). }
  apply ok_bind, ok_modify. set (s1 := put_running _ s). apply ok_bind. eapply ok_mono; [by apply (remove_waiting_ok s1)|].
  intros _ s2 (qs & -> & Hgw & Hgk & Hwait). set (s2 := put_queues qs s1) in *.
  assert (table_ok drafts (running s) (waiting_ids s) s2) as Ht2 by (by destruct Ht).
  apply ok_bind. eapply ok_mono.
  { apply (finish_loop_ok drafts st V _ _ s2 Hst Ht2); [by apply valid_nodup|]. intros rid r Hr. by apply valid_elem in Hr as [_ ?]. }
  intros _ s3 (Ht3 & (Hr3 & Hq3 & Hp3 & _) & Hreq3). apply ok_ret.
  assert (running s3 = filter (λ x, x ∉ V.*1) (running s)) as Hrun.
  { rewrite Hr3. unfold s2, s1. cbn [running put_queues put_running].
    rewrite remove_all_filter by (by destruct (proj1 (NoDup_app _ _) (ta_nodup _ _ _ _ _ _ _ _ _ _ Ht))).
    apply filter_agree. intros x Hx. rewrite elem_of_list_to_set. apply not_iff_compat. exact (proj1 (Hsplit x) Hx). }
  assert (waiting_ids s3 = filter (λ x, x ∉ V.*1) (waiting_ids s)) as Hw.
  { transitivity (waiting_ids s2); [unfold waiting_ids; by rewrite Hq3|]. rewrite Hwait.
    change (waiting_ids s1) with (waiting_ids s). apply filter_agree. intros x Hx. rewrite elem_of_list_to_set. apply not_iff_compat. exact (proj2 (Hsplit x) Hx). }
  assert (∀ l : list string, (∀ x, x ∈ l → x ∈ running s ++ waiting_ids s) → filter (λ x, x ∉ V.*1) l = filter (λ x, x ∉ ids) l) as Hids.
  { intros l Hl. apply filter_agree. intros x Hx. rewrite HV. specialize (Hl x Hx). tauto. }
  rewrite Hids in Hrun by (intros; apply elem_of_app; by left). rewrite Hids in Hw by (intros; apply elem_of_app; by right).
  rewrite !Hids, <-Hrun, <-Hw in Ht3 by (intros x Hx; apply elem_of_app; auto).
  split; [split|split; [|split; [|split]]]; try done.
  - by rewrite Hq3.
  - rewrite Hrun. unfold len in *. pose proof (length_filter (λ x, x ∉ ids) (running s)). lia.
  - intros x. rewrite Hreq3. change (st_requests s2) with (st_requests s).
    destruct (decide (x ∈ V.*1)) as [Hx|Hx], (decide (x ∈ ids)) as [Hy|Hy]; try done.
    + by apply HV in Hx as [? _].
    + rewrite HV in Hx. apply eq_None_not_Some. rewrite <-elem_of_dom, (ta_known _ _ _ _ _ _ _ _ _ _ Ht), elem_of_list_to_set. tauto.
Qed.

(** A step under way stays so when requests are aborted. *)
Lemma aborted_under_way o mo (ids : list string) s s' : under_way o s → model_ran o mo s →
  engine_inv (out_spec_decode_tokens o) s' → running s' = filter (λ x, x ∉ ids) (running s) →
  (∀ x, st_requests s' !! x = if decide (x ∈ ids) then None else st_requests s !! x) →
  under_way o s' ∧ model_ran o mo s'.
Proof.
  intros [_ Hnd Hpos Hdr Hrun] [Hpool Hem] Hinv Hr Hreq.
  assert (∀ x r, st_requests s' !! x = Some r → x ∉ ids ∧ st_requests s !! x = Some r) as Hsub
    by (intros x r; rewrite Hreq; by destruct (decide (x ∈ ids))).
  split; split; try done.
  - intros rid Hin [r Hrid]. apply Hsub in Hrid as [Hn Hrid]. rewrite Hr. apply list_elem_of_filter. split; [done|].
    apply Hrun; [done|]. by exists r.
  - intros rid r Hin Hrid. apply Hsub in Hrid as [_ Hrid]. by apply Hem.
Qed.

(** ** Adding *)

(** A request as it is handed to the scheduler. *)
Record submitted (r : SRequest) : Prop := {
  su_sound : sound r;
  su_enc : enc_suits (sr_req r);
  su_tokens : 0 < num_tokens (sr_req r) < mml;
  su_new : num_output_tokens (sr_req r) = 0 ∧ num_computed_tokens (sr_req r) = 0 ∧ num_output_placeholders r = 0;
  su_status : status (sr_req r) = WAITING ∨ status (sr_req r) = WAITING_FOR_STRUCTURED_OUTPUT_GRAMMAR
}.

Lemma submitted_waits k r : submitted r → blank k (Request.request_id (sr_req r)) → waiting_ok cfg k (Request.request_id (sr_req r)) r.
Proof.
  intros [Hs He Ht (Ho & Hc & Hp) Hst] Hb. split.
  - split; [done| |done|done| |].
    + apply (hashing_suits hash_len Hlen). apply Hs.
    + rewrite Hp. split; [lia|done].
    + intros _. rewrite (so_length _ _ _ _ Hs), Ho. lia.
  - destruct Hst as [?|Hst]; [by left|]. right; right. by rewrite Hst.
  - left. by split.
Qed.

Lemma table_perm drafts run wait wait' s : wait ≡ₚ wait' → table_ok drafts run wait s → table_ok drafts run wait' s.
Proof.
  intros Hp []. split; try done.
  - by rewrite <-Hp.
  - rewrite ta_known. by rewrite Hp.
  - intros rid. rewrite <-Hp. apply ta_unknown.
  - intros rid. rewrite <-Hp. apply ta_waiting.
Qed.

Lemma table_added drafts run wait s r (rid := Request.request_id (sr_req r)) : table_ok drafts run wait s → st_requests s !! rid = None →
  submitted r → table_ok drafts run (rid :: wait) (put_st_requests (<[rid := r]> (st_requests s)) s).
Proof.
  intros Ht Hnew Hsub. assert (rid ∉ run ++ wait) as Hn.
  { intros Hin. destruct (table_request _ _ _ _ _ _ _ _ _ _ _ Ht Hin) as [r' Hr']. congruence. }
  assert (∀ x, x ∈ run ++ wait → <[rid := r]> (st_requests s) !! x = st_requests s !! x) as Hother
    by (intros x Hx; apply lookup_insert_ne; congruence).
  pose proof (submitted_waits (kv s) r Hsub (ta_unknown _ _ _ _ _ _ _ _ _ _ Ht rid Hn)) as Hw.
  destruct Ht. split; try done.
  - rewrite <-Permutation_middle. by apply NoDup_cons.
  - cbn. rewrite dom_insert_L, ta_known. rewrite <-Permutation_middle. done.
  - intros x. rewrite <-Permutation_middle, not_elem_of_cons. intros [_ Hx]. by apply ta_unknown.
  - intros x Hx. cbn. rewrite Hother by (apply elem_of_app; by left). by apply ta_running.
  - intros x [->|Hx]%elem_of_cons; cbn.
    + exists r. rewrite lookup_insert_eq. split; [done|]. split; [done|]. intros Hp. destruct (su_status _ Hsub); congruence.
    + rewrite Hother by (apply elem_of_app; by right). by apply ta_waiting.
  - intros x rx. cbn. destruct (decide (x = rid)) as [->|Hne]; [rewrite lookup_insert_eq; intros [= <-]; apply Hsub|].
    rewrite lookup_insert_ne by done. by apply ta_sound.
Qed.

Lemma add_request_ok drafts s r (rid := Request.request_id (sr_req r)) : engine_inv drafts s → st_requests s !! rid = None →
  submitted r → ok (sched_add_request r) s (λ _ s', engine_inv drafts s' ∧ pause_state s' = pause_state s ∧
    running s' = running s ∧ waiting_ids s' ≡ₚ rid :: waiting_ids s ∧ st_requests s' = <[rid := r]> (st_requests s)).
Proof.
  intros [Ht [Hgw Hgk] Hmax] Hnew Hsub. unfold sched_add_request. cbv zeta. fold rid. apply ok_bind, ok_gets. rewrite Hnew.
  apply ok_bind. eapply ok_mono with (P := λ _ s', ∃ qs, s' = put_queues qs s ∧ good (waiting qs) ∧ good (skipped_waiting qs) ∧
    waiting_ids s' ≡ₚ rid :: waiting_ids s).
  { unfold enqueue_waiting_request. destruct (is_blocked_waiting_status _); apply ok_zoom, ok_zoom;
      (eapply ok_mono; [by apply add_spec|]; intros _ q [Hq Hc]; eexists; split; [done|]; split; [done|]; split; [done|]);
      unfold waiting_ids; cbn; rewrite Hc, place_perm; [by rewrite <-Permutation_middle|done]. }
  intros _ s1 (qs & -> & Hgw' & Hgk' & Hw). apply ok_modify.
  set (s2 := put_st_requests _ _). assert (waiting_ids s2 ≡ₚ rid :: waiting_ids s) as Hw2 by exact Hw.
  split; [split|]; [|done|done|done].
  eapply table_perm; [symmetry; exact Hw2|]. pose proof (table_added drafts _ _ s r Ht Hnew Hsub) as Hadd. by destruct Hadd.
Qed.

(** ** Draft tokens *)

Definition with_drafts (l : list Z) (r : SRequest) : SRequest := on_req (put_spec_token_ids l) r.

Lemma live_drafts rid l r : live cfg rid r → live cfg rid (with_drafts l r).
Proof. intros [? Hs He ? ? ?]. by split. Qed.

Lemma table_with_drafts drafts run wait s rid r l : table_ok drafts run wait s → st_requests s !! rid = Some r →
  table_ok drafts run wait (put_st_requests (<[rid := with_drafts l r]> (st_requests s)) s).
Proof.
  intros Ht Hr. destruct Ht.
  assert (∀ x rx, st_requests s !! x = Some rx → ∃ rx', <[rid := with_drafts l r]> (st_requests s) !! x = Some rx' ∧
    (rx' = rx ∨ rx' = with_drafts l rx)) as Hat.
  { intros x rx Hx. destruct (decide (x = rid)) as [->|Hne].
    - rewrite lookup_insert_eq. rewrite Hr in Hx. injection Hx as <-. eexists. split; [done|]. by right.
    - exists rx. rewrite lookup_insert_ne by done. split; [done|by left]. }
  split; try done.
  - cbn. by rewrite dom_insert_lookup_L by (by eexists).
  - intros x Hx. destruct (ta_running x Hx) as (rx & Hrx & Hok). destruct (Hat x rx Hrx) as (rx' & Hrx' & Hc). exists rx'.
    split; [done|]. destruct Hc as [->| ->]; [done|]. destruct Hok. split; try done. by apply live_drafts.
  - intros x Hx. destruct (ta_waiting x Hx) as (rx & Hrx & Hok & Hp). destruct (Hat x rx Hrx) as (rx' & Hrx' & Hc). exists rx'.
    split; [done|]. destruct Hc as [->| ->]; [done|]. split; [|done]. destruct Hok. split; try done. by apply live_drafts.
  - intros x rx'. cbn. destruct (decide (x = rid)) as [->|Hne]; [|rewrite lookup_insert_ne by done; by apply ta_sound].
    rewrite lookup_insert_eq. intros [= <-]. apply (sound_text caching hbs cfg Hhbs r); [done|]. by apply (ta_sound rid).
Qed.

(** The requests have the tokens they had, and as many of them computed. *)
Definition same_progress s s' : Prop :=
  ∀ x r', st_requests s' !! x = Some r' → ∃ r, st_requests s !! x = Some r ∧
    all_token_ids (sr_req r') = all_token_ids (sr_req r) ∧ num_computed_tokens (sr_req r') = num_computed_tokens (sr_req r).

Lemma drafts_ok drafts l s : engine_inv drafts s →
  ok (update_draft_token_ids should_advance validate_tokens l) s (λ _ s', engine_inv drafts s' ∧
    running s' = running s ∧ queues s' = queues s ∧ pause_state s' = pause_state s ∧ same_progress s s').
Proof.
  intros Hinv. unfold update_draft_token_ids.
  apply (ok_for_each _ (λ _ s', engine_inv drafts s' ∧ running s' = running s ∧ queues s' = queues s ∧
    pause_state s' = pause_state s ∧ same_progress s s')); [by split; [|split; [|split; [|split; [|intros x r' Hr'; exists r']]]]| |done].
  intros [rid spec] l' s1 ([Ht Hq Hmax] & Hr1 & Hq1 & Hp1 & Hd1). apply ok_bind, ok_gets.
  destruct (st_requests s1 !! rid) as [r|] eqn:Hr; [|by apply ok_ret].
  destruct (is_finished (sr_req r)); [by apply ok_ret|]. cbv zeta.
  assert (∀ t, ok (update_req rid (on_req (put_spec_token_ids t))) s1 (λ _ s', engine_inv drafts s' ∧ running s' = running s ∧
    queues s' = queues s ∧ pause_state s' = pause_state s ∧ same_progress s s')) as Hput.
  { intros toks. apply ok_modify. rewrite (alter_insert_eq _ _ _ _ Hr). split; [|split; [done|split; [done|split; [done|]]]].
    - split; [|done|done]. by apply (table_with_drafts drafts (running s1) (waiting_ids s1) s1 rid r toks).
    - intros x r'. cbn. destruct (decide (x = rid)) as [->|Hne]; [|rewrite lookup_insert_ne by done; apply Hd1].
      rewrite lookup_insert_eq. intros [= <-]. destruct (Hd1 rid r Hr) as (r0 & ? & ? & ?). by exists r0. }
  destruct (is_prefill_chunk r); apply Hput.
Qed.
End calls.
