(* ===== verification/EngineSafe.v ===== *)
(** * The engine between and within its steps

    The engine core over the scheduler, the KV-cache manager and the encoder
    cache: from an empty engine, whatever is added, aborted, stepped, drafted,
    reset, paused and resumed, every call returns and keeps the invariant. *)

From stdpp Require Import gmap sets sorting.
From S2P Require Import Prelude Arith PowerSMC FreeQueue BlockHash Request HashChain BlockPool KVCacheSpec SingleType SingleTypeProps CacheHit Coordinator KVCacheManager KVReach KVInvariant EncoderCache EncoderProps EncoderSafety StopCheck StopProps SMCScheduler SMCParent Heapq RequestQueue QueueProps EncoderInputs SchedState Schedule SchedUpdate EngineCore SchedSpec KVLaws EncLaws ScheduleInv ScheduleMid ScheduleRunning ScheduleSafe ScheduleProps UpdateProps UpdateStep UpdateCalls.
Open Scope Z_scope.

(** ** The calls *)

Inductive EngineCall {A : Arith} : Type :=
  | CallAdd (request : SRequest) (abort_immediately : bool)
  | CallAbort (request_ids : list string)
  | CallStep (execute : SchedulerOutput → ModelRunnerOutput) (aborts : list (list string))
  | CallDrafts (model_executed : bool) (draft_token_ids : option (list (string * list Z)))
  | CallReset
  | CallPause (mode : PauseMode) (clear_cache : bool)
  | CallResume.

(** A synchronous engine of a decoder without LoRA. *)
Record plain_config (cfg : SchedulerConfig) : Prop := {
  pl_sync : async_scheduling cfg = false;
  pl_decoder : is_encoder_decoder cfg = false;
  pl_loras : max_loras cfg = None;
  pl_lookahead : 0 ≤ num_lookahead_tokens cfg;
  pl_mamba : need_mamba_block_aligned_split cfg = true → 0 < sc_block_size cfg;
  pl_tokens : 0 ≤ max_num_scheduled_tokens cfg;
  pl_running : 0 ≤ max_num_running_reqs cfg
}.

Section engine.
Context `{HashEnv} {A : Arith} {Q : Type} `{!RequestQueue string Q, !QueueSpec string Q}.
Context (sz num_inputs : string → Z) (set_order : gset Z → list Z) (id_order : gset string → list string)
  (keys_order : gmap string SRequest → list string) (seeded : Z → Rng) (entropy : nat → Rng).
Context (addr : string → Z) (deref : string → Request).
Context (should_advance : SRequest → bool) (accept_tokens : string → list Z → bool)
  (validate_tokens : string → list Z → list Z) (supported : SRequest → bool).
Context (caching : bool) (hbs nblocks : Z) (cfg : SchedulerConfig) (use_spec_decode : bool).
#[local] Instance safe_enc : EncCache EncoderCacheManager := encoder_cache set_order.
#[local] Instance safe_enc_view : EncView EncoderCacheManager := enc_view sz num_inputs.
#[local] Instance safe_kv_view : KVView KVCacheManager := kv_view caching hbs nblocks (sc_max_model_len cfg).
Abbreviation St := (SchedulerState KVCacheManager EncoderCacheManager Q).
Abbreviation engine_inv := (engine_inv sz num_inputs caching hbs nblocks cfg).
Abbreviation under_way := (under_way sz num_inputs caching hbs nblocks cfg).
Implicit Types (s : St).

Definition call (c : EngineCall) : M St unit :=
  match c with
  | CallAdd r now => engine_add_request set_order id_order supported cfg r now
  | CallAbort ids => let* _ := abort_requests set_order id_order cfg ids in ret tt
  | CallStep execute aborts =>
      let* _ := step set_order id_order seeded entropy addr deref should_advance accept_tokens cfg execute aborts in ret tt
  | CallDrafts executed l => post_step should_advance validate_tokens cfg use_spec_decode executed l
  | CallReset => let* _ := engine_reset_prefix_cache set_order false in ret tt
  | CallPause mode clear_cache => pause_scheduler set_order keys_order cfg mode clear_cache
  | CallResume => resume_scheduler
  end.

(** What the client and the model executor must keep to: requests come with
    fresh ids, the model executor returns what a text model may return, the
    client in the process does not ask to wait, and it clears the caches only
    when it aborts all requests. *)
Definition legal s (c : EngineCall) : Prop :=
  match c with
  | CallAdd r _ => st_requests s !! Request.request_id (sr_req r) = None ∧ submitted sz num_inputs caching hbs cfg r
  | CallStep execute _ => ∀ o s1, schedule addr deref cfg s = (Ok o, s1) → model_ran o (execute o) s1
  | CallPause mode clear_cache => mode ≠ PauseWait ∧ (clear_cache = true → mode = PauseAbort)
  | _ => True
  end.

(** An engine without requests. *)
Definition initial s : Prop :=
  st_requests s = ∅ ∧ all_ids s = [] ∧ kv_ok (kv s) ∧ (∀ rid, blank (kv s) rid) ∧ enc_ok (enc s) ∧
  good (waiting (queues s)) ∧ good (skipped_waiting (queues s)).

(** The states of an engine. *)
Inductive reachable : St → Prop :=
  | reach_initial s : initial s → reachable s
  | reach_call s c x s' : reachable s → legal s c → call c s = (x, s') → reachable s'.

(** What the step [o] makes of the requests, aborts of [ids] included. *)
Definition step_taken (o : SchedulerOutput) (mo : ModelRunnerOutput) (ids : list string) s s' : Prop :=
  ∀ rid r', st_requests s' !! rid = Some r' → rid ∉ ids ∧ ∃ r, st_requests s !! rid = Some r ∧
    (rid ∉ (out_num_scheduled_tokens o).*1 ∧ all_token_ids (sr_req r') = all_token_ids (sr_req r) ∧
       (rid ∈ running s → rid ∈ running s' → same_computed r r') ∨
     rid ∈ (out_num_scheduled_tokens o).*1 ∧ ∃ i g, req_id_to_index mo !! rid = Some i ∧ sampled mo i = Some g ∧
       all_token_ids (sr_req r') = all_token_ids (sr_req r) ++ g ∧
       (rid ∈ running s → g = [] → ∃ n, 0 < n ∧ num_computed_tokens (sr_req r') = num_computed_tokens (sr_req r) + n)).

(** Whether [rid] is scheduled by the call [c]. *)
Definition scheduled_in s (c : EngineCall) (rid : string) : bool :=
  match c with
  | CallStep _ _ => has_requests s &&
      match (schedule addr deref cfg s).1 with Ok o => bool_decide (rid ∈ (out_num_scheduled_tokens o).*1) | Err _ => false end
  | _ => false
  end.

(** [rid] runs between all the calls from [s] to [s'], [n] of which schedule it. *)
Inductive keeps_running (rid : string) : St → St → nat → Prop :=
  | keeps_refl s : rid ∈ running s → keeps_running rid s s 0
  | keeps_call s c s1 s' n : rid ∈ running s → legal s c → call c s = (Ok tt, s1) → keeps_running rid s1 s' n →
      keeps_running rid s s' (if scheduled_in s c rid then S n else n).

(** How far a request is from the model's length: every token left counts for
    a computation of all the tokens before it. *)
Definition todo (r : SRequest) : Z :=
  (sc_max_model_len cfg - num_tokens (sr_req r)) * sc_max_model_len cfg + (sc_max_model_len cfg - num_computed_tokens (sr_req r)).

(** What a call does to the requests. *)
Definition effect s (c : EngineCall) s' : Prop :=
  match c with
  | CallAdd r true => ∀ rid, st_requests s' !! rid = st_requests s !! rid
  | CallAdd r false => st_requests s' = <[Request.request_id (sr_req r) := r]> (st_requests s) ∧
      running s' = running s ∧ waiting_ids s' ≡ₚ Request.request_id (sr_req r) :: waiting_ids s
  | CallAbort ids => ∀ rid, st_requests s' !! rid = if decide (rid ∈ ids) then None else st_requests s !! rid
  | CallStep execute aborts =>
      has_requests s = false ∧ s' = s ∨
      has_requests s = true ∧ ∃ o s1, schedule addr deref cfg s = (Ok o, s1) ∧ step_report cfg s o s1 ∧
        step_taken o (execute o) (concat aborts) s s'
  | CallDrafts _ _ => running s' = running s ∧ waiting_ids s' = waiting_ids s ∧ pause_state s' = pause_state s ∧ same_progress s s'
  | CallReset => st_requests s' = st_requests s ∧ running s' = running s ∧ queues s' = queues s ∧ pause_state s' = pause_state s
  | CallPause PauseAbort _ => st_requests s' = ∅ ∧ all_ids s' = [] ∧ pause_state s' = PAUSED_NEW
  | CallPause _ _ => s' = put_pause_state PAUSED_ALL s
  | CallResume => s' = put_pause_state UNPAUSED s
  end.

(** ** Every call returns *)

Context `{!CollisionFree} (hash_len : nat) (Hlen : ∀ x, length (caching_hash_fn x) = hash_len).
Context (sz_nonneg : ∀ h, 0 ≤ sz h) (set_order_perm : ∀ X, set_order X ≡ₚ elements X)
  (id_order_perm : ∀ X, id_order X ≡ₚ elements X) (keys_order_perm : ∀ m, keys_order m ≡ₚ elements (dom m)).
Context (Hhbs : caching = true → 0 < hbs) (Hcfg : plain_config cfg).

Lemma initial_inv s : initial s → engine_inv ∅ s.
Proof.
  intros (Hr & Hids & Hk & Hb & He & Hw & Hs). pose proof (app_eq_nil _ _ Hids) as [Hrun Hwait]. split; [|done|rewrite Hrun; apply Hcfg].
  rewrite Hrun, Hwait. split; try done.
  - constructor.
  - by rewrite Hr, dom_empty_L.
  - by intros rid ?%elem_of_nil.
  - by intros rid ?%elem_of_nil.
  - intros rid r. by rewrite Hr, lookup_empty.
Qed.

(** The ids are aborted in the order in which the set of them is iterated over. *)
Lemma abort_ok drafts ids s : engine_inv drafts s →
  ok (abort_requests set_order id_order cfg ids) s (λ _ s', engine_inv drafts s' ∧ pause_state s' = pause_state s ∧
    running s' = filter (λ x, x ∉ ids) (running s) ∧
    ∀ x, st_requests s' !! x = if decide (x ∈ ids) then None else st_requests s !! x).
Proof.
  intros Hinv. unfold abort_requests. set (l := id_order (list_to_set ids)).
  assert (∀ x, x ∈ l ↔ x ∈ ids) as Hl by (intros x; unfold l; by rewrite id_order_perm, elem_of_elements, elem_of_list_to_set).
  eapply ok_mono.
  { eapply (finish_requests_ok hash_len Hlen sz num_inputs set_order caching hbs nblocks cfg); try done.
    unfold l. rewrite id_order_perm. apply NoDup_elements. }
  intros _ s' (Hinv' & Hp & Hrun & _ & Hreq). split; [done|]. split; [done|]. split.
  - rewrite Hrun. apply filter_agree. intros x _. by rewrite Hl.
  - intros x. rewrite Hreq. by rewrite (decide_ext _ _ _ _ (Hl x)).
Qed.

Lemma aborts_ok o mo batches s : under_way o s → model_ran o mo s →
  ok (process_aborts_queue set_order id_order cfg batches) s (λ _ s', under_way o s' ∧ model_ran o mo s' ∧
    (∀ x, x ∈ running s' → x ∈ running s) ∧
    ∀ x, st_requests s' !! x = if decide (x ∈ concat batches) then None else st_requests s !! x).
Proof.
  intros Hu Hm. unfold process_aborts_queue. destruct batches as [|b batches].
  { apply ok_ret. split; [done|]. split; [done|]. split; [done|]. done. }
  apply ok_bind. eapply ok_mono; [by apply abort_ok, Hu|]. intros _ s' (Hinv & _ & Hrun & Hreq). apply ok_ret.
  destruct (aborted_under_way sz num_inputs caching hbs nblocks cfg o mo (concat (b :: batches)) s s' Hu Hm Hinv Hrun Hreq).
  split; [done|]. split; [done|]. split; [|done]. intros x. rewrite Hrun. by intros [_ ?]%list_elem_of_filter.
Qed.

(** After [schedule] the step is under way. *)
Lemma scheduled_under_way s : engine_inv ∅ s → ok (schedule addr deref cfg) s (λ o s', under_way o s' ∧ step_report cfg s o s').
Proof.
  intros Hinv. pose proof (kv_laws caching hbs nblocks (sc_max_model_len cfg) (num_lookahead_tokens cfg) (pl_lookahead _ Hcfg)) as Hkv.
  assert (EncCacheLaws EncoderCacheManager (is_encoder_decoder cfg)) as Henc by (rewrite (pl_decoder _ Hcfg); by apply enc_laws).
  eapply ok_mono; [apply (schedule_ok addr deref cfg (pl_mamba _ Hcfg) (pl_tokens _ Hcfg))|].
  - by apply engine_sched.
  - unfold loras_fit. by rewrite (pl_loras _ Hcfg).
  - intros o s' [Hs Hrep]. split; [|done]. unfold open_drafts in Hs. rewrite (pl_sync _ Hcfg) in Hs. split.
    + by eapply engine_after_step.
    + apply Hrep.
    + apply Hrep.
    + apply Hrep.
    + intros rid Hr _. by apply Hrep.
Qed.

(** The report of [schedule] and what the output brought, put together. *)
Lemma step_taken_intro o mo ids s s1 s2 s' : step_report cfg s o s1 →
  (∀ x, st_requests s2 !! x = if decide (x ∈ ids) then None else st_requests s1 !! x) →
  fetched mo (out_num_scheduled_tokens o).*1 s2 s' → (∀ x, x ∈ running s' → x ∈ running s1) → step_taken o mo ids s s'.
Proof.
  intros Hrep Hreq2 Hf Hrun rid r3 Hr3. destruct (Hf rid r3 Hr3) as (r2 & Hr2 & Hc). rewrite Hreq2 in Hr2.
  destruct (decide (rid ∈ ids)) as [|Hn]; [done|]. split; [done|].
  assert (is_Some (st_requests s !! rid)) as [r Hr].
  { apply elem_of_dom. rewrite <-(sp_known _ _ _ _ Hrep). by apply elem_of_dom_2 in Hr2. }
  exists r. split; [done|]. destruct (sp_text _ _ _ _ Hrep rid r Hr) as (r1 & Hr1 & Ht). rewrite Hr2 in Hr1. injection Hr1 as <-.
  assert (all_token_ids (sr_req r2) = all_token_ids (sr_req r)) as <- by (unfold same_text, text_of in Ht; by injection Ht).
  destruct Hc as [[Hns ->]|(Hs & i & g & Hi & Hg & Hall & Hcomp)]; [left|right; split; [done|]].
  - split; [done|]. split; [done|]. intros Hr0 Hr'. by apply (sp_idle _ _ _ _ Hrep rid); [| apply Hrun| | |].
  - exists i, g. split; [done|]. split; [done|]. split; [done|]. intros Hr0 Hnil. rewrite (Hcomp Hnil).
    rewrite <-(sp_sent _ _ _ _ Hrep) in Hs. apply list_elem_of_fmap in Hs as ([x c] & -> & Hsent).
    destruct (sp_advance _ _ _ _ Hrep _ c Hsent) as (r1 & n & Hr1 & Hin & Hn1 & Hc). cbn [fst] in *. rewrite Hr2 in Hr1. injection Hr1 as <-.
    destruct (Hc Hr0) as (r0 & Hr0' & ->). rewrite Hr in Hr0'. injection Hr0' as <-. exists n. split; [|done]. by eapply (sp_positive _ _ _ _ Hrep).
Qed.

Lemma step_ok execute aborts s : engine_inv ∅ s → legal s (CallStep execute aborts) →
  ok (step set_order id_order seeded entropy addr deref should_advance accept_tokens cfg execute aborts) s (λ _ s',
    engine_inv ∅ s' ∧ effect s (CallStep execute aborts) s').
Proof.
  intros Hinv Hlegal. unfold step. apply ok_bind, ok_gets. cbn [effect]. destruct (has_requests s) eqn:Hhas; cbn [negb].
  2: { apply ok_ret. split; [done|]. by left. }
  destruct (ok_inv _ _ _ (scheduled_under_way s Hinv)) as (o & s1 & Hsched & Hu & Hrep).
  apply ok_bind. eapply ok_eq; [exact Hsched|]. cbv zeta. apply ok_bind.
  eapply ok_mono; [apply (aborts_ok o (execute o)); [done|by apply Hlegal]|]. intros _ s2 (Hu2 & Hm2 & Hrun2 & Hreq2).
  apply ok_bind. eapply ok_mono.
  { by apply (update_from_output_ok hash_len Hlen sz num_inputs set_order caching hbs nblocks cfg sz_nonneg set_order_perm Hhbs
      seeded entropy should_advance accept_tokens (pl_sync _ Hcfg) o (execute o) s2). }
  intros out s3 (Hinv3 & [Hf (X & Hrun3 & _) _ _]). apply ok_ret. split; [done|]. right. split; [done|]. exists o, s1.
  split; [done|]. split; [done|]. apply (step_taken_intro _ _ _ _ s1 s2); try done.
  intros x. rewrite Hrun3. intros [_ Hx]%list_elem_of_filter. by apply Hrun2.
Qed.

Lemma add_ok r now s : engine_inv ∅ s → legal s (CallAdd r now) →
  ok (engine_add_request set_order id_order supported cfg r now) s (λ _ s', engine_inv ∅ s' ∧ effect s (CallAdd r now) s').
Proof.
  intros Hinv [Hnew Hsub]. unfold engine_add_request.
  rewrite bool_decide_eq_false_2 by (intros Hp; apply Hp; apply (su_sound _ _ _ _ _ _ Hsub)). cbn [andb]. apply ok_bind, ok_ret, ok_bind.
  eapply ok_mono; [by apply (add_request_ok hash_len Hlen sz num_inputs caching hbs nblocks cfg ∅ s r)|].
  intros _ s1 (Hinv1 & Hp1 & Hrun1 & Hw1 & Hreq1). destruct now; cbn [effect].
  - apply ok_bind. eapply ok_mono; [by apply abort_ok|]. intros _ s2 (Hinv2 & _ & _ & Hreq2). apply ok_ret. split; [done|].
    intros x. rewrite Hreq2, Hreq1. case_decide as Hx; [apply list_elem_of_singleton in Hx as ->; by rewrite Hnew|].
    rewrite lookup_insert_ne; [done|]. intros <-. apply Hx. left.
  - by apply ok_ret.
Qed.

Lemma pause_state_inv p s : engine_inv ∅ s → engine_inv ∅ (put_pause_state p s).
Proof. intros [[] ? ?]. split; [by split|done..]. Qed.

(** Resetting the prefix cache; it succeeds when there are no requests. *)
Lemma cache_reset_ok s : engine_inv ∅ s → ok (on_cache kv_reset_prefix_cache) s (λ b s', engine_inv ∅ s' ∧
  (st_requests s = ∅ → b = true) ∧ ∃ k, s' = put_kv k s).
Proof.
  intros [Ht Hq Hm]. apply ok_zoom. destruct (ta_kv _ _ _ _ _ _ _ _ _ _ Ht) as [Hshape (l & h & Hrep)].
  eapply ok_mono; [by apply (kv_reset_ok caching hbs nblocks (sc_max_model_len cfg) (kv s) l h)|].
  intros b k (Hk & Hkept & Hb). split; [split|split]; [by eapply table_kept|done|done| |by eexists].
  intros Hempty. apply Hb. intros rid. apply (ta_unknown _ _ _ _ _ _ _ _ _ _ Ht).
  intros Hin. destruct (table_request _ _ _ _ _ _ _ _ _ _ _ Ht Hin) as [r Hr]. by rewrite Hempty in Hr.
Qed.

Lemma encoder_reset_ok s : engine_inv ∅ s → ok (reset_encoder_cache set_order) s (λ _ s', engine_inv ∅ s' ∧ ∃ c, s' = put_enc c s).
Proof.
  intros [Ht Hq Hm]. apply ok_zoom. cbn [ec_reset encoder_cache]. apply ok_modify. pose proof (ta_enc _ _ _ _ _ _ _ _ _ _ Ht) as He. cbn in He.
  split; [|by eexists]. split; [|done..]. destruct Ht. split; try done. apply (init_inv sz num_inputs).
  pose proof (ei_free _ _ _ He). pose proof (ei_bound _ _ _ He). pose proof (sizes_nonneg sz sz_nonneg (cached (enc s))). lia.
Qed.

Lemma caches_reset_ok s : engine_inv ∅ s → st_requests s = ∅ → all_ids s = [] →
  ok (reset_caches set_order true) s (λ _ s', engine_inv ∅ s' ∧ st_requests s' = ∅ ∧ all_ids s' = [] ∧ pause_state s' = pause_state s).
Proof.
  intros Hinv Hreq Hids. pose proof (app_eq_nil _ _ Hids) as [Hrun _]. unfold reset_caches, engine_reset_prefix_cache, sched_reset_prefix_cache.
  apply ok_bind, ok_bind, ok_bind, ok_gets. rewrite Hrun. cbn [length preempt_all]. apply ok_bind, ok_bind, ok_gets. rewrite Hrun. cbn [last].
  apply ok_ret, ok_modify, ok_bind. set (s1 := put_prev_step_scheduled_req_ids ∅ s).
  assert (engine_inv ∅ s1) as Hinv1.
  { destruct Hinv as [[] ? ?]. split; [split|..]; try done. intros rid Hr. destruct (ta_waiting rid Hr) as (r & ? & ? & _). exists r. done. }
  eapply ok_mono; [by apply cache_reset_ok|]. intros b s2 (Hinv2 & Hb & k & ->). rewrite (Hb Hreq). cbn [negb andb]. apply ok_ret.
  eapply ok_mono; [by apply encoder_reset_ok|]. intros _ s3 (Hinv3 & c & ->). done.
Qed.

Lemma reset_ok s : engine_inv ∅ s → ok (engine_reset_prefix_cache set_order false) s (λ _ s', engine_inv ∅ s' ∧ effect s CallReset s').
Proof.
  intros Hinv. unfold engine_reset_prefix_cache, sched_reset_prefix_cache. apply ok_bind, ok_ret, ok_bind.
  eapply ok_mono; [by apply cache_reset_ok|]. intros b s' (Hinv' & _ & k & ->). by apply ok_ret.
Qed.

(** Everything is aborted. *)
Lemma finish_all_ok s : engine_inv ∅ s → ok (finish_requests set_order cfg (keys_order (st_requests s)) FINISHED_ABORTED) s
  (λ _ s', engine_inv ∅ s' ∧ st_requests s' = ∅ ∧ all_ids s' = []).
Proof.
  intros Hinv. eapply ok_mono.
  { eapply (finish_requests_ok hash_len Hlen sz num_inputs set_order caching hbs nblocks cfg); try done.
    rewrite keys_order_perm. apply NoDup_elements. }
  intros _ s1 (Hinv1 & _ & _ & _ & Hreq1). split; [done|].
  assert (st_requests s1 = ∅) as Hempty.
  { apply map_eq. intros x. rewrite Hreq1, lookup_empty. case_decide as Hx; [done|].
    rewrite keys_order_perm, elem_of_elements in Hx. by apply not_elem_of_dom. }
  split; [done|]. destruct (all_ids s1) as [|x l] eqn:Hids; [done|]. exfalso.
  assert (x ∈ running s1 ++ waiting_ids s1) as Hin by (change (x ∈ all_ids s1); rewrite Hids; left).
  destruct (table_request _ _ _ _ _ _ _ _ _ _ _ (en_table _ _ _ _ _ _ _ _ Hinv1) Hin) as [r Hr]. by rewrite Hempty in Hr.
Qed.

Lemma pause_ok mode clear_cache s : engine_inv ∅ s → legal s (CallPause mode clear_cache) →
  ok (pause_scheduler set_order keys_order cfg mode clear_cache) s (λ _ s', engine_inv ∅ s' ∧ effect s (CallPause mode clear_cache) s').
Proof.
  intros Hinv [Hmode Hclear]. unfold pause_scheduler. destruct mode; [| |done].
  - apply ok_bind, ok_bind, ok_gets, ok_bind. eapply ok_mono; [by apply finish_all_ok|]. intros _ s1 (Hinv1 & Hempty & Hids).
    apply ok_ret, ok_bind, ok_modify. pose proof (pause_state_inv PAUSED_NEW s1 Hinv1) as Hinv2.
    destruct clear_cache; [|by apply ok_ret]. eapply ok_mono; [by apply caches_reset_ok|]. by intros _ s' (? & ? & ? & ?).
  - destruct clear_cache; [by discriminate Hclear|]. apply ok_bind, ok_ret, ok_bind, ok_modify, ok_ret. split; [by apply pause_state_inv|done].
Qed.

Lemma idle_drafts s executed l : effect s (CallDrafts executed l) s.
Proof. split; [done|]. split; [done|]. split; [done|]. intros x r Hr. by exists r. Qed.

Lemma call_ok c s : engine_inv ∅ s → legal s c → ok (call c) s (λ _ s', engine_inv ∅ s' ∧ effect s c s').
Proof.
  intros Hinv Hlegal. destruct c as [r now|ids|execute aborts|executed l| |mode clear_cache|]; cbn [call].
  - by apply add_ok.
  - apply ok_bind. eapply ok_mono; [by apply abort_ok|]. intros _ s' (? & _ & _ & ?). by apply ok_ret.
  - apply ok_bind. eapply ok_mono; [by apply step_ok|]. intros out s' ?. by apply ok_ret.
  - unfold post_step. destruct (_ && _ && _); [|apply ok_ret; split; [done|by apply idle_drafts]].
    destruct l as [l|]; [|apply ok_ret; split; [done|by apply idle_drafts]].
    eapply ok_mono; [by apply (drafts_ok sz num_inputs caching hbs nblocks cfg Hhbs)|]. intros _ s' (? & ? & Hq & ? & ?).
    split; [done|]. split; [done|]. split; [|done]. unfold waiting_ids. by rewrite Hq.
  - apply ok_bind. eapply ok_mono; [by apply reset_ok|]. intros b s' ?. by apply ok_ret.
  - by apply pause_ok.
  - apply ok_modify. split; [by apply pause_state_inv|done].
Qed.

Lemma reachable_inv s : reachable s → engine_inv ∅ s.
Proof.
  induction 1 as [s Hs|s c x s' _ IH Hlegal Hcall]; [by apply initial_inv|].
  pose proof (call_ok c s IH Hlegal) as Hok. unfold ok in Hok. rewrite Hcall in Hok. by destruct x; [apply Hok|].
Qed.

(** ** Progress *)

Lemma todo_range s rid : engine_inv ∅ s → rid ∈ running s → ∃ r, st_requests s !! rid = Some r ∧
  0 < num_tokens (sr_req r) < sc_max_model_len cfg ∧ 0 ≤ num_computed_tokens (sr_req r) < sc_max_model_len cfg ∧ 0 < todo r.
Proof.
  intros Hinv Hr. destruct (ta_running _ _ _ _ _ _ _ _ _ _ (en_table _ _ _ _ _ _ _ _ Hinv) rid Hr) as (r & Hreq & Hok).
  exists r. pose proof (live_tokens _ _ _ (ro_live _ _ _ _ _ Hok)) as Ht. pose proof (ro_computed _ _ _ _ _ Hok) as Hc.
  split; [done|]. split; [done|]. split; [done|]. unfold todo. nia.
Qed.

(** A token more outweighs any number of tokens to be computed again. *)
Lemma todo_token r r' g : g ≠ [] → all_token_ids (sr_req r') = all_token_ids (sr_req r) ++ g →
  0 ≤ num_computed_tokens (sr_req r') → 0 ≤ num_computed_tokens (sr_req r) < sc_max_model_len cfg → todo r' < todo r.
Proof.
  intros Hg Hall Hc' Hc. unfold todo, num_tokens. rewrite Hall, len_app.
  assert (1 ≤ len g) by (destruct g as [|x g]; [done|rewrite len_cons; pose proof (len_nonneg g); lia]). nia.
Qed.
Lemma todo_same r r' : all_token_ids (sr_req r') = all_token_ids (sr_req r) → same_computed r r' → todo r' = todo r.
Proof. intros Hall Hc. unfold todo, num_tokens. by rewrite Hall, Hc. Qed.

Lemma step_progress execute aborts s s' rid r r' : engine_inv ∅ s → engine_inv ∅ s' → effect s (CallStep execute aborts) s' →
  rid ∈ running s → rid ∈ running s' → st_requests s !! rid = Some r → st_requests s' !! rid = Some r' →
  todo r' + (if scheduled_in s (CallStep execute aborts) rid then 1 else 0) ≤ todo r.
Proof.
  intros Hinv Hinv' Heff Hrun Hrun' Hr Hr'. destruct (todo_range s rid Hinv Hrun) as (r0 & Hr0 & _ & Hc & _). rewrite Hr in Hr0. injection Hr0 as <-.
  destruct (todo_range s' rid Hinv' Hrun') as (r0 & Hr0 & _ & Hc' & _). rewrite Hr' in Hr0. injection Hr0 as <-.
  cbn [scheduled_in]. destruct Heff as [[-> ->]|(-> & o & s1 & Hsched & _ & Htaken)]; cbn [andb].
  - rewrite Hr in Hr'. injection Hr' as <-. lia.
  - rewrite Hsched. cbn [fst]. destruct (Htaken rid r' Hr') as (_ & r0 & Hr0 & Hcase). rewrite Hr in Hr0. injection Hr0 as <-.
    destruct Hcase as [(Hs & Hall & Hsame)|(Hs & i & g & _ & _ & Hall & Hnil)].
    + rewrite bool_decide_eq_false_2 by done. rewrite (todo_same r r' Hall); [lia|by apply Hsame].
    + rewrite bool_decide_eq_true_2 by done. destruct (decide (g = [])) as [->|Hg].
      * destruct (Hnil Hrun eq_refl) as (n & Hn & Hcn). rewrite app_nil_r in Hall. unfold todo, num_tokens. rewrite Hall, Hcn. lia.
      * pose proof (todo_token r r' g Hg Hall ltac:(lia) ltac:(lia)). lia.
Qed.

Lemma call_progress c s s' rid r r' : engine_inv ∅ s → engine_inv ∅ s' → legal s c → effect s c s' →
  rid ∈ running s → rid ∈ running s' → st_requests s !! rid = Some r → st_requests s' !! rid = Some r' →
  todo r' + (if scheduled_in s c rid then 1 else 0) ≤ todo r.
Proof.
  intros Hinv Hinv' Hlegal Heff Hrun Hrun' Hr Hr'.
  assert (st_requests s' !! rid = st_requests s !! rid → scheduled_in s c rid = false →
    todo r' + (if scheduled_in s c rid then 1 else 0) ≤ todo r) as Hsame
    by (intros He ->; rewrite He, Hr in Hr'; injection Hr' as <-; lia).
  destruct c as [q now|ids|execute aborts|executed l| |mode clear_cache|]; cbn [effect scheduled_in] in *.
  - apply Hsame; [|done]. destruct now; [by apply Heff|]. destruct Heff as [-> _]. apply lookup_insert_ne. destruct Hlegal. congruence.
  - apply Hsame; [|done]. rewrite Heff in Hr' |- *. by destruct (decide (rid ∈ ids)).
  - by eapply step_progress.
  - destruct Heff as (_ & _ & _ & Hp). destruct (Hp rid r' Hr') as (r0 & Hr0 & Hall & Hc). rewrite Hr in Hr0. injection Hr0 as <-.
    rewrite (todo_same r r') by done. lia.
  - apply Hsame; [|done]. by destruct Heff as [-> _].
  - apply Hsame; [|done]. destruct mode; [|by rewrite Heff..]. destruct Heff as (He & _ & _). by rewrite He in Hr'.
  - apply Hsame; [|done]. by rewrite Heff.
Qed.

Lemma keeps_progress rid s s' n : keeps_running rid s s' n → engine_inv ∅ s → ∀ r, st_requests s !! rid = Some r →
  ∃ r', st_requests s' !! rid = Some r' ∧ 0 < todo r' ∧ todo r' + Z.of_nat n ≤ todo r.
Proof.
  induction 1 as [s Hrun|s c s1 s' n Hrun Hlegal Hcall Hk IH]; intros Hinv r Hr.
  - destruct (todo_range s rid Hinv Hrun) as (r0 & Hr0 & _ & _ & Ht). rewrite Hr in Hr0. injection Hr0 as <-. exists r. split; [done|]. lia.
  - pose proof (call_ok c s Hinv Hlegal) as Hok. unfold ok in Hok. rewrite Hcall in Hok. destruct Hok as [Hinv1 Heff].
    assert (rid ∈ running s1) as Hrun1 by (by destruct Hk). destruct (todo_range s1 rid Hinv1 Hrun1) as (r1 & Hr1 & _).
    pose proof (call_progress c s s1 rid r r1 Hinv Hinv1 Hlegal Heff Hrun Hrun1 Hr Hr1) as Hp.
    destruct (IH Hinv1 r1 Hr1) as (r' & Hr' & Hpos & Hle). exists r'. split; [done|]. split; [done|]. destruct (scheduled_in s c rid); lia.
Qed.
End engine.

Section safe.
Context `{HashEnv} `{!CollisionFree} {A : Arith} {Q : Type} `{!RequestQueue string Q, !QueueSpec string Q}.
Context (sz num_inputs : string → Z) (set_order : gset Z → list Z) (id_order : gset string → list string)
  (keys_order : gmap string SRequest → list string) (seeded : Z → Rng) (entropy : nat → Rng).
Context (addr : string → Z) (deref : string → Request).
Context (should_advance : SRequest → bool) (accept_tokens : string → list Z → bool)
  (validate_tokens : string → list Z → list Z) (supported : SRequest → bool).
Context (caching : bool) (hbs nblocks : Z) (cfg : SchedulerConfig) (use_spec_decode : bool).
#[local] Instance safety_enc : EncCache EncoderCacheManager := encoder_cache set_order.
#[local] Instance safety_enc_view : EncView EncoderCacheManager := enc_view sz num_inputs.
#[local] Instance safety_kv_view : KVView KVCacheManager := kv_view caching hbs nblocks (sc_max_model_len cfg).
Abbreviation call := (call set_order id_order keys_order seeded entropy addr deref should_advance accept_tokens validate_tokens supported cfg use_spec_decode).
Abbreviation legal := (legal sz num_inputs set_order addr deref caching hbs cfg).
Abbreviation keeps_running := (keeps_running sz num_inputs set_order id_order keys_order seeded entropy addr deref should_advance accept_tokens validate_tokens supported caching hbs cfg use_spec_decode).
Abbreviation reachable := (reachable sz num_inputs set_order id_order keys_order seeded entropy addr deref should_advance accept_tokens validate_tokens supported caching hbs nblocks cfg use_spec_decode).

(** C1: The engine of a decoder in its synchronous mode and without LoRA
    ([plain_config]), from an empty engine on.  Its requests are neither Power-SMC
    nor pooling requests and, with prefix caching, have no multimodal inputs
    ([submitted]).  Requests are added and aborted, steps run ([schedule], the model, aborts that arrive
    meanwhile, [update_from_output]), draft tokens are handed over, the prefix
    cache is reset, the engine pauses, with its caches cleared or not, and
    resumes, in any order.  Every call returns, no assertion, key or
    value error anywhere in the scheduler, the KV-cache manager and the encoder
    cache.  The invariant holds after it: the requests known are those that run
    and those that wait, each once; the running ones have blocks for their
    computed tokens, and a request that is gone has no blocks.  A step adds to every scheduled request that is left the
    tokens the model sampled for it and changes no other; aborted requests are
    gone when the call returns, also those aborted in the middle of a step. *)
Theorem engine_calls_return hash_len (s : SchedulerState KVCacheManager EncoderCacheManager Q) c :
  (∀ x, length (caching_hash_fn x) = hash_len) → (∀ h, 0 ≤ sz h) → (∀ X, set_order X ≡ₚ elements X) →
  (∀ X, id_order X ≡ₚ elements X) → (∀ m, keys_order m ≡ₚ elements (dom m)) → (caching = true → 0 < hbs) →
  plain_config cfg → reachable s → legal s c →
  ok (call c) s (λ _ s', reachable s' ∧ engine_inv sz num_inputs caching hbs nblocks cfg ∅ s' ∧
    effect set_order addr deref caching hbs nblocks cfg s c s').
Proof.
  intros Hlen Hsz Hord Hids Hkeys Hhbs Hcfg Hs Hlegal. pose proof (reachable_inv sz num_inputs set_order id_order keys_order
    seeded entropy addr deref should_advance accept_tokens validate_tokens supported caching hbs nblocks cfg use_spec_decode
    hash_len Hlen Hsz Hord Hids Hkeys Hhbs Hcfg s Hs) as Hinv.
  destruct (ok_inv _ _ _ (call_ok sz num_inputs set_order id_order keys_order seeded entropy addr deref should_advance accept_tokens
    validate_tokens supported caching hbs nblocks cfg use_spec_decode hash_len Hlen Hsz Hord Hids Hkeys Hhbs Hcfg c s Hinv Hlegal))
    as ([] & s' & Hcall & Hinv' & Heff).
  eapply ok_eq; [exact Hcall|]. split; [by eapply reach_call|]. by split.
Qed.

(** C3: Progress.  Every time a running request is scheduled it comes nearer to
    its end: it gets a token, or more of its tokens are computed.  Its distance
    [todo] is positive, never grows while it keeps running, whatever else the
    client does (rejected draft tokens included), and falls with every step
    that schedules it.  So a request that is not preempted is scheduled fewer
    than [todo] times before it is finished. *)
Theorem running_requests_progress hash_len rid (s s' : SchedulerState KVCacheManager EncoderCacheManager Q) n :
  (∀ x, length (caching_hash_fn x) = hash_len) → (∀ h, 0 ≤ sz h) → (∀ X, set_order X ≡ₚ elements X) →
  (∀ X, id_order X ≡ₚ elements X) → (∀ m, keys_order m ≡ₚ elements (dom m)) → (caching = true → 0 < hbs) →
  plain_config cfg → reachable s → keeps_running rid s s' n →
  ∃ r r', st_requests s !! rid = Some r ∧ st_requests s' !! rid = Some r' ∧
    0 < todo cfg r' ∧ todo cfg r' + Z.of_nat n ≤ todo cfg r.
Proof.
  intros Hlen Hsz Hord Hids Hkeys Hhbs Hcfg Hs Hk. pose proof (reachable_inv sz num_inputs set_order id_order keys_order
    seeded entropy addr deref should_advance accept_tokens validate_tokens supported caching hbs nblocks cfg use_spec_decode
    hash_len Hlen Hsz Hord Hids Hkeys Hhbs Hcfg s Hs) as Hinv.
  assert (rid ∈ running s) as Hrun by (by destruct Hk).
  destruct (todo_range sz num_inputs caching hbs nblocks cfg s rid Hinv Hrun) as (r & Hr & _).
  destruct (keeps_progress sz num_inputs set_order id_order keys_order seeded entropy addr deref should_advance accept_tokens
    validate_tokens supported caching hbs nblocks cfg use_spec_decode hash_len Hlen Hsz Hord Hids Hkeys Hhbs Hcfg rid s s' n Hk Hinv r Hr)
    as (r' & Hr' & ?).
  by exists r, r'.
Qed.
End safe.

(** ** A request and its first step *)

Section demo.
Let env : HashEnv := injective_env.
Existing Instance env.
Let arith : Arith := exact_reals.
Existing Instance arith.
#[local] Existing Instance injective_env_collision_free.

(** Ten prompt tokens, hashed in blocks of four; the model samples a 9. *)
Definition prompt_request : SRequest :=
  MkSRequest (MkRequest "r"%string 0 0 (Some (MkSampling (Some 16) 0 None [] None None)) None None None [] (Some (replicate 10 7)) None ∅ 10 []
    (replicate 10 7) [] 0 0 16 WAITING None (hash_chain None [(replicate 4 7, None); (replicate 4 7, None)]) (Some 4) false)
    0 0 false None None None 0 false false 0 false.
Definition empty_engine : SchedulerState KVCacheManager EncoderCacheManager (FCFSRequestQueue string) :=
  MkState ∅ [] (MkWaiting [] [] []) demo_kv (EncoderCacheManager_init 16) ∅ ∅ ∅ 0 UNPAUSED ∅ None ∅ 0%nat.
Definition sample_nine (o : SchedulerOutput) : ModelRunnerOutput := MkModelOutput {["r"%string := 0]} [[9]] None [].

Definition draws_one (_ : Z) : Rng := MkRng (λ _, of_Z 0) 0.
Definition demo_keys (m : gmap string SRequest) : list string := elements (dom m).
Abbreviation demo_reachable := (reachable (λ _, 0) (λ _, 0) elements elements demo_keys draws_one (λ _, draws_one 0) (λ _, 0) (λ _, ten_tokens)
  (λ _, false) (λ _ _, true) (λ _ l, l) (λ _, true) true 4 12 step_config true).
Abbreviation demo_keeps := (keeps_running (λ _, 0) (λ _, 0) elements elements demo_keys draws_one (λ _, draws_one 0) (λ _, 0) (λ _, ten_tokens)
  (λ _, false) (λ _ _, true) (λ _ l, l) (λ _, true) true 4 step_config true).
Abbreviation demo_run := (call elements elements demo_keys draws_one (λ _, draws_one 0) (λ _, 0) (λ _, ten_tokens)
  (λ _, false) (λ _ _, true) (λ _ l, l) (λ _, true) step_config true).

Lemma empty_engine_initial : initial (λ _, 0) (λ _, 0) true 4 12 step_config empty_engine.
Proof.
  split; [done|]. split; [done|]. split; [split; [exact demo_kv_shape|]; exists (range 1 12), ∅; exact demo_kv_rep|].
  split; [|split; [by apply (init_inv (λ _, 0) (λ _, 0) 16)|done]].
  intros rid m Hm. cbn in Hm. apply elem_of_cons in Hm as [->|Hm]; [|apply list_elem_of_singleton in Hm as ->]; done.
Qed.

Lemma prompt_request_submitted : submitted (λ _, 0) (λ _, 0) true 4 step_config prompt_request.
Proof.
  split; [split; [done|split; [done|by eexists]|done|]| |done|done|by left].
  - split; [|done]. unfold hashed. split_and!; [done| | |reflexivity].
    + split; constructor.
    + intros s e d rows Hl. cbn in Hl. by rewrite lookup_empty in Hl.
  - split; [split; [done|by intros f ?%elem_of_nil]|]. split; [split; by intros i j x y Hx|by intros f ?%elem_of_nil].
Qed.

(** The engine after the request is added. *)
Definition busy_engine : SchedulerState KVCacheManager EncoderCacheManager (FCFSRequestQueue string) :=
  (demo_run (CallAdd prompt_request false) empty_engine).2.

Lemma busy_engine_reachable : demo_reachable busy_engine.
Proof.
  eapply reach_call; [apply reach_initial, empty_engine_initial| |apply surjective_pairing].
  split; [done|exact prompt_request_submitted].
Qed.

(** The step schedules the whole of the one request there is. *)
Definition schedules_all (s : SchedulerState KVCacheManager EncoderCacheManager (FCFSRequestQueue string)) : bool :=
  match schedule (EncCache0 := encoder_cache elements) (λ _, 0) (λ _, ten_tokens) step_config s with
  | (Ok o, s1) => bool_decide ((out_num_scheduled_tokens o).*1 = ["r"%string]) &&
      bool_decide ((λ r, num_computed_tokens (sr_req r) <? num_tokens (sr_req r)) <$> st_requests s1 !! "r"%string = Some false)
  | _ => false
  end.

Lemma sampling_legal s : schedules_all s = true →
  legal (λ _, 0) (λ _, 0) elements (λ _, 0) (λ _, ten_tokens) true 4 step_config s (CallStep sample_nine []).
Proof.
  unfold schedules_all. intros Hres o s1 Hs. unfold safe_enc in Hs. rewrite Hs in Hres.
  apply andb_prop in Hres as [Hids%bool_decide_eq_true Hend%bool_decide_eq_true]. split; [done|]. intros rid r Hin Hr.
  rewrite Hids in Hin. apply list_elem_of_singleton in Hin as ->. rewrite Hr in Hend. injection Hend as Hend.
  exists 0, [9]. split; [done|]. split; [done|]. unfold emits. rewrite Hend. change (len [9]) with 1. split; [done|].
  pose proof (len_nonneg (default [] (out_spec_decode_tokens o !! "r"%string))). lia.
Qed.
Lemma sample_nine_legal : legal (λ _, 0) (λ _, 0) elements (λ _, 0) (λ _, ten_tokens) true 4 step_config busy_engine (CallStep sample_nine []).
Proof. apply sampling_legal. vm_compute. reflexivity. Qed.

Lemma engine_calls_return_witness :
  ok (demo_run (CallStep sample_nine [])) busy_engine (λ _ s', demo_reachable s' ∧
    engine_inv (λ _, 0) (λ _, 0) true 4 12 step_config ∅ s' ∧
    effect elements (λ _, 0) (λ _, ten_tokens) true 4 12 step_config busy_engine (CallStep sample_nine []) s') ∧
  ∃ r, st_requests (demo_run (CallStep sample_nine []) busy_engine).2 !! "r"%string = Some r ∧
    output_token_ids (sr_req r) = [9].
Proof.
  split; [|eexists; split; [vm_compute; reflexivity|reflexivity]].
  apply (engine_calls_return (λ _, 0) (λ _, 0) elements elements demo_keys draws_one (λ _, draws_one 0) (λ _, 0) (λ _, ten_tokens)
    (λ _, false) (λ _ _, true) (λ _ l, l) (λ _, true) true 4 12 step_config true 2).
  - done.
  - done.
  - done.
  - done.
  - done.
  - done.
  - by split.
  - exact busy_engine_reachable.
  - exact sample_nine_legal.
Defined.

(** Two steps: the prompt, and one token. *)
Definition after_prompt : SchedulerState KVCacheManager EncoderCacheManager (FCFSRequestQueue string) :=
  (demo_run (CallStep sample_nine []) busy_engine).2.
Definition after_token : SchedulerState KVCacheManager EncoderCacheManager (FCFSRequestQueue string) :=
  (demo_run (CallStep sample_nine []) after_prompt).2.

Lemma after_prompt_reachable : demo_reachable after_prompt.
Proof. eapply reach_call; [exact busy_engine_reachable|exact sample_nine_legal|apply surjective_pairing]. Qed.

Lemma sample_nine_again : legal (λ _, 0) (λ _, 0) elements (λ _, 0) (λ _, ten_tokens) true 4 step_config after_prompt (CallStep sample_nine []).
Proof. apply sampling_legal. vm_compute. reflexivity. Qed.

Lemma running_requests_progress_witness :
  ∃ r r', st_requests after_prompt !! "r"%string = Some r ∧ st_requests after_token !! "r"%string = Some r' ∧
    0 < todo step_config r' ∧ todo step_config r' + Z.of_nat 1 ≤ todo step_config r.
Proof.
  apply (running_requests_progress (λ _, 0) (λ _, 0) elements elements demo_keys draws_one (λ _, draws_one 0) (λ _, 0) (λ _, ten_tokens)
    (λ _, false) (λ _ _, true) (λ _ l, l) (λ _, true) true 4 12 step_config true 2 "r").
  - done.
  - done.
  - done.
  - done.
  - done.
  - done.
  - by split.
  - exact after_prompt_reachable.
  - assert (demo_keeps "r"%string after_prompt after_token
      (if scheduled_in elements (λ _, 0) (λ _, ten_tokens) step_config after_prompt (CallStep sample_nine []) "r" then 1%nat else 0%nat)) as Hk.
    { eapply keeps_call; [|exact sample_nine_again| |apply keeps_refl].
      - assert (running after_prompt = ["r"%string]) as -> by (vm_compute; reflexivity). left.
      - assert ((demo_run (CallStep sample_nine []) after_prompt).1 = Ok tt) as <- by (vm_compute; reflexivity). apply surjective_pairing.
      - assert (running after_token = ["r"%string]) as -> by (vm_compute; reflexivity). left. }
    assert (scheduled_in elements (λ _, 0) (λ _, ten_tokens) step_config after_prompt (CallStep sample_nine []) "r" = true) as Hs
      by (vm_compute; reflexivity).
    rewrite Hs in Hk. exact Hk.
Defined.
End demo.
