(* ===== verification/PreemptHashes.v ===== *)
(** * Preemption by priority and the prefix cache

    Under the priority policy a request that has already been scheduled in a
    step can be preempted later in that step.  Its blocks were filed in the
    prefix cache when they were allocated, before the model computed them. *)

From stdpp Require Import gmap sets strings.
From S2P Require Import Prelude Arith PowerSMC FreeQueue BlockHash Request BlockPool KVCacheSpec SingleType Coordinator KVCacheManager KVInvariant EncoderCache SMCScheduler Heapq RequestQueue EncoderInputs SchedState Schedule SchedUpdate SchedSpec ScheduleInv ScheduleSafe.
Open Scope Z_scope.

(** ** A small engine *)

(** A hash of small integers, cheap to evaluate. *)
Definition small_hash : HashEnv := {|
  caching_hash_fn x := [(foldr Z.add 0 x.1.1 * 31 + foldr Z.add 0 x.1.2 + 1) mod 100003];
  sha256_digest b := b; NONE_HASH := [0]; VLLM_KV_EVENTS_USE_INT_BLOCK_HASHES := false |}.

Section engine.
Let env : HashEnv := small_hash.
Existing Instance env.
Let arith : Arith := exact_reals.
Existing Instance arith.

(** Blocks of four tokens, seven of them usable, chunks of at most eight tokens. *)
Definition prio_config : SchedulerConfig :=
  MkSchedConfig 4 8192 0 64 8 true false PRIORITY false 0 false 4 false false None false false false false 1 4 [4] 0 1.
Definition prio_kv_config : KVCacheConfig := MkConfig 8 [KVCacheSpec.MkGroup (MkSpec (FullAttentionSpec 4) 0) false].
Definition prio_kv : KVCacheManager :=
  Eval vm_compute in match KVCacheManager_init prio_kv_config 64 4 4 None true false false false 1 1 None with
                     | Ok kv => kv | Err _ => no_kv end.

Definition prio_request (rid : string) (prio : Z) (tokens : list Z) (mx : Z) : SRequest :=
  let r := MkRequest rid prio 0 (Some (MkSampling (Some mx) 0 None [] None None)) None None None [] (Some tokens) None ∅
    (len tokens) [] tokens [] 0 0 mx WAITING None [] (Some 4) false in
  MkSRequest (update_block_hashes r).2 0 0 false None None None 0 false false 0 true.
Definition request_A : SRequest := prio_request "A" 1 (seqZ 100 40) 4.
Definition request_B : SRequest := prio_request "B" 0 (seqZ 500 4) 2.
Definition prio_deref (rid : string) : Request := sr_req (if decide (rid = "A"%string) then request_A else request_B).
Definition prio_addr (rid : string) : Z := if decide (rid = "A"%string) then 1 else 2.
#[local] Instance prio_queue : RequestQueue string (PriorityRequestQueue string) := priority_queue prio_addr prio_deref.

Abbreviation Engine := (SchedulerState KVCacheManager EncoderCacheManager (PriorityRequestQueue string)).
Definition prio_start : Engine :=
  MkState ∅ [] (MkWaiting empty_queue empty_queue empty_queue) prio_kv (EncoderCacheManager_init 16)
    ∅ ∅ ∅ 0 UNPAUSED ∅ None ∅ 0%nat.

(** A step of the engine with the tokens the model samples, per request. *)
Definition engine_step (sampled : list (string * list Z)) : M Engine SchedulerOutput :=
  let* o := schedule (EncCache0 := encoder_cache elements) prio_addr prio_deref prio_config in
  let mo := MkModelOutput (list_to_map (zip sampled.*1 (seqZ 0 (len sampled)))) sampled.*2 None [] in
  let* _ := update_from_output elements (λ _, MkRng (λ _, of_Z 0) 0) (λ _, MkRng (λ _, of_Z 0) 0) (λ _, false)
    (λ _ _, true) prio_config o mo in
  ret o.

Definition add (r : SRequest) : M Engine unit := sched_add_request r.

Definition four_steps : M Engine (list SchedulerOutput) :=
  add request_A ;;;
  let* o1 := engine_step [("A"%string, [])] in
  add request_B ;;;
  let* o2 := engine_step [("A"%string, []); ("B"%string, [7])] in
  let* o3 := engine_step [("B"%string, [7])] in
  let* o4 := engine_step [("A"%string, [])] in
  ret [o1; o2; o3; o4].

(** Some step told the workers to compute token [i] of [rid]. *)
Definition computed_by (outs : list SchedulerOutput) (rid : string) (i : Z) : Prop :=
  ∃ o c n, o ∈ outs ∧ (rid, c) ∈ sent o ∧ (rid, n) ∈ out_num_scheduled_tokens o ∧ c ≤ i < c + n.

Definition told (o : SchedulerOutput) : list (string * Z) * list (string * Z) := (sent o, out_num_scheduled_tokens o).
Definition what_happens : res (list (list (string * Z) * list (string * Z))) * option Z :=
  let '(r, s) := four_steps prio_start in
  (rbind r (λ os, Ok (told <$> os)), (λ r, num_computed_tokens (sr_req r)) <$> st_requests s !! "A"%string).

Lemma what_happens_eq : what_happens =
  (Ok [([("A", 0)], [("A", 8)]); ([("B", 0); ("A", 8)], [("A", 8); ("B", 4)]); ([("B", 4)], [("B", 1)]);
       ([("A", 20)], [("A", 8)])]%string, Some 28).
Proof. vm_compute. reflexivity. Qed.

(** C40: Under the priority policy the prefix cache can hold blocks that were
    never computed.  Request A runs with 16 of its 40 tokens computed; in the
    third step it is scheduled for 8 more, which files their full blocks under
    their hashes, and is then preempted in favour of B, so the workers are not
    told to compute them.  In the fourth step A finds these blocks as cache hits
    and continues at token 20: its tokens 16 to 19 are counted as computed, but
    no step computes them. *)
Theorem preempted_blocks_stay_cached :
  ∃ outs s r, four_steps prio_start = (Ok outs, s) ∧ st_requests s !! "A"%string = Some r ∧
    num_computed_tokens (sr_req r) = 28 ∧ ∀ i, 16 ≤ i < 20 → ¬ computed_by outs "A" i.
Proof.
  pose proof what_happens_eq as Heq. unfold what_happens in Heq.
  destruct (four_steps prio_start) as [[outs|e] s]; [|done]. cbn [rbind] in Heq.
  destruct (st_requests s !! "A"%string) as [r|] eqn:Hr; [|done]. cbn [fmap option_fmap option_map] in Heq.
  injection Heq as Houts Hc. exists outs, s, r. split_and!; [done..|]. intros i Hi (o & c & n & Ho & Hs & Hn & Hr').
  assert (told o ∈ told <$> outs) as Hin by (by apply list_elem_of_fmap_2). rewrite Houts in Hin.
  unfold told in Hin. revert Hs Hn.
  repeat (apply elem_of_cons in Hin as [[= -> ->]|Hin]; [intros Hs Hn; set_unfold; naive_solver lia|]).
  by apply elem_of_nil in Hin.
Qed.
End engine.
